(** * Cost-aware parallel SFC placement on multi-stage graphs

    A shallow embedding of [MSG.py] and [brute-force_SFC_placement.py]:
    the multi-stage graph (MSG) builder, the exhaustive feasible-path
    search, the reservation committer and the active/backup orchestration,
    followed by the properties of these functions.

    Conventions of the embedding.
    - Python integers are [Z]; stage indices produced by [enumerate] are [nat].
    - [physical_nodes] is the one mutable object of a run.  It is modelled
      as a store [list PhysicalNode.t] threaded through a state monad; a
      Python exception is the [Raise] outcome of the monad.
    - An MSG is a [networkx.DiGraph]: a dictionary of node attributes keyed
      by the vertex label and a dictionary of edge attributes keyed by the
      pair of labels.  Labels are the strings built by the f-string
      [f"{node.id}_s{stage_idx}"].
    - The substrate graph is only consulted through [nx.has_path],
      [nx.shortest_path] and the link attributes; these are the fields of
      [Substrate.t]. *)

From Stdlib Require Import ZArith String Ascii List Lia.
From Stdlib Require Import Decimal DecimalString DecimalZ DecimalPos DecimalFacts.
From stdpp Require Import base gmap sets list strings.

Local Open Scope Z_scope.

(* ===================================================================== *)
(** * Part I: the programs                                                *)
(* ===================================================================== *)

(** ** Exceptions *)

Inductive exn : Set :=
| KeyError      (* a dictionary lookup of a missing key *)
| IndexError    (* a sequence index out of range *)
| ValueError    (* [int] applied to a string that is no numeral *)
| TypeError.    (* an operator applied to operands it is not defined for *)

Inductive result (A : Type) : Type :=
| Ok (a : A)
| Raise (e : exn).
Arguments Ok {A} a.
Arguments Raise {A} e.

#[global] Instance result_ret : MRet result := λ A a, Ok a.
#[global] Instance result_bind : MBind result := λ A B k m,
  match m with
  | Ok a => k a
  | Raise e => Raise e
  end.
#[global] Instance result_fmap : FMap result := λ A B f m,
  match m with
  | Ok a => Ok (f a)
  | Raise e => Raise e
  end.

Definition of_option {A} (e : exn) (o : option A) : result A :=
  match o with
  | Some a => Ok a
  | None => Raise e
  end.

(** ** Integers as text: [str], [int] and [split] *)

(** [str(z)], also what [f"{z}"] prints for an integer. *)
Definition str (z : Z) : string := NilZero.string_of_int (Z.to_int z).

(** [int(s)] on decimal numerals.  Python's [int] also accepts surrounding
    blanks, a leading [+] and digit-group underscores; such strings are
    never produced by [str] and are reported as [ValueError] here. *)
Definition int (s : string) : result Z :=
  match NilZero.int_of_string s with
  | Some d => Ok (Z.of_int d)
  | None => Raise ValueError
  end.

(** [s.split(sep)[0]] for a one-character separator: the text before the
    first occurrence of [sep], the whole of [s] when there is none. *)
Fixpoint split_head (sep : ascii) (s : string) : string :=
  match s with
  | EmptyString => EmptyString
  | String c s' =>
      if Ascii.eqb c sep then EmptyString else String c (split_head sep s')
  end.

(** The vertex label [f"{node.id}_s{stage_idx}"]. *)
Definition vname (node_id : Z) (stage_idx : nat) : string :=
  str node_id +:+ "_s" +:+ str (Z.of_nat stage_idx).

(** [int(n.split('_')[0])] *)
Definition label_host (n : string) : result Z := int (split_head "_" n).

(** ** Configuration *)

Definition NODE_ACTIVATION_COST : Z := 2.
Definition PE_DEPLOY_UNIT_COST : Z := 1.

(** ** class PhysicalNode *)

Module PhysicalNode.
Record t : Set := Build
  { id : Z; cpu : Z; used_cpu : Z; activated : bool }.

(** [__init__] *)
Definition new (node_id cpu_capacity : Z) : t :=
  {| id := node_id; cpu := cpu_capacity; used_cpu := 0; activated := false |}.

Definition has_resources (self : t) (required : Z) : bool :=
  cpu self - used_cpu self >=? required.

Definition reserve (self : t) (required : Z) : t :=
  {| id := id self;
     cpu := cpu self;
     used_cpu := used_cpu self + required;
     activated := if negb (activated self) then true else activated self |}.

Definition reset (self : t) : t :=
  {| id := id self; cpu := cpu self; used_cpu := 0; activated := false |}.
End PhysicalNode.

(** ** class SFCRequest

    In [MSG.py] [src] and [dest] are [PhysicalNode] objects of which only
    the immutable [id] is ever read ([sfc.src.id]); in the brute-force script
    they are node ids.  Both are stored as the host id. *)

Module SFCRequest.
Record t : Type := Build
  { id : Z; src : Z; dest : Z; stages : list Z; bw : Z; max_delay : Z }.

Definition with_max_delay (d : Z) (sfc : t) : t :=
  {| id := id sfc; src := src sfc; dest := dest sfc; stages := stages sfc;
     bw := bw sfc; max_delay := d |}.
End SFCRequest.

(** ** The substrate graph, as the code queries it *)

Module Substrate.
Record Link : Set := { bandwidth : Z; delay : Z; cost : Z }.

(** The queries are total: every host id and end point they are asked
    about is taken to be a node of the graph, and every link to carry a
    delay and a cost, as in both scripts (networkx raises otherwise). *)
Record t : Type := Build
  { nodes : list Z;                        (* [list(G.nodes)] *)
    has_path : Z → Z → bool;               (* [nx.has_path(G, u, v)] *)
    shortest_path : Z → Z → list Z;        (* [nx.shortest_path(G, u, v, weight='delay')] *)
    link : Z → Z → Link }.                 (* [G[u][v]] *)
End Substrate.

(** [sum(G[path[i]][path[i+1]][attr] for i in range(len(path)-1))] *)
Fixpoint path_sum {A} (attr : A → A → Z) (path : list A) : Z :=
  match path with
  | u :: (v :: _) as rest => attr u v + path_sum attr rest
  | _ => 0
  end.

Definition path_delay (G : Substrate.t) (path : list Z) : Z :=
  path_sum (λ u v, Substrate.delay (Substrate.link G u v)) path.
Definition path_cost (G : Substrate.t) (path : list Z) : Z :=
  path_sum (λ u v, Substrate.cost (Substrate.link G u v)) path.

(** ** The multi-stage graph: a [networkx.DiGraph] *)

Module DiGraph.
Record NodeAttr : Set := { physical : Z; stage : nat; cpu : Z }.
Record EdgeAttr : Set := { delay : Z; cost : Z }.

Record t : Type := Build
  { nodes : gmap string NodeAttr;
    adj : gmap (string * string) EdgeAttr }.

Definition empty : t := {| nodes := ∅; adj := ∅ |}.

Definition add_node (v : string) (a : NodeAttr) (g : t) : t :=
  {| nodes := <[v := a]> (nodes g); adj := adj g |}.

(** Both end points are nodes already wherever the code adds an edge. *)
Definition add_edge (u v : string) (a : EdgeAttr) (g : t) : t :=
  {| nodes := nodes g; adj := <[(u, v) := a]> (adj g) |}.

(** [g.nodes[v]] *)
Definition node (g : t) (v : string) : result NodeAttr :=
  of_option KeyError (nodes g !! v).

End DiGraph.

(** ** The store of host objects and its monad *)

Abbreviation ledger := (list PhysicalNode.t).

Definition St (A : Type) : Type := ledger → result (A * ledger).

#[global] Instance St_ret : MRet St := λ A a σ, Ok (a, σ).
#[global] Instance St_bind : MBind St := λ A B k m σ,
  match m σ with
  | Ok (a, σ') => k a σ'
  | Raise e => Raise e
  end.

(** Reading the current state of every object of [physical_nodes]. *)
Definition get : St ledger := λ σ, Ok (σ, σ).
(** Running a computation that does not touch the store. *)
Definition lift {A} (m : result A) : St A := λ σ,
  match m with
  | Ok a => Ok (a, σ)
  | Raise e => Raise e
  end.

(** [physical_nodes[i]] for a Python integer [i]: negative indices count
    from the end of the list.  The result is the position of the object. *)
Definition py_index (len : nat) (i : Z) : result nat :=
  if (0 <=? i) && (i <? Z.of_nat len) then Ok (Z.to_nat i)
  else if (- Z.of_nat len <=? i) && (i <? 0) then Ok (Z.to_nat (Z.of_nat len + i))
  else Raise IndexError.

Definition lookup_node (i : Z) : St (nat * PhysicalNode.t) := λ σ,
  match py_index (length σ) i with
  | Ok k => match σ !! k with
            | Some n => Ok ((k, n), σ)
            | None => Raise IndexError
            end
  | Raise e => Raise e
  end.

(** A method call that updates the object at position [k] in place. *)
Definition update_node (k : nat) (f : PhysicalNode.t → PhysicalNode.t) : St unit := λ σ,
  match σ !! k with
  | Some n => Ok (tt, <[k := f n]> σ)
  | None => Raise IndexError
  end.

(** A [for] loop whose body may raise; [s] holds the variables the loop
    assigns. *)
Fixpoint for_each {A S} (body : S → A → result S) (s : S) (xs : list A) : result S :=
  match xs with
  | [] => Ok s
  | x :: xs' => s' ← body s x; for_each body s' xs'
  end.

(** The same loop for a body that works on the store. *)
Fixpoint for_each_St {A S} (body : S → A → St S) (s : S) (xs : list A) : St S :=
  match xs with
  | [] => mret s
  | x :: xs' => s' ← body s x; for_each_St body s' xs'
  end.

(** [enumerate(xs)] *)
Definition enumerate {A} (xs : list A) : list (nat * A) := imap pair xs.

(** [itertools.product] of the pools: the right-most pool advances fastest. *)
Fixpoint product {A} (pools : list (list A)) : list (list A) :=
  match pools with
  | [] => [[]]
  | pool :: rest => x ← pool; (x ::.) <$> product rest
  end.

(** [min(xs, key=key) if xs else None]: the first of the minimal items. *)
Fixpoint min_from {A} (key : A → Z) (best : A) (xs : list A) : A :=
  match xs with
  | [] => best
  | x :: xs' => min_from key (if key x <? key best then x else best) xs'
  end.

Definition min_by {A} (key : A → Z) (xs : list A) : option A :=
  match xs with
  | [] => None
  | x :: xs' => Some (min_from key x xs')
  end.

(** [all(stage_nodes)]: every stage list is non-empty. *)
Definition all_nonempty {A} (xss : list (list A)) : bool :=
  forallb (λ xs, negb (bool_decide (xs = []))) xss.

(** ** [construct_msg] (the same text in both files) *)

(** Body of [for node in physical_nodes] for one stage. *)
Definition admit_host (used_nodes : gset Z) (stage_idx : nat) (cpu_req : Z)
    (acc : DiGraph.t * list string) (node : PhysicalNode.t)
    : DiGraph.t * list string :=
  let '(MSG, current_stage) := acc in
  if PhysicalNode.has_resources node cpu_req
     && bool_decide (PhysicalNode.id node ∉ used_nodes)
  then
    let v := vname (PhysicalNode.id node) stage_idx in
    (DiGraph.add_node v
       {| DiGraph.physical := PhysicalNode.id node;
          DiGraph.stage := stage_idx;
          DiGraph.cpu := cpu_req |} MSG,
     current_stage ++ [v])
  else acc.

(** Body of [for stage_idx, cpu_req in enumerate(sfc.stages)]. *)
Definition build_stage (used_nodes : gset Z) (physical_nodes : ledger)
    (acc : DiGraph.t * list (list string)) (s : nat * Z)
    : DiGraph.t * list (list string) :=
  let '(MSG, stage_nodes) := acc in
  let '(stage_idx, cpu_req) := s in
  let '(MSG', current_stage) :=
    foldl (admit_host used_nodes stage_idx cpu_req) (MSG, []) physical_nodes in
  (MSG', stage_nodes ++ [current_stage]).

(** Body of the innermost loop over [v in stage_nodes[i + 1]]. *)
Definition link_pair (Gp : Substrate.t) (u : string) (MSG : DiGraph.t) (v : string)
    : result DiGraph.t :=
  au ← DiGraph.node MSG u;
  av ← DiGraph.node MSG v;
  let pu := DiGraph.physical au in
  let pv := DiGraph.physical av in
  if pu =? pv then Ok MSG
  else if Substrate.has_path Gp pu pv then
    let path := Substrate.shortest_path Gp pu pv in
    let delay := path_delay Gp path in
    let cost := path_cost Gp path in
    Ok (DiGraph.add_edge u v {| DiGraph.delay := delay; DiGraph.cost := cost |} MSG)
  else Ok MSG.

(** [for i in range(len(stage_nodes) - 1)]: the loop visits the pairs of
    consecutive stage lists. *)
Fixpoint link_stages (Gp : Substrate.t) (stage_nodes : list (list string))
    (MSG : DiGraph.t) : result DiGraph.t :=
  match stage_nodes with
  | us :: (vs :: _) as rest =>
      MSG' ← for_each (λ MSG u, for_each (link_pair Gp u) MSG vs) MSG us;
      link_stages Gp rest MSG'
  | _ => Ok MSG
  end.

Definition construct_msg (Gp : Substrate.t) (sfc : SFCRequest.t)
    (used_nodes : gset Z) : St (DiGraph.t * list (list string)) :=
  physical_nodes ← get;
  let '(MSG, stage_nodes) :=
    foldl (build_stage used_nodes physical_nodes) (DiGraph.empty, [])
          (enumerate (SFCRequest.stages sfc)) in
  MSG ← lift (link_stages Gp stage_nodes MSG);
  mret (MSG, stage_nodes).

(** ** [find_feasible_path] *)

(** A candidate kept by the search: [(path, total_delay, total_cost)]. *)
Abbreviation candidate := (list string * Z * Z)%type.

(** First inner loop: [for node in path] with the [physical_seen] set;
    the result is the flag [valid]. *)
Fixpoint hosts_distinct (MSG : DiGraph.t) (path : list string)
    (physical_seen : gset Z) : result bool :=
  match path with
  | [] => Ok true
  | node :: rest =>
      a ← DiGraph.node MSG node;
      let pnode := DiGraph.physical a in
      if bool_decide (pnode ∈ physical_seen) then Ok false
      else hosts_distinct MSG rest ({[pnode]} ∪ physical_seen)
  end.

(** Second inner loop: [for i in range(len(path)-1)]; [None] is
    [valid = False], otherwise the accumulated [(delay, cost)].  The match
    is [MSG.has_edge(u, v)] followed by the reads of [MSG[u][v]]. *)
Fixpoint chain_edges (MSG : DiGraph.t) (path : list string) (delay cost : Z)
    : option (Z * Z) :=
  match path with
  | u :: (v :: _) as rest =>
      match DiGraph.adj MSG !! (u, v) with
      | Some e => chain_edges MSG rest (delay + DiGraph.delay e) (cost + DiGraph.cost e)
      | None => None
      end
  | _ => Some (delay, cost)
  end.

(** The source-to-first and last-to-destination terms: the totals of the
    delay-weighted shortest path from [a] to [b] when the two differ and a
    path exists, and [(0, 0)] otherwise. *)
Definition endpoint_terms (Gp : Substrate.t) (differ : bool) (a b : Z) : Z * Z :=
  if differ && Substrate.has_path Gp a b then
    let p := Substrate.shortest_path Gp a b in
    (path_delay Gp p, path_cost Gp p)
  else (0, 0).

Module MSGpy.

(** Body of the loop over [product] of the stage lists in [MSG.py], from
    [delay = 0] to [total_cost = ...]; [None] is one of the two
    [continue] exits. *)
Definition chain_totals (MSG : DiGraph.t) (sfc : SFCRequest.t) (Gp : Substrate.t)
    (path : list string) : result (option (Z * Z)) :=
  valid ← hosts_distinct MSG path ∅;
  if negb valid then Ok None else
  match chain_edges MSG path 0 0 with
  | None => Ok None
  | Some (delay, cost) =>
      first ← of_option IndexError (head path);
      first_attr ← DiGraph.node MSG first;
      let first_physical := DiGraph.physical first_attr in
      let '(src_delay, src_cost) :=
        endpoint_terms Gp (negb (first_physical =? SFCRequest.src sfc))
                       (SFCRequest.src sfc) first_physical in
      final ← of_option IndexError (last path);
      last_attr ← DiGraph.node MSG final;
      let last_physical := DiGraph.physical last_attr in
      let '(dest_delay, dest_cost) :=
        endpoint_terms Gp (negb (last_physical =? SFCRequest.dest sfc))
                       last_physical (SFCRequest.dest sfc) in
      let total_delay := delay + src_delay + dest_delay in
      let total_cost := cost + src_cost + dest_cost in
      Ok (Some (total_delay, total_cost))
  end.

(** The whole body: the totals, then
    [if total_delay <= sfc.max_delay: paths.append(...)]. *)
Definition examine (MSG : DiGraph.t) (sfc : SFCRequest.t) (Gp : Substrate.t)
    (paths : list candidate) (path : list string) : result (list candidate) :=
  totals ← chain_totals MSG sfc Gp path;
  match totals with
  | None => Ok paths
  | Some (total_delay, total_cost) =>
      if total_delay <=? SFCRequest.max_delay sfc
      then Ok (paths ++ [(path, total_delay, total_cost)])
      else Ok paths
  end.

(** The list [paths] when the loop is over. *)
Definition feasible_paths (MSG : DiGraph.t) (stage_nodes : list (list string))
    (sfc : SFCRequest.t) (Gp : Substrate.t) : result (list candidate) :=
  for_each (examine MSG sfc Gp) [] (product stage_nodes).

Definition find_feasible_path (MSG : DiGraph.t) (stage_nodes : list (list string))
    (sfc : SFCRequest.t) (Gp : Substrate.t) : result (option candidate) :=
  paths ← feasible_paths MSG stage_nodes sfc Gp;
  Ok (min_by (λ x, x.2) paths).

(** ** [reserve_resources] *)

(** Body of [for node_label in path]. *)
Definition reserve_vertex (MSG : DiGraph.t) (extra_cost : Z) (node_label : string)
    : St Z :=
  a ← lift (DiGraph.node MSG node_label);
  let node_id := DiGraph.physical a in
  let cpu_req := DiGraph.cpu a in
  '(k, node) ← lookup_node node_id;
  let extra_cost :=
    if negb (PhysicalNode.activated node)
    then extra_cost + NODE_ACTIVATION_COST else extra_cost in
  let extra_cost := extra_cost + cpu_req * PE_DEPLOY_UNIT_COST in
  _ ← update_node k (λ n, PhysicalNode.reserve n cpu_req);
  mret extra_cost.

Definition reserve_resources (path : list string) (MSG : DiGraph.t) : St Z :=
  for_each_St (reserve_vertex MSG) 0 path.

(** ** [run_simulation] *)

Definition NUM_PHYSICAL_NODES : nat := 6.
Definition MAX_CPU_PER_NODE : Z := 7.

(** One row of [placements]. *)
Record Placement : Type :=
  { Source : Z; Destination : Z; SFC_ID : Z;
    Active_Path : list string; Active_Delay : Z; Active_Cost : Z;
    Backup_Path : list string; Backup_Delay : Z; Backup_Cost : Z;
    Deploy_Cost_active : Z; Deploy_Cost_backup : Z;
    Backup_Delay_Cost : Z; Total_Cost : Z }.

(** [set(int(n.split('_')[0]) for n in path_active)] *)
Definition label_hosts (path : list string) : result (gset Z) :=
  for_each (λ used n, h ← label_host n; Ok ({[h]} ∪ used)) ∅ path.

(** Body of [for a_node, b_node in zip(path_active, path_backup)]. *)
Definition failover_step (Gp : Substrate.t) (MSG_active MSG_backup : DiGraph.t)
    (backup_delay_cost : Z) (ab : string * string) : result Z :=
  a ← DiGraph.node MSG_active ab.1;
  b ← DiGraph.node MSG_backup ab.2;
  let a_physical := DiGraph.physical a in
  let b_physical := DiGraph.physical b in
  if Substrate.has_path Gp a_physical b_physical then
    Ok (backup_delay_cost
        + path_delay Gp (Substrate.shortest_path Gp a_physical b_physical))
  else Ok backup_delay_cost.

(** What the loop body knows once the active chain is committed. *)
Record Active : Type :=
  { MSG_active : DiGraph.t; path_active : list string;
    delay_active : Z; cost_active : Z; extra_cost_a : Z }.

(** The loop body up to and including the commit of the active chain;
    [None] is one of the two [continue] exits. *)
Definition place_active (Gp : Substrate.t) (sfc : SFCRequest.t) : St (option Active) :=
  '(MSG_active, stage_nodes_active) ← construct_msg Gp sfc ∅;
  if negb (all_nonempty stage_nodes_active) then mret None else
  result_active ← lift (find_feasible_path MSG_active stage_nodes_active sfc Gp);
  match result_active with
  | None => mret None
  | Some (path_active, delay_active, cost_active) =>
      extra_cost_a ← reserve_resources path_active MSG_active;
      mret (Some {| MSG_active := MSG_active; path_active := path_active;
                    delay_active := delay_active; cost_active := cost_active;
                    extra_cost_a := extra_cost_a |})
  end.

(** The rest of the loop body: the backup chain and the row. *)
Definition place_backup (Gp : Substrate.t) (sfc : SFCRequest.t) (act : Active)
    : St Placement :=
  used_nodes ← lift (label_hosts (path_active act));
  '(MSG_backup, stage_nodes_backup) ← construct_msg Gp sfc used_nodes;
  result_backup ← lift (find_feasible_path MSG_backup stage_nodes_backup sfc Gp);
  match result_backup with
  | Some (path_backup, delay_backup, cost_backup) =>
      extra_cost_b ← reserve_resources path_backup MSG_backup;
      backup_delay_cost ←
        lift (for_each (failover_step Gp (MSG_active act) MSG_backup) 0
                       (zip (path_active act) path_backup));
      let total_cost :=
        cost_active act + cost_backup + extra_cost_a act + extra_cost_b
        + backup_delay_cost in
      mret {| Source := SFCRequest.src sfc; Destination := SFCRequest.dest sfc;
              SFC_ID := SFCRequest.id sfc;
              Active_Path := path_active act; Active_Delay := delay_active act;
              Active_Cost := cost_active act;
              Backup_Path := path_backup; Backup_Delay := delay_backup;
              Backup_Cost := cost_backup;
              Deploy_Cost_active := extra_cost_a act;
              Deploy_Cost_backup := extra_cost_b;
              Backup_Delay_Cost := backup_delay_cost;
              Total_Cost := total_cost |}
  | None =>
      let total_cost := cost_active act + extra_cost_a act in
      mret {| Source := SFCRequest.src sfc; Destination := SFCRequest.dest sfc;
              SFC_ID := SFCRequest.id sfc;
              Active_Path := path_active act; Active_Delay := delay_active act;
              Active_Cost := cost_active act;
              Backup_Path := []; Backup_Delay := 0; Backup_Cost := 0;
              Deploy_Cost_active := extra_cost_a act;
              Deploy_Cost_backup := 0;
              Backup_Delay_Cost := 0;
              Total_Cost := total_cost |}
  end.

(** Body of [for sfc in sfc_requests]; [None] when the request is skipped. *)
Definition place (Gp : Substrate.t) (sfc : SFCRequest.t) : St (option Placement) :=
  act ← place_active Gp sfc;
  match act with
  | None => mret None
  | Some act => row ← place_backup Gp sfc act; mret (Some row)
  end.

Definition place_step (Gp : Substrate.t) (placements : list Placement)
    (sfc : SFCRequest.t) : St (list Placement) :=
  row ← place Gp sfc;
  mret (match row with
        | Some row => placements ++ [row]
        | None => placements
        end).

(** The placement loop of [run_simulation] over the request list. *)
Definition place_all (Gp : Substrate.t) (sfc_requests : list SFCRequest.t)
    : St (list Placement) :=
  for_each_St (place_step Gp) [] sfc_requests.

(** [[PhysicalNode(i, MAX_CPU_PER_NODE) for i in range(NUM_PHYSICAL_NODES)]] *)
Definition initial_nodes (num : nat) (max_cpu : Z) : ledger :=
  (λ i, PhysicalNode.new (Z.of_nat i) max_cpu) <$> seq 0 num.

#[global] Instance PhysicalNode_inhabited : Inhabited PhysicalNode.t :=
  populate (PhysicalNode.new 0 0).

(** ** [run_monitoring_placement] *)

(** One entry of [vmf_placements]. *)
Record VMF : Set := { VMF_ID : Z; Host_Node : Z; Monitors_SFC : Z }.

(** [[int(p.split('_')[0]) for p in all_paths]] *)
Definition physical_path (all_paths : list string) : result (list Z) :=
  for_each (λ hs p, h ← label_host p; Ok (hs ++ [h])) [] all_paths.

(** The variables the loops assign: [vmf_placements], [vmf_id_counter]
    and [vmf_nodes]. *)
Definition monitor_state : Type := list VMF * Z * gset Z.

(** Body of [for node in physical_path]. *)
Definition monitor_host (sfc_id : Z) (st : monitor_state) (node : Z) : monitor_state :=
  let '(vmf_placements, vmf_id_counter, vmf_nodes) := st in
  if bool_decide (node ∉ vmf_nodes) then
    let vmf_nodes := {[node]} ∪ vmf_nodes in
    let vmf_placements :=
      vmf_placements ++ [{| VMF_ID := vmf_id_counter; Host_Node := node;
                            Monitors_SFC := sfc_id |}] in
    (vmf_placements, vmf_id_counter + 1, vmf_nodes)
  else st.

(** [placement['Active_Path'] + placement['Backup_Path']].  The active
    chain is a tuple, one of those [itertools.product] yields; the backup
    chain is such a tuple when the search found one and the list [[]]
    when it did not, and Python adds a tuple to a tuple only.  A row has
    an empty backup chain only in the second case: a chain that was found
    has a label for every stage, and a request without stages gets no
    row. *)
Definition all_paths (placement : Placement) : result (list string) :=
  if bool_decide (Backup_Path placement = []) then Raise TypeError
  else Ok (Active_Path placement ++ Backup_Path placement).

(** Body of [for placement in placements]. *)
Definition monitor_placement (st : monitor_state) (placement : Placement)
    : result monitor_state :=
  all_paths ← all_paths placement;
  physical_path ← physical_path all_paths;
  Ok (foldl (monitor_host (SFC_ID placement)) st physical_path).

(** The rows of the returned data frame.  [Gp] and [physical_nodes] are
    parameters the function never reads. *)
Definition run_monitoring_placement (placements : list Placement) (Gp : Substrate.t)
    (physical_nodes : ledger) : result (list VMF) :=
  st ← for_each monitor_placement ([], 0, ∅) placements;
  Ok st.1.1.

(** [run_simulation], with the substrate and the request list (the
    outputs of the two generators) as arguments: the placement loop, then
    the monitoring pass, whose data frame is dropped.  The result is the
    rows of the returned data frame and the final state of
    [physical_nodes]. *)
Definition run_simulation (Gp : Substrate.t) (sfc_requests : list SFCRequest.t)
    : result (list Placement * ledger) :=
  match place_all Gp sfc_requests (initial_nodes NUM_PHYSICAL_NODES MAX_CPU_PER_NODE) with
  | Raise e => Raise e
  | Ok (placements, physical_nodes) =>
      vmf_df ← run_monitoring_placement placements Gp physical_nodes;
      Ok (placements, physical_nodes)
  end.

(** ** [generate_sfc_requests] *)

Definition MAX_PE_STAGES : Z := 4.

(** The generator of Python's [random] module as the function uses it: a
    state and the two draws.  [sample2 n] stands for the two positions
    that [random.sample] picks in a population of [n] items. *)
Record Random (R : Type) : Type :=
  { randint : Z → Z → R → Z * R;
    sample2 : nat → R → (nat * nat) * R }.
Arguments randint {R} _ _ _ _.
Arguments sample2 {R} _ _ _.

(** [random.sample(population, 2)] *)
Definition sample `{Inhabited A} {R} (rng : Random R) (population : list A) (g : R)
    : result ((A * A) * R) :=
  if (length population <? 2)%nat then Raise ValueError
  else
    let '((i, j), g) := sample2 rng (length population) g in
    Ok ((population !!! i, population !!! j), g).

(** [[random.randint(1, 3) for _ in range(n)]] *)
Fixpoint draw_stages {R} (rng : Random R) (n : nat) (g : R) : list Z * R :=
  match n with
  | O => ([], g)
  | S n' =>
      let '(x, g) := randint rng 1 3 g in
      let '(xs, g) := draw_stages rng n' g in
      (x :: xs, g)
  end.

(** [physical_nodes[i]] for a literal index [i]. *)
Definition node_at (physical_nodes : ledger) (i : Z) : result PhysicalNode.t :=
  match lookup_node i physical_nodes with
  | Ok ((_, n), _) => Ok n
  | Raise e => Raise e
  end.

(** The [while] loop; [None] when [fuel] iterations were not enough. *)
Fixpoint extend_requests {R} (rng : Random R) (fuel : nat) (num_requests : Z)
    (physical_nodes : ledger) (sfc_requests : list SFCRequest.t) (g : R)
    : option (result (list SFCRequest.t * R)) :=
  if Z.of_nat (length sfc_requests) <? num_requests then
    match fuel with
    | O => None
    | S fuel' =>
        match sample rng physical_nodes g with
        | Raise e => Some (Raise e)
        | Ok ((src, dst), g) =>
            let '(n, g) := randint rng 2 MAX_PE_STAGES g in
            let '(stages, g) := draw_stages rng (Z.to_nat n) g in
            let '(bw, g) := randint rng 10 30 g in
            let '(max_delay, g) := randint rng 20 40 g in
            extend_requests rng fuel' num_requests physical_nodes
              (sfc_requests
               ++ [{| SFCRequest.id := Z.of_nat (length sfc_requests);
                      SFCRequest.src := PhysicalNode.id src;
                      SFCRequest.dest := PhysicalNode.id dst;
                      SFCRequest.stages := stages;
                      SFCRequest.bw := bw;
                      SFCRequest.max_delay := max_delay |}]) g
        end
    end
  else Some (Ok (sfc_requests, g)).

(** The two requests the function starts from. *)
Definition fixed_requests (physical_nodes : ledger) : result (list SFCRequest.t) :=
  n0 ← node_at physical_nodes 0;
  n3 ← node_at physical_nodes 3;
  n1 ← node_at physical_nodes 1;
  n3' ← node_at physical_nodes 3;
  Ok [ {| SFCRequest.id := 0; SFCRequest.src := PhysicalNode.id n0;
          SFCRequest.dest := PhysicalNode.id n3; SFCRequest.stages := [2; 2; 1];
          SFCRequest.bw := 20; SFCRequest.max_delay := 20 |};
       {| SFCRequest.id := 1; SFCRequest.src := PhysicalNode.id n1;
          SFCRequest.dest := PhysicalNode.id n3'; SFCRequest.stages := [2; 2; 1];
          SFCRequest.bw := 30; SFCRequest.max_delay := 23 |} ].

Definition generate_sfc_requests {R} (rng : Random R) (fuel : nat) (num_requests : Z)
    (physical_nodes : ledger) (g : R) : option (result (list SFCRequest.t * R)) :=
  match fixed_requests physical_nodes with
  | Raise e => Some (Raise e)
  | Ok sfc_requests =>
      extend_requests rng fuel num_requests physical_nodes sfc_requests g
  end.

End MSGpy.

Module BruteForce.

(** Body of the loop over [product] of the stage lists in
    [brute-force_SFC_placement.py] up to [total_delay = delay]. *)
Definition chain_totals (MSG : DiGraph.t) (path : list string)
    : result (option (Z * Z)) :=
  valid ← hosts_distinct MSG path ∅;
  if negb valid then Ok None else
  match chain_edges MSG path 0 0 with
  | None => Ok None
  | Some (delay, cost) =>
      let total_delay := delay in
      Ok (Some (total_delay, cost))
  end.

Definition examine (MSG : DiGraph.t) (sfc : SFCRequest.t) (G : Substrate.t)
    (paths : list candidate) (path : list string) : result (list candidate) :=
  totals ← chain_totals MSG path;
  match totals with
  | None => Ok paths
  | Some (total_delay, cost) =>
      if total_delay <=? SFCRequest.max_delay sfc
      then Ok (paths ++ [(path, total_delay, cost)])
      else Ok paths
  end.

Definition feasible_paths (MSG : DiGraph.t) (stage_nodes : list (list string))
    (sfc : SFCRequest.t) (G : Substrate.t) : result (list candidate) :=
  for_each (examine MSG sfc G) [] (product stage_nodes).

Definition find_feasible_path (MSG : DiGraph.t) (stage_nodes : list (list string))
    (sfc : SFCRequest.t) (G : Substrate.t) : result (option candidate) :=
  paths ← feasible_paths MSG stage_nodes sfc G;
  Ok (min_by (λ x, x.2) paths).

(** [itertools.permutations(pool, r)]: the [r]-length arrangements of
    distinct positions of [pool], in lexicographic order of positions. *)
Fixpoint picks {A} (pool : list A) : list (A * list A) :=
  match pool with
  | [] => []
  | x :: rest => (x, rest) :: ((λ p, (p.1, x :: p.2)) <$> picks rest)
  end.

Fixpoint permutations {A} (r : nat) (pool : list A) : list (list A) :=
  match r with
  | O => [[]]
  | S r' => p ← picks pool; (p.1 ::.) <$> permutations r' p.2
  end.

(** Inner loop of [run_brute_force]; [None] is [valid = False]. *)
Fixpoint perm_totals (G : Substrate.t) (perm : list Z) (total_delay total_cost : Z)
    : option (Z * Z) :=
  match perm with
  | u :: (v :: _) as rest =>
      if negb (Substrate.has_path G u v) then None
      else
        let path := Substrate.shortest_path G u v in
        perm_totals G rest (total_delay + path_delay G path)
                    (total_cost + path_cost G path)
  | _ => Some (total_delay, total_cost)
  end.

Definition run_brute_force (G : Substrate.t) (sfc : SFCRequest.t)
    : option (list Z * Z * Z) :=
  let all_nodes := Substrate.nodes G in
  let placements :=
    foldl (λ placements perm,
             match perm_totals G perm 0 0 with
             | None => placements
             | Some (total_delay, total_cost) =>
                 if total_delay >? SFCRequest.max_delay sfc then placements
                 else placements ++ [(perm, total_delay, total_cost)]
             end)
          [] (permutations (length (SFCRequest.stages sfc)) all_nodes) in
  min_by (λ x, x.2) placements.

Definition NUM_NODES : nat := 15.
Definition MAX_CPU_PER_NODE : Z := 10.

(** One row of [placements] in [simulate_with_msg_and_brute]. *)
Record Row : Type :=
  { SFC_ID : Z; Source : Z; Destination : Z;
    MSG_Active_Path : list string; MSG_Backup_Path : list string;
    MSG_Total_Cost : Z; MSG_Active_Delay : Z; MSG_Backup_Delay : Z;
    BruteForce_Cost : Z; BruteForce_Delay : Z }.

(** [set(MSG_active.nodes[p]['physical'] for p in path_active)] *)
Definition path_hosts (MSG : DiGraph.t) (path : list string) : result (gset Z) :=
  for_each (λ used p, a ← DiGraph.node MSG p; Ok ({[DiGraph.physical a]} ∪ used))
           ∅ path.

Definition failover_step (G : Substrate.t) (MSG_active MSG_backup : DiGraph.t)
    (backup_delay_cost : Z) (ab : string * string) : result Z :=
  a ← DiGraph.node MSG_active ab.1;
  b ← DiGraph.node MSG_backup ab.2;
  let a_physical := DiGraph.physical a in
  let b_physical := DiGraph.physical b in
  if Substrate.has_path G a_physical b_physical then
    Ok (backup_delay_cost
        + path_delay G (Substrate.shortest_path G a_physical b_physical))
  else Ok backup_delay_cost.

(** Body of [for sfc in sfc_requests]; [None] is the [continue] exit. *)
Definition simulate_request (G : Substrate.t) (sfc : SFCRequest.t) : St (option Row) :=
  '(MSG_active, stage_nodes_active) ← construct_msg G sfc ∅;
  result_active ← lift (find_feasible_path MSG_active stage_nodes_active sfc G);
  match result_active with
  | None => mret None
  | Some (path_active, delay_active, cost_active) =>
      used_nodes ← lift (path_hosts MSG_active path_active);
      '(MSG_backup, stage_nodes_backup) ← construct_msg G sfc used_nodes;
      result_backup ← lift (find_feasible_path MSG_backup stage_nodes_backup sfc G);
      '(path_backup, delay_backup, cost_backup, backup_delay_cost) ←
        match result_backup with
        | Some (path_backup, delay_backup, cost_backup) =>
            backup_delay_cost ←
              lift (for_each (failover_step G MSG_active MSG_backup) 0
                             (zip path_active path_backup));
            mret (path_backup, delay_backup, cost_backup, backup_delay_cost)
        | None => mret ([], 0, 0, 0)
        end;
      let total_cost_msg := cost_active + cost_backup + backup_delay_cost in
      let '(path_brute, delay_brute, cost_brute) :=
        match run_brute_force G sfc with
        | Some result_brute => result_brute
        | None => ([], 0, 0)
        end in
      mret (Some {| SFC_ID := SFCRequest.id sfc;
                    Source := SFCRequest.src sfc;
                    Destination := SFCRequest.dest sfc;
                    MSG_Active_Path := path_active;
                    MSG_Backup_Path := path_backup;
                    MSG_Total_Cost := total_cost_msg;
                    MSG_Active_Delay := delay_active;
                    MSG_Backup_Delay := delay_backup;
                    BruteForce_Cost := cost_brute;
                    BruteForce_Delay := delay_brute |})
  end.

Definition simulate_step (G : Substrate.t) (placements : list Row)
    (sfc : SFCRequest.t) : St (list Row) :=
  row ← simulate_request G sfc;
  mret (match row with
        | Some row => placements ++ [row]
        | None => placements
        end).

Definition simulate_all (G : Substrate.t) (sfc_requests : list SFCRequest.t)
    : St (list Row) :=
  for_each_St (simulate_step G) [] sfc_requests.

End BruteForce.

(** ** Substrates to run the programs on

    A substrate given by its undirected link list.  Reachability and the
    delay-weighted shortest path are computed by enumerating the simple
    paths; among paths of equal delay the first one found is returned. *)

Module Net.
Definition edge_list : Type := list (Z * Z * Substrate.Link).

Definition mk_link (d c : Z) : Substrate.Link :=
  {| Substrate.bandwidth := 100; Substrate.delay := d; Substrate.cost := c |}.

Definition neighbours (es : edge_list) (u : Z) : list Z :=
  es ≫= λ e, if e.1.1 =? u then [e.1.2] else if e.1.2 =? u then [e.1.1] else [].

(** [G[u][v]]: the attributes of the link between [u] and [v], those of
    the last entry when the list names the link more than once.  The
    scripts read them along paths only, where the link exists. *)
Definition find_link (es : edge_list) (u v : Z) : Substrate.Link :=
  match last (filter (λ e, (e.1.1 = u ∧ e.1.2 = v) ∨ (e.1.1 = v ∧ e.1.2 = u)) es) with
  | Some e => e.2
  | None => mk_link 0 0
  end.

Fixpoint simple_paths (es : edge_list) (fuel : nat) (visited : list Z) (u v : Z)
    : list (list Z) :=
  if u =? v then [[u]] else
  match fuel with
  | O => []
  | S fuel' =>
      w ← filter (λ w, w ∉ u :: visited) (neighbours es u);
      (u ::.) <$> simple_paths es fuel' (u :: visited) w v
  end.

(** [list(G.nodes)] after [G.add_edges_from(es)]: the end points in the
    order in which the list first names them. *)
Definition graph_nodes (es : edge_list) : list Z :=
  foldl (λ nodes x, if bool_decide (x ∈ nodes) then nodes else nodes ++ [x])
        [] (es ≫= λ e, [e.1.1; e.1.2]).

(** The delay of a path: the delays of its links added up. *)
Definition delay_of (es : edge_list) (p : list Z) : Z :=
  foldr Z.add 0 ((λ h, Substrate.delay (find_link es h.1 h.2)) <$> zip p (tail p)).

(** The simple paths from [u] to [v], and those of least delay. *)
Definition paths (es : edge_list) (u v : Z) : list (list Z) :=
  simple_paths es (length (graph_nodes es)) [] u v.
Definition shortest_paths (es : edge_list) (u v : Z) : list (list Z) :=
  match min_by (delay_of es) (paths es u v) with
  | Some best => filter (λ p, delay_of es p = delay_of es best) (paths es u v)
  | None => []
  end.

(** No two nodes have more than one path of least delay between them.
    Which of several such paths [nx.shortest_path] returns depends on the
    order in which its search settles the nodes, which is not modelled:
    [of_edges] is meant for link lists without such ties, as the ones
    below are. *)
Definition no_ties (es : edge_list) : bool :=
  forallb (λ u, forallb (λ v, (length (shortest_paths es u v) <=? 1)%nat)
                        (graph_nodes es))
          (graph_nodes es).

Definition of_edges (es : edge_list) : Substrate.t :=
  {| Substrate.nodes := graph_nodes es;
     Substrate.has_path u v := negb (bool_decide (paths es u v = []));
     Substrate.shortest_path u v := default [] (head (shortest_paths es u v));
     Substrate.link := find_link es |}.

(** The link list of [generate_physical_graph] in [MSG.py]. *)
Definition msg_py_edges : edge_list :=
  [ (0, 1, mk_link 2 3); (1, 2, mk_link 3 2); (2, 3, mk_link 1 4);
    (3, 4, mk_link 5 6); (1, 5, mk_link 2 3); (1, 4, mk_link 4 5);
    (0, 5, mk_link 6 6); (2, 6, mk_link 3 3); (5, 7, mk_link 4 4);
    (6, 7, mk_link 2 2) ].

(** The 5-host path of scenario A: delay 2 and cost 3 on every link. *)
Definition line5_edges : edge_list :=
  [ (0, 1, mk_link 2 3); (1, 2, mk_link 2 3); (2, 3, mk_link 2 3);
    (3, 4, mk_link 2 3) ].

(** Two components: hosts 0, 1, 2 and hosts 3, 4. *)
Definition islands_edges : edge_list :=
  [ (0, 1, mk_link 1 1); (1, 2, mk_link 1 1); (3, 4, mk_link 1 1) ].
End Net.

(** The two fixed requests of [generate_sfc_requests] in [MSG.py]. *)
Definition sfc0 : SFCRequest.t :=
  {| SFCRequest.id := 0; SFCRequest.src := 0; SFCRequest.dest := 3;
     SFCRequest.stages := [2; 2; 1]; SFCRequest.bw := 20; SFCRequest.max_delay := 20 |}.
Definition sfc1 : SFCRequest.t :=
  {| SFCRequest.id := 1; SFCRequest.src := 1; SFCRequest.dest := 3;
     SFCRequest.stages := [2; 2; 1]; SFCRequest.bw := 30; SFCRequest.max_delay := 23 |}.

(** ** Vocabulary of the statements

    The notions the properties below are stated with, written from the
    description of the system rather than from the code. *)

Module Spec.

(** The host a vertex label stands for in an MSG. *)
Definition host (MSG : DiGraph.t) (v : string) : option Z :=
  DiGraph.physical <$> DiGraph.nodes MSG !! v.

(** Every label of the stage lists is a vertex of the MSG. *)
Definition labels_known (MSG : DiGraph.t) (stage_nodes : list (list string)) : Prop :=
  Forall (Forall (λ v, is_Some (DiGraph.nodes MSG !! v))) stage_nodes.

(** A candidate chain: one vertex per stage, taken from that stage's list. *)
Definition chain_of (stage_nodes : list (list string)) (path : list string) : Prop :=
  Forall2 (λ v pool, v ∈ pool) path stage_nodes.

(** Pairwise-distinct host ids. *)
Definition distinct (MSG : DiGraph.t) (path : list string) : Prop :=
  NoDup (host MSG <$> path).

(** An MSG edge between every consecutive pair. *)
Definition connected (MSG : DiGraph.t) (path : list string) : Prop :=
  ∀ (i : nat) u v, path !! i = Some u → path !! S i = Some v →
    is_Some (DiGraph.adj MSG !! (u, v)).

Definition edge_delay (MSG : DiGraph.t) (u v : string) : Z :=
  default 0 (DiGraph.delay <$> DiGraph.adj MSG !! (u, v)).
Definition edge_cost (MSG : DiGraph.t) (u v : string) : Z :=
  default 0 (DiGraph.cost <$> DiGraph.adj MSG !! (u, v)).

(** The sum of a list of numbers. *)
Definition sum (xs : list Z) : Z := foldr Z.add 0 xs.

(** The hops of a walk, its pairs of consecutive items, and the total
    of a quantity [w] that every hop carries.  The totals below are
    stated with these and not with the summation of the scripts. *)
Definition hops {A} (walk : list A) : list (A * A) := zip walk (tail walk).
Definition along {A} (w : A → A → Z) (walk : list A) : Z :=
  sum ((λ h, w h.1 h.2) <$> hops walk).

(** Sums of the inter-stage edge labels along a chain. *)
Definition inter_delay (MSG : DiGraph.t) (path : list string) : Z :=
  along (edge_delay MSG) path.
Definition inter_cost (MSG : DiGraph.t) (path : list string) : Z :=
  along (edge_cost MSG) path.

(** Totals of the delay-weighted shortest substrate path from [a] to
    [b]: the link delays, and the link costs, added up over its hops. *)
Definition sp_delay (Gp : Substrate.t) (a b : Z) : Z :=
  along (λ u v, Substrate.delay (Substrate.link Gp u v))
        (Substrate.shortest_path Gp a b).
Definition sp_cost (Gp : Substrate.t) (a b : Z) : Z :=
  along (λ u v, Substrate.cost (Substrate.link Gp u v))
        (Substrate.shortest_path Gp a b).

(** The ingress or egress term from [a] to [b]: zero when the two
    coincide, the shortest-path total when a path exists, and zero again
    when there is none. *)
Definition endpoint_delay (Gp : Substrate.t) (a b : Z) : Z :=
  if decide (a = b) then 0
  else if Substrate.has_path Gp a b then sp_delay Gp a b else 0.
Definition endpoint_cost (Gp : Substrate.t) (a b : Z) : Z :=
  if decide (a = b) then 0
  else if Substrate.has_path Gp a b then sp_cost Gp a b else 0.

Definition first_host (MSG : DiGraph.t) (path : list string) : option Z :=
  head path ≫= host MSG.
Definition last_host (MSG : DiGraph.t) (path : list string) : option Z :=
  last path ≫= host MSG.

(** Total delay and cost of a chain with its ingress and egress paths. *)
Definition total_delay (Gp : Substrate.t) (sfc : SFCRequest.t) (MSG : DiGraph.t)
    (path : list string) : option Z :=
  first ← first_host MSG path;
  final ← last_host MSG path;
  Some (inter_delay MSG path
        + endpoint_delay Gp (SFCRequest.src sfc) first
        + endpoint_delay Gp final (SFCRequest.dest sfc)).
Definition total_cost (Gp : Substrate.t) (sfc : SFCRequest.t) (MSG : DiGraph.t)
    (path : list string) : option Z :=
  first ← first_host MSG path;
  final ← last_host MSG path;
  Some (inter_cost MSG path
        + endpoint_cost Gp (SFCRequest.src sfc) first
        + endpoint_cost Gp final (SFCRequest.dest sfc)).

(** A chain that survives the filters of [MSG.py], with its totals. *)
Definition feasible (Gp : Substrate.t) (sfc : SFCRequest.t) (MSG : DiGraph.t)
    (path : list string) (d c : Z) : Prop :=
  distinct MSG path ∧ connected MSG path
  ∧ total_delay Gp sfc MSG path = Some d
  ∧ total_cost Gp sfc MSG path = Some c
  ∧ d ≤ SFCRequest.max_delay sfc.

(** The same for the brute-force script, whose totals are the
    inter-stage sums alone. *)
Definition feasible_inter (sfc : SFCRequest.t) (MSG : DiGraph.t)
    (path : list string) (d c : Z) : Prop :=
  distinct MSG path ∧ connected MSG path
  ∧ d = inter_delay MSG path
  ∧ c = inter_cost MSG path
  ∧ d ≤ SFCRequest.max_delay sfc.

(** What a search over [stage_nodes] must return, for a notion [feas] of
    surviving chain: a survivor of minimum cost that comes first, in the
    enumeration order of the Cartesian product, among the survivors of
    that cost; or nothing, when no chain survives. *)
Definition search_result (feas : list string → Z → Z → Prop)
    (stage_nodes : list (list string)) (r : option candidate) : Prop :=
  match r with
  | Some (path, d, c) =>
      chain_of stage_nodes path ∧ feas path d c
      ∧ (∀ q d' c', chain_of stage_nodes q → feas q d' c' → c ≤ c')
      ∧ ∃ i : nat, product stage_nodes !! i = Some path
        ∧ ∀ (j : nat) q d' c', product stage_nodes !! j = Some q → feas q d' c' →
            (j < i)%nat → c < c'
  | None => ∀ q d' c', chain_of stage_nodes q → ¬ feas q d' c'
  end.

(** The candidates of stage [s] with demand [d]: the hosts of the ledger,
    in ledger order, whose spare capacity covers [d] and whose id is not
    excluded, each under its stage-[s] label. *)
Definition stage_candidates (σ : ledger) (used_nodes : gset Z) (s : nat) (d : Z)
    : list string :=
  (λ n, vname (PhysicalNode.id n) s)
  <$> filter (λ n, d ≤ PhysicalNode.cpu n - PhysicalNode.used_cpu n
                   ∧ PhysicalNode.id n ∉ used_nodes) σ.

(** The label of an MSG edge between hosts [pu] and [pv]. *)
Definition edge_label (Gp : Substrate.t) (pu pv : Z) : DiGraph.EdgeAttr :=
  {| DiGraph.delay := sp_delay Gp pu pv; DiGraph.cost := sp_cost Gp pu pv |}.

(** What a commit charges for a vertex of demand [d] on host [n] as the
    host is when the vertex is visited: the activation charge unless the
    host is activated already, plus the deployment charge. *)
Definition charge (n : PhysicalNode.t) (d : Z) : Z :=
  (if PhysicalNode.activated n then 0 else NODE_ACTIVATION_COST)
  + d * PE_DEPLOY_UNIT_COST.

(** The host after the visit: activated, with [d] more CPU in use. *)
Definition book (d : Z) (n : PhysicalNode.t) : PhysicalNode.t :=
  {| PhysicalNode.id := PhysicalNode.id n;
     PhysicalNode.cpu := PhysicalNode.cpu n;
     PhysicalNode.used_cpu := PhysicalNode.used_cpu n + d;
     PhysicalNode.activated := true |}.

(** The vertices of [path] as (ledger position, demand) pairs: the
    position is where [physical_nodes[node_id]] finds the host. *)
Definition target (MSG : DiGraph.t) (σ : ledger) (v : string) : option (nat * Z) :=
  a ← DiGraph.nodes MSG !! v;
  match py_index (length σ) (DiGraph.physical a) with
  | Ok k => Some (k, DiGraph.cpu a)
  | Raise _ => None
  end.

Definition resolves (MSG : DiGraph.t) (σ : ledger) (path : list string)
    (targets : list (nat * Z)) : Prop :=
  Forall2 (λ v t, target MSG σ v = Some t) path targets.

(** Visiting the vertices in order: the sum of the charges, each taken
    on the ledger as it is at that visit, and the ledger at the end. *)
Fixpoint commit (targets : list (nat * Z)) (σ : ledger) : Z * ledger :=
  match targets with
  | [] => (0, σ)
  | t :: rest =>
      match σ !! t.1 with
      | Some n =>
          let r := commit rest (<[t.1 := book t.2 n]> σ) in
          (charge n t.2 + r.1, r.2)
      | None => commit rest σ
      end
  end.

(** The capacity invariant of the ledger. *)
Definition capacity_ok (σ : ledger) : Prop :=
  Forall (λ n, PhysicalNode.used_cpu n ≤ PhysicalNode.cpu n) σ.

(** Host ids are list positions, as [run_simulation] builds the ledger. *)
Definition indexed (σ : ledger) : Prop :=
  PhysicalNode.id <$> σ = Z.of_nat <$> seq 0 (length σ).

(** The initial ledger for the given per-host capacities: host [i] has
    id [i], nothing in use and is not activated.  [run_simulation] starts
    from the one with [MAX_CPU_PER_NODE] for each of its hosts. *)
Definition initial_ledger (caps : list Z) : ledger :=
  imap (λ i c, PhysicalNode.new (Z.of_nat i) c) caps.

(** The set of host ids a chain uses. *)
Definition chain_hosts (MSG : DiGraph.t) (path : list string) : gset Z :=
  list_to_set (omap (host MSG) path).

(** [reaches Gp reqs σ σ']: [σ'] is the ledger at some point of the
    placement loop of [MSG.py] run on the requests [reqs] from the ledger
    [σ].  Only a commit writes the ledger, one vertex at a time, so the
    points are: where the loop stands, any number [j] of vertices into
    the commit of the active chain, any number into the commit of the
    backup chain, and the points of the rest of the batch once the
    request is done. *)
Inductive reaches (Gp : Substrate.t) : list SFCRequest.t → ledger → ledger → Prop :=
| reaches_here reqs σ :
    reaches Gp reqs σ σ
| reaches_active sfc rest σ MSG stage_nodes path d c (j : nat) extra σ' :
    construct_msg Gp sfc ∅ σ = Ok ((MSG, stage_nodes), σ) →
    all_nonempty stage_nodes = true →
    MSGpy.find_feasible_path MSG stage_nodes sfc Gp = Ok (Some (path, d, c)) →
    MSGpy.reserve_resources (take j path) MSG σ = Ok (extra, σ') →
    reaches Gp (sfc :: rest) σ σ'
| reaches_backup sfc rest σ act σ1 used MSG stage_nodes path d c (j : nat) extra σ' :
    MSGpy.place_active Gp sfc σ = Ok (Some act, σ1) →
    MSGpy.label_hosts (MSGpy.path_active act) = Ok used →
    construct_msg Gp sfc used σ1 = Ok ((MSG, stage_nodes), σ1) →
    MSGpy.find_feasible_path MSG stage_nodes sfc Gp = Ok (Some (path, d, c)) →
    MSGpy.reserve_resources (take j path) MSG σ1 = Ok (extra, σ') →
    reaches Gp (sfc :: rest) σ σ'
| reaches_next sfc rest σ row σ1 σ' :
    MSGpy.place Gp sfc σ = Ok (row, σ1) →
    reaches Gp rest σ1 σ' →
    reaches Gp (sfc :: rest) σ σ'.

(** The CPU in use over the whole ledger, and the number of activated
    hosts. *)
Definition used_total (σ : ledger) : Z := sum (PhysicalNode.used_cpu <$> σ).
Definition activated_count (σ : ledger) : Z :=
  sum ((λ n, if PhysicalNode.activated n then 1 else 0) <$> σ).

(** The ids of the activated hosts, in ledger order. *)
Definition activated_hosts (σ : ledger) : list Z :=
  PhysicalNode.id <$> filter (λ n, PhysicalNode.activated n = true) σ.

(** A route over hosts, as [run_brute_force] judges an arrangement: a
    substrate path between every two consecutive hosts, and the sums of
    the shortest-path delays and costs between them. *)
Definition route_ok (G : Substrate.t) (hosts : list Z) : Prop :=
  ∀ (i : nat) u v, hosts !! i = Some u → hosts !! S i = Some v →
    Substrate.has_path G u v = true.
Definition route_delay (G : Substrate.t) (hosts : list Z) : Z :=
  along (sp_delay G) hosts.
Definition route_cost (G : Substrate.t) (hosts : list Z) : Z :=
  along (sp_cost G) hosts.

(** An arrangement of [r] different items of [pool]. *)
Definition arrangement (pool : list Z) (r : nat) (hosts : list Z) : Prop :=
  length hosts = r ∧ NoDup hosts ∧ ∀ h, h ∈ hosts → h ∈ pool.

(** How a host may differ between two ledgers of a run: same id, same
    capacity, activation not undone, and, when [nonneg] holds (the
    demands placed in between are not negative), no less CPU in use. *)
Definition host_grows (nonneg : Prop) (n n' : PhysicalNode.t) : Prop :=
  PhysicalNode.id n' = PhysicalNode.id n
  ∧ PhysicalNode.cpu n' = PhysicalNode.cpu n
  ∧ (PhysicalNode.activated n = true → PhysicalNode.activated n' = true)
  ∧ (nonneg → PhysicalNode.used_cpu n ≤ PhysicalNode.used_cpu n').

(** What [random.randint] and [random.sample] promise of their draws: a
    number within the bounds, and two different positions of the
    population. *)
Definition random_ok {R} (rng : MSGpy.Random R) : Prop :=
  (∀ a b g, a ≤ b → a ≤ (MSGpy.randint rng a b g).1 ≤ b)
  ∧ (∀ n g, (2 ≤ n)%nat →
       ((MSGpy.sample2 rng n g).1.1 < n)%nat
       ∧ ((MSGpy.sample2 rng n g).1.2 < n)%nat
       ∧ (MSGpy.sample2 rng n g).1.1 ≠ (MSGpy.sample2 rng n g).1.2).

(** A request as the [while] loop of [generate_sfc_requests] draws it
    over the hosts [σ]: the hosts at two different positions as source
    and destination, 2 to [MAX_PE_STAGES] stages of demand 1 to 3, a
    bandwidth of 10 to 30 and a delay budget of 20 to 40. *)
Definition drawn (σ : ledger) (sfc : SFCRequest.t) : Prop :=
  (∃ (i j : nat) ni nj,
      i ≠ j ∧ σ !! i = Some ni ∧ σ !! j = Some nj
      ∧ SFCRequest.src sfc = PhysicalNode.id ni
      ∧ SFCRequest.dest sfc = PhysicalNode.id nj)
  ∧ 2 ≤ Z.of_nat (length (SFCRequest.stages sfc)) ≤ MSGpy.MAX_PE_STAGES
  ∧ Forall (λ d, 1 ≤ d ≤ 3) (SFCRequest.stages sfc)
  ∧ 10 ≤ SFCRequest.bw sfc ≤ 30
  ∧ 20 ≤ SFCRequest.max_delay sfc ≤ 40.

End Spec.

(** ** Views of the search loop used in the proofs *)

(** The candidate the loop body appends for [path], if any: the totals
    computed by [totals], kept when the delay is within [budget]. *)
Definition judge (totals : list string → result (option (Z * Z))) (budget : Z)
    (path : list string) : option candidate :=
  match totals path with
  | Ok (Some (d, c)) => if d <=? budget then Some (path, d, c) else None
  | _ => None
  end.

(** The shape shared by the loop bodies of the two scripts. *)
Definition examine_with (totals : list string → result (option (Z * Z))) (budget : Z)
    (paths : list candidate) (path : list string) : result (list candidate) :=
  t ← totals path;
  match t with
  | None => Ok paths
  | Some (d, c) => if d <=? budget then Ok (paths ++ [(path, d, c)]) else Ok paths
  end.

(** ** Views of [construct_msg] used in the proofs *)

(** The pairs [(u, v)] in the order in which the edge loops visit them. *)
Fixpoint stage_pairs (stage_nodes : list (list string)) : list (string * string) :=
  match stage_nodes with
  | us :: (vs :: _) as rest => (u ← us; v ← vs; [(u, v)]) ++ stage_pairs rest
  | _ => []
  end.

(** The edge the loop body adds for a pair of labels, if any, given the
    node dictionary. *)
Definition pair_edge (Gp : Substrate.t) (nodes : gmap string DiGraph.NodeAttr)
    (p : string * string) : option DiGraph.EdgeAttr :=
  au ← nodes !! p.1;
  av ← nodes !! p.2;
  if DiGraph.physical au =? DiGraph.physical av then None
  else if Substrate.has_path Gp (DiGraph.physical au) (DiGraph.physical av)
       then Some (Spec.edge_label Gp (DiGraph.physical au) (DiGraph.physical av))
       else None.

(** A node entry as [construct_msg] writes it: the label spells the host
    and the stage of the entry, and the entry carries that stage's demand. *)
Definition node_ok (stages : list Z) (v : string) (a : DiGraph.NodeAttr) : Prop :=
  v = vname (DiGraph.physical a) (DiGraph.stage a)
  ∧ stages !! DiGraph.stage a = Some (DiGraph.cpu a).

(** The stage lists that [construct_msg] builds. *)
Definition stage_lists (σ : ledger) (used : gset Z) (stages : list Z) : list (list string) :=
  imap (Spec.stage_candidates σ used) stages.

(** One step of the edge loops on the edge dictionary. *)
Definition add_pair (Gp : Substrate.t) (nodes : gmap string DiGraph.NodeAttr)
    (adj : gmap (string * string) DiGraph.EdgeAttr) (p : string * string)
    : gmap (string * string) DiGraph.EdgeAttr :=
  match pair_edge Gp nodes p with
  | Some e => <[p := e]> adj
  | None => adj
  end.

(** ** Views of a chain over the stage lists used in the proofs *)

(** What is known of a vertex of a chain over the stage lists: its node
    entry, the ledger position of its host, and the room there. *)
Definition vertex_ok (MSG : DiGraph.t) (σ : ledger) (used : gset Z) (v : string) : Prop :=
  ∃ a (k : nat) n,
    DiGraph.nodes MSG !! v = Some a
    ∧ DiGraph.physical a = Z.of_nat k
    ∧ σ !! k = Some n
    ∧ DiGraph.cpu a ≤ PhysicalNode.cpu n - PhysicalNode.used_cpu n
    ∧ (Z.of_nat k ∉ used)
    ∧ label_host v = Ok (Z.of_nat k).

(** The (position, demand) pair of a vertex, read off its node entry. *)
Definition target_of (MSG : DiGraph.t) (v : string) : nat * Z :=
  match DiGraph.nodes MSG !! v with
  | Some a => (Z.to_nat (DiGraph.physical a), DiGraph.cpu a)
  | None => (0%nat, 0)
  end.

(** The rows [place_backup] of [MSG.py] builds: with a backup chain and
    without one. *)
Definition row_with_backup (sfc : SFCRequest.t) (act : MSGpy.Active)
    (path_backup : list string) (delay_backup cost_backup extra_cost_b
     backup_delay_cost : Z) : MSGpy.Placement :=
  {| MSGpy.Source := SFCRequest.src sfc; MSGpy.Destination := SFCRequest.dest sfc;
     MSGpy.SFC_ID := SFCRequest.id sfc;
     MSGpy.Active_Path := MSGpy.path_active act;
     MSGpy.Active_Delay := MSGpy.delay_active act;
     MSGpy.Active_Cost := MSGpy.cost_active act;
     MSGpy.Backup_Path := path_backup; MSGpy.Backup_Delay := delay_backup;
     MSGpy.Backup_Cost := cost_backup;
     MSGpy.Deploy_Cost_active := MSGpy.extra_cost_a act;
     MSGpy.Deploy_Cost_backup := extra_cost_b;
     MSGpy.Backup_Delay_Cost := backup_delay_cost;
     MSGpy.Total_Cost :=
       MSGpy.cost_active act + cost_backup + MSGpy.extra_cost_a act + extra_cost_b
       + backup_delay_cost |}.

Definition row_without_backup (sfc : SFCRequest.t) (act : MSGpy.Active)
    : MSGpy.Placement :=
  {| MSGpy.Source := SFCRequest.src sfc; MSGpy.Destination := SFCRequest.dest sfc;
     MSGpy.SFC_ID := SFCRequest.id sfc;
     MSGpy.Active_Path := MSGpy.path_active act;
     MSGpy.Active_Delay := MSGpy.delay_active act;
     MSGpy.Active_Cost := MSGpy.cost_active act;
     MSGpy.Backup_Path := []; MSGpy.Backup_Delay := 0; MSGpy.Backup_Cost := 0;
     MSGpy.Deploy_Cost_active := MSGpy.extra_cost_a act;
     MSGpy.Deploy_Cost_backup := 0;
     MSGpy.Backup_Delay_Cost := 0;
     MSGpy.Total_Cost := MSGpy.cost_active act + MSGpy.extra_cost_a act |}.

(** ** Views of [run_brute_force] used in the proofs *)

(** The placement the loop body of [run_brute_force] appends for an
    arrangement, if any. *)
Definition judge_perm (G : Substrate.t) (budget : Z) (perm : list Z)
    : option (list Z * Z * Z) :=
  match BruteForce.perm_totals G perm 0 0 with
  | None => None
  | Some (total_delay, total_cost) =>
      if total_delay >? budget then None else Some (perm, total_delay, total_cost)
  end.

(** The chain that puts stage [s] on the host at position [s] of [hosts]. *)
Definition chain_labels (hosts : list Z) : list string :=
  imap (λ s h, vname h s) hosts.

(** The row the loop body of the brute-force script gives for a request
    on the ledger [σ], if any. *)
Definition brute_force_row (G : Substrate.t) (σ : ledger) (sfc : SFCRequest.t)
    : option BruteForce.Row :=
  match BruteForce.simulate_request G sfc σ with
  | Ok (row, _) => row
  | Raise _ => None
  end.

(** ** Concrete inputs for the examples *)

Module Demo.

(** The substrate and the initial ledger of [run_simulation] in [MSG.py]. *)
Definition G : Substrate.t := Net.of_edges Net.msg_py_edges.
Definition σ0 : ledger :=
  MSGpy.initial_nodes MSGpy.NUM_PHYSICAL_NODES MSGpy.MAX_CPU_PER_NODE.

(** What [construct_msg] returns. *)
Definition built (Gp : Substrate.t) (sfc : SFCRequest.t) (used : gset Z) (σ : ledger)
    : DiGraph.t * list (list string) :=
  match construct_msg Gp sfc used σ with
  | Ok (r, _) => r
  | Raise _ => (DiGraph.empty, [])
  end.

(** The ledger a store computation ends with. *)
Definition after {A} (σ : ledger) (m : St A) : ledger :=
  match m σ with
  | Ok (_, σ') => σ'
  | Raise _ => σ
  end.

(** The active MSG of the first fixed request and the chain found on it. *)
Definition MSG0 : DiGraph.t := (built G sfc0 ∅ σ0).1.
Definition stage_nodes0 : list (list string) := (built G sfc0 ∅ σ0).2.
Definition chain0 : list string := ["0_s0"; "1_s1"; "2_s2"].

(** The row of the first fixed request, and the ledger after it and
    after the second one. *)
Definition row0 : MSGpy.Placement :=
  {| MSGpy.Source := 0; MSGpy.Destination := 3; MSGpy.SFC_ID := 0;
     MSGpy.Active_Path := ["0_s0"; "1_s1"; "2_s2"];
     MSGpy.Active_Delay := 6; MSGpy.Active_Cost := 9;
     MSGpy.Backup_Path := ["5_s0"; "4_s1"; "3_s2"];
     MSGpy.Backup_Delay := 15; MSGpy.Backup_Cost := 20;
     MSGpy.Deploy_Cost_active := 11; MSGpy.Deploy_Cost_backup := 11;
     MSGpy.Backup_Delay_Cost := 9; MSGpy.Total_Cost := 60 |}.
Definition σ1 : ledger := after σ0 (MSGpy.place G sfc0).
Definition σ2 : ledger := after σ1 (MSGpy.place G sfc1).

(** The candidates the search keeps for the first request under a
    delay budget of 6. *)
Definition kept6 : list candidate :=
  [ (["0_s0"; "1_s1"; "2_s2"], 6, 9); (["0_s0"; "1_s1"; "3_s2"], 6, 9);
    (["0_s0"; "2_s1"; "3_s2"], 6, 9); (["1_s0"; "2_s1"; "3_s2"], 6, 9) ].

(** Scenario A: the 5-host path substrate, capacity 7 per host. *)
Definition line5 : Substrate.t := Net.of_edges Net.line5_edges.
Definition σ5 : ledger := MSGpy.initial_nodes 5 7.
Definition sfcA : SFCRequest.t :=
  {| SFCRequest.id := 0; SFCRequest.src := 0; SFCRequest.dest := 4;
     SFCRequest.stages := [2; 2; 1]; SFCRequest.bw := 20;
     SFCRequest.max_delay := 20 |}.

(** Scenario B: every demand exceeds every capacity. *)
Definition sfcB : SFCRequest.t :=
  {| SFCRequest.id := 1; SFCRequest.src := 0; SFCRequest.dest := 3;
     SFCRequest.stages := [8; 9]; SFCRequest.bw := 20;
     SFCRequest.max_delay := 20 |}.

(** Scenario C: the active chain takes all the capacity there is. *)
Definition sfcC : SFCRequest.t :=
  {| SFCRequest.id := 2; SFCRequest.src := 0; SFCRequest.dest := 4;
     SFCRequest.stages := [7; 7; 7; 7; 7]; SFCRequest.bw := 20;
     SFCRequest.max_delay := 20 |}.
Definition actC : MSGpy.Active :=
  {| MSGpy.MSG_active := (built line5 sfcC ∅ σ5).1;
     MSGpy.path_active := ["0_s0"; "1_s1"; "2_s2"; "3_s3"; "4_s4"];
     MSGpy.delay_active := 8; MSGpy.cost_active := 12;
     MSGpy.extra_cost_a := 45 |}.
Definition σC : ledger := after σ5 (MSGpy.place_active line5 sfcC).
Definition usedC : gset Z := {[0; 1; 2; 3; 4]}.

(** Endpoints out of reach: hosts 0, 1, 2 on one island, source and
    destination on the other. *)
Definition islands : Substrate.t := Net.of_edges Net.islands_edges.
Definition σ3 : ledger := MSGpy.initial_nodes 3 7.
Definition sfcI : SFCRequest.t :=
  {| SFCRequest.id := 3; SFCRequest.src := 3; SFCRequest.dest := 4;
     SFCRequest.stages := [1; 1]; SFCRequest.bw := 20;
     SFCRequest.max_delay := 20 |}.

(** A request that fills four of the six hosts of [MSG.py], so that no
    backup chain is left for it. *)
Definition sfcD : SFCRequest.t :=
  {| SFCRequest.id := 4; SFCRequest.src := 0; SFCRequest.dest := 3;
     SFCRequest.stages := [7; 7; 7; 7]; SFCRequest.bw := 20;
     SFCRequest.max_delay := 40 |}.

(** The row of the brute-force script for the first fixed request. *)
Definition row_bf : BruteForce.Row :=
  {| BruteForce.SFC_ID := 0; BruteForce.Source := 0; BruteForce.Destination := 3;
     BruteForce.MSG_Active_Path := ["0_s0"; "1_s1"; "2_s2"];
     BruteForce.MSG_Backup_Path := ["3_s0"; "4_s1"; "5_s2"];
     BruteForce.MSG_Total_Cost := 34;
     BruteForce.MSG_Active_Delay := 5; BruteForce.MSG_Backup_Delay := 11;
     BruteForce.BruteForce_Cost := 5; BruteForce.BruteForce_Delay := 5 |}.

(** The rows of the two fixed requests of [MSG.py]. *)
Definition row1 : MSGpy.Placement :=
  {| MSGpy.Source := 1; MSGpy.Destination := 3; MSGpy.SFC_ID := 1;
     MSGpy.Active_Path := ["1_s0"; "2_s1"; "3_s2"];
     MSGpy.Active_Delay := 4; MSGpy.Active_Cost := 6;
     MSGpy.Backup_Path := ["0_s0"; "5_s1"; "4_s2"];
     MSGpy.Backup_Delay := 17; MSGpy.Backup_Cost := 23;
     MSGpy.Deploy_Cost_active := 5; MSGpy.Deploy_Cost_backup := 5;
     MSGpy.Backup_Delay_Cost := 12; MSGpy.Total_Cost := 51 |}.
Definition rows01 : list MSGpy.Placement := [row0; row1].

(** A generator that always draws the lower bound and the first two
    positions. *)
Definition rng : MSGpy.Random unit :=
  {| MSGpy.randint a b g := (a, g); MSGpy.sample2 n g := ((0%nat, 1%nat), g) |}.

(** An MSG whose only vertex names host 9, which the six-host ledger
    does not have. *)
Definition far : DiGraph.t :=
  DiGraph.add_node "9_s0"
    {| DiGraph.physical := 9; DiGraph.stage := 0; DiGraph.cpu := 1 |} DiGraph.empty.

End Demo.


(* ===================================================================== *)
(** * Part II: properties                                                 *)
(* ===================================================================== *)

(** ** Vertex labels *)

Lemma to_int_proper (z : Z) : Z.to_int z ≠ Pos Nil ∧ Z.to_int z ≠ Neg Nil.
Proof.
  destruct z as [|p|p]; simpl; split; try discriminate;
    intros [= H]; by apply (Unsigned.to_uint_nonnil p).
Qed.

(** [int(str(z)) == z] *)
Lemma int_str (z : Z) : int (str z) = Ok z.
Proof.
  unfold int, str. destruct (to_int_proper z) as [Hp Hn].
  rewrite NilZero.isi by done. by rewrite DecimalZ.of_to.
Qed.

Lemma str_inj (x y : Z) : str x = str y → x = y.
Proof.
  intros E. assert (H : int (str x) = int (str y)) by by rewrite E.
  rewrite !int_str in H. by injection H.
Qed.

Lemma split_head_uint (d : uint) (s : string) :
  split_head "_" (NilEmpty.string_of_uint d +:+ String "_" s)
  = NilEmpty.string_of_uint d.
Proof. induction d; simpl; by f_equal. Qed.

Lemma split_head_str (z : Z) (s : string) :
  split_head "_" (str z +:+ String "_" s) = str z.
Proof.
  unfold str.
  destruct (Z.to_int z) as [d|d]; simpl.
  - destruct d; simpl; try done; f_equal; apply split_head_uint.
  - f_equal. destruct d; simpl; try done; f_equal; apply split_head_uint.
Qed.

Lemma split_head_vname (i : Z) (s : nat) : split_head "_" (vname i s) = str i.
Proof. apply split_head_str. Qed.

(** Parsing a label gives back the host id it was built from. *)
Lemma label_host_vname (i : Z) (s : nat) : label_host (vname i s) = Ok i.
Proof. unfold label_host. by rewrite split_head_vname, int_str. Qed.

Lemma string_app_inv_head (p s t : string) : p +:+ s = p +:+ t → s = t.
Proof. induction p; simpl; [done|]. intros [= H]. auto. Qed.

Lemma vname_inj (i j : Z) (s t : nat) : vname i s = vname j t → i = j ∧ s = t.
Proof.
  intros E.
  assert (Hij : i = j).
  { apply str_inj. rewrite <- (split_head_vname i s), <- (split_head_vname j t).
    by rewrite E. }
  subst j. split; [done|].
  unfold vname in E. apply string_app_inv_head in E.
  injection E as E. apply str_inj in E. lia.
Qed.


(** ** Loops, products and minima *)

Lemma for_each_app {A S} (body : S → A → result S) (s : S) (xs ys : list A) :
  for_each body s (xs ++ ys) = (s' ← for_each body s xs; for_each body s' ys).
Proof.
  revert s. induction xs as [|x xs IH]; intros s; simpl; [done|].
  destruct (body s x); simpl; [apply IH | done].
Qed.

(** A loop whose body never raises is a left fold. *)
Lemma for_each_pure {A S} (f : S → A → S) (body : S → A → result S) s xs :
  (∀ s x, x ∈ xs → body s x = Ok (f s x)) →
  for_each body s xs = Ok (foldl f s xs).
Proof.
  revert s. induction xs as [|x xs IH]; intros s H; simpl; [done|].
  rewrite H by left. simpl. apply IH. intros. apply H. by right.
Qed.

(** The chains of the product are the lists with one item per pool. *)
Lemma elem_of_product {A} (pools : list (list A)) (xs : list A) :
  xs ∈ product pools ↔ Forall2 (λ x pool, x ∈ pool) xs pools.
Proof.
  revert xs. induction pools as [|pool rest IH]; intros xs; simpl.
  - rewrite list_elem_of_singleton. split; [intros ->; constructor | by inversion 1].
  - rewrite list_elem_of_bind. split.
    + intros (x & Hxs & Hx). apply list_elem_of_fmap in Hxs as (ys & -> & Hys).
      constructor; [done | by apply IH].
    + inversion 1 as [|x ? ys ? Hx Hys]; subst. exists x. split; [|done].
      apply list_elem_of_fmap. exists ys. split; [done | by apply IH].
Qed.

Lemma product_length {A} (pools : list (list A)) (xs : list A) :
  xs ∈ product pools → length xs = length pools.
Proof. rewrite elem_of_product. apply Forall2_length. Qed.

(** An empty pool leaves nothing to enumerate. *)
Lemma product_empty_pool {A} (pools : list (list A)) :
  [] ∈ pools → product pools = [].
Proof.
  induction pools as [|pool rest IH]; [by intros ?%not_elem_of_nil|].
  intros [<- | H]%elem_of_cons; simpl; [done|].
  rewrite IH by done. induction pool; simpl; auto.
Qed.

Lemma all_nonempty_false {A} (pools : list (list A)) :
  all_nonempty pools = false ↔ [] ∈ pools.
Proof.
  unfold all_nonempty. induction pools as [|pool rest IH]; simpl.
  - split; [done | by intros ?%not_elem_of_nil].
  - rewrite andb_false_iff, IH, elem_of_cons, negb_false_iff, bool_decide_eq_true.
    naive_solver.
Qed.

(** [min_from] and [min_by] return the first of the minimal items. *)
Lemma min_from_spec {A} (key : A → Z) (best : A) (xs : list A) :
  ∃ i : nat, (best :: xs) !! i = Some (min_from key best xs)
    ∧ ∀ (j : nat) y, (best :: xs) !! j = Some y →
        key (min_from key best xs) ≤ key y
        ∧ ((j < i)%nat → key (min_from key best xs) < key y).
Proof.
  revert best. induction xs as [|x xs IH]; intros best; simpl.
  - exists 0%nat. split; [done|]. intros [|j] y; simpl; [|done].
    intros [= <-]. split; [lia | intros; lia].
  - destruct (Z.ltb_spec (key x) (key best)) as [Hlt|Hge].
    + destruct (IH x) as (i & Hi & Hmin). exists (S i). split; [done|].
      intros [|[|j]] y; simpl.
      * intros [= <-]. destruct (Hmin 0%nat x eq_refl) as [H _]. split; intros; lia.
      * intros [= <-]. destruct (Hmin 0%nat x eq_refl) as [H1 H2].
        split; [done|]. intros ?. apply H2. lia.
      * intros Hy. destruct (Hmin (S j) y Hy) as [H1 H2].
        split; [done|]. intros ?. apply H2. lia.
    + destruct (IH best) as (i & Hi & Hmin).
      destruct i as [|i].
      * exists 0%nat. split; [done|]. simpl in Hi. injection Hi as Hi.
        intros [|[|j]] y; simpl.
        -- intros [= <-]. rewrite <- Hi. split; intros; lia.
        -- intros [= <-]. rewrite <- Hi. split; intros; lia.
        -- intros Hy. destruct (Hmin (S j) y Hy) as [H1 _]. split; [done | intros; lia].
      * exists (S (S i)). split; [done|].
        intros [|[|j]] y; simpl.
        -- intros [= <-]. destruct (Hmin 0%nat best eq_refl) as [H1 H2].
           split; [done|]. intros _. apply H2. lia.
        -- intros [= <-]. destruct (Hmin 0%nat best eq_refl) as [H1 H2].
           assert (key (min_from key best xs) < key best) by (apply H2; lia).
           split; intros; lia.
        -- intros Hy. destruct (Hmin (S j) y Hy) as [H1 H2].
           split; [done|]. intros ?. apply H2. lia.
Qed.

Lemma min_by_spec {A} (key : A → Z) (xs : list A) :
  match min_by key xs with
  | Some m => ∃ i : nat, xs !! i = Some m
      ∧ ∀ (j : nat) y, xs !! j = Some y → key m ≤ key y ∧ ((j < i)%nat → key m < key y)
  | None => xs = []
  end.
Proof. destruct xs as [|x xs]; simpl; [done | apply min_from_spec]. Qed.


(** Positions in [omap f xs]: the item at position [j] of [xs], when kept,
    sits at position [length (omap f (take j xs))]. *)
Lemma omap_lookup_rank {A B} (f : A → option B) (xs : list A) (j : nat) x y :
  xs !! j = Some x → f x = Some y →
  omap f xs !! length (omap f (take j xs)) = Some y.
Proof.
  intros Hx Hy.
  assert (E : omap f xs = omap f (take j xs) ++ y :: omap f (drop (S j) xs)).
  { rewrite <- (take_drop_middle xs j x Hx) at 1.
    rewrite omap_app. simpl. by rewrite Hy. }
  rewrite E. by rewrite list_lookup_middle.
Qed.

Lemma omap_lookup_inv {A B} (f : A → option B) (xs : list A) (i : nat) y :
  omap f xs !! i = Some y →
  ∃ (k : nat) x, xs !! k = Some x ∧ f x = Some y ∧ length (omap f (take k xs)) = i.
Proof.
  revert i. induction xs as [|x xs IH]; intros i; simpl; [done|].
  destruct (f x) as [y'|] eqn:E.
  - destruct i as [|i]; simpl.
    + intros [= <-]. by exists 0%nat, x.
    + intros (k & x' & ? & ? & ?)%IH. exists (S k), x'. simpl. rewrite E. simpl. auto.
  - intros (k & x' & ? & ? & ?)%IH. exists (S k), x'. simpl. by rewrite E.
Qed.

Lemma omap_rank_lt {A B} (f : A → option B) (xs : list A) (j k : nat) x :
  xs !! j = Some x → is_Some (f x) → (j < k)%nat →
  (length (omap f (take j xs)) < length (omap f (take k xs)))%nat.
Proof.
  intros Hx [y Hy] Hjk.
  assert (Hk : take k xs = take j xs ++ x :: take (k - S j) (drop (S j) xs)).
  { rewrite <- (take_drop_middle xs j x Hx) at 1.
    rewrite take_app. rewrite length_take_le by (apply lookup_lt_Some in Hx; lia).
    rewrite take_take. replace (k `min` j)%nat with j by lia.
    f_equal. replace (k - j)%nat with (S (k - S j)) by lia. done. }
  rewrite Hk, omap_app, length_app. simpl. rewrite Hy. simpl. lia.
Qed.

(** The first minimum of the kept items, in terms of the source list. *)
Lemma min_by_omap_spec {A B} (f : A → option B) (key : B → Z) (xs : list A) :
  match min_by key (omap f xs) with
  | Some m => ∃ (i : nat) x, xs !! i = Some x ∧ f x = Some m
      ∧ ∀ (j : nat) x' y', xs !! j = Some x' → f x' = Some y' →
          key m ≤ key y' ∧ ((j < i)%nat → key m < key y')
  | None => ∀ x, x ∈ xs → f x = None
  end.
Proof.
  pose proof (min_by_spec key (omap f xs)) as H.
  destruct (min_by key (omap f xs)) as [m|].
  - destruct H as (i0 & Hi0 & Hmin).
    destruct (omap_lookup_inv _ _ _ _ Hi0) as (i & x & Hx & Hfx & Hrank).
    exists i, x. split; [done|]. split; [done|].
    intros j x' y' Hx' Hfx'.
    destruct (Hmin _ _ (omap_lookup_rank f xs j x' y' Hx' Hfx')) as [H1 H2].
    split; [done|]. intros Hji. apply H2. rewrite <- Hrank.
    eapply omap_rank_lt; eauto.
  - intros x Hx. destruct (f x) as [y|] eqn:E; [|done].
    assert (y ∈ omap f xs) by (apply list_elem_of_omap; eauto).
    rewrite H in *. by apply not_elem_of_nil in H0.
Qed.

(** ** The search loop, for any way of computing the totals *)

Section search_loop.
Context (totals : list string → result (option (Z * Z))) (budget : Z).

Lemma examine_with_Ok paths path t :
  totals path = Ok t →
  examine_with totals budget paths path
  = Ok (paths ++ option_list (judge totals budget path)).
Proof.
  intros E. unfold examine_with, judge. rewrite E. simpl.
  destruct t as [[d c]|]; [|by rewrite app_nil_r].
  destruct (d <=? budget); [done | by rewrite app_nil_r].
Qed.

Lemma examine_with_Raise paths path e :
  totals path = Raise e → examine_with totals budget paths path = Raise e.
Proof. intros E. unfold examine_with. by rewrite E. Qed.

(** The loop runs to its end when no chain raises, and then [paths]
    holds the kept candidates in enumeration order. *)
Lemma search_loop_Ok paths xs :
  (∀ p, p ∈ xs → ∃ t, totals p = Ok t) →
  for_each (examine_with totals budget) paths xs
  = Ok (paths ++ omap (judge totals budget) xs).
Proof.
  revert paths. induction xs as [|x xs IH]; intros paths H; simpl.
  - by rewrite app_nil_r.
  - destruct (H x) as [t Ht]; [by left|].
    rewrite (examine_with_Ok _ _ _ Ht). simpl.
    rewrite IH by (intros; apply H; by right).
    rewrite <- app_assoc. by destruct (judge totals budget x).
Qed.

Lemma search_loop_inv paths xs ps :
  for_each (examine_with totals budget) paths xs = Ok ps →
  (∀ p, p ∈ xs → ∃ t, totals p = Ok t)
  ∧ ps = paths ++ omap (judge totals budget) xs.
Proof.
  revert paths. induction xs as [|x xs IH]; intros paths; simpl.
  - intros [= <-]. split; [by intros ? ?%not_elem_of_nil | by rewrite app_nil_r].
  - destruct (totals x) as [t|e] eqn:Ht.
    + rewrite (examine_with_Ok _ _ _ Ht). simpl. intros [Hall ->]%IH. split.
      * intros p [->|?]%elem_of_cons; eauto.
      * rewrite <- app_assoc. by destruct (judge totals budget x).
    + by rewrite (examine_with_Raise _ _ _ Ht).
Qed.
End search_loop.

(** Whether the loop raises does not depend on the budget. *)
Lemma search_loop_budget totals b b' xs ps :
  for_each (examine_with totals b) [] xs = Ok ps →
  for_each (examine_with totals b') [] xs = Ok (omap (judge totals b') xs).
Proof.
  intros [H _]%search_loop_inv. by rewrite search_loop_Ok.
Qed.


(** ** The filters of the search against their description *)

Lemma node_Ok (MSG : DiGraph.t) v a :
  DiGraph.nodes MSG !! v = Some a → DiGraph.node MSG v = Ok a.
Proof. unfold DiGraph.node. by intros ->. Qed.

Lemma host_Some (MSG : DiGraph.t) v a :
  DiGraph.nodes MSG !! v = Some a → Spec.host MSG v = Some (DiGraph.physical a).
Proof. unfold Spec.host. by intros ->. Qed.

Lemma chain_labels_known MSG stage_nodes path :
  Spec.labels_known MSG stage_nodes → Spec.chain_of stage_nodes path →
  Forall (λ v, is_Some (DiGraph.nodes MSG !! v)) path.
Proof.
  intros Hk Hc. apply Forall_forall. intros v Hv.
  apply list_elem_of_lookup in Hv as [i Hi].
  destruct (Forall2_lookup_l _ _ _ _ _ Hc Hi) as (pool & Hpool & Hin).
  unfold Spec.labels_known in Hk. rewrite Forall_forall in Hk.
  specialize (Hk pool (list_elem_of_lookup_2 _ _ _ Hpool)).
  rewrite Forall_forall in Hk. by apply Hk.
Qed.

(** The first inner loop decides distinctness of the host ids. *)
Lemma hosts_distinct_spec MSG path (seen : gset Z) :
  Forall (λ v, is_Some (DiGraph.nodes MSG !! v)) path →
  ∃ b, hosts_distinct MSG path seen = Ok b
    ∧ (b = true ↔ NoDup (Spec.host MSG <$> path)
                  ∧ ∀ v h, v ∈ path → Spec.host MSG v = Some h → h ∉ seen).
Proof.
  revert seen. induction path as [|node rest IH]; intros seen Hk; simpl.
  - exists true. split; [done|]. split; [|done]. intros _. split; [constructor|].
    by intros ?? ?%not_elem_of_nil.
  - apply Forall_cons in Hk as [[a Ha] Hk].
    rewrite (node_Ok _ _ _ Ha). simpl.
    pose proof (host_Some _ _ _ Ha) as Hh.
    case_bool_decide as Hseen.
    + exists false. split; [done|]. split; [done|]. intros [_ H].
      exfalso. eapply H; [by left | done | done].
    + destruct (IH ({[DiGraph.physical a]} ∪ seen) Hk) as (b & -> & Hb).
      exists b. split; [done|]. rewrite Hb, NoDup_cons, Hh. split.
      * intros [Hnd Hout]. split; [split; [|done]|].
        -- intros (v & Hv & Hin)%list_elem_of_fmap.
           eapply (Hout v); [done | by symmetry | set_solver].
        -- intros v h [->|Hin]%elem_of_cons Hv.
           ++ rewrite Hh in Hv. by injection Hv as <-.
           ++ specialize (Hout v h Hin Hv). set_solver.
      * intros [[Hfresh Hnd] Hout]. split; [done|].
        intros v h Hin Hv. apply not_elem_of_union. split.
        -- rewrite elem_of_singleton. intros ->. apply Hfresh.
           apply list_elem_of_fmap. by exists v.
        -- apply (Hout v); [by right | done].
Qed.

Lemma connected_cons MSG u v rest :
  Spec.connected MSG (u :: v :: rest)
  ↔ is_Some (DiGraph.adj MSG !! (u, v)) ∧ Spec.connected MSG (v :: rest).
Proof.
  unfold Spec.connected. split.
  - intros H. split; [by apply (H 0%nat)|]. intros i. apply (H (S i)).
  - intros [H0 H] [|i] a b; simpl.
    + by intros [= <-] [= <-].
    + apply (H i).
Qed.

Lemma connected_short MSG path : (length path ≤ 1)%nat → Spec.connected MSG path.
Proof. intros Hlen i u v _ Hv%lookup_lt_Some. lia. Qed.

Lemma chain_edges_step MSG u v rest d0 c0 :
  chain_edges MSG (u :: v :: rest) d0 c0
  = match DiGraph.adj MSG !! (u, v) with
    | Some e => chain_edges MSG (v :: rest) (d0 + DiGraph.delay e) (c0 + DiGraph.cost e)
    | None => None
    end.
Proof. done. Qed.

Lemma path_sum_step {A} (f : A → A → Z) u v rest :
  path_sum f (u :: v :: rest) = f u v + path_sum f (v :: rest).
Proof. done. Qed.

(** The sum along a walk, hop by hop. *)
Lemma along_step {A} (w : A → A → Z) u v rest :
  Spec.along w (u :: v :: rest) = w u v + Spec.along w (v :: rest).
Proof. done. Qed.

Lemma along_nil {A} (w : A → A → Z) : Spec.along w [] = 0.
Proof. done. Qed.

Lemma along_one {A} (w : A → A → Z) u : Spec.along w [u] = 0.
Proof. done. Qed.

(** The sums the scripts compute over the hops of a path are the totals
    of the description. *)
Lemma path_sum_along {A} (attr : A → A → Z) path :
  path_sum attr path = Spec.along attr path.
Proof.
  induction path as [|u [|v rest] IH]; [done..|].
  by rewrite path_sum_step, along_step, IH.
Qed.

Lemma path_delay_along G path :
  path_delay G path = Spec.along (λ u v, Substrate.delay (Substrate.link G u v)) path.
Proof. apply path_sum_along. Qed.

Lemma path_cost_along G path :
  path_cost G path = Spec.along (λ u v, Substrate.cost (Substrate.link G u v)) path.
Proof. apply path_sum_along. Qed.

Lemma shortest_delay_spec G a b :
  path_delay G (Substrate.shortest_path G a b) = Spec.sp_delay G a b.
Proof. apply path_sum_along. Qed.

Lemma shortest_cost_spec G a b :
  path_cost G (Substrate.shortest_path G a b) = Spec.sp_cost G a b.
Proof. apply path_sum_along. Qed.

(** The second inner loop decides connectivity and sums the edge labels. *)
Lemma chain_edges_spec MSG path d0 c0 :
  match chain_edges MSG path d0 c0 with
  | Some (d, c) =>
      Spec.connected MSG path
      ∧ d = d0 + Spec.inter_delay MSG path ∧ c = c0 + Spec.inter_cost MSG path
  | None => ¬ Spec.connected MSG path
  end.
Proof.
  revert d0 c0. induction path as [|u rest IH]; intros d0 c0.
  { simpl. split; [apply connected_short; simpl; lia|].
    unfold Spec.inter_delay, Spec.inter_cost; rewrite !along_nil; lia. }
  destruct rest as [|v rest].
  { simpl. split; [apply connected_short; simpl; lia|].
    unfold Spec.inter_delay, Spec.inter_cost; rewrite !along_one; lia. }
  rewrite chain_edges_step.
  unfold Spec.inter_delay, Spec.inter_cost. rewrite !along_step.
  unfold Spec.edge_delay at 1, Spec.edge_cost at 1.
  destruct (DiGraph.adj MSG !! (u, v)) as [e|] eqn:He;
    cbn [default fmap option_fmap option_map].
  - specialize (IH (d0 + DiGraph.delay e) (c0 + DiGraph.cost e)).
    destruct (chain_edges MSG (v :: rest) _ _) as [[d c]|].
    + destruct IH as (Hc & -> & ->). rewrite connected_cons.
      split; [split; [by eexists | done]|]. unfold Spec.inter_delay, Spec.inter_cost, id. lia.
    + rewrite connected_cons. tauto.
  - rewrite connected_cons. intros [[? ?] _]. congruence.
Qed.

(** The code's ingress and egress terms are the described ones. *)
Lemma endpoint_terms_ingress Gp (src first : Z) :
  endpoint_terms Gp (negb (first =? src)) src first
  = (Spec.endpoint_delay Gp src first, Spec.endpoint_cost Gp src first).
Proof.
  unfold endpoint_terms, Spec.endpoint_delay, Spec.endpoint_cost.
  destruct (Z.eqb_spec first src) as [->|Hne]; simpl.
  - by rewrite !decide_True.
  - rewrite !decide_False by congruence.
    destruct (Substrate.has_path Gp src first); [|done].
    by rewrite shortest_delay_spec, shortest_cost_spec.
Qed.

Lemma endpoint_terms_egress Gp (final dest : Z) :
  endpoint_terms Gp (negb (final =? dest)) final dest
  = (Spec.endpoint_delay Gp final dest, Spec.endpoint_cost Gp final dest).
Proof.
  unfold endpoint_terms, Spec.endpoint_delay, Spec.endpoint_cost.
  destruct (Z.eqb_spec final dest) as [->|Hne]; simpl.
  - by rewrite !decide_True.
  - rewrite !decide_False by congruence.
    destruct (Substrate.has_path Gp final dest); [|done].
    by rewrite shortest_delay_spec, shortest_cost_spec.
Qed.

Lemma distinct_iff MSG path (b : bool) :
  (b = true ↔ NoDup (Spec.host MSG <$> path)
              ∧ ∀ v h, v ∈ path → Spec.host MSG v = Some h → h ∉ (∅ : gset Z)) →
  (b = true ↔ Spec.distinct MSG path).
Proof. unfold Spec.distinct. intros ->. split; [tauto|]. split; [done|set_solver]. Qed.

(** [chain_totals] of [MSG.py] on a non-empty chain of known labels. *)
Lemma MSGpy_chain_totals_spec MSG sfc Gp path :
  path ≠ [] → Forall (λ v, is_Some (DiGraph.nodes MSG !! v)) path →
  ∃ t, MSGpy.chain_totals MSG sfc Gp path = Ok t
    ∧ match t with
      | Some (d, c) =>
          Spec.distinct MSG path ∧ Spec.connected MSG path
          ∧ Spec.total_delay Gp sfc MSG path = Some d
          ∧ Spec.total_cost Gp sfc MSG path = Some c
      | None => ¬ (Spec.distinct MSG path ∧ Spec.connected MSG path)
      end.
Proof.
  intros Hne Hk. unfold MSGpy.chain_totals.
  destruct (hosts_distinct_spec MSG path ∅ Hk) as (b & -> & Hb%distinct_iff).
  simpl. destruct b; simpl.
  2:{ exists None. split; [done|]. intros [H _]. apply Hb in H. done. }
  assert (Hd : Spec.distinct MSG path) by by apply Hb.
  pose proof (chain_edges_spec MSG path 0 0) as Hc.
  destruct (chain_edges MSG path 0 0) as [[delay cost]|] eqn:He.
  2:{ exists None. split; [done|]. tauto. }
  destruct Hc as (Hc & -> & ->).
  destruct path as [|first rest]; [done|].
  pose proof Hk as Hk'. apply Forall_cons in Hk' as [[a Ha] _].
  assert (is_Some (last (first :: rest))) as [final Hfinal].
  { rewrite last_is_Some. done. }
  assert (is_Some (DiGraph.nodes MSG !! final)) as [z Hz].
  { eapply (proj1 (Forall_forall _ _) Hk). by apply last_Some_elem_of. }
  simpl head. simpl of_option. simpl.
  rewrite (node_Ok _ _ _ Ha). simpl. rewrite endpoint_terms_ingress.
  rewrite Hfinal. simpl. rewrite (node_Ok _ _ _ Hz). simpl.
  rewrite endpoint_terms_egress.
  eexists. split; [done|]. simpl.
  split; [done|]. split; [done|].
  unfold Spec.total_delay, Spec.total_cost, Spec.first_host, Spec.last_host.
  rewrite Hfinal. simpl.
  rewrite (host_Some _ _ _ Ha), (host_Some _ _ _ Hz). simpl.
  split; f_equal; lia.
Qed.

(** [chain_totals] of the brute-force script on a chain of known labels. *)
Lemma BruteForce_chain_totals_spec MSG path :
  Forall (λ v, is_Some (DiGraph.nodes MSG !! v)) path →
  ∃ t, BruteForce.chain_totals MSG path = Ok t
    ∧ match t with
      | Some (d, c) =>
          Spec.distinct MSG path ∧ Spec.connected MSG path
          ∧ d = Spec.inter_delay MSG path ∧ c = Spec.inter_cost MSG path
      | None => ¬ (Spec.distinct MSG path ∧ Spec.connected MSG path)
      end.
Proof.
  intros Hk. unfold BruteForce.chain_totals.
  destruct (hosts_distinct_spec MSG path ∅ Hk) as (b & -> & Hb%distinct_iff).
  simpl. destruct b; simpl.
  2:{ exists None. split; [done|]. intros [H _]. apply Hb in H. done. }
  assert (Hd : Spec.distinct MSG path) by by apply Hb.
  pose proof (chain_edges_spec MSG path 0 0) as Hc.
  destruct (chain_edges MSG path 0 0) as [[delay cost]|] eqn:He.
  2:{ exists None. split; [done|]. tauto. }
  destruct Hc as (Hc & -> & ->). eexists. split; [done|]. simpl.
  repeat split; try done; lia.
Qed.


(** ** The two searches as instances of the loop *)

Lemma MSGpy_feasible_paths_unfold MSG stage_nodes sfc Gp :
  MSGpy.feasible_paths MSG stage_nodes sfc Gp
  = for_each (examine_with (MSGpy.chain_totals MSG sfc Gp) (SFCRequest.max_delay sfc))
             [] (product stage_nodes).
Proof. reflexivity. Qed.

Lemma BruteForce_feasible_paths_unfold MSG stage_nodes sfc G :
  BruteForce.feasible_paths MSG stage_nodes sfc G
  = for_each (examine_with (BruteForce.chain_totals MSG) (SFCRequest.max_delay sfc))
             [] (product stage_nodes).
Proof. reflexivity. Qed.

(** A chain is kept by [MSG.py] exactly when it is feasible. *)
Lemma MSGpy_judge_spec MSG sfc Gp path y :
  path ≠ [] → Forall (λ v, is_Some (DiGraph.nodes MSG !! v)) path →
  judge (MSGpy.chain_totals MSG sfc Gp) (SFCRequest.max_delay sfc) path = Some y
  ↔ ∃ d c, y = (path, d, c) ∧ Spec.feasible Gp sfc MSG path d c.
Proof.
  intros Hne Hk. unfold judge, Spec.feasible.
  destruct (MSGpy_chain_totals_spec MSG sfc Gp path Hne Hk) as (t & -> & Ht).
  destruct t as [[d c]|].
  - destruct Ht as (Hd & Hc & Htd & Htc).
    destruct (Z.leb_spec d (SFCRequest.max_delay sfc)).
    + split.
      * intros [= <-]. by exists d, c.
      * intros (d' & c' & -> & _ & _ & Hd' & Hc' & _). congruence.
    + split; [done|]. intros (d' & c' & -> & _ & _ & Hd' & Hc' & Hle).
      assert (d' = d) by congruence. lia.
  - split; [done|]. intros (d' & c' & -> & ? & ? & _). tauto.
Qed.

Lemma BruteForce_judge_spec MSG sfc path y :
  Forall (λ v, is_Some (DiGraph.nodes MSG !! v)) path →
  judge (BruteForce.chain_totals MSG) (SFCRequest.max_delay sfc) path = Some y
  ↔ ∃ d c, y = (path, d, c) ∧ Spec.feasible_inter sfc MSG path d c.
Proof.
  intros Hk. unfold judge, Spec.feasible_inter.
  destruct (BruteForce_chain_totals_spec MSG path Hk) as (t & -> & Ht).
  destruct t as [[d c]|].
  - destruct Ht as (Hd & Hc & Htd & Htc).
    destruct (Z.leb_spec d (SFCRequest.max_delay sfc)).
    + split.
      * intros [= <-]. by exists d, c.
      * intros (d' & c' & -> & _ & _ & Hd' & Hc' & _). congruence.
    + split; [done|]. intros (d' & c' & -> & _ & _ & Hd' & Hc' & Hle).
      assert (d' = d) by congruence. lia.
  - split; [done|]. intros (d' & c' & -> & ? & ? & _). tauto.
Qed.

(** From the kept candidates to the result of the search. *)
Lemma search_result_of_judge (feas : list string → Z → Z → Prop)
    (totals : list string → result (option (Z * Z))) (budget : Z)
    (stage_nodes : list (list string)) :
  (∀ p y, Spec.chain_of stage_nodes p →
     judge totals budget p = Some y ↔ ∃ d c, y = (p, d, c) ∧ feas p d c) →
  Spec.search_result feas stage_nodes
    (min_by (λ x, x.2) (omap (judge totals budget) (product stage_nodes))).
Proof.
  intros Hj.
  pose proof (min_by_omap_spec (judge totals budget) (λ x : candidate, x.2)
                (product stage_nodes)) as H.
  destruct (min_by _ _) as [[[p d] c]|]; simpl.
  - destruct H as (i & x & Hx & Hfx & Hmin).
    assert (Hcx : Spec.chain_of stage_nodes x).
    { apply elem_of_product. eapply list_elem_of_lookup_2, Hx. }
    apply Hj in Hfx as (d0 & c0 & [= -> -> ->] & Hfeas); [|done].
    split; [done|]. split; [done|]. split.
    { intros q d' c' Hcq Hfq.
      assert (Hq : q ∈ product stage_nodes) by by apply elem_of_product.
      apply list_elem_of_lookup in Hq as [j Hq].
      apply (Hmin j q (q, d', c') Hq). apply Hj; eauto. }
    exists i. split; [done|].
    intros j q d' c' Hq Hfq.
    assert (Hcq : Spec.chain_of stage_nodes q).
    { apply elem_of_product. eapply list_elem_of_lookup_2, Hq. }
    apply (Hmin j q (q, d', c') Hq). apply Hj; eauto.
  - intros q d' c' Hcq Hfq.
    assert (Hq : q ∈ product stage_nodes) by by apply elem_of_product.
    specialize (H q Hq).
    assert (judge totals budget q = Some (q, d', c')) by (apply Hj; eauto).
    congruence.
Qed.

Lemma MSGpy_find_feasible_path_spec MSG stage_nodes sfc Gp :
  stage_nodes ≠ [] → Spec.labels_known MSG stage_nodes →
  ∃ r, MSGpy.find_feasible_path MSG stage_nodes sfc Gp = Ok r
     ∧ Spec.search_result (Spec.feasible Gp sfc MSG) stage_nodes r.
Proof.
  intros Hne Hk. unfold MSGpy.find_feasible_path.
  rewrite MSGpy_feasible_paths_unfold.
  assert (Hp : ∀ p, Spec.chain_of stage_nodes p →
            p ≠ [] ∧ Forall (λ v, is_Some (DiGraph.nodes MSG !! v)) p).
  { intros p Hc. split; [|by eapply chain_labels_known].
    apply Forall2_length in Hc. destruct stage_nodes; [done|]. by destruct p. }
  rewrite search_loop_Ok.
  - eexists. split; [done|]. apply search_result_of_judge.
    intros p y [? ?]%Hp. by apply MSGpy_judge_spec.
  - intros p [? ?]%elem_of_product%Hp.
    destruct (MSGpy_chain_totals_spec MSG sfc Gp p) as (t & ? & _); eauto.
Qed.

Lemma BruteForce_find_feasible_path_spec MSG stage_nodes sfc G :
  Spec.labels_known MSG stage_nodes →
  ∃ r, BruteForce.find_feasible_path MSG stage_nodes sfc G = Ok r
     ∧ Spec.search_result (Spec.feasible_inter sfc MSG) stage_nodes r.
Proof.
  intros Hk. unfold BruteForce.find_feasible_path.
  rewrite BruteForce_feasible_paths_unfold.
  rewrite search_loop_Ok.
  - eexists. split; [done|]. apply search_result_of_judge.
    intros p y Hc. apply BruteForce_judge_spec. by eapply chain_labels_known.
  - intros p Hc%elem_of_product.
    destruct (BruteForce_chain_totals_spec MSG p) as (t & ? & _); eauto.
    by eapply chain_labels_known.
Qed.

(** [MSG.py] on a request without stages: the only chain is the empty
    one, and [path[0]] raises. *)
Lemma MSGpy_find_feasible_path_no_stage MSG sfc Gp :
  MSGpy.find_feasible_path MSG [] sfc Gp = Raise IndexError.
Proof. reflexivity. Qed.

(** An empty stage list leaves no chain to examine. *)
Lemma MSGpy_find_feasible_path_empty_stage MSG stage_nodes sfc Gp :
  [] ∈ stage_nodes → MSGpy.find_feasible_path MSG stage_nodes sfc Gp = Ok None.
Proof.
  intros H. unfold MSGpy.find_feasible_path, MSGpy.feasible_paths.
  by rewrite product_empty_pool.
Qed.

Lemma BruteForce_find_feasible_path_empty_stage MSG stage_nodes sfc G :
  [] ∈ stage_nodes → BruteForce.find_feasible_path MSG stage_nodes sfc G = Ok None.
Proof.
  intros H. unfold BruteForce.find_feasible_path, BruteForce.feasible_paths.
  by rewrite product_empty_pool.
Qed.

(** Raising the budget keeps every kept candidate. *)
Lemma judge_budget_mono totals (b b' : Z) path y :
  b' ≤ b → judge totals b' path = Some y → judge totals b path = Some y.
Proof.
  unfold judge. intros Hle. destruct (totals path) as [[[d c]|]|]; try done.
  destruct (Z.leb_spec d b'); [|done]. intros [= <-].
  destruct (Z.leb_spec d b); [done | lia].
Qed.

Lemma omap_sublist {A B} (f g : A → option B) (xs : list A) :
  (∀ x y, f x = Some y → g x = Some y) →
  omap f xs `sublist_of` omap g xs.
Proof.
  intros H. induction xs as [|x xs IH]; simpl; [done|].
  destruct (f x) as [y|] eqn:E.
  - rewrite (H x y E). by constructor.
  - destruct (g x); [by constructor | done].
Qed.

Lemma MSGpy_feasible_paths_mono MSG stage_nodes sfc Gp (d d' : Z) ps' :
  d' ≤ d →
  MSGpy.feasible_paths MSG stage_nodes (SFCRequest.with_max_delay d' sfc) Gp = Ok ps' →
  ∃ ps, MSGpy.feasible_paths MSG stage_nodes (SFCRequest.with_max_delay d sfc) Gp = Ok ps
      ∧ ps' `sublist_of` ps.
Proof.
  intros Hle H.
  change (for_each (examine_with (MSGpy.chain_totals MSG sfc Gp) d') []
            (product stage_nodes) = Ok ps') in H.
  change (∃ ps, for_each (examine_with (MSGpy.chain_totals MSG sfc Gp) d) []
                  (product stage_nodes) = Ok ps ∧ ps' `sublist_of` ps).
  pose proof (search_loop_budget _ _ d _ _ H) as Hd.
  apply search_loop_inv in H as [_ ->]. simpl.
  eexists. split; [done|]. apply omap_sublist. intros x y.
  by apply judge_budget_mono.
Qed.


(** ** [construct_msg]: the stage lists and the node dictionary *)

Lemma has_resources_spec (n : PhysicalNode.t) (d : Z) :
  PhysicalNode.has_resources n d = true
  ↔ d ≤ PhysicalNode.cpu n - PhysicalNode.used_cpu n.
Proof. unfold PhysicalNode.has_resources. rewrite Z.geb_le. done. Qed.

Lemma admit_host_spec used s d MSG cur n :
  admit_host used s d (MSG, cur) n
  = if decide (d ≤ PhysicalNode.cpu n - PhysicalNode.used_cpu n
               ∧ PhysicalNode.id n ∉ used)
    then (DiGraph.add_node (vname (PhysicalNode.id n) s)
            {| DiGraph.physical := PhysicalNode.id n; DiGraph.stage := s;
               DiGraph.cpu := d |} MSG,
          cur ++ [vname (PhysicalNode.id n) s])
    else (MSG, cur).
Proof.
  unfold admit_host.
  destruct (PhysicalNode.has_resources n d) eqn:E; simpl.
  - apply has_resources_spec in E. case_bool_decide; case_decide; tauto || done.
  - case_decide as H; [|done]. destruct H as [H%has_resources_spec _]. congruence.
Qed.

Lemma admit_hosts_spec used s d stages ns MSG cur :
  stages !! s = Some d →
  ∃ MSG', foldl (admit_host used s d) (MSG, cur) ns
          = (MSG', cur ++ Spec.stage_candidates ns used s d)
    ∧ DiGraph.adj MSG' = DiGraph.adj MSG
    ∧ (map_Forall (node_ok stages) (DiGraph.nodes MSG) →
       map_Forall (node_ok stages) (DiGraph.nodes MSG'))
    ∧ (∀ v, is_Some (DiGraph.nodes MSG !! v) ∨ v ∈ Spec.stage_candidates ns used s d
            → is_Some (DiGraph.nodes MSG' !! v)).
Proof.
  intros Hs. revert MSG cur. induction ns as [|n ns IH]; intros MSG cur.
  - exists MSG. simpl. rewrite app_nil_r. split_and!; try done.
    intros v [?|?%not_elem_of_nil]; done.
  - cbn [foldl]. rewrite admit_host_spec. unfold Spec.stage_candidates.
    rewrite filter_cons. case_decide as Hq.
    + destruct (IH (DiGraph.add_node (vname (PhysicalNode.id n) s)
                      {| DiGraph.physical := PhysicalNode.id n; DiGraph.stage := s;
                         DiGraph.cpu := d |} MSG)
                   (cur ++ [vname (PhysicalNode.id n) s]))
        as (MSG' & -> & Hadj & Hok & Hin).
      exists MSG'. split_and!.
      * rewrite fmap_cons, <- app_assoc. done.
      * done.
      * intros H. apply Hok. simpl. apply map_Forall_insert_2; [|done].
        split; done.
      * intros v Hv. apply Hin. simpl. rewrite fmap_cons, elem_of_cons in Hv.
        destruct Hv as [Hv|[->|Hv]].
        -- left. destruct (decide (vname (PhysicalNode.id n) s = v)) as [->|].
           ++ rewrite lookup_insert_eq. eauto.
           ++ by rewrite lookup_insert_ne.
        -- left. rewrite lookup_insert_eq. eauto.
        -- by right.
    + destruct (IH MSG cur) as (MSG' & -> & Hadj & Hok & Hin).
      exists MSG'. split_and!; done.
Qed.

Lemma build_stages_spec used σ (stages pre : list Z) post :
  stages = pre ++ post →
  ∃ MSG, foldl (build_stage used σ) (DiGraph.empty, []) (enumerate pre)
         = (MSG, stage_lists σ used pre)
    ∧ DiGraph.adj MSG = ∅
    ∧ map_Forall (node_ok stages) (DiGraph.nodes MSG)
    ∧ Spec.labels_known MSG (stage_lists σ used pre).
Proof.
  revert post. induction pre as [|d pre IH] using rev_ind; intros post Hst.
  - exists DiGraph.empty. split_and!; try done. constructor.
  - destruct (IH (d :: post)) as (MSG & HMSG & Hadj & Hok & Hk).
    { by rewrite Hst, <- app_assoc. }
    unfold enumerate, stage_lists. rewrite !imap_app, foldl_app. simpl.
    fold (enumerate pre). rewrite HMSG. rewrite Nat.add_0_r.
    assert (Hs : stages !! length pre = Some d).
    { rewrite Hst, <- app_assoc. simpl. by rewrite list_lookup_middle. }
    destruct (admit_hosts_spec used (length pre) d stages σ MSG [] Hs)
      as (MSG' & HMSG' & Hadj' & Hok' & Hin).
    exists MSG'. simpl. rewrite HMSG'. simpl. split_and!.
    + done.
    + congruence.
    + auto.
    + apply Forall_app. split.
      * eapply Forall_impl; [apply Hk|]. intros pool Hpool.
        eapply Forall_impl; [apply Hpool|]. intros v ?. apply Hin. by left.
      * constructor; [|constructor]. apply Forall_forall. intros v ?.
        apply Hin. by right.
Qed.


(** ** [construct_msg]: the edges *)

Lemma link_pair_spec Gp u v (MSG : DiGraph.t) :
  is_Some (DiGraph.nodes MSG !! u) → is_Some (DiGraph.nodes MSG !! v) →
  link_pair Gp u MSG v
  = Ok {| DiGraph.nodes := DiGraph.nodes MSG;
          DiGraph.adj := add_pair Gp (DiGraph.nodes MSG) (DiGraph.adj MSG) (u, v) |}.
Proof.
  intros [au Hu] [av Hv]. unfold link_pair, add_pair, pair_edge. simpl.
  rewrite (node_Ok _ _ _ Hu), (node_Ok _ _ _ Hv), Hu, Hv. simpl.
  destruct MSG as [N E]. simpl.
  destruct (DiGraph.physical au =? DiGraph.physical av); [done|].
  destruct (Substrate.has_path Gp _ _); [|done].
  unfold Spec.edge_label. by rewrite shortest_delay_spec, shortest_cost_spec.
Qed.

Lemma link_pairs_spec Gp (ps : list (string * string)) (MSG : DiGraph.t) :
  Forall (λ p, is_Some (DiGraph.nodes MSG !! p.1)
               ∧ is_Some (DiGraph.nodes MSG !! p.2)) ps →
  for_each (λ M p, link_pair Gp p.1 M p.2) MSG ps
  = Ok {| DiGraph.nodes := DiGraph.nodes MSG;
          DiGraph.adj := foldl (add_pair Gp (DiGraph.nodes MSG)) (DiGraph.adj MSG) ps |}.
Proof.
  revert MSG. induction ps as [|[u v] ps IH]; intros MSG Hk.
  - by destruct MSG.
  - apply Forall_cons in Hk as [[Hu Hv] Hk]. simpl in Hu, Hv.
    cbn [for_each foldl fst snd]. rewrite link_pair_spec by done. simpl.
    by rewrite IH.
Qed.

Lemma link_row_flat Gp u vs (MSG : DiGraph.t) :
  for_each (link_pair Gp u) MSG vs
  = for_each (λ M p, link_pair Gp p.1 M p.2) MSG (v ← vs; [(u, v)]).
Proof.
  revert MSG. induction vs as [|v vs IH]; intros MSG; [done|].
  simpl. destruct (link_pair Gp u MSG v); simpl; [apply IH | done].
Qed.

Lemma link_block_flat Gp us vs (MSG : DiGraph.t) :
  for_each (λ M u, for_each (link_pair Gp u) M vs) MSG us
  = for_each (λ M p, link_pair Gp p.1 M p.2) MSG (u ← us; v ← vs; [(u, v)]).
Proof.
  revert MSG. induction us as [|u us IH]; intros MSG; [done|].
  cbn [for_each mbind list_bind]. rewrite for_each_app, <- link_row_flat.
  destruct (for_each (link_pair Gp u) MSG vs); simpl; [apply IH | done].
Qed.

(** The edge loops visit the pairs of [stage_pairs], in that order. *)
Lemma link_stages_flat Gp stage_nodes (MSG : DiGraph.t) :
  link_stages Gp stage_nodes MSG
  = for_each (λ M p, link_pair Gp p.1 M p.2) MSG (stage_pairs stage_nodes).
Proof.
  revert MSG. induction stage_nodes as [|us rest IH]; intros MSG; [done|].
  destruct rest as [|vs rest]; [done|].
  change (link_stages Gp (us :: vs :: rest) MSG)
    with (MSG' ← for_each (λ M u, for_each (link_pair Gp u) M vs) MSG us;
          link_stages Gp (vs :: rest) MSG').
  change (stage_pairs (us :: vs :: rest))
    with ((u ← us; v ← vs; [(u, v)]) ++ stage_pairs (vs :: rest)).
  rewrite for_each_app, link_block_flat.
  destruct (for_each _ MSG _); simpl; [apply IH | done].
Qed.

Lemma elem_of_stage_pairs stage_nodes u v :
  (u, v) ∈ stage_pairs stage_nodes
  ↔ ∃ (s : nat) us vs, stage_nodes !! s = Some us ∧ stage_nodes !! S s = Some vs
                       ∧ u ∈ us ∧ v ∈ vs.
Proof.
  induction stage_nodes as [|us rest IH]; simpl.
  { split; [by intros ?%not_elem_of_nil | by intros (s & ? & ? & ? & _)]. }
  destruct rest as [|vs rest].
  { split; [by intros ?%not_elem_of_nil|].
    intros ([|s] & ? & ? & ? & ? & _); done. }
  rewrite elem_of_app, IH. split.
  - intros [H|(s & us' & vs' & ? & ? & ? & ?)].
    + apply list_elem_of_bind in H as (u' & H & Hu).
      apply list_elem_of_bind in H as (v' & H & Hv).
      apply list_elem_of_singleton in H as [= -> ->].
      by exists 0%nat, us, vs.
    + by exists (S s), us', vs'.
  - intros ([|s] & us' & vs' & Hus & Hvs & Hu & Hv).
    + injection Hus as <-. injection Hvs as <-. left.
      apply list_elem_of_bind. exists u. split; [|done].
      apply list_elem_of_bind. exists v. split; [|done].
      by apply list_elem_of_singleton.
    + right. by exists s, us', vs'.
Qed.

Lemma stage_pairs_known (MSG : DiGraph.t) stage_nodes :
  Spec.labels_known MSG stage_nodes →
  Forall (λ p, is_Some (DiGraph.nodes MSG !! p.1)
               ∧ is_Some (DiGraph.nodes MSG !! p.2)) (stage_pairs stage_nodes).
Proof.
  intros Hk. apply Forall_forall. intros [u v] H.
  apply elem_of_stage_pairs in H as (s & us & vs & Hus & Hvs & Hu & Hv).
  unfold Spec.labels_known in Hk. rewrite Forall_forall in Hk.
  pose proof (Hk us (list_elem_of_lookup_2 _ _ _ Hus)) as H1.
  pose proof (Hk vs (list_elem_of_lookup_2 _ _ _ Hvs)) as H2.
  rewrite Forall_forall in H1, H2. split; [by apply H1 | by apply H2].
Qed.

(** The edge dictionary after the loops: the visited pairs carry the edge
    of their pair, the others are untouched. *)
Lemma add_pairs_lookup Gp nodes adj ps k :
  foldl (add_pair Gp nodes) adj ps !! k
  = match (if decide (k ∈ ps) then pair_edge Gp nodes k else None) with
    | Some e => Some e
    | None => adj !! k
    end.
Proof.
  revert adj. induction ps as [|p ps IH]; intros adj; cbn [foldl].
  - destruct (decide (k ∈ [])) as [?%not_elem_of_nil|]; done.
  - rewrite IH. unfold add_pair.
    destruct (decide (k ∈ ps)) as [Hin|Hnin].
    + rewrite decide_True by by right.
      destruct (pair_edge Gp nodes k) as [e|] eqn:Ek; [done|].
      destruct (decide (p = k)) as [->|Hne].
      * by rewrite Ek.
      * destruct (pair_edge Gp nodes p); [by rewrite lookup_insert_ne | done].
    + destruct (decide (p = k)) as [->|Hne].
      * rewrite decide_True by by left.
        destruct (pair_edge Gp nodes k) as [e|]; [by rewrite lookup_insert_eq | done].
      * rewrite decide_False by (intros [?|?]%elem_of_cons; congruence).
        destruct (pair_edge Gp nodes p); [by rewrite lookup_insert_ne | done].
Qed.

(** [construct_msg] never raises and hands the store back as it got it;
    its stage lists, node entries and edges are as follows. *)
Lemma construct_msg_spec Gp sfc used σ :
  ∃ MSG, construct_msg Gp sfc used σ
         = Ok ((MSG, stage_lists σ used (SFCRequest.stages sfc)), σ)
    ∧ map_Forall (node_ok (SFCRequest.stages sfc)) (DiGraph.nodes MSG)
    ∧ Spec.labels_known MSG (stage_lists σ used (SFCRequest.stages sfc))
    ∧ ∀ k, DiGraph.adj MSG !! k
           = if decide (k ∈ stage_pairs (stage_lists σ used (SFCRequest.stages sfc)))
             then pair_edge Gp (DiGraph.nodes MSG) k else None.
Proof.
  destruct (build_stages_spec used σ (SFCRequest.stages sfc) (SFCRequest.stages sfc) [])
    as (MSG0 & H0 & Hadj & Hok & Hk); [by rewrite app_nil_r|].
  unfold construct_msg. unfold mbind at 1, St_bind, get. rewrite H0.
  unfold mbind, St_bind, lift. rewrite link_stages_flat.
  rewrite link_pairs_spec by by apply stage_pairs_known.
  eexists. split; [done|]. simpl. split_and!; try done.
  intros k. rewrite add_pairs_lookup, Hadj, lookup_empty.
  by destruct (decide _); [destruct (pair_edge _ _ _)|].
Qed.


(** ** Labels, stage lists and hosts *)

Lemma stage_lists_lookup σ used stages (s : nat) :
  stage_lists σ used stages !! s = (Spec.stage_candidates σ used s <$> (stages !! s)).
Proof. unfold stage_lists. apply list_lookup_imap. Qed.

Lemma stage_lists_length σ used stages :
  length (stage_lists σ used stages) = length stages.
Proof. unfold stage_lists. apply length_imap. Qed.

Lemma elem_of_stage_candidates σ used (s : nat) d v :
  v ∈ Spec.stage_candidates σ used s d
  ↔ ∃ n, n ∈ σ ∧ d ≤ PhysicalNode.cpu n - PhysicalNode.used_cpu n
         ∧ (PhysicalNode.id n ∉ used) ∧ v = vname (PhysicalNode.id n) s.
Proof.
  unfold Spec.stage_candidates. rewrite list_elem_of_fmap. split.
  - intros (n & -> & (Hq & Hin)%list_elem_of_filter). exists n. tauto.
  - intros (n & Hin & ? & ? & ->). exists n. split; [done|].
    apply list_elem_of_filter. tauto.
Qed.

(** The attributes stored under the label of host [h] at stage [s]. *)
Lemma node_ok_attr stages (h : Z) (s : nat) d a :
  node_ok stages (vname h s) a → stages !! s = Some d →
  a = {| DiGraph.physical := h; DiGraph.stage := s; DiGraph.cpu := d |}.
Proof.
  intros [Hv Hd] Hs. apply vname_inj in Hv as [-> ->].
  destruct a as [p st c]. simpl in *. congruence.
Qed.

Lemma node_ok_host (MSG : DiGraph.t) stages v a :
  map_Forall (node_ok stages) (DiGraph.nodes MSG) →
  DiGraph.nodes MSG !! v = Some a →
  label_host v = Ok (DiGraph.physical a).
Proof.
  intros Hok Ha. destruct (Hok v a Ha) as [-> _]. apply label_host_vname.
Qed.

(** A vertex of a stage list built by [construct_msg]: its host, the
    ledger entry it was admitted for, and its node entry. *)
Lemma stage_vertex (MSG : DiGraph.t) σ used stages (s : nat) pool v :
  map_Forall (node_ok stages) (DiGraph.nodes MSG) →
  Spec.labels_known MSG (stage_lists σ used stages) →
  stage_lists σ used stages !! s = Some pool → v ∈ pool →
  ∃ d n, stages !! s = Some d ∧ n ∈ σ
       ∧ d ≤ PhysicalNode.cpu n - PhysicalNode.used_cpu n
       ∧ (PhysicalNode.id n ∉ used)
       ∧ v = vname (PhysicalNode.id n) s
       ∧ DiGraph.nodes MSG !! v
         = Some {| DiGraph.physical := PhysicalNode.id n; DiGraph.stage := s;
                   DiGraph.cpu := d |}.
Proof.
  intros Hok Hk Hpool Hv. rewrite stage_lists_lookup in Hpool.
  destruct (stages !! s) as [d|] eqn:Hs; [|done]. injection Hpool as <-.
  pose proof Hv as Hv'.
  apply elem_of_stage_candidates in Hv as (n & Hn & Hfree & Hused & ->).
  exists d, n. split_and!; try done.
  unfold Spec.labels_known in Hk. rewrite Forall_forall in Hk.
  assert (Hin : Spec.stage_candidates σ used s d ∈ stage_lists σ used stages).
  { eapply list_elem_of_lookup_2. rewrite stage_lists_lookup, Hs. done. }
  specialize (Hk _ Hin). rewrite Forall_forall in Hk.
  destruct (Hk _ Hv') as [a Ha]. rewrite Ha. f_equal.
  eapply node_ok_attr; [by apply (Hok _ _ Ha) | done].
Qed.

(** The edges of the MSG built by [construct_msg]. *)
Lemma construct_msg_edges Gp (MSG : DiGraph.t) stage_nodes u v e :
  Spec.labels_known MSG stage_nodes →
  (∀ k, DiGraph.adj MSG !! k
        = if decide (k ∈ stage_pairs stage_nodes)
          then pair_edge Gp (DiGraph.nodes MSG) k else None) →
  DiGraph.adj MSG !! (u, v) = Some e
  ↔ ∃ (s : nat) us vs pu pv,
      stage_nodes !! s = Some us ∧ stage_nodes !! S s = Some vs
      ∧ u ∈ us ∧ v ∈ vs
      ∧ Spec.host MSG u = Some pu ∧ Spec.host MSG v = Some pv
      ∧ pu ≠ pv ∧ Substrate.has_path Gp pu pv = true
      ∧ e = Spec.edge_label Gp pu pv.
Proof.
  intros Hk Hadj. rewrite Hadj. unfold pair_edge, Spec.host. simpl. split.
  - case_decide as Hin; [|done].
    apply elem_of_stage_pairs in Hin as (s & us & vs & Hus & Hvs & Hu & Hv).
    destruct (DiGraph.nodes MSG !! u) as [au|]; [|done].
    destruct (DiGraph.nodes MSG !! v) as [av|]; [|done]. simpl.
    destruct (Z.eqb_spec (DiGraph.physical au) (DiGraph.physical av)); [done|].
    destruct (Substrate.has_path Gp _ _) eqn:Hp; [|done].
    intros [= <-]. exists s, us, vs, (DiGraph.physical au), (DiGraph.physical av).
    split_and!; done.
  - intros (s & us & vs & pu & pv & Hus & Hvs & Hu & Hv & Hpu & Hpv & Hne & Hp & ->).
    rewrite decide_True by (apply elem_of_stage_pairs; by exists s, us, vs).
    destruct (DiGraph.nodes MSG !! u) as [au|]; [|done].
    destruct (DiGraph.nodes MSG !! v) as [av|]; [|done]. simpl in *.
    injection Hpu as ->. injection Hpv as ->.
    destruct (Z.eqb_spec pu pv); [done|]. by rewrite Hp.
Qed.


(** ** [reserve_resources] *)

Lemma py_index_lt (len : nat) (i : Z) (k : nat) :
  py_index len i = Ok k → (k < len)%nat.
Proof.
  unfold py_index.
  destruct (Z.leb_spec 0 i), (Z.ltb_spec i (Z.of_nat len)); simpl;
    try (intros [= <-]; lia);
    destruct (Z.leb_spec (- Z.of_nat len) i), (Z.ltb_spec i 0); simpl;
    try done; intros [= <-]; lia.
Qed.

(** An id that is a position of the ledger indexes that position. *)
Lemma py_index_position (len k : nat) :
  (k < len)%nat → py_index len (Z.of_nat k) = Ok k.
Proof.
  intros H. unfold py_index.
  destruct (Z.leb_spec 0 (Z.of_nat k)); [|lia].
  destruct (Z.ltb_spec (Z.of_nat k) (Z.of_nat len)); [|lia].
  simpl. by rewrite Nat2Z.id.
Qed.

Lemma reserve_book (n : PhysicalNode.t) (d : Z) :
  PhysicalNode.reserve n d = Spec.book d n.
Proof. unfold PhysicalNode.reserve, Spec.book. by destruct (PhysicalNode.activated n). Qed.

(** One visit of the loop of [reserve_resources]. *)
Lemma reserve_vertex_spec (MSG : DiGraph.t) extra v σ a (k : nat) n :
  DiGraph.nodes MSG !! v = Some a →
  py_index (length σ) (DiGraph.physical a) = Ok k →
  σ !! k = Some n →
  MSGpy.reserve_vertex MSG extra v σ
  = Ok (extra + Spec.charge n (DiGraph.cpu a), <[k := Spec.book (DiGraph.cpu a) n]> σ).
Proof.
  intros Ha Hk Hn. unfold MSGpy.reserve_vertex.
  unfold mbind, St_bind, lift. rewrite (node_Ok _ _ _ Ha).
  unfold lookup_node. rewrite Hk, Hn. unfold update_node. rewrite Hn.
  unfold mret, St_ret. rewrite reserve_book. unfold Spec.charge.
  destruct (PhysicalNode.activated n); simpl; do 2 f_equal; lia.
Qed.

Lemma target_Some (MSG : DiGraph.t) σ v (k : nat) d :
  Spec.target MSG σ v = Some (k, d)
  ↔ ∃ a, DiGraph.nodes MSG !! v = Some a
         ∧ py_index (length σ) (DiGraph.physical a) = Ok k
         ∧ DiGraph.cpu a = d.
Proof.
  unfold Spec.target. destruct (DiGraph.nodes MSG !! v) as [a|]; simpl.
  - destruct (py_index _ _) as [k'|e] eqn:E; split.
    + intros [= <- <-]. by exists a.
    + intros (a' & [= <-] & Hk & <-). congruence.
    + done.
    + intros (a' & [= <-] & Hk & _). congruence.
  - split; [done | by intros (a & ? & _)].
Qed.

Lemma indexed_lookup (σ : ledger) :
  Spec.indexed σ ↔ ∀ (k : nat) n, σ !! k = Some n → PhysicalNode.id n = Z.of_nat k.
Proof.
  unfold Spec.indexed. split.
  - intros E k n Hn.
    assert (H : (PhysicalNode.id <$> σ) !! k = Some (PhysicalNode.id n))
      by by rewrite list_lookup_fmap, Hn.
    rewrite E, list_lookup_fmap in H.
    destruct (seq 0 (length σ) !! k) as [i|] eqn:Hi; [|done].
    apply lookup_seq in Hi as [-> _]. by injection H.
  - intros H. apply list_eq. intros k. rewrite !list_lookup_fmap.
    destruct (σ !! k) as [n|] eqn:Hn; simpl.
    + rewrite (H k n Hn). rewrite lookup_seq_lt by by eapply lookup_lt_Some.
      done.
    + rewrite lookup_seq_ge; [done|]. by apply lookup_ge_None.
Qed.

Lemma resolves_insert (MSG : DiGraph.t) σ path targets (k : nat) n :
  Spec.resolves MSG σ path targets → Spec.resolves MSG (<[k := n]> σ) path targets.
Proof. unfold Spec.resolves, Spec.target. by rewrite length_insert. Qed.

Lemma reserve_loop_spec (MSG : DiGraph.t) path targets σ extra :
  Spec.resolves MSG σ path targets →
  for_each_St (MSGpy.reserve_vertex MSG) extra path σ
  = Ok (extra + (Spec.commit targets σ).1, (Spec.commit targets σ).2).
Proof.
  revert path σ extra.
  induction targets as [|[k d] targets IH]; intros path σ extra H.
  - apply Forall2_nil_inv_r in H as ->. simpl. unfold mret, St_ret.
    do 2 f_equal. lia.
  - apply Forall2_cons_inv_r in H as (v & path' & (a & Ha & Hk & Hd)%target_Some & H & ->).
    subst d.
    destruct (lookup_lt_is_Some_2 σ k (py_index_lt _ _ _ Hk)) as [n Hn].
    cbn [for_each_St Spec.commit fst snd]. rewrite Hn.
    unfold mbind at 1, St_bind. rewrite (reserve_vertex_spec _ _ _ _ _ _ _ Ha Hk Hn).
    rewrite IH by by apply resolves_insert. simpl. do 2 f_equal. lia.
Qed.

Lemma reserve_resources_spec (MSG : DiGraph.t) path targets σ :
  Spec.resolves MSG σ path targets →
  MSGpy.reserve_resources path MSG σ = Ok (Spec.commit targets σ).
Proof.
  intros H. unfold MSGpy.reserve_resources. rewrite (reserve_loop_spec _ _ _ _ _ H).
  destruct (Spec.commit targets σ). simpl. do 2 f_equal.
Qed.

(** ** What a commit does to the ledger *)

Lemma commit_length targets σ : length (Spec.commit targets σ).2 = length σ.
Proof.
  revert σ. induction targets as [|[k d] targets IH]; intros σ; simpl; [done|].
  destruct (σ !! k); simpl; rewrite IH; [apply length_insert | done].
Qed.

(** Positions that are no target are left as they are. *)
Lemma commit_lookup_other targets σ (k : nat) :
  k ∉ targets.*1 → (Spec.commit targets σ).2 !! k = σ !! k.
Proof.
  revert σ. induction targets as [|[k' d] targets IH]; intros σ Hk; simpl; [done|].
  rewrite fmap_cons, not_elem_of_cons in Hk. destruct Hk as [Hne Hk]. simpl in Hne.
  destruct (σ !! k') as [n|]; simpl; rewrite IH by done; [|done].
  by rewrite list_lookup_insert_ne.
Qed.

(** Ids and capacities never change. *)
Lemma commit_static targets σ (k : nat) n' :
  (Spec.commit targets σ).2 !! k = Some n' →
  ∃ n, σ !! k = Some n ∧ PhysicalNode.id n' = PhysicalNode.id n
       ∧ PhysicalNode.cpu n' = PhysicalNode.cpu n.
Proof.
  revert σ. induction targets as [|[k' d] targets IH]; intros σ; simpl; [eauto|].
  destruct (σ !! k') as [n0|] eqn:E; simpl; [|apply IH].
  intros (n & Hn & ? & ?)%IH.
  destruct (decide (k' = k)) as [->|Hne].
  - rewrite list_lookup_insert_eq in Hn by by eapply lookup_lt_Some.
    injection Hn as <-. exists n0. simpl in *. done.
  - rewrite list_lookup_insert_ne in Hn by done. eauto.
Qed.

Lemma commit_indexed targets σ : Spec.indexed σ → Spec.indexed (Spec.commit targets σ).2.
Proof.
  rewrite !indexed_lookup. intros Hi k n' (n & Hn & -> & _)%commit_static.
  by apply Hi.
Qed.

(** A commit on pairwise-distinct positions, each with room for its
    demand, keeps every host within its capacity. *)
Lemma commit_capacity_ok targets σ :
  NoDup targets.*1 →
  Forall (λ t, ∀ n, σ !! t.1 = Some n →
                 PhysicalNode.used_cpu n + t.2 ≤ PhysicalNode.cpu n) targets →
  Spec.capacity_ok σ → Spec.capacity_ok (Spec.commit targets σ).2.
Proof.
  revert σ. induction targets as [|[k d] targets IH]; intros σ Hnd Hroom Hcap;
    simpl; [done|].
  rewrite fmap_cons in Hnd. apply NoDup_cons in Hnd as [Hk Hnd]. simpl in Hk.
  apply Forall_cons in Hroom as [Hd Hroom]. simpl in Hd.
  destruct (σ !! k) as [n|] eqn:Hn; simpl; [|by apply IH].
  apply IH; [done | |].
  - apply Forall_forall. intros [k' d'] Hin n'. simpl.
    assert (k' ≠ k).
    { intros ->. apply Hk. apply list_elem_of_fmap. by exists (k, d'). }
    rewrite list_lookup_insert_ne by done.
    rewrite Forall_forall in Hroom. apply (Hroom _ Hin).
  - unfold Spec.capacity_ok in *. apply Forall_insert; [done|]. simpl.
    by apply Hd.
Qed.


(** ** Chains found by the search on an MSG built from the ledger *)

Lemma NoDup_fmap_transfer {A B C} (f : A → B) (g : A → C) (l : list A) :
  (∀ x y, x ∈ l → y ∈ l → f x = f y → g x = g y) →
  NoDup (g <$> l) → NoDup (f <$> l).
Proof.
  induction l as [|x l IH]; intros Hfg; simpl; [constructor|].
  rewrite !NoDup_cons. intros [Hx Hnd]. split.
  - intros (y & Hxy & Hy)%list_elem_of_fmap. apply Hx.
    apply list_elem_of_fmap. exists y. split; [|done].
    apply Hfg; [by left | by right | done].
  - apply IH; [|done]. intros y z Hy Hz. apply Hfg; by right.
Qed.

Lemma chain_vertices (MSG : DiGraph.t) σ used stages path :
  Spec.indexed σ →
  map_Forall (node_ok stages) (DiGraph.nodes MSG) →
  Spec.labels_known MSG (stage_lists σ used stages) →
  Spec.chain_of (stage_lists σ used stages) path →
  Forall (vertex_ok MSG σ used) path.
Proof.
  intros Hi' Hok Hk Hc. pose proof (proj1 (indexed_lookup σ) Hi') as Hi.
  apply Forall_forall. intros v Hv.
  apply list_elem_of_lookup in Hv as [i Hv].
  destruct (Forall2_lookup_l _ _ _ _ _ Hc Hv) as (pool & Hpool & Hin).
  destruct (stage_vertex _ _ _ _ _ _ _ Hok Hk Hpool Hin)
    as (d & n & Hs & Hn & Hfree & Hused & -> & Ha).
  apply list_elem_of_lookup in Hn as [k Hn].
  pose proof (Hi k n Hn) as Hid.
  eexists _, k, n. split; [exact Ha|]. simpl. rewrite Hid in *.
  split_and!; try done. apply label_host_vname.
Qed.

Lemma vertices_resolve (MSG : DiGraph.t) σ used path :
  Forall (vertex_ok MSG σ used) path →
  Spec.resolves MSG σ path (target_of MSG <$> path).
Proof.
  induction 1 as [|v path (a & k & n & Ha & Hp & Hn & _) _ IH]; [constructor|].
  rewrite fmap_cons. constructor; [|done].
  unfold target_of. rewrite Ha. apply target_Some.
  exists a. rewrite Hp, Nat2Z.id.
  split_and!; try done. apply py_index_position. by eapply lookup_lt_Some.
Qed.

Lemma vertices_room (MSG : DiGraph.t) σ used path :
  Forall (vertex_ok MSG σ used) path →
  Forall (λ t, ∀ n, σ !! t.1 = Some n →
                 PhysicalNode.used_cpu n + t.2 ≤ PhysicalNode.cpu n)
         (target_of MSG <$> path).
Proof.
  intros H. apply Forall_fmap. eapply Forall_impl; [exact H|].
  intros v (a & k & n & Ha & Hp & Hn & Hfree & _) n'. unfold target_of.
  rewrite Ha. simpl. rewrite Hp, Nat2Z.id, Hn. intros [= <-]. lia.
Qed.

Lemma vertices_positions_distinct (MSG : DiGraph.t) σ used path :
  Forall (vertex_ok MSG σ used) path → Spec.distinct MSG path →
  NoDup (target_of MSG <$> path).*1.
Proof.
  intros H Hd. rewrite <- list_fmap_compose.
  eapply NoDup_fmap_transfer; [|exact Hd].
  rewrite Forall_forall in H.
  intros x y (ax & kx & nx & Hax & Hpx & _)%H (ay & ky & ny & Hay & Hpy & _)%H.
  unfold target_of, Spec.host. simpl. rewrite Hax, Hay. simpl.
  rewrite Hpx, Hpy, !Nat2Z.id. by intros ->.
Qed.

Lemma vertex_host (MSG : DiGraph.t) σ used v :
  vertex_ok MSG σ used v →
  ∃ h, Spec.host MSG v = Some h ∧ (h ∉ used) ∧ label_host v = Ok h.
Proof.
  intros (a & k & n & Ha & Hp & _ & _ & Hu & Hl).
  exists (Z.of_nat k). unfold Spec.host. rewrite Ha. simpl. by rewrite Hp.
Qed.

(** What [construct_msg] returned, whatever name it goes by. *)
Lemma construct_msg_inv Gp sfc used σ (MSG : DiGraph.t) stage_nodes σ' :
  construct_msg Gp sfc used σ = Ok ((MSG, stage_nodes), σ') →
  σ' = σ
  ∧ stage_nodes = stage_lists σ used (SFCRequest.stages sfc)
  ∧ map_Forall (node_ok (SFCRequest.stages sfc)) (DiGraph.nodes MSG)
  ∧ Spec.labels_known MSG stage_nodes
  ∧ ∀ k, DiGraph.adj MSG !! k
         = if decide (k ∈ stage_pairs stage_nodes)
           then pair_edge Gp (DiGraph.nodes MSG) k else None.
Proof.
  destruct (construct_msg_spec Gp sfc used σ) as (MSG0 & -> & Hok & Hk & Hadj).
  intros [= <- <- <-]. done.
Qed.

(** The chain the search returns on such an MSG. *)
Lemma found_chain Gp sfc used σ (MSG : DiGraph.t) stage_nodes path d c :
  Spec.indexed σ →
  construct_msg Gp sfc used σ = Ok ((MSG, stage_nodes), σ) →
  MSGpy.find_feasible_path MSG stage_nodes sfc Gp = Ok (Some (path, d, c)) →
  Spec.chain_of stage_nodes path
  ∧ Spec.feasible Gp sfc MSG path d c
  ∧ Forall (vertex_ok MSG σ used) path.
Proof.
  intros Hi (_ & -> & Hok & Hk & _)%construct_msg_inv Hfind.
  destruct (decide (stage_lists σ used (SFCRequest.stages sfc) = [])) as [E|Hne].
  { rewrite E in Hfind. done. }
  destruct (MSGpy_find_feasible_path_spec MSG _ sfc Gp Hne Hk) as (r & Hr & Hres).
  rewrite Hr in Hfind. injection Hfind as ->.
  destruct Hres as (Hc & Hf & _). split_and!; try done.
  by eapply chain_vertices.
Qed.

(** Any number of vertices into the commit of such a chain, the ledger is
    the one [Spec.commit] describes; it is indexed and within capacity. *)
Lemma commit_prefix Gp sfc used σ (MSG : DiGraph.t) stage_nodes path d c (j : nat) :
  Spec.indexed σ → Spec.capacity_ok σ →
  construct_msg Gp sfc used σ = Ok ((MSG, stage_nodes), σ) →
  MSGpy.find_feasible_path MSG stage_nodes sfc Gp = Ok (Some (path, d, c)) →
  ∃ extra σ', MSGpy.reserve_resources (take j path) MSG σ = Ok (extra, σ')
    ∧ Spec.indexed σ' ∧ Spec.capacity_ok σ'.
Proof.
  intros Hi Hcap Hc Hf.
  destruct (found_chain _ _ _ _ _ _ _ _ _ Hi Hc Hf) as (Hch & Hfeas & Hv).
  destruct Hfeas as (Hd & _).
  pose proof (vertices_resolve _ _ _ _ Hv) as Hres.
  pose proof (vertices_room _ _ _ _ Hv) as Hroom.
  pose proof (vertices_positions_distinct _ _ _ _ Hv Hd) as Hnd.
  set (targets := target_of MSG <$> path) in *.
  assert (Hres' : Spec.resolves MSG σ (take j path) (take j targets))
    by by apply Forall2_take.
  rewrite (reserve_resources_spec _ _ _ _ Hres').
  destruct (Spec.commit (take j targets) σ) as [extra σ'] eqn:E.
  exists extra, σ'. split; [done|].
  replace σ' with (Spec.commit (take j targets) σ).2 by by rewrite E.
  split; [by apply commit_indexed|].
  apply commit_capacity_ok; [| |done].
  - rewrite fmap_take. eapply sublist_NoDup; [exact Hnd | apply sublist_take].
  - by apply Forall_take.
Qed.


(** ** The loop body of [run_simulation], step by step *)

Lemma place_active_unfold Gp sfc σ (MSG : DiGraph.t) stage_nodes :
  construct_msg Gp sfc ∅ σ = Ok ((MSG, stage_nodes), σ) →
  MSGpy.place_active Gp sfc σ
  = if negb (all_nonempty stage_nodes) then Ok (None, σ) else
    match MSGpy.find_feasible_path MSG stage_nodes sfc Gp with
    | Raise e => Raise e
    | Ok None => Ok (None, σ)
    | Ok (Some (path, d, c)) =>
        match MSGpy.reserve_resources path MSG σ with
        | Raise e => Raise e
        | Ok (extra, σ') =>
            Ok (Some {| MSGpy.MSG_active := MSG; MSGpy.path_active := path;
                        MSGpy.delay_active := d; MSGpy.cost_active := c;
                        MSGpy.extra_cost_a := extra |}, σ')
        end
    end.
Proof.
  intros H. unfold MSGpy.place_active. unfold mbind at 1, St_bind. rewrite H.
  destruct (all_nonempty stage_nodes); simpl.
  - unfold mbind, St_bind, lift.
    destruct (MSGpy.find_feasible_path MSG stage_nodes sfc Gp) as [[[[p d] c]|]|];
      done.
  - done.
Qed.

Lemma place_backup_unfold Gp sfc act σ used (MSG : DiGraph.t) stage_nodes :
  MSGpy.label_hosts (MSGpy.path_active act) = Ok used →
  construct_msg Gp sfc used σ = Ok ((MSG, stage_nodes), σ) →
  MSGpy.place_backup Gp sfc act σ
  = match MSGpy.find_feasible_path MSG stage_nodes sfc Gp with
    | Raise e => Raise e
    | Ok None => Ok (row_without_backup sfc act, σ)
    | Ok (Some (path, d, c)) =>
        match MSGpy.reserve_resources path MSG σ with
        | Raise e => Raise e
        | Ok (extra, σ') =>
            match for_each (MSGpy.failover_step Gp (MSGpy.MSG_active act) MSG) 0
                           (zip (MSGpy.path_active act) path) with
            | Raise e => Raise e
            | Ok bdc => Ok (row_with_backup sfc act path d c extra bdc, σ')
            end
        end
    end.
Proof.
  intros Hl Hc. unfold MSGpy.place_backup. unfold mbind at 1, St_bind, lift.
  rewrite Hl. unfold mbind at 1, St_bind. rewrite Hc.
  unfold mbind at 1, St_bind.
  destruct (MSGpy.find_feasible_path MSG stage_nodes sfc Gp) as [[[[p d] c]|]|];
    try done.
  unfold mbind at 1, St_bind.
  destruct (MSGpy.reserve_resources p MSG σ) as [[e σ']|]; [|done].
  unfold mbind, St_bind.
  by destruct (for_each _ 0 _).
Qed.

Lemma place_unfold Gp sfc σ :
  MSGpy.place Gp sfc σ
  = match MSGpy.place_active Gp sfc σ with
    | Raise e => Raise e
    | Ok (None, σ1) => Ok (None, σ1)
    | Ok (Some act, σ1) =>
        match MSGpy.place_backup Gp sfc act σ1 with
        | Raise e => Raise e
        | Ok (row, σ2) => Ok (Some row, σ2)
        end
    end.
Proof.
  unfold MSGpy.place. unfold mbind at 1, St_bind.
  by destruct (MSGpy.place_active Gp sfc σ) as [[[act|] σ1]|].
Qed.

Lemma place_step_unfold Gp placements sfc σ :
  MSGpy.place_step Gp placements sfc σ
  = match MSGpy.place Gp sfc σ with
    | Raise e => Raise e
    | Ok (Some row, σ') => Ok (placements ++ [row], σ')
    | Ok (None, σ') => Ok (placements, σ')
    end.
Proof.
  unfold MSGpy.place_step, mbind, St_bind.
  by destruct (MSGpy.place Gp sfc σ) as [[[row|] σ']|].
Qed.

(** The exclusion set parsed from the labels is the set of the hosts. *)
Lemma label_hosts_loop (MSG : DiGraph.t) path (acc : gset Z) :
  Forall (λ v, ∃ h, Spec.host MSG v = Some h ∧ label_host v = Ok h) path →
  for_each (λ used n, h ← label_host n; Ok ({[h]} ∪ used)) acc path
  = Ok (Spec.chain_hosts MSG path ∪ acc).
Proof.
  intros H. revert acc. induction H as [|v path (h & Hh & Hl) _ IH]; intros acc.
  - simpl. f_equal. unfold Spec.chain_hosts. simpl. set_solver.
  - cbn [for_each]. rewrite Hl. simpl. rewrite IH. f_equal.
    unfold Spec.chain_hosts. simpl. rewrite Hh. simpl. set_solver.
Qed.

Lemma label_hosts_spec (MSG : DiGraph.t) path :
  Forall (λ v, ∃ h, Spec.host MSG v = Some h ∧ label_host v = Ok h) path →
  MSGpy.label_hosts path = Ok (Spec.chain_hosts MSG path).
Proof.
  intros H. unfold MSGpy.label_hosts. rewrite (label_hosts_loop MSG) by done.
  f_equal. set_solver.
Qed.

Lemma vertices_hosts (MSG : DiGraph.t) σ used path :
  Forall (vertex_ok MSG σ used) path →
  Forall (λ v, ∃ h, Spec.host MSG v = Some h ∧ label_host v = Ok h) path.
Proof.
  intros H. eapply Forall_impl; [exact H|].
  intros v (h & ? & _ & ?)%vertex_host. eauto.
Qed.

Lemma vertices_outside (MSG : DiGraph.t) σ used path :
  Forall (vertex_ok MSG σ used) path → Spec.chain_hosts MSG path ## used.
Proof.
  intros H. unfold Spec.chain_hosts. apply elem_of_disjoint. intros h Hh Hu.
  apply elem_of_list_to_set, list_elem_of_omap in Hh as (v & Hv & Hhost).
  rewrite Forall_forall in H.
  destruct (vertex_host _ _ _ _ (H v Hv)) as (h' & Hh' & Hout & _). congruence.
Qed.

(** The failover loop never raises on chains of known labels. *)
Lemma failover_total Gp (MSG_a MSG_b : DiGraph.t) path_a path_b acc :
  Forall (λ v, is_Some (DiGraph.nodes MSG_a !! v)) path_a →
  Forall (λ v, is_Some (DiGraph.nodes MSG_b !! v)) path_b →
  ∃ bdc, for_each (MSGpy.failover_step Gp MSG_a MSG_b) acc (zip path_a path_b) = Ok bdc.
Proof.
  intros Ha. revert path_b acc.
  induction Ha as [|u path_a [a Hu] _ IH]; intros path_b acc Hb; [by eexists|].
  destruct Hb as [|v path_b [b Hv] Hb]; [by eexists|].
  cbn [zip zip_with for_each].
  assert (∃ r, MSGpy.failover_step Gp MSG_a MSG_b acc (u, v) = Ok r) as [r ->].
  { unfold MSGpy.failover_step, DiGraph.node. simpl. rewrite Hu, Hv. simpl.
    destruct (Substrate.has_path Gp _ _); by eexists. }
  simpl. by apply IH.
Qed.


(** ** Reading a result of the loop body backwards *)

Lemma place_active_inv Gp sfc σ r σ1 :
  MSGpy.place_active Gp sfc σ = Ok (r, σ1) →
  ∃ (MSG : DiGraph.t) stage_nodes,
    construct_msg Gp sfc ∅ σ = Ok ((MSG, stage_nodes), σ)
    ∧ match r with
      | None =>
          σ1 = σ
          ∧ (all_nonempty stage_nodes = false
             ∨ MSGpy.find_feasible_path MSG stage_nodes sfc Gp = Ok None)
      | Some act =>
          all_nonempty stage_nodes = true
          ∧ MSGpy.MSG_active act = MSG
          ∧ MSGpy.find_feasible_path MSG stage_nodes sfc Gp
            = Ok (Some (MSGpy.path_active act, MSGpy.delay_active act,
                        MSGpy.cost_active act))
          ∧ MSGpy.reserve_resources (MSGpy.path_active act) MSG σ
            = Ok (MSGpy.extra_cost_a act, σ1)
      end.
Proof.
  destruct (construct_msg_spec Gp sfc ∅ σ) as (MSG & Hc & _).
  rewrite (place_active_unfold _ _ _ _ _ Hc). intros H.
  eexists MSG, _. split; [exact Hc|].
  destruct (all_nonempty _) eqn:Hall; simpl in H.
  - destruct (MSGpy.find_feasible_path _ _ _ _) as [[[[p d] c]|]|] eqn:Hf; [| |done].
    + destruct (MSGpy.reserve_resources p MSG σ) as [[e σ']|] eqn:Hr; [|done].
      injection H as <- <-. simpl. done.
    + injection H as <- <-. auto.
  - injection H as <- <-. auto.
Qed.

Lemma place_backup_inv Gp sfc act σ1 row σ2 :
  MSGpy.place_backup Gp sfc act σ1 = Ok (row, σ2) →
  ∃ used (MSG : DiGraph.t) stage_nodes,
    MSGpy.label_hosts (MSGpy.path_active act) = Ok used
    ∧ construct_msg Gp sfc used σ1 = Ok ((MSG, stage_nodes), σ1)
    ∧ ((MSGpy.find_feasible_path MSG stage_nodes sfc Gp = Ok None
        ∧ σ2 = σ1 ∧ row = row_without_backup sfc act)
       ∨ ∃ path d c extra bdc,
           MSGpy.find_feasible_path MSG stage_nodes sfc Gp = Ok (Some (path, d, c))
           ∧ MSGpy.reserve_resources path MSG σ1 = Ok (extra, σ2)
           ∧ for_each (MSGpy.failover_step Gp (MSGpy.MSG_active act) MSG) 0
                      (zip (MSGpy.path_active act) path) = Ok bdc
           ∧ row = row_with_backup sfc act path d c extra bdc).
Proof.
  destruct (MSGpy.label_hosts (MSGpy.path_active act)) as [used|e] eqn:Hl.
  2:{ unfold MSGpy.place_backup, mbind, St_bind, lift. by rewrite Hl. }
  destruct (construct_msg_spec Gp sfc used σ1) as (MSG & Hc & _).
  rewrite (place_backup_unfold _ _ _ _ _ _ _ Hl Hc). intros H.
  eexists used, MSG, _. split; [done|]. split; [exact Hc|].
  destruct (MSGpy.find_feasible_path _ _ _ _) as [[[[p d] c]|]|] eqn:Hf; [| |done].
  - destruct (MSGpy.reserve_resources p MSG σ1) as [[e σ']|] eqn:Hr; [|done].
    destruct (for_each _ 0 _) as [bdc|] eqn:Hb; [|done].
    injection H as <- <-. right. by exists p, d, c, e, bdc.
  - injection H as <- <-. by left.
Qed.

Lemma place_inv Gp sfc σ r σ' :
  MSGpy.place Gp sfc σ = Ok (r, σ') →
  (r = None ∧ MSGpy.place_active Gp sfc σ = Ok (None, σ'))
  ∨ ∃ act σ1 row, r = Some row
      ∧ MSGpy.place_active Gp sfc σ = Ok (Some act, σ1)
      ∧ MSGpy.place_backup Gp sfc act σ1 = Ok (row, σ').
Proof.
  rewrite place_unfold.
  destruct (MSGpy.place_active Gp sfc σ) as [[[act|] σ1]|]; [| |done].
  - destruct (MSGpy.place_backup Gp sfc act σ1) as [[row σ2]|] eqn:Hb; [|done].
    intros [= <- <-]. right. by exists act, σ1, row.
  - intros [= <- <-]. by left.
Qed.

(** ** The ledger across the steps *)

Lemma commit_whole Gp sfc used σ (MSG : DiGraph.t) stage_nodes path d c extra σ' :
  Spec.indexed σ → Spec.capacity_ok σ →
  construct_msg Gp sfc used σ = Ok ((MSG, stage_nodes), σ) →
  MSGpy.find_feasible_path MSG stage_nodes sfc Gp = Ok (Some (path, d, c)) →
  MSGpy.reserve_resources path MSG σ = Ok (extra, σ') →
  Spec.indexed σ' ∧ Spec.capacity_ok σ'.
Proof.
  intros Hi Hcap Hc Hf Hr.
  destruct (commit_prefix _ _ _ _ _ _ _ _ _ (length path) Hi Hcap Hc Hf)
    as (e & σ0 & Hr0 & ? & ?).
  rewrite firstn_all in Hr0. rewrite Hr in Hr0. by injection Hr0 as <- <-.
Qed.

Lemma place_active_preserves Gp sfc σ r σ1 :
  Spec.indexed σ → Spec.capacity_ok σ →
  MSGpy.place_active Gp sfc σ = Ok (r, σ1) →
  Spec.indexed σ1 ∧ Spec.capacity_ok σ1.
Proof.
  intros Hi Hcap (MSG & sn & Hc & H)%place_active_inv.
  destruct r as [act|].
  - destruct H as (_ & _ & Hf & Hr). by eapply commit_whole.
  - by destruct H as [-> _].
Qed.

Lemma place_backup_preserves Gp sfc act σ1 row σ2 :
  Spec.indexed σ1 → Spec.capacity_ok σ1 →
  MSGpy.place_backup Gp sfc act σ1 = Ok (row, σ2) →
  Spec.indexed σ2 ∧ Spec.capacity_ok σ2.
Proof.
  intros Hi Hcap (used & MSG & sn & _ & Hc & H)%place_backup_inv.
  destruct H as [(_ & -> & _) | (p & d & c & e & bdc & Hf & Hr & _)]; [done|].
  by eapply commit_whole.
Qed.

Lemma place_preserves Gp sfc σ r σ' :
  Spec.indexed σ → Spec.capacity_ok σ →
  MSGpy.place Gp sfc σ = Ok (r, σ') →
  Spec.indexed σ' ∧ Spec.capacity_ok σ'.
Proof.
  intros Hi Hcap [[_ Ha] | (act & σ1 & row & _ & Ha & Hb)]%place_inv.
  - by eapply place_active_preserves.
  - destruct (place_active_preserves _ _ _ _ _ Hi Hcap Ha).
    by eapply place_backup_preserves.
Qed.

(** Every ledger the batch passes through is indexed and within capacity. *)
Lemma reaches_preserves Gp reqs σ σ' :
  Spec.reaches Gp reqs σ σ' →
  Spec.indexed σ → Spec.capacity_ok σ →
  Spec.indexed σ' ∧ Spec.capacity_ok σ'.
Proof.
  induction 1 as [reqs σ
                 | sfc rest σ MSG sn path d c j extra σ' Hc Hall Hf Hr
                 | sfc rest σ act σ1 used MSG sn path d c j extra σ' Ha Hl Hc Hf Hr
                 | sfc rest σ row σ1 σ' Hp _ IH]; intros Hi Hcap.
  - done.
  - destruct (commit_prefix _ _ _ _ _ _ _ _ _ j Hi Hcap Hc Hf) as (e & σ0 & Hr0 & ? & ?).
    rewrite Hr in Hr0. by injection Hr0 as <- <-.
  - destruct (place_active_preserves _ _ _ _ _ Hi Hcap Ha) as [Hi1 Hcap1].
    destruct (commit_prefix _ _ _ _ _ _ _ _ _ j Hi1 Hcap1 Hc Hf) as (e & σ0 & Hr0 & ? & ?).
    rewrite Hr in Hr0. by injection Hr0 as <- <-.
  - destruct (place_preserves _ _ _ _ _ Hi Hcap Hp). by apply IH.
Qed.

Lemma initial_capacity_ok (σ : ledger) :
  Forall (λ n, PhysicalNode.used_cpu n = 0 ∧ 0 < PhysicalNode.cpu n) σ →
  Spec.capacity_ok σ.
Proof. intros H. eapply Forall_impl; [exact H|]. intros n [-> ?]. lia. Qed.

Lemma initial_nodes_indexed (num : nat) (max_cpu : Z) :
  Spec.indexed (MSGpy.initial_nodes num max_cpu).
Proof.
  apply indexed_lookup.
  intros k n. unfold MSGpy.initial_nodes. rewrite list_lookup_fmap.
  destruct (seq 0 num !! k) as [i|] eqn:E; [|done].
  apply lookup_seq in E as [-> _]. by intros [= <-].
Qed.

Lemma initial_ledger_indexed (caps : list Z) : Spec.indexed (Spec.initial_ledger caps).
Proof.
  apply indexed_lookup. intros k n. unfold Spec.initial_ledger.
  rewrite list_lookup_imap. destruct (caps !! k); [|done]. by intros [= <-].
Qed.

Lemma initial_ledger_capacity_ok (caps : list Z) :
  Forall (λ c, 0 < c) caps → Spec.capacity_ok (Spec.initial_ledger caps).
Proof.
  intros H. apply Forall_lookup. intros k n. unfold Spec.initial_ledger.
  rewrite list_lookup_imap. destruct (caps !! k) as [c|] eqn:E; [|done].
  intros [= <-]. simpl. rewrite Forall_lookup in H. specialize (H k c E). lia.
Qed.

(** The ledger of [run_simulation] is the initial ledger of its uniform
    capacities. *)
Lemma initial_nodes_uniform (num : nat) (max_cpu : Z) :
  MSGpy.initial_nodes num max_cpu = Spec.initial_ledger (replicate num max_cpu).
Proof.
  unfold MSGpy.initial_nodes, Spec.initial_ledger. apply list_eq. intros k.
  rewrite list_lookup_fmap, list_lookup_imap.
  destruct (decide (k < num)%nat) as [Hlt|Hge].
  - rewrite lookup_seq_lt by done. by rewrite lookup_replicate_2.
  - rewrite lookup_seq_ge by lia.
    by rewrite (proj1 (lookup_replicate_None num max_cpu k)) by lia.
Qed.

(** ** Hosts of the chains, without assumptions on the ledger *)

Lemma chain_hosts_known (MSG : DiGraph.t) σ used stages path :
  map_Forall (node_ok stages) (DiGraph.nodes MSG) →
  Spec.labels_known MSG (stage_lists σ used stages) →
  Spec.chain_of (stage_lists σ used stages) path →
  Forall (λ v, ∃ h, Spec.host MSG v = Some h ∧ (h ∉ used) ∧ label_host v = Ok h) path.
Proof.
  intros Hok Hk Hc. apply Forall_forall. intros v Hv.
  apply list_elem_of_lookup in Hv as [i Hv].
  destruct (Forall2_lookup_l _ _ _ _ _ Hc Hv) as (pool & Hpool & Hin).
  destruct (stage_vertex _ _ _ _ _ _ _ Hok Hk Hpool Hin)
    as (d & n & Hs & Hn & Hfree & Hused & -> & Ha).
  exists (PhysicalNode.id n). unfold Spec.host. rewrite Ha. simpl.
  split_and!; try done. apply label_host_vname.
Qed.

Lemma found_chain_hosts Gp sfc used σ σ' (MSG : DiGraph.t) stage_nodes path d c :
  construct_msg Gp sfc used σ = Ok ((MSG, stage_nodes), σ') →
  MSGpy.find_feasible_path MSG stage_nodes sfc Gp = Ok (Some (path, d, c)) →
  path ≠ [] ∧ Spec.chain_of stage_nodes path
  ∧ Forall (λ v, ∃ h, Spec.host MSG v = Some h ∧ (h ∉ used) ∧ label_host v = Ok h) path.
Proof.
  intros (_ & -> & Hok & Hk & _)%construct_msg_inv Hfind.
  destruct (decide (stage_lists σ used (SFCRequest.stages sfc) = [])) as [E|Hne].
  { rewrite E in Hfind. done. }
  destruct (MSGpy_find_feasible_path_spec MSG _ sfc Gp Hne Hk) as (r & Hr & Hres).
  rewrite Hr in Hfind. injection Hfind as ->.
  destruct Hres as (Hc & _ & _). split_and!; try done.
  - intros ->. apply Forall2_nil_inv_l in Hc. done.
  - by eapply chain_hosts_known.
Qed.


(** ** The kept candidates of the two searches *)

Lemma MSGpy_feasible_paths_spec MSG stage_nodes sfc Gp :
  stage_nodes ≠ [] → Spec.labels_known MSG stage_nodes →
  ∃ ps, MSGpy.feasible_paths MSG stage_nodes sfc Gp = Ok ps
    ∧ ∀ path d c, (path, d, c) ∈ ps
        ↔ Spec.chain_of stage_nodes path ∧ Spec.feasible Gp sfc MSG path d c.
Proof.
  intros Hne Hk. rewrite MSGpy_feasible_paths_unfold.
  assert (Hp : ∀ p, Spec.chain_of stage_nodes p →
            p ≠ [] ∧ Forall (λ v, is_Some (DiGraph.nodes MSG !! v)) p).
  { intros p Hc. split; [|by eapply chain_labels_known].
    apply Forall2_length in Hc. destruct stage_nodes; [done|]. by destruct p. }
  rewrite search_loop_Ok.
  - eexists. split; [done|]. intros path d c. simpl.
    rewrite list_elem_of_omap. split.
    + intros (p & Hin%elem_of_product & Hj). destruct (Hp p Hin) as [? ?].
      apply MSGpy_judge_spec in Hj as (d' & c' & [= -> -> ->] & Hf); done.
    + intros [Hc Hf]. exists path. split; [by apply elem_of_product|].
      destruct (Hp path Hc) as [? ?]. apply MSGpy_judge_spec; eauto.
  - intros p [? ?]%elem_of_product%Hp.
    destruct (MSGpy_chain_totals_spec MSG sfc Gp p) as (t & ? & _); eauto.
Qed.

Lemma BruteForce_feasible_paths_spec MSG stage_nodes sfc G :
  Spec.labels_known MSG stage_nodes →
  ∃ ps, BruteForce.feasible_paths MSG stage_nodes sfc G = Ok ps
    ∧ ∀ path d c, (path, d, c) ∈ ps
        ↔ Spec.chain_of stage_nodes path ∧ Spec.feasible_inter sfc MSG path d c.
Proof.
  intros Hk. rewrite BruteForce_feasible_paths_unfold.
  rewrite search_loop_Ok.
  - eexists. split; [done|]. intros path d c. simpl.
    rewrite list_elem_of_omap. split.
    + intros (p & Hin%elem_of_product & Hj).
      apply BruteForce_judge_spec in Hj as (d' & c' & [= -> -> ->] & Hf);
        [done | by eapply chain_labels_known].
    + intros [Hc Hf]. exists path. split; [by apply elem_of_product|].
      apply BruteForce_judge_spec; [by eapply chain_labels_known | eauto].
  - intros p Hc%elem_of_product.
    destruct (BruteForce_chain_totals_spec MSG p) as (t & ? & _); eauto.
    by eapply chain_labels_known.
Qed.

(** The three cases of an ingress or egress term. *)
Lemma endpoint_term_cases Gp (a b : Z) :
  (a = b → Spec.endpoint_delay Gp a b = 0 ∧ Spec.endpoint_cost Gp a b = 0)
  ∧ (a ≠ b → Substrate.has_path Gp a b = true →
       Spec.endpoint_delay Gp a b = Spec.sp_delay Gp a b
       ∧ Spec.endpoint_cost Gp a b = Spec.sp_cost Gp a b)
  ∧ (a ≠ b → Substrate.has_path Gp a b = false →
       Spec.endpoint_delay Gp a b = 0 ∧ Spec.endpoint_cost Gp a b = 0).
Proof.
  unfold Spec.endpoint_delay, Spec.endpoint_cost. split_and!.
  - intros ->. by rewrite !decide_True.
  - intros Hne Hp. by rewrite !decide_False, Hp.
  - intros Hne Hp. by rewrite !decide_False, Hp.
Qed.

(** Under a smaller budget the kept candidates are those of the larger one
    whose delay fits. *)
Lemma judge_budget totals (b b' : Z) (x : list string) :
  b' ≤ b →
  judge totals b' x
  = match judge totals b x with
    | Some y => if decide (y.1.2 ≤ b') then Some y else None
    | None => None
    end.
Proof.
  intros Hle. unfold judge. destruct (totals x) as [[[d c]|]|]; try done.
  destruct (Z.leb_spec d b'), (Z.leb_spec d b); simpl; try lia.
  - by rewrite decide_True.
  - by rewrite decide_False by lia.
  - done.
Qed.

Lemma judge_budget_filter totals (b b' : Z) (xs : list (list string)) :
  b' ≤ b →
  omap (judge totals b') xs
  = filter (λ x : candidate, x.1.2 ≤ b') (omap (judge totals b) xs).
Proof.
  intros Hle. induction xs as [|x xs IH]; [done|].
  cbn [omap list_omap]. fold (omap (judge totals b') xs) (omap (judge totals b) xs).
  rewrite (judge_budget totals b b' x Hle).
  destruct (judge totals b x) as [y|]; [|done].
  rewrite filter_cons. destruct (decide (y.1.2 ≤ b')); by rewrite IH.
Qed.

(** ** The loop body of the brute-force script, read backwards *)

Lemma simulate_request_inv G sfc σ row σ' :
  BruteForce.simulate_request G sfc σ = Ok (Some row, σ') →
  ∃ (MSG_a : DiGraph.t) sn_a pa da ca used (MSG_b : DiGraph.t) sn_b,
    construct_msg G sfc ∅ σ = Ok ((MSG_a, sn_a), σ)
    ∧ BruteForce.find_feasible_path MSG_a sn_a sfc G = Ok (Some (pa, da, ca))
    ∧ BruteForce.path_hosts MSG_a pa = Ok used
    ∧ construct_msg G sfc used σ = Ok ((MSG_b, sn_b), σ)
    ∧ σ' = σ
    ∧ match BruteForce.find_feasible_path MSG_b sn_b sfc G with
      | Ok (Some (pb, db, cb)) =>
          ∃ bdc, for_each (BruteForce.failover_step G MSG_a MSG_b) 0 (zip pa pb) = Ok bdc
                 ∧ BruteForce.MSG_Backup_Path row = pb
                 ∧ BruteForce.MSG_Total_Cost row = ca + cb + bdc
      | Ok None =>
          BruteForce.MSG_Backup_Path row = []
          ∧ BruteForce.MSG_Total_Cost row = ca
      | Raise _ => False
      end.
Proof.
  destruct (construct_msg_spec G sfc ∅ σ) as (MSG_a & Ha & _).
  unfold BruteForce.simulate_request. unfold mbind at 1, St_bind. rewrite Ha.
  unfold mbind at 1, St_bind, lift at 1.
  destruct (BruteForce.find_feasible_path MSG_a _ sfc G) as [[[[pa da] ca]|]|] eqn:Hfa;
    [| done | done].
  unfold mbind at 1, St_bind, lift at 1.
  destruct (BruteForce.path_hosts MSG_a pa) as [used|] eqn:Hu; [|done].
  destruct (construct_msg_spec G sfc used σ) as (MSG_b & Hb & _).
  unfold mbind at 1, St_bind. rewrite Hb.
  unfold mbind at 1, St_bind, lift at 1.
  destruct (BruteForce.find_feasible_path MSG_b _ sfc G) as [[[[pb db] cb]|]|] eqn:Hfb;
    [| | done].
  - unfold mbind at 1, St_bind. unfold mbind at 1, St_bind, lift at 1.
    destruct (for_each _ 0 (zip pa pb)) as [bdc|] eqn:Hbdc; [|done].
    unfold mret, St_ret.
    destruct (BruteForce.run_brute_force G sfc) as [[[? ?] ?]|];
      intros [= <- <-]; eexists MSG_a, _, pa, da, ca, used, MSG_b, _;
      (split_and!; [first [exact Ha | done] | first [exact Hfa | done] | done | first [exact Hb | done] | done |]);
      rewrite Hfb; exists bdc; simpl; done.
  - unfold mbind at 1, St_bind. unfold mret, St_ret.
    destruct (BruteForce.run_brute_force G sfc) as [[[? ?] ?]|];
      intros [= <- <-]; eexists MSG_a, _, pa, da, ca, used, MSG_b, _;
      (split_and!; [first [exact Ha | done] | first [exact Hfa | done] | done | first [exact Hb | done] | done |]);
      rewrite Hfb; simpl; split; [done | lia | done | lia].
Qed.


(** ** The batch runs to its end *)

Lemma stage_lists_nonempty σ used stages :
  stages ≠ [] → stage_lists σ used stages ≠ [].
Proof.
  intros Hne E. apply (f_equal length) in E.
  rewrite stage_lists_length in E. by destruct stages.
Qed.

Lemma hosts_known (MSG : DiGraph.t) (used : gset Z) path :
  Forall (λ v, ∃ h, Spec.host MSG v = Some h ∧ (h ∉ used) ∧ label_host v = Ok h) path →
  Forall (λ v, is_Some (DiGraph.nodes MSG !! v)) path.
Proof.
  intros H. eapply Forall_impl; [exact H|]. intros v (h & Hh & _).
  unfold Spec.host in Hh. destruct (DiGraph.nodes MSG !! v); [by eexists | done].
Qed.

(** On a request with at least one stage the loop body raises nothing. *)
Lemma place_total Gp sfc σ :
  SFCRequest.stages sfc ≠ [] → Spec.indexed σ → Spec.capacity_ok σ →
  ∃ r σ', MSGpy.place Gp sfc σ = Ok (r, σ').
Proof.
  intros Hst Hi Hcap. rewrite place_unfold.
  destruct (construct_msg_spec Gp sfc ∅ σ) as (MSG_a & Hca & _ & Hka & _).
  rewrite (place_active_unfold _ _ _ _ _ Hca).
  destruct (all_nonempty _); simpl; [|by eexists _, _].
  destruct (MSGpy_find_feasible_path_spec MSG_a _ sfc Gp
              (stage_lists_nonempty σ ∅ _ Hst) Hka) as (ra & Hfa & _).
  rewrite Hfa. destruct ra as [[[pa da] ca]|]; [|by eexists _, _].
  destruct (commit_prefix _ _ _ _ _ _ _ _ _ (length pa) Hi Hcap Hca Hfa)
    as (ea & σ1 & Hra & Hi1 & Hcap1).
  rewrite firstn_all in Hra. rewrite Hra.
  destruct (found_chain_hosts _ _ _ _ _ _ _ _ _ _ Hca Hfa) as (_ & _ & Hha).
  assert (Hl : MSGpy.label_hosts pa = Ok (Spec.chain_hosts MSG_a pa)).
  { apply label_hosts_spec. eapply Forall_impl; [exact Hha|].
    intros v (h & ? & _ & ?). eauto. }
  destruct (construct_msg_spec Gp sfc (Spec.chain_hosts MSG_a pa) σ1)
    as (MSG_b & Hcb & _ & Hkb & _).
  erewrite place_backup_unfold; [| exact Hl | exact Hcb].
  destruct (MSGpy_find_feasible_path_spec MSG_b _ sfc Gp
              (stage_lists_nonempty σ1 _ _ Hst) Hkb) as (rb & Hfb & _).
  rewrite Hfb. destruct rb as [[[pb db] cb]|]; [|by eexists _, _].
  destruct (commit_prefix _ _ _ _ _ _ _ _ _ (length pb) Hi1 Hcap1 Hcb Hfb)
    as (eb & σ2 & Hrb & _ & _).
  rewrite firstn_all in Hrb. rewrite Hrb.
  destruct (found_chain_hosts _ _ _ _ _ _ _ _ _ _ Hcb Hfb) as (_ & _ & Hhb).
  destruct (failover_total Gp MSG_a MSG_b pa pb 0 (hosts_known _ _ _ Hha)
              (hosts_known _ _ _ Hhb)) as (bdc & Hbdc).
  simpl. rewrite Hbdc. by eexists _, _.
Qed.

(** So does the whole loop, and the ledger it ends with is one the batch
    reaches. *)
Lemma place_all_total Gp sfc_requests rows σ :
  Forall (λ sfc, SFCRequest.stages sfc ≠ []) sfc_requests →
  Spec.indexed σ → Spec.capacity_ok σ →
  ∃ rows' σ', for_each_St (MSGpy.place_step Gp) rows sfc_requests σ = Ok (rows', σ')
    ∧ Spec.reaches Gp sfc_requests σ σ'.
Proof.
  intros H. revert rows σ.
  induction H as [|sfc rest Hst _ IH]; intros rows σ Hi Hcap.
  - exists rows, σ. split; [done | constructor].
  - destruct (place_total Gp sfc σ Hst Hi Hcap) as (r & σ1 & Hp).
    destruct (place_preserves _ _ _ _ _ Hi Hcap Hp) as [Hi1 Hcap1].
    cbn [for_each_St]. unfold mbind at 1, St_bind.
    rewrite place_step_unfold, Hp.
    destruct r as [row|].
    + destruct (IH (rows ++ [row]) σ1 Hi1 Hcap1) as (rows' & σ' & Hrun & Hreach).
      exists rows', σ'. split; [done|]. by eapply Spec.reaches_next.
    + destruct (IH rows σ1 Hi1 Hcap1) as (rows' & σ' & Hrun & Hreach).
      exists rows', σ'. split; [done|]. by eapply Spec.reaches_next.
Qed.

(** [run_simulation] on any substrate and any requests with at least one
    stage each: the placement loop returns, every host of the ledger it
    ends with is within its capacity, and the outcome of the run is that
    of the monitoring pass over the rows. *)
Lemma run_simulation_places Gp sfc_requests :
  Forall (λ sfc, SFCRequest.stages sfc ≠ []) sfc_requests →
  ∃ rows σ,
    MSGpy.place_all Gp sfc_requests
      (MSGpy.initial_nodes MSGpy.NUM_PHYSICAL_NODES MSGpy.MAX_CPU_PER_NODE) = Ok (rows, σ)
    ∧ Spec.reaches Gp sfc_requests
        (MSGpy.initial_nodes MSGpy.NUM_PHYSICAL_NODES MSGpy.MAX_CPU_PER_NODE) σ
    ∧ Spec.capacity_ok σ
    ∧ MSGpy.run_simulation Gp sfc_requests
      = (MSGpy.run_monitoring_placement rows Gp σ ≫= λ _, Ok (rows, σ)).
Proof.
  intros H. unfold MSGpy.run_simulation.
  assert (Hi := initial_nodes_indexed MSGpy.NUM_PHYSICAL_NODES MSGpy.MAX_CPU_PER_NODE).
  assert (Hcap : Spec.capacity_ok
            (MSGpy.initial_nodes MSGpy.NUM_PHYSICAL_NODES MSGpy.MAX_CPU_PER_NODE)).
  { apply initial_capacity_ok. vm_compute. repeat constructor. }
  destruct (place_all_total Gp sfc_requests [] _ H Hi Hcap) as (rows & σ & Hrun & Hreach).
  exists rows, σ. unfold MSGpy.place_all. rewrite Hrun.
  split; [done|]. split; [done|].
  split; [by destruct (reaches_preserves _ _ _ _ Hreach Hi Hcap) | done].
Qed.

(** The substrates of the examples: the nodes of the [MSG.py] graph in the
    order of [list(G.nodes)], and no pair of nodes of any of the three
    with two paths of least delay, so that the shortest path between two
    nodes is the same whatever order the search settles the nodes in. *)
Lemma msg_py_graph_nodes : Substrate.nodes Demo.G = [0; 1; 2; 3; 4; 5; 6; 7].
Proof. vm_compute. reflexivity. Qed.

Lemma demo_substrates_no_ties :
  Net.no_ties Net.msg_py_edges = true
  ∧ Net.no_ties Net.line5_edges = true
  ∧ Net.no_ties Net.islands_edges = true.
Proof. vm_compute. done. Qed.


(** ** An accepted request, step by step *)

Lemma hosts_outside (MSG : DiGraph.t) (used : gset Z) path :
  Forall (λ v, ∃ h, Spec.host MSG v = Some h ∧ (h ∉ used) ∧ label_host v = Ok h) path →
  Spec.chain_hosts MSG path ## used.
Proof.
  intros H. unfold Spec.chain_hosts. apply elem_of_disjoint. intros h Hh Hu.
  apply elem_of_list_to_set, list_elem_of_omap in Hh as (v & Hv & Hhost).
  rewrite Forall_forall in H.
  destruct (H v Hv) as (h' & Hh' & Hout & _). congruence.
Qed.

Lemma place_Some_inv Gp sfc σ row σ' :
  MSGpy.place Gp sfc σ = Ok (Some row, σ') →
  ∃ (MSG_a : DiGraph.t) sn_a σ1 used (MSG_b : DiGraph.t) sn_b,
    construct_msg Gp sfc ∅ σ = Ok ((MSG_a, sn_a), σ)
    ∧ MSGpy.find_feasible_path MSG_a sn_a sfc Gp
      = Ok (Some (MSGpy.Active_Path row, MSGpy.Active_Delay row, MSGpy.Active_Cost row))
    ∧ MSGpy.reserve_resources (MSGpy.Active_Path row) MSG_a σ
      = Ok (MSGpy.Deploy_Cost_active row, σ1)
    ∧ MSGpy.label_hosts (MSGpy.Active_Path row) = Ok used
    ∧ construct_msg Gp sfc used σ1 = Ok ((MSG_b, sn_b), σ1)
    ∧ match MSGpy.find_feasible_path MSG_b sn_b sfc Gp with
      | Ok None =>
          MSGpy.Backup_Path row = [] ∧ MSGpy.Backup_Delay row = 0
          ∧ MSGpy.Backup_Cost row = 0 ∧ MSGpy.Deploy_Cost_backup row = 0
          ∧ MSGpy.Backup_Delay_Cost row = 0
          ∧ MSGpy.Total_Cost row = MSGpy.Active_Cost row + MSGpy.Deploy_Cost_active row
          ∧ σ' = σ1
      | Ok (Some (p, d, c)) =>
          MSGpy.Backup_Path row = p ∧ MSGpy.Backup_Delay row = d
          ∧ MSGpy.Backup_Cost row = c
          ∧ MSGpy.reserve_resources p MSG_b σ1 = Ok (MSGpy.Deploy_Cost_backup row, σ')
          ∧ for_each (MSGpy.failover_step Gp MSG_a MSG_b) 0
                     (zip (MSGpy.Active_Path row) p)
            = Ok (MSGpy.Backup_Delay_Cost row)
          ∧ MSGpy.Total_Cost row
            = MSGpy.Active_Cost row + MSGpy.Backup_Cost row
              + MSGpy.Deploy_Cost_active row + MSGpy.Deploy_Cost_backup row
              + MSGpy.Backup_Delay_Cost row
      | Raise _ => False
      end.
Proof.
  intros [[? _] | (act & σ1 & row' & [= <-] & Ha & Hb)]%place_inv; [done|].
  apply place_active_inv in Ha as (MSG_a & sn_a & Hca & _ & HM & Hfa & Hra).
  apply place_backup_inv in Hb as (used & MSG_b & sn_b & Hl & Hcb & Hb).
  exists MSG_a, sn_a, σ1, used, MSG_b, sn_b.
  destruct Hb as [(Hfb & -> & ->) | (p & d & c & e & bdc & Hfb & Hrb & Hbdc & ->)];
    rewrite Hfb; simpl; rewrite ?HM in *; split_and!; done.
Qed.

(* ===================================================================== *)
(** * Part III: the claims                                                *)
(* ===================================================================== *)

(** Claim C1.  On an MSG and a non-empty list of stage lists whose labels
    are vertices of the MSG, [find_feasible_path] returns normally in both
    scripts.  What it returns is a chain with one vertex per stage that
    survives the filters (pairwise-distinct host ids, an MSG edge between
    consecutive vertices, total delay within [max_delay]), whose total
    cost is minimal among the surviving chains and which comes first in
    the enumeration order of the Cartesian product among the survivors of
    that cost; it returns [None] exactly when no chain survives.  The
    totals are those of the script: with the ingress and egress terms in
    [MSG.py], the inter-stage sums in the brute-force script. *)
Theorem find_feasible_path_optimal MSG stage_nodes sfc Gp :
  stage_nodes ≠ [] →
  Spec.labels_known MSG stage_nodes →
  (∃ r, MSGpy.find_feasible_path MSG stage_nodes sfc Gp = Ok r
        ∧ Spec.search_result (Spec.feasible Gp sfc MSG) stage_nodes r)
  ∧ (∃ r, BruteForce.find_feasible_path MSG stage_nodes sfc Gp = Ok r
          ∧ Spec.search_result (Spec.feasible_inter sfc MSG) stage_nodes r).
Proof.
  intros Hne Hk. split.
  - by apply MSGpy_find_feasible_path_spec.
  - by apply BruteForce_find_feasible_path_spec.
Qed.

Lemma find_feasible_path_optimal_witness :
  Demo.stage_nodes0 ≠ []
  ∧ Spec.labels_known Demo.MSG0 Demo.stage_nodes0
  ∧ MSGpy.find_feasible_path Demo.MSG0 Demo.stage_nodes0 sfc0 Demo.G
    = Ok (Some (Demo.chain0, 6, 9))
  ∧ Spec.search_result (Spec.feasible Demo.G sfc0 Demo.MSG0)
                       Demo.stage_nodes0 (Some (Demo.chain0, 6, 9))
  ∧ BruteForce.find_feasible_path Demo.MSG0 Demo.stage_nodes0 sfc0 Demo.G
    = Ok (Some (Demo.chain0, 5, 5))
  ∧ Spec.search_result (Spec.feasible_inter sfc0 Demo.MSG0)
                       Demo.stage_nodes0 (Some (Demo.chain0, 5, 5))
  ∧ Spec.inter_delay Demo.MSG0 Demo.chain0 = 5
  ∧ Spec.inter_cost Demo.MSG0 Demo.chain0 = 5
  ∧ Substrate.shortest_path Demo.G 2 3 = [2; 3]
  ∧ Spec.endpoint_delay Demo.G 0 0 = 0
  ∧ Spec.endpoint_delay Demo.G 2 3 = 1
  ∧ Spec.endpoint_cost Demo.G 2 3 = 4.
Proof.
  assert (H1 : Demo.stage_nodes0 ≠ []) by (vm_compute; discriminate).
  assert (H2 : Spec.labels_known Demo.MSG0 Demo.stage_nodes0)
    by (refine (bool_decide_unpack _ _); vm_compute; exact I).
  assert (E1 : MSGpy.find_feasible_path Demo.MSG0 Demo.stage_nodes0 sfc0 Demo.G
               = Ok (Some (Demo.chain0, 6, 9))) by (vm_compute; reflexivity).
  assert (E2 : BruteForce.find_feasible_path Demo.MSG0 Demo.stage_nodes0 sfc0 Demo.G
               = Ok (Some (Demo.chain0, 5, 5))) by (vm_compute; reflexivity).
  destruct (find_feasible_path_optimal Demo.MSG0 Demo.stage_nodes0 sfc0 Demo.G H1 H2)
    as [(r1 & Hr1 & Hs1) (r2 & Hr2 & Hs2)].
  rewrite E1 in Hr1. rewrite E2 in Hr2.
  injection Hr1 as <-. injection Hr2 as <-.
  split; [exact H1|]. split; [exact H2|].
  split; [exact E1|]. split; [exact Hs1|].
  split; [exact E2|]. split; [exact Hs2|].
  vm_compute. repeat split; reflexivity.
Defined.

(** Claim C2.  From the initial ledger of any positive per-host
    capacities (host [i] at position [i], nothing in use), every ledger the
    batch passes through has [used_cpu ≤ cpu] on every host: between
    requests, and any number of vertices into the commit of an active or
    of a backup chain (MSG construction and search leave the ledger as it
    is). *)
Theorem capacity_invariant Gp sfc_requests caps σ :
  Forall (λ c, 0 < c) caps →
  Spec.reaches Gp sfc_requests (Spec.initial_ledger caps) σ →
  Spec.capacity_ok σ.
Proof.
  intros Hcaps Hr.
  by destruct (reaches_preserves _ _ _ _ Hr (initial_ledger_indexed caps)
                 (initial_ledger_capacity_ok caps Hcaps)).
Qed.

(** The two fixed requests of [MSG.py] on its six hosts of capacity 7. *)
Lemma capacity_invariant_witness :
  Forall (λ c, 0 < c) (replicate 6 7)
  ∧ Spec.reaches Demo.G [sfc0; sfc1] (Spec.initial_ledger (replicate 6 7)) Demo.σ2
  ∧ Spec.capacity_ok Demo.σ2.
Proof.
  assert (H1 : Forall (λ c, 0 < c) (replicate 6 7))
    by (refine (bool_decide_unpack _ _); vm_compute; exact I).
  assert (H2 : Spec.reaches Demo.G [sfc0; sfc1] (Spec.initial_ledger (replicate 6 7))
                 Demo.σ2).
  { apply (Spec.reaches_next Demo.G sfc0 [sfc1] (Spec.initial_ledger (replicate 6 7))
             (Some Demo.row0) Demo.σ1 Demo.σ2); [vm_compute; reflexivity|].
    eapply (Spec.reaches_next Demo.G sfc1 [] Demo.σ1 _ Demo.σ2);
      [vm_compute; reflexivity | apply Spec.reaches_here]. }
  split; [exact H1|]. split; [exact H2|].
  exact (capacity_invariant Demo.G [sfc0; sfc1] (replicate 6 7) Demo.σ2 H1 H2).
Defined.

(** Claim C3.  When a request gets both chains, the exclusion set passed
    to the backup construction is the set of host ids of the active chain
    (parsed from its labels), the backup chain is a chain over the backup
    stage lists, every vertex of either chain has a host, and the two sets
    of host ids are disjoint. *)
Theorem backup_hosts_disjoint Gp sfc σ row σ' :
  MSGpy.place Gp sfc σ = Ok (Some row, σ') →
  MSGpy.Backup_Path row ≠ [] →
  ∃ (MSG_a : DiGraph.t) sn_a σ1 used (MSG_b : DiGraph.t) sn_b,
    construct_msg Gp sfc ∅ σ = Ok ((MSG_a, sn_a), σ)
    ∧ Spec.chain_of sn_a (MSGpy.Active_Path row)
    ∧ MSGpy.label_hosts (MSGpy.Active_Path row) = Ok used
    ∧ used = Spec.chain_hosts MSG_a (MSGpy.Active_Path row)
    ∧ construct_msg Gp sfc used σ1 = Ok ((MSG_b, sn_b), σ1)
    ∧ Spec.chain_of sn_b (MSGpy.Backup_Path row)
    ∧ Forall (λ v, is_Some (Spec.host MSG_a v)) (MSGpy.Active_Path row)
    ∧ Forall (λ v, is_Some (Spec.host MSG_b v)) (MSGpy.Backup_Path row)
    ∧ Spec.chain_hosts MSG_a (MSGpy.Active_Path row)
      ## Spec.chain_hosts MSG_b (MSGpy.Backup_Path row).
Proof.
  intros (MSG_a & sn_a & σ1 & used & MSG_b & sn_b & Hca & Hfa & Hra & Hl & Hcb & Hb)
         %place_Some_inv Hne.
  destruct (found_chain_hosts _ _ _ _ _ _ _ _ _ _ Hca Hfa) as (_ & Hchain_a & Hhosts_a).
  assert (Hused : used = Spec.chain_hosts MSG_a (MSGpy.Active_Path row)).
  { rewrite (label_hosts_spec MSG_a) in Hl; [by injection Hl|].
    eapply Forall_impl; [exact Hhosts_a|]. intros v (h & ? & _ & ?). eauto. }
  destruct (MSGpy.find_feasible_path MSG_b sn_b sfc Gp) as [[[[p d] c]|]|] eqn:Hfb;
    [| by destruct Hb as [? _] | done].
  destruct Hb as (Hp & _). rewrite Hp in *.
  destruct (found_chain_hosts _ _ _ _ _ _ _ _ _ _ Hcb Hfb) as (_ & Hchain_b & Hhosts_b).
  exists MSG_a, sn_a, σ1, used, MSG_b, sn_b. split_and!; try done.
  - eapply Forall_impl; [exact Hhosts_a|]. intros v (h & -> & _). by eexists.
  - eapply Forall_impl; [exact Hhosts_b|]. intros v (h & -> & _). by eexists.
  - rewrite <- Hused. symmetry. by apply hosts_outside.
Qed.

Lemma backup_hosts_disjoint_witness :
  MSGpy.place Demo.G sfc0 Demo.σ0 = Ok (Some Demo.row0, Demo.σ1)
  ∧ MSGpy.Backup_Path Demo.row0 ≠ []
  ∧ ∃ (MSG_a : DiGraph.t) sn_a σ1 used (MSG_b : DiGraph.t) sn_b,
      construct_msg Demo.G sfc0 ∅ Demo.σ0 = Ok ((MSG_a, sn_a), Demo.σ0)
      ∧ Spec.chain_of sn_a (MSGpy.Active_Path Demo.row0)
      ∧ MSGpy.label_hosts (MSGpy.Active_Path Demo.row0) = Ok used
      ∧ used = Spec.chain_hosts MSG_a (MSGpy.Active_Path Demo.row0)
      ∧ construct_msg Demo.G sfc0 used σ1 = Ok ((MSG_b, sn_b), σ1)
      ∧ Spec.chain_of sn_b (MSGpy.Backup_Path Demo.row0)
      ∧ Forall (λ v, is_Some (Spec.host MSG_a v)) (MSGpy.Active_Path Demo.row0)
      ∧ Forall (λ v, is_Some (Spec.host MSG_b v)) (MSGpy.Backup_Path Demo.row0)
      ∧ Spec.chain_hosts MSG_a (MSGpy.Active_Path Demo.row0)
        ## Spec.chain_hosts MSG_b (MSGpy.Backup_Path Demo.row0).
Proof.
  assert (H1 : MSGpy.place Demo.G sfc0 Demo.σ0
               = Ok (Some Demo.row0, Demo.σ1)) by (vm_compute; reflexivity).
  assert (H2 : MSGpy.Backup_Path Demo.row0 ≠ []) by (vm_compute; discriminate).
  split; [exact H1|]. split; [exact H2|].
  exact (backup_hosts_disjoint Demo.G sfc0 Demo.σ0 Demo.row0 Demo.σ1 H1 H2).
Defined.


(** Claim C4.  [construct_msg] never raises and returns the ledger as it
    got it.  Its stage-[s] list is the list of the labels of the hosts
    whose spare capacity covers the stage-[s] demand and whose id is not
    excluded; each of these labels carries the host id, the stage and the
    demand; and the MSG has an edge from [u] to [v] exactly when [u] and
    [v] are in consecutive stage lists, their hosts differ and the
    substrate has a path between the hosts, the edge being labelled with
    the delay and cost totals of the delay-weighted shortest path. *)
Theorem construct_msg_correct Gp sfc used σ :
  ∃ (MSG : DiGraph.t) stage_nodes,
    construct_msg Gp sfc used σ = Ok ((MSG, stage_nodes), σ)
    ∧ length stage_nodes = length (SFCRequest.stages sfc)
    ∧ (∀ (s : nat) d, SFCRequest.stages sfc !! s = Some d →
         stage_nodes !! s = Some (Spec.stage_candidates σ used s d))
    ∧ (∀ (s : nat) d n, SFCRequest.stages sfc !! s = Some d → n ∈ σ →
         d ≤ PhysicalNode.cpu n - PhysicalNode.used_cpu n →
         PhysicalNode.id n ∉ used →
         DiGraph.nodes MSG !! vname (PhysicalNode.id n) s
         = Some {| DiGraph.physical := PhysicalNode.id n; DiGraph.stage := s;
                   DiGraph.cpu := d |})
    ∧ (∀ u v e, DiGraph.adj MSG !! (u, v) = Some e
         ↔ ∃ (s : nat) us vs pu pv,
             stage_nodes !! s = Some us ∧ stage_nodes !! S s = Some vs
             ∧ u ∈ us ∧ v ∈ vs
             ∧ Spec.host MSG u = Some pu ∧ Spec.host MSG v = Some pv
             ∧ pu ≠ pv ∧ Substrate.has_path Gp pu pv = true
             ∧ e = Spec.edge_label Gp pu pv).
Proof.
  destruct (construct_msg_spec Gp sfc used σ) as (MSG & Hc & Hok & Hk & Hadj).
  exists MSG, (stage_lists σ used (SFCRequest.stages sfc)). split_and!.
  - exact Hc.
  - apply stage_lists_length.
  - intros s d Hs. by rewrite stage_lists_lookup, Hs.
  - intros s d n Hs Hn Hfree Hused.
    assert (Hpool : stage_lists σ used (SFCRequest.stages sfc) !! s
                    = Some (Spec.stage_candidates σ used s d))
      by by rewrite stage_lists_lookup, Hs.
    assert (Hin : vname (PhysicalNode.id n) s ∈ Spec.stage_candidates σ used s d)
      by (apply elem_of_stage_candidates; eauto 6).
    destruct (stage_vertex _ _ _ _ _ _ _ Hok Hk Hpool Hin)
      as (d' & n' & Hs' & _ & _ & _ & [Hid _]%vname_inj & Ha).
    rewrite Ha, Hid. do 2 f_equal. congruence.
  - intros u v e. by apply construct_msg_edges.
Qed.

Lemma construct_msg_correct_witness :
  construct_msg Demo.G sfc0 ∅ Demo.σ0
  = Ok ((Demo.MSG0, Demo.stage_nodes0), Demo.σ0)
  ∧ Demo.stage_nodes0
    = [ ["0_s0"; "1_s0"; "2_s0"; "3_s0"; "4_s0"; "5_s0"];
        ["0_s1"; "1_s1"; "2_s1"; "3_s1"; "4_s1"; "5_s1"];
        ["0_s2"; "1_s2"; "2_s2"; "3_s2"; "4_s2"; "5_s2"] ]
  ∧ Substrate.shortest_path Demo.G 0 3 = [0; 1; 2; 3]
  ∧ DiGraph.adj Demo.MSG0 !! ("0_s0", "3_s1")
    = Some {| DiGraph.delay := 6; DiGraph.cost := 9 |}
  ∧ DiGraph.adj Demo.MSG0 !! ("0_s0", "0_s1") = None
  ∧ DiGraph.nodes Demo.MSG0 !! "4_s2"
    = Some {| DiGraph.physical := 4; DiGraph.stage := 2; DiGraph.cpu := 1 |}.
Proof.
  assert (E : construct_msg Demo.G sfc0 ∅ Demo.σ0
              = Ok ((Demo.MSG0, Demo.stage_nodes0), Demo.σ0))
    by (vm_compute; reflexivity).
  destruct (construct_msg_correct Demo.G sfc0 ∅ Demo.σ0)
    as (MSG & sn & Hc & _ & _ & Hnodes & Hadj).
  assert (MSG = Demo.MSG0 ∧ sn = Demo.stage_nodes0) as [-> ->]
    by (split; congruence).
  split; [exact E|]. split; [vm_compute; reflexivity|].
  split; [vm_compute; reflexivity|]. split; [|split].
  - apply Hadj.
    exists 0%nat, ["0_s0"; "1_s0"; "2_s0"; "3_s0"; "4_s0"; "5_s0"],
           ["0_s1"; "1_s1"; "2_s1"; "3_s1"; "4_s1"; "5_s1"], 0, 3.
    split; [vm_compute; reflexivity|]. split; [vm_compute; reflexivity|].
    split; [refine (bool_decide_unpack _ _); vm_compute; exact I|].
    split; [refine (bool_decide_unpack _ _); vm_compute; exact I|].
    split; [vm_compute; reflexivity|]. split; [vm_compute; reflexivity|].
    split; [discriminate|]. split; vm_compute; reflexivity.
  - destruct (DiGraph.adj Demo.MSG0 !! ("0_s0", "0_s1")) as [e|] eqn:He; [|reflexivity].
    apply Hadj in He as (s & us & vs & pu & pv & _ & _ & _ & _ & Hu & Hv & Hne & _).
    vm_compute in Hu, Hv. congruence.
  - apply (Hnodes 2%nat 1 (PhysicalNode.new 4 7)).
    + vm_compute; reflexivity.
    + apply (list_elem_of_lookup_2 _ 4%nat). vm_compute; reflexivity.
    + vm_compute; discriminate.
    + apply not_elem_of_empty.
Defined.

(** Claim C5, as stated, fails for the search of the brute-force script:
    on the MSG of the first fixed request it returns the chain on hosts
    0, 1, 2 with delay 5, the inter-stage sum, while the total delay with
    the egress path from host 2 to the destination 3 is 6. *)
Lemma brute_force_search_omits_endpoints :
  ¬ (∀ MSG stage_nodes sfc G path d c,
       BruteForce.find_feasible_path MSG stage_nodes sfc G = Ok (Some (path, d, c)) →
       Spec.total_delay G sfc MSG path = Some d).
Proof.
  intros H.
  specialize (H Demo.MSG0 Demo.stage_nodes0 sfc0 Demo.G Demo.chain0 5 5).
  assert (E : BruteForce.find_feasible_path Demo.MSG0 Demo.stage_nodes0 sfc0
                Demo.G = Ok (Some (Demo.chain0, 5, 5)))
    by (vm_compute; reflexivity).
  apply H in E. vm_compute in E. discriminate.
Qed.

(** Claim C5, as amended.  On an MSG and a non-empty list of stage lists
    of known labels, the candidates [find_feasible_path] of [MSG.py] keeps
    are exactly the chains with pairwise-distinct hosts and an MSG edge
    between consecutive vertices whose total delay is within the budget
    ([Spec.feasible]): the total delay is the sum of the inter-stage edge
    delays plus the ingress term (source to first host) plus the egress
    term (last host to destination), and the total cost likewise
    ([Spec.total_delay], [Spec.total_cost]).  Such a term is zero when the
    two hosts coincide, the total of the delay-weighted shortest path when
    a path exists, and zero when there is none: the chain is kept all the
    same.  The search of the brute-force script keeps the same chains on
    the inter-stage sums alone, with no ingress or egress term
    ([Spec.feasible_inter]). *)
Theorem search_totals MSG stage_nodes sfc Gp :
  stage_nodes ≠ [] →
  Spec.labels_known MSG stage_nodes →
  (∃ ps, MSGpy.feasible_paths MSG stage_nodes sfc Gp = Ok ps
     ∧ ∀ path d c, (path, d, c) ∈ ps
         ↔ Spec.chain_of stage_nodes path ∧ Spec.feasible Gp sfc MSG path d c)
  ∧ (∀ a b,
       (a = b → Spec.endpoint_delay Gp a b = 0 ∧ Spec.endpoint_cost Gp a b = 0)
       ∧ (a ≠ b → Substrate.has_path Gp a b = true →
            Spec.endpoint_delay Gp a b = Spec.sp_delay Gp a b
            ∧ Spec.endpoint_cost Gp a b = Spec.sp_cost Gp a b)
       ∧ (a ≠ b → Substrate.has_path Gp a b = false →
            Spec.endpoint_delay Gp a b = 0 ∧ Spec.endpoint_cost Gp a b = 0))
  ∧ (∃ ps, BruteForce.feasible_paths MSG stage_nodes sfc Gp = Ok ps
       ∧ ∀ path d c, (path, d, c) ∈ ps
           ↔ Spec.chain_of stage_nodes path ∧ Spec.feasible_inter sfc MSG path d c).
Proof.
  intros Hne Hk. split_and!.
  - by apply MSGpy_feasible_paths_spec.
  - apply endpoint_term_cases.
  - by apply BruteForce_feasible_paths_spec.
Qed.

Lemma search_totals_witness :
  Demo.stage_nodes0 ≠ []
  ∧ Spec.labels_known Demo.MSG0 Demo.stage_nodes0
  ∧ Spec.chain_of Demo.stage_nodes0 Demo.chain0
  ∧ Spec.feasible Demo.G sfc0 Demo.MSG0 Demo.chain0 6 9
  ∧ Spec.feasible_inter sfc0 Demo.MSG0 Demo.chain0 5 5
  ∧ Spec.inter_delay Demo.MSG0 Demo.chain0 = 5
  ∧ Spec.inter_cost Demo.MSG0 Demo.chain0 = 5
  ∧ Spec.first_host Demo.MSG0 Demo.chain0 = Some 0
  ∧ Spec.last_host Demo.MSG0 Demo.chain0 = Some 2
  ∧ Spec.endpoint_delay Demo.G 0 0 = 0 ∧ Spec.endpoint_cost Demo.G 0 0 = 0
  ∧ Substrate.shortest_path Demo.G 2 3 = [2; 3]
  ∧ Spec.endpoint_delay Demo.G 2 3 = 1 ∧ Spec.endpoint_cost Demo.G 2 3 = 4
  ∧ Spec.total_delay Demo.G sfc0 Demo.MSG0 Demo.chain0 = Some 6
  ∧ Spec.total_cost Demo.G sfc0 Demo.MSG0 Demo.chain0 = Some 9.
Proof.
  assert (H1 : Demo.stage_nodes0 ≠ []) by (vm_compute; discriminate).
  assert (H2 : Spec.labels_known Demo.MSG0 Demo.stage_nodes0)
    by (refine (bool_decide_unpack _ _); vm_compute; exact I).
  assert (E1 : match MSGpy.feasible_paths Demo.MSG0 Demo.stage_nodes0 sfc0 Demo.G with
               | Ok ps => head ps
               | Raise _ => None
               end = Some (Demo.chain0, 6, 9)) by (vm_compute; reflexivity).
  assert (E2 : match BruteForce.feasible_paths Demo.MSG0 Demo.stage_nodes0 sfc0 Demo.G with
               | Ok ps => head ps
               | Raise _ => None
               end = Some (Demo.chain0, 5, 5)) by (vm_compute; reflexivity).
  destruct (search_totals Demo.MSG0 Demo.stage_nodes0 sfc0 Demo.G H1 H2)
    as ((ps1 & Hps1 & Hm) & _ & (ps2 & Hps2 & Hb)).
  rewrite Hps1 in E1. rewrite Hps2 in E2.
  apply head_Some_elem_of, Hm in E1 as [Hch Hf].
  apply head_Some_elem_of, Hb in E2 as [_ Hfi].
  split; [exact H1|]. split; [exact H2|]. split; [exact Hch|].
  split; [exact Hf|]. split; [exact Hfi|].
  destruct Hf as (_ & _ & Hd & Hc & _).
  split; [vm_compute; reflexivity|]. split; [vm_compute; reflexivity|].
  split; [vm_compute; reflexivity|]. split; [vm_compute; reflexivity|].
  split; [vm_compute; reflexivity|]. split; [vm_compute; reflexivity|].
  split; [vm_compute; reflexivity|].
  split; [vm_compute; reflexivity|]. split; [vm_compute; reflexivity|].
  split; [exact Hd | exact Hc].
Defined.

(** An endpoint out of reach costs nothing: with the hosts on one island
    and the source and destination on the other, [MSG.py] places the
    chain on hosts 0 and 1 with the inter-stage totals alone. *)
Example unreachable_endpoints_kept :
  Substrate.has_path Demo.islands 3 0 = false
  ∧ Substrate.has_path Demo.islands 1 4 = false
  ∧ MSGpy.find_feasible_path (Demo.built Demo.islands Demo.sfcI ∅ Demo.σ3).1
      (Demo.built Demo.islands Demo.sfcI ∅ Demo.σ3).2
      Demo.sfcI Demo.islands
    = Ok (Some (["0_s0"; "1_s1"], 1, 1)).
Proof. vm_compute. done. Qed.

(** Claim C6.  On a chain whose vertices resolve to the ledger positions
    and demands [targets], [reserve_resources] returns and leaves what
    [Spec.commit] describes: visiting the vertices in order, it charges
    the activation cost unless the host found at the position is activated
    at that visit, plus the demand times the unit deployment cost, and it
    marks that host activated and adds the demand to its [used_cpu]. *)
Theorem reserve_resources_commit (MSG : DiGraph.t) path σ targets :
  Spec.resolves MSG σ path targets →
  MSGpy.reserve_resources path MSG σ = Ok (Spec.commit targets σ).
Proof. apply reserve_resources_spec. Qed.

Lemma reserve_resources_commit_witness :
  Spec.resolves Demo.MSG0 Demo.σ0 Demo.chain0 [(0%nat, 2); (1%nat, 2); (2%nat, 1)]
  ∧ MSGpy.reserve_resources Demo.chain0 Demo.MSG0 Demo.σ0
    = Ok (Spec.commit [(0%nat, 2); (1%nat, 2); (2%nat, 1)] Demo.σ0).
Proof.
  assert (H : Spec.resolves Demo.MSG0 Demo.σ0 Demo.chain0
                [(0%nat, 2); (1%nat, 2); (2%nat, 1)])
    by (unfold Spec.resolves; refine (bool_decide_unpack _ _); vm_compute; exact I).
  split; [exact H|].
  exact (reserve_resources_commit Demo.MSG0 Demo.chain0 Demo.σ0 _ H).
Defined.

(** The commit of the first active chain: three activations and five
    units of CPU. *)
Example commit_chain0 :
  Spec.commit [(0%nat, 2); (1%nat, 2); (2%nat, 1)] Demo.σ0
  = (11, [ {| PhysicalNode.id := 0; PhysicalNode.cpu := 7;
              PhysicalNode.used_cpu := 2; PhysicalNode.activated := true |};
           {| PhysicalNode.id := 1; PhysicalNode.cpu := 7;
              PhysicalNode.used_cpu := 2; PhysicalNode.activated := true |};
           {| PhysicalNode.id := 2; PhysicalNode.cpu := 7;
              PhysicalNode.used_cpu := 1; PhysicalNode.activated := true |};
           PhysicalNode.new 3 7; PhysicalNode.new 4 7; PhysicalNode.new 5 7 ]).
Proof. reflexivity. Qed.

(** Claim C7.  The row of an accepted request carries
    [Total_Cost = Active_Cost + Backup_Cost + Deploy_Cost_active
    + Deploy_Cost_backup + Backup_Delay_Cost], where the active cost is the
    cost of the chain the active search returned, the deployment costs are
    what [reserve_resources] returned, and the backup delay cost is the
    result of the failover loop; when the backup search returns [None] the
    three backup terms are zero and the total is the active cost plus the
    active deployment cost.  In the brute-force script, which reserves
    nothing and so has no deployment terms, the total is the active cost
    plus the backup cost plus the backup delay cost, and the active cost
    alone when there is no backup. *)
Theorem total_cost_formula :
  (∀ Gp sfc σ row σ',
     MSGpy.place Gp sfc σ = Ok (Some row, σ') →
     ∃ (MSG_a : DiGraph.t) sn_a σ1 used (MSG_b : DiGraph.t) sn_b,
       construct_msg Gp sfc ∅ σ = Ok ((MSG_a, sn_a), σ)
       ∧ MSGpy.find_feasible_path MSG_a sn_a sfc Gp
         = Ok (Some (MSGpy.Active_Path row, MSGpy.Active_Delay row, MSGpy.Active_Cost row))
       ∧ MSGpy.reserve_resources (MSGpy.Active_Path row) MSG_a σ
         = Ok (MSGpy.Deploy_Cost_active row, σ1)
       ∧ MSGpy.label_hosts (MSGpy.Active_Path row) = Ok used
       ∧ construct_msg Gp sfc used σ1 = Ok ((MSG_b, sn_b), σ1)
       ∧ match MSGpy.find_feasible_path MSG_b sn_b sfc Gp with
         | Ok None =>
             MSGpy.Backup_Path row = [] ∧ MSGpy.Backup_Delay row = 0
             ∧ MSGpy.Backup_Cost row = 0 ∧ MSGpy.Deploy_Cost_backup row = 0
             ∧ MSGpy.Backup_Delay_Cost row = 0
             ∧ MSGpy.Total_Cost row
               = MSGpy.Active_Cost row + MSGpy.Deploy_Cost_active row
             ∧ σ' = σ1
         | Ok (Some (p, d, c)) =>
             MSGpy.Backup_Path row = p ∧ MSGpy.Backup_Delay row = d
             ∧ MSGpy.Backup_Cost row = c
             ∧ MSGpy.reserve_resources p MSG_b σ1 = Ok (MSGpy.Deploy_Cost_backup row, σ')
             ∧ for_each (MSGpy.failover_step Gp MSG_a MSG_b) 0
                        (zip (MSGpy.Active_Path row) p)
               = Ok (MSGpy.Backup_Delay_Cost row)
             ∧ MSGpy.Total_Cost row
               = MSGpy.Active_Cost row + MSGpy.Backup_Cost row
                 + MSGpy.Deploy_Cost_active row + MSGpy.Deploy_Cost_backup row
                 + MSGpy.Backup_Delay_Cost row
         | Raise _ => False
         end)
  ∧ (∀ G sfc σ row σ',
       BruteForce.simulate_request G sfc σ = Ok (Some row, σ') →
       ∃ (MSG_a : DiGraph.t) sn_a pa da ca used (MSG_b : DiGraph.t) sn_b,
         construct_msg G sfc ∅ σ = Ok ((MSG_a, sn_a), σ)
         ∧ BruteForce.find_feasible_path MSG_a sn_a sfc G = Ok (Some (pa, da, ca))
         ∧ BruteForce.path_hosts MSG_a pa = Ok used
         ∧ construct_msg G sfc used σ = Ok ((MSG_b, sn_b), σ)
         ∧ σ' = σ
         ∧ match BruteForce.find_feasible_path MSG_b sn_b sfc G with
           | Ok (Some (pb, db, cb)) =>
               ∃ bdc, for_each (BruteForce.failover_step G MSG_a MSG_b) 0 (zip pa pb)
                      = Ok bdc
                      ∧ BruteForce.MSG_Backup_Path row = pb
                      ∧ BruteForce.MSG_Total_Cost row = ca + cb + bdc
           | Ok None =>
               BruteForce.MSG_Backup_Path row = []
               ∧ BruteForce.MSG_Total_Cost row = ca
           | Raise _ => False
           end).
Proof.
  split.
  - intros Gp sfc σ row σ'. apply place_Some_inv.
  - intros G sfc σ row σ'. apply simulate_request_inv.
Qed.


(** The first fixed request of [MSG.py] in both scripts:
    60 = 9 + 20 + 11 + 11 + 9 in [MSG.py], 34 = 5 + 18 + 11 in the
    brute-force script. *)
Lemma total_cost_formula_witness :
  MSGpy.place Demo.G sfc0 Demo.σ0 = Ok (Some Demo.row0, Demo.σ1)
  ∧ BruteForce.simulate_request Demo.G sfc0 Demo.σ0
    = Ok (Some Demo.row_bf, Demo.σ0)
  ∧ (∃ (MSG_a : DiGraph.t) sn_a σ1 used (MSG_b : DiGraph.t) sn_b,
       construct_msg Demo.G sfc0 ∅ Demo.σ0 = Ok ((MSG_a, sn_a), Demo.σ0)
       ∧ MSGpy.find_feasible_path MSG_a sn_a sfc0 Demo.G
         = Ok (Some (MSGpy.Active_Path Demo.row0, MSGpy.Active_Delay Demo.row0,
                     MSGpy.Active_Cost Demo.row0))
       ∧ MSGpy.reserve_resources (MSGpy.Active_Path Demo.row0) MSG_a Demo.σ0
         = Ok (MSGpy.Deploy_Cost_active Demo.row0, σ1)
       ∧ MSGpy.label_hosts (MSGpy.Active_Path Demo.row0) = Ok used
       ∧ construct_msg Demo.G sfc0 used σ1 = Ok ((MSG_b, sn_b), σ1)
       ∧ match MSGpy.find_feasible_path MSG_b sn_b sfc0 Demo.G with
         | Ok None =>
             MSGpy.Backup_Path Demo.row0 = [] ∧ MSGpy.Backup_Delay Demo.row0 = 0
             ∧ MSGpy.Backup_Cost Demo.row0 = 0
             ∧ MSGpy.Deploy_Cost_backup Demo.row0 = 0
             ∧ MSGpy.Backup_Delay_Cost Demo.row0 = 0
             ∧ MSGpy.Total_Cost Demo.row0
               = MSGpy.Active_Cost Demo.row0 + MSGpy.Deploy_Cost_active Demo.row0
             ∧ Demo.σ1 = σ1
         | Ok (Some (p, d, c)) =>
             MSGpy.Backup_Path Demo.row0 = p ∧ MSGpy.Backup_Delay Demo.row0 = d
             ∧ MSGpy.Backup_Cost Demo.row0 = c
             ∧ MSGpy.reserve_resources p MSG_b σ1
               = Ok (MSGpy.Deploy_Cost_backup Demo.row0, Demo.σ1)
             ∧ for_each (MSGpy.failover_step Demo.G MSG_a MSG_b) 0
                        (zip (MSGpy.Active_Path Demo.row0) p)
               = Ok (MSGpy.Backup_Delay_Cost Demo.row0)
             ∧ MSGpy.Total_Cost Demo.row0
               = MSGpy.Active_Cost Demo.row0 + MSGpy.Backup_Cost Demo.row0
                 + MSGpy.Deploy_Cost_active Demo.row0
                 + MSGpy.Deploy_Cost_backup Demo.row0
                 + MSGpy.Backup_Delay_Cost Demo.row0
         | Raise _ => False
         end)
  ∧ (∃ (MSG_a : DiGraph.t) sn_a pa da ca used (MSG_b : DiGraph.t) sn_b,
       construct_msg Demo.G sfc0 ∅ Demo.σ0 = Ok ((MSG_a, sn_a), Demo.σ0)
       ∧ BruteForce.find_feasible_path MSG_a sn_a sfc0 Demo.G = Ok (Some (pa, da, ca))
       ∧ BruteForce.path_hosts MSG_a pa = Ok used
       ∧ construct_msg Demo.G sfc0 used Demo.σ0 = Ok ((MSG_b, sn_b), Demo.σ0)
       ∧ Demo.σ0 = Demo.σ0
       ∧ match BruteForce.find_feasible_path MSG_b sn_b sfc0 Demo.G with
         | Ok (Some (pb, db, cb)) =>
             ∃ bdc, for_each (BruteForce.failover_step Demo.G MSG_a MSG_b) 0 (zip pa pb)
                    = Ok bdc
                    ∧ BruteForce.MSG_Backup_Path Demo.row_bf = pb
                    ∧ BruteForce.MSG_Total_Cost Demo.row_bf = ca + cb + bdc
         | Ok None =>
             BruteForce.MSG_Backup_Path Demo.row_bf = []
             ∧ BruteForce.MSG_Total_Cost Demo.row_bf = ca
         | Raise _ => False
         end).
Proof.
  assert (H1 : MSGpy.place Demo.G sfc0 Demo.σ0
               = Ok (Some Demo.row0, Demo.σ1)) by (vm_compute; reflexivity).
  assert (H2 : BruteForce.simulate_request Demo.G sfc0 Demo.σ0
               = Ok (Some Demo.row_bf, Demo.σ0)) by (vm_compute; reflexivity).
  split; [exact H1|]. split; [exact H2|]. split.
  - exact (proj1 total_cost_formula Demo.G sfc0 Demo.σ0 Demo.row0 Demo.σ1 H1).
  - exact (proj2 total_cost_formula Demo.G sfc0 Demo.σ0 Demo.row_bf Demo.σ0 H2).
Defined.

(** Claim C8.  If the search loop of [MSG.py] runs to its end under the
    budget [d'], it does so under any budget [d ≥ d'], and the candidates
    kept under [d'] are those kept under [d] whose total delay is at most
    [d'], in the same order: lowering the budget removes candidates and
    adds none. *)
Theorem feasibility_monotone MSG stage_nodes sfc Gp (d d' : Z) ps' :
  d' ≤ d →
  MSGpy.feasible_paths MSG stage_nodes (SFCRequest.with_max_delay d' sfc) Gp = Ok ps' →
  ∃ ps, MSGpy.feasible_paths MSG stage_nodes (SFCRequest.with_max_delay d sfc) Gp = Ok ps
      ∧ ps' = filter (λ x : candidate, x.1.2 ≤ d') ps
      ∧ ps' `sublist_of` ps.
Proof.
  intros Hle H.
  change (for_each (examine_with (MSGpy.chain_totals MSG sfc Gp) d') []
            (product stage_nodes) = Ok ps') in H.
  change (∃ ps, for_each (examine_with (MSGpy.chain_totals MSG sfc Gp) d) []
                  (product stage_nodes) = Ok ps
                ∧ ps' = filter (λ x : candidate, x.1.2 ≤ d') ps
                ∧ ps' `sublist_of` ps).
  pose proof (search_loop_budget _ _ d _ _ H) as Hd.
  apply search_loop_inv in H as [_ ->]. simpl.
  eexists. split; [exact Hd|]. split.
  - by apply judge_budget_filter.
  - apply omap_sublist. intros x y. by apply judge_budget_mono.
Qed.

Lemma feasibility_monotone_witness :
  6 ≤ 20
  ∧ MSGpy.feasible_paths Demo.MSG0 Demo.stage_nodes0
      (SFCRequest.with_max_delay 6 sfc0) Demo.G = Ok Demo.kept6
  ∧ ∃ ps, MSGpy.feasible_paths Demo.MSG0 Demo.stage_nodes0
            (SFCRequest.with_max_delay 20 sfc0) Demo.G = Ok ps
      ∧ Demo.kept6 = filter (λ x : candidate, x.1.2 ≤ 6) ps
      ∧ Demo.kept6 `sublist_of` ps.
Proof.
  assert (H1 : 6 ≤ 20) by lia.
  assert (H2 : MSGpy.feasible_paths Demo.MSG0 Demo.stage_nodes0
                 (SFCRequest.with_max_delay 6 sfc0) Demo.G = Ok Demo.kept6)
    by (vm_compute; reflexivity).
  split; [exact H1|]. split; [exact H2|].
  exact (feasibility_monotone Demo.MSG0 Demo.stage_nodes0 sfc0 Demo.G
           20 6 Demo.kept6 H1 H2).
Defined.

(** Claim C9.  When the active MSG of a request has a stage without
    candidates, or the active search returns [None], the loop body returns
    without a row and with the ledger it was given, and the loop goes on
    with the next request from that same ledger and the same rows. *)
Theorem failed_request_leaves_ledger Gp sfc σ (MSG : DiGraph.t) stage_nodes :
  construct_msg Gp sfc ∅ σ = Ok ((MSG, stage_nodes), σ) →
  [] ∈ stage_nodes ∨ MSGpy.find_feasible_path MSG stage_nodes sfc Gp = Ok None →
  MSGpy.place Gp sfc σ = Ok (None, σ)
  ∧ ∀ placements rest,
      for_each_St (MSGpy.place_step Gp) placements (sfc :: rest) σ
      = for_each_St (MSGpy.place_step Gp) placements rest σ.
Proof.
  intros Hc Hfail.
  assert (Ha : MSGpy.place_active Gp sfc σ = Ok (None, σ)).
  { rewrite (place_active_unfold _ _ _ _ _ Hc).
    destruct Hfail as [Hempty | Hnone].
    - apply all_nonempty_false in Hempty. by rewrite Hempty.
    - rewrite Hnone. by destruct (all_nonempty stage_nodes). }
  assert (Hp : MSGpy.place Gp sfc σ = Ok (None, σ)).
  { by rewrite place_unfold, Ha. }
  split; [exact Hp|]. intros placements rest.
  cbn [for_each_St]. unfold mbind at 1, St_bind.
  by rewrite place_step_unfold, Hp.
Qed.

Lemma failed_request_leaves_ledger_witness :
  construct_msg Demo.G Demo.sfcB ∅ Demo.σ0
  = Ok ((Demo.built Demo.G Demo.sfcB ∅ Demo.σ0).1, [[]; []], Demo.σ0)
  ∧ MSGpy.place Demo.G Demo.sfcB Demo.σ0 = Ok (None, Demo.σ0)
  ∧ ∀ placements rest,
      for_each_St (MSGpy.place_step Demo.G) placements (Demo.sfcB :: rest) Demo.σ0
      = for_each_St (MSGpy.place_step Demo.G) placements rest Demo.σ0.
Proof.
  assert (H1 : construct_msg Demo.G Demo.sfcB ∅ Demo.σ0
               = Ok ((Demo.built Demo.G Demo.sfcB ∅ Demo.σ0).1, [[]; []],
                     Demo.σ0)) by (vm_compute; reflexivity).
  assert (H2 : ([] : list string) ∈ [[]; []]
               ∨ MSGpy.find_feasible_path
                   (Demo.built Demo.G Demo.sfcB ∅ Demo.σ0).1 [[]; []]
                   Demo.sfcB Demo.G = Ok None)
    by (left; apply list_elem_of_here).
  split; [exact H1|].
  exact (failed_request_leaves_ledger Demo.G Demo.sfcB Demo.σ0 _ _ H1 H2).
Defined.

(** Claim C10.  With an empty stage list the Cartesian product is empty,
    no chain is examined and [find_feasible_path] returns [None] without
    raising; so when the backup MSG has a stage without candidates,
    [place_backup] returns the row without a backup and the ledger it was
    given. *)
Theorem empty_stage_degrades_safely :
  (∀ MSG stage_nodes sfc Gp,
     [] ∈ stage_nodes → MSGpy.find_feasible_path MSG stage_nodes sfc Gp = Ok None)
  ∧ (∀ Gp sfc act σ used (MSG : DiGraph.t) stage_nodes,
       MSGpy.label_hosts (MSGpy.path_active act) = Ok used →
       construct_msg Gp sfc used σ = Ok ((MSG, stage_nodes), σ) →
       [] ∈ stage_nodes →
       MSGpy.place_backup Gp sfc act σ = Ok (row_without_backup sfc act, σ)).
Proof.
  split.
  - intros. by apply MSGpy_find_feasible_path_empty_stage.
  - intros Gp sfc act σ used MSG stage_nodes Hl Hc Hempty.
    rewrite (place_backup_unfold _ _ _ _ _ _ _ Hl Hc).
    by rewrite MSGpy_find_feasible_path_empty_stage.
Qed.

(** Scenario C: the active chain has taken all five hosts, every backup
    stage list is empty, and the backup is recorded as absent. *)
Lemma empty_stage_degrades_safely_witness :
  MSGpy.find_feasible_path DiGraph.empty [[]] sfc0 Demo.G = Ok None
  ∧ MSGpy.label_hosts (MSGpy.path_active Demo.actC) = Ok Demo.usedC
  ∧ construct_msg Demo.line5 Demo.sfcC Demo.usedC Demo.σC
    = Ok ((Demo.built Demo.line5 Demo.sfcC Demo.usedC Demo.σC).1,
          [[]; []; []; []; []], Demo.σC)
  ∧ MSGpy.place_backup Demo.line5 Demo.sfcC Demo.actC Demo.σC
    = Ok (row_without_backup Demo.sfcC Demo.actC, Demo.σC).
Proof.
  assert (H0 : [] ∈ [[] : list string]) by apply list_elem_of_here.
  assert (H1 : MSGpy.label_hosts (MSGpy.path_active Demo.actC) = Ok Demo.usedC)
    by (vm_compute; reflexivity).
  assert (H2 : construct_msg Demo.line5 Demo.sfcC Demo.usedC Demo.σC
               = Ok ((Demo.built Demo.line5 Demo.sfcC Demo.usedC Demo.σC).1,
                     [[]; []; []; []; []], Demo.σC))
    by (vm_compute; reflexivity).
  assert (H3 : [] ∈ [[]; []; []; []; [] : list string]) by apply list_elem_of_here.
  split; [exact (proj1 empty_stage_degrades_safely DiGraph.empty [[]] sfc0 Demo.G H0)|].
  split; [exact H1|]. split; [exact H2|].
  exact (proj2 empty_stage_degrades_safely Demo.line5 Demo.sfcC Demo.actC
           Demo.σC Demo.usedC _ _ H1 H2 H3).
Defined.

(** ** The scenarios of the description, run *)

(** Scenario A: the active chain sits on hosts 0, 1, 2 with delay 8 and
    cost 12; two hosts are left, too few for a backup of three stages. *)
Example scenario_A :
  ∃ row σ, MSGpy.place Demo.line5 Demo.sfcA Demo.σ5 = Ok (Some row, σ)
    ∧ MSGpy.Active_Path row = ["0_s0"; "1_s1"; "2_s2"]
    ∧ MSGpy.Active_Delay row = 8 ∧ MSGpy.Active_Cost row = 12
    ∧ MSGpy.Backup_Path row = [].
Proof. eexists _, _. vm_compute. done. Qed.

(** Scenario B: no host can carry a stage; nothing is placed and the
    ledger is the initial one. *)
Example scenario_B :
  MSGpy.place Demo.G Demo.sfcB Demo.σ0 = Ok (None, Demo.σ0).
Proof. vm_compute. reflexivity. Qed.

(** Scenario C: the total is the active cost plus the active deployment
    cost, 57 = 12 + 45. *)
Example scenario_C :
  MSGpy.place Demo.line5 Demo.sfcC Demo.σ5
  = Ok (Some (row_without_backup Demo.sfcC Demo.actC), Demo.σC)
  ∧ MSGpy.Total_Cost (row_without_backup Demo.sfcC Demo.actC) = 12 + 45.
Proof. vm_compute. done. Qed.

(** A request without stages makes [MSG.py] raise: [all] of no stage list
    holds, the only chain is the empty one, and [path[0]] fails. *)
Example no_stage_raises (sfc := SFCRequest.with_max_delay 20
                                  {| SFCRequest.id := 4; SFCRequest.src := 0;
                                     SFCRequest.dest := 3; SFCRequest.stages := [];
                                     SFCRequest.bw := 20; SFCRequest.max_delay := 20 |}) :
  MSGpy.place Demo.G sfc Demo.σ0 = Raise IndexError.
Proof. vm_compute. reflexivity. Qed.


(* ===================================================================== *)
(** * Part IV: further properties of the code                             *)
(* ===================================================================== *)

(** ** [PhysicalNode] *)

(** [reserve] keeps the id and the capacity. *)
Lemma reserve_fold_static (n : PhysicalNode.t) (ds : list Z) :
  PhysicalNode.id (foldl PhysicalNode.reserve n ds) = PhysicalNode.id n
  ∧ PhysicalNode.cpu (foldl PhysicalNode.reserve n ds) = PhysicalNode.cpu n.
Proof.
  revert n. induction ds as [|d ds IH]; intros n; [done|].
  cbn [foldl]. by destruct (IH (PhysicalNode.reserve n d)) as [-> ->].
Qed.

(** X1.  Any number of [reserve] calls amounts to one: the host keeps its
    id and its capacity, the CPU in use grows by the sum of the
    reservations, and the host is activated as soon as there was one call,
    whatever was reserved. *)
Theorem reserve_calls_accumulate (n : PhysicalNode.t) (ds : list Z) :
  foldl PhysicalNode.reserve n ds
  = {| PhysicalNode.id := PhysicalNode.id n;
       PhysicalNode.cpu := PhysicalNode.cpu n;
       PhysicalNode.used_cpu := PhysicalNode.used_cpu n + Spec.sum ds;
       PhysicalNode.activated :=
         PhysicalNode.activated n || negb (bool_decide (ds = [])) |}.
Proof.
  revert n. induction ds as [|d ds IH]; intros n.
  - destruct n as [i c u a]. cbn. f_equal; [lia | by destruct a].
  - cbn [foldl]. rewrite IH. unfold PhysicalNode.reserve, Spec.sum. cbn.
    f_equal; [lia|]. destruct (PhysicalNode.activated n); simpl; [done|].
    by destruct (bool_decide (ds = [])).
Qed.

(** X2.  [reset] undoes every reservation: after any history of [reserve]
    calls it gives back the host as [__init__] made it, and a second
    [reset] changes nothing. *)
Theorem reset_restores_fresh (n : PhysicalNode.t) (ds : list Z) :
  PhysicalNode.reset (foldl PhysicalNode.reserve n ds)
  = PhysicalNode.new (PhysicalNode.id n) (PhysicalNode.cpu n)
  ∧ PhysicalNode.reset (PhysicalNode.reset (foldl PhysicalNode.reserve n ds))
    = PhysicalNode.reset (foldl PhysicalNode.reserve n ds).
Proof.
  destruct (reserve_fold_static n ds) as [Hi Hc].
  unfold PhysicalNode.reset, PhysicalNode.new. by rewrite Hi, Hc.
Qed.

(** ** Vertex labels *)

(** X3.  The label [f"{node.id}_s{stage_idx}"] can be read back:
    [int(label.split('_')[0])] is the host id it was built from, for
    negative ids too, and two labels are equal only when they agree on the
    host id and on the stage. *)
Theorem label_round_trip (h h' : Z) (s s' : nat) :
  label_host (vname h s) = Ok h
  ∧ (vname h s = vname h' s' ↔ h = h' ∧ s = s').
Proof.
  split; [apply label_host_vname|]. split; [apply vname_inj|].
  by intros [-> ->].
Qed.


(** ** Edge cases of the search *)

(** The enumeration starts with a chain when every pool has an item. *)
Lemma product_head {A} (pools : list (list A)) :
  all_nonempty pools = true → ∃ p ps, product pools = p :: ps.
Proof.
  induction pools as [|pool pools IH]; simpl; [eauto|].
  intros [Hp Hr]%andb_prop. destruct (IH Hr) as (p & ps & E).
  destruct pool as [|x pool]; [done|]. rewrite E. simpl. eauto.
Qed.

(** X4.  Without stage lists the only chain is the empty one.  [MSG.py]
    fails on it with [IndexError] at [path[0]], so a batch that comes to a
    request without stages stops there; the brute-force script has no such
    read and returns the empty chain with delay and cost 0 when the budget
    is not negative. *)
Theorem search_without_stages (MSG : DiGraph.t) sfc Gp :
  MSGpy.find_feasible_path MSG [] sfc Gp = Raise IndexError
  ∧ BruteForce.find_feasible_path MSG [] sfc Gp
    = Ok (if bool_decide (0 ≤ SFCRequest.max_delay sfc) then Some ([], 0, 0) else None)
  ∧ (SFCRequest.stages sfc = [] → ∀ σ rows rest,
       for_each_St (MSGpy.place_step Gp) rows (sfc :: rest) σ = Raise IndexError).
Proof.
  split; [done|]. split.
  - unfold BruteForce.find_feasible_path, BruteForce.feasible_paths,
      BruteForce.examine, BruteForce.chain_totals. cbn.
    destruct (Z.leb_spec 0 (SFCRequest.max_delay sfc)).
    + by rewrite bool_decide_true.
    + by rewrite bool_decide_false by lia.
  - intros Hst σ rows rest.
    destruct (construct_msg_spec Gp sfc ∅ σ) as (MSG' & Hc & _).
    rewrite Hst in Hc. cbn in Hc.
    cbn [for_each_St]. unfold mbind at 1, St_bind.
    rewrite place_step_unfold, place_unfold, (place_active_unfold _ _ _ _ _ Hc).
    done.
Qed.

(** X5.  A stage list that names a label the MSG does not have makes the
    search fail with [KeyError]: here the label stands first in the first
    stage list, so the first chain examined starts with it. *)
Theorem search_unknown_label (MSG : DiGraph.t) v pool rest sfc Gp :
  DiGraph.nodes MSG !! v = None → all_nonempty rest = true →
  MSGpy.find_feasible_path MSG ((v :: pool) :: rest) sfc Gp = Raise KeyError
  ∧ BruteForce.find_feasible_path MSG ((v :: pool) :: rest) sfc Gp = Raise KeyError.
Proof.
  intros Hv (p & ps & E)%product_head.
  unfold MSGpy.find_feasible_path, MSGpy.feasible_paths,
    BruteForce.find_feasible_path, BruteForce.feasible_paths.
  cbn [product]. rewrite E. cbn [mbind list_bind fmap list_fmap app for_each].
  unfold MSGpy.examine, MSGpy.chain_totals, BruteForce.examine,
    BruteForce.chain_totals.
  cbn [hosts_distinct]. unfold DiGraph.node. rewrite Hv. done.
Qed.

Lemma search_unknown_label_witness :
  DiGraph.nodes DiGraph.empty !! "0_s0" = None
  ∧ all_nonempty ([] : list (list string)) = true
  ∧ MSGpy.find_feasible_path DiGraph.empty [["0_s0"]] sfc0 Demo.G = Raise KeyError
  ∧ BruteForce.find_feasible_path DiGraph.empty [["0_s0"]] sfc0 Demo.G = Raise KeyError.
Proof.
  assert (H1 : DiGraph.nodes DiGraph.empty !! "0_s0" = None) by reflexivity.
  assert (H2 : all_nonempty ([] : list (list string)) = true) by reflexivity.
  split; [exact H1|]. split; [exact H2|].
  exact (search_unknown_label DiGraph.empty "0_s0" [] [] sfc0 Demo.G H1 H2).
Defined.

(** ** The search and the delay budget *)

Lemma min_by_subset_le {A} (key : A → Z) (xs ys : list A) m' :
  (∀ y, y ∈ ys → y ∈ xs) → min_by key ys = Some m' →
  ∃ m, min_by key xs = Some m ∧ key m ≤ key m'.
Proof.
  intros Hsub Hm'. pose proof (min_by_spec key ys) as Hy. rewrite Hm' in Hy.
  destruct Hy as (i & Hi & _).
  apply list_elem_of_lookup_2, Hsub, list_elem_of_lookup_1 in Hi as [j Hj].
  pose proof (min_by_spec key xs) as Hx.
  destruct (min_by key xs) as [m|].
  - exists m. split; [done|]. destruct Hx as (k & _ & Hx). by apply (Hx j).
  - rewrite Hx in Hj. done.
Qed.

Lemma filter_omap {A} (P : A → Prop) `{∀ x, Decision (P x)} (xs : list A) :
  filter P xs = omap (λ x, if decide (P x) then Some x else None) xs.
Proof.
  induction xs as [|x xs IH]; [done|]. rewrite filter_cons. simpl.
  destruct (decide (P x)); by rewrite IH.
Qed.

(** The first minimum stays the first minimum of any selection it is in. *)
Lemma min_by_filter_keep {A} (key : A → Z) (P : A → Prop) `{∀ x, Decision (P x)}
    (xs : list A) m :
  min_by key xs = Some m → P m → min_by key (filter P xs) = Some m.
Proof.
  intros Hm HP. pose proof (min_by_spec key xs) as Hx. rewrite Hm in Hx.
  destruct Hx as (i & Hi & Hx).
  rewrite filter_omap.
  pose proof (min_by_omap_spec (λ x, if decide (P x) then Some x else None) key xs) as Hf.
  destruct (min_by key (omap _ xs)) as [m'|].
  - destruct Hf as (i' & x & Hi' & Hfx & Hf).
    destruct (decide (P x)); [|done]. injection Hfx as ->.
    destruct (Hx i' m' Hi') as [Hle Hlt].
    destruct (Hf i m m Hi) as [Hle' Hlt']; [by rewrite decide_True|].
    destruct (lt_eq_lt_dec i i') as [[Hc|Hc]|Hc].
    + specialize (Hlt' Hc). lia.
    + subst i'. congruence.
    + specialize (Hlt Hc). lia.
  - apply list_elem_of_lookup_2 in Hi. specialize (Hf m Hi).
    by rewrite decide_True in Hf.
Qed.

(** X6.  Tightening the delay budget never makes the search cheaper and
    never changes the answer while the chosen chain still fits: if the
    search under the smaller budget finds a chain, the search under the
    larger one found a chain of at most that cost; and if the chain found
    under the larger budget has a delay within the smaller one, it is the
    chain found there too. *)
Theorem tighter_budget_never_cheaper MSG stage_nodes sfc Gp (d d' : Z) r :
  d' ≤ d →
  MSGpy.find_feasible_path MSG stage_nodes (SFCRequest.with_max_delay d sfc) Gp = Ok r →
  ∃ r', MSGpy.find_feasible_path MSG stage_nodes (SFCRequest.with_max_delay d' sfc) Gp
        = Ok r'
    ∧ (∀ path' delay' cost', r' = Some (path', delay', cost') →
         ∃ path delay cost, r = Some (path, delay, cost) ∧ cost ≤ cost')
    ∧ (∀ path delay cost, r = Some (path, delay, cost) → delay ≤ d' → r' = r).
Proof.
  intros Hle H. unfold MSGpy.find_feasible_path in *.
  destruct (MSGpy.feasible_paths MSG stage_nodes (SFCRequest.with_max_delay d sfc) Gp)
    as [ps|e] eqn:Hps; [|done].
  injection H as <-.
  change (for_each (examine_with (MSGpy.chain_totals MSG sfc Gp) d) []
            (product stage_nodes) = Ok ps) in Hps.
  pose proof (search_loop_budget _ _ d' _ _ Hps) as Hd'.
  apply search_loop_inv in Hps as [_ ->]. simpl.
  rewrite (judge_budget_filter _ d d') in Hd' by done.
  change (MSGpy.feasible_paths MSG stage_nodes (SFCRequest.with_max_delay d' sfc) Gp)
    with (for_each (examine_with (MSGpy.chain_totals MSG sfc Gp) d') []
            (product stage_nodes)).
  rewrite Hd'. eexists. split; [done|]. split.
  - intros path' delay' cost' Hr'.
    eapply min_by_subset_le in Hr' as ([[path delay] cost] & Hm & Hc).
    + exists path, delay, cost. by rewrite Hm.
    + by intros y [_ ?]%list_elem_of_filter.
  - intros path delay cost Hr Hfit. simpl. rewrite Hr.
    by apply (min_by_filter_keep (λ x : candidate, x.2) (λ x : candidate, x.1.2 ≤ d')).
Qed.

Lemma tighter_budget_never_cheaper_witness :
  6 ≤ 20
  ∧ MSGpy.find_feasible_path Demo.MSG0 Demo.stage_nodes0
      (SFCRequest.with_max_delay 20 sfc0) Demo.G = Ok (Some (Demo.chain0, 6, 9))
  ∧ ∃ r', MSGpy.find_feasible_path Demo.MSG0 Demo.stage_nodes0
            (SFCRequest.with_max_delay 6 sfc0) Demo.G = Ok r'
      ∧ (∀ path' delay' cost', r' = Some (path', delay', cost') →
           ∃ path delay cost,
             Some (Demo.chain0, 6, 9) = Some (path, delay, cost) ∧ cost ≤ cost')
      ∧ (∀ path delay cost,
           Some (Demo.chain0, 6, 9) = Some (path, delay, cost) → delay ≤ 6 →
           r' = Some (Demo.chain0, 6, 9)).
Proof.
  assert (H1 : 6 ≤ 20) by lia.
  assert (H2 : MSGpy.find_feasible_path Demo.MSG0 Demo.stage_nodes0
                 (SFCRequest.with_max_delay 20 sfc0) Demo.G
               = Ok (Some (Demo.chain0, 6, 9))) by (vm_compute; reflexivity).
  split; [exact H1|]. split; [exact H2|].
  exact (tighter_budget_never_cheaper Demo.MSG0 Demo.stage_nodes0 sfc0 Demo.G 20 6
           (Some (Demo.chain0, 6, 9)) H1 H2).
Defined.


(** ** [reserve_resources]: failures and accounting *)

Lemma for_each_St_app {A S} (body : S → A → St S) (s : S) (xs ys : list A) σ :
  for_each_St body s (xs ++ ys) σ
  = match for_each_St body s xs σ with
    | Ok (s', σ') => for_each_St body s' ys σ'
    | Raise e => Raise e
    end.
Proof.
  revert s σ. induction xs as [|x xs IH]; intros s σ; [done|].
  cbn [app for_each_St]. unfold mbind, St_bind.
  destruct (body s x σ) as [[s1 σ1]|e]; [apply IH | done].
Qed.

Lemma reserve_vertex_inv (MSG : DiGraph.t) extra v σ extra' σ' :
  MSGpy.reserve_vertex MSG extra v σ = Ok (extra', σ') →
  ∃ a (k : nat) n,
    DiGraph.nodes MSG !! v = Some a
    ∧ py_index (length σ) (DiGraph.physical a) = Ok k
    ∧ σ !! k = Some n
    ∧ extra' = extra + Spec.charge n (DiGraph.cpu a)
    ∧ σ' = <[k := Spec.book (DiGraph.cpu a) n]> σ.
Proof.
  intros H.
  destruct (DiGraph.nodes MSG !! v) as [a|] eqn:Ha.
  2: { unfold MSGpy.reserve_vertex, mbind, St_bind, lift, DiGraph.node in H.
       by rewrite Ha in H. }
  destruct (py_index (length σ) (DiGraph.physical a)) as [k|e] eqn:Hk.
  2: { unfold MSGpy.reserve_vertex, mbind, St_bind, lift, DiGraph.node in H.
       rewrite Ha in H. simpl in H. unfold lookup_node in H. by rewrite Hk in H. }
  destruct (lookup_lt_is_Some_2 σ k (py_index_lt _ _ _ Hk)) as [n Hn].
  rewrite (reserve_vertex_spec _ _ _ _ _ _ _ Ha Hk Hn) in H.
  injection H as <- <-. eauto 10.
Qed.

(** A vertex that does not resolve: the label is unknown ([KeyError]), or
    the host id is no index of the ledger ([IndexError]). *)
Lemma reserve_vertex_fail (MSG : DiGraph.t) extra v σ :
  Spec.target MSG σ v = None →
  MSGpy.reserve_vertex MSG extra v σ
  = Raise (match DiGraph.nodes MSG !! v with
           | Some _ => IndexError
           | None => KeyError
           end).
Proof.
  unfold Spec.target, MSGpy.reserve_vertex, mbind, St_bind, lift, DiGraph.node.
  destruct (DiGraph.nodes MSG !! v) as [a|]; simpl; [|done].
  unfold lookup_node, py_index.
  destruct (_ && _); [done|]. destruct (_ && _); done.
Qed.

Lemma resolves_length (MSG : DiGraph.t) σ σ' path targets :
  length σ' = length σ →
  Spec.resolves MSG σ path targets → Spec.resolves MSG σ' path targets.
Proof. unfold Spec.resolves, Spec.target. by intros ->. Qed.

Lemma reserve_loop_inv (MSG : DiGraph.t) path σ extra0 extra σ' :
  for_each_St (MSGpy.reserve_vertex MSG) extra0 path σ = Ok (extra, σ') →
  ∃ targets, Spec.resolves MSG σ path targets
    ∧ extra = extra0 + (Spec.commit targets σ).1
    ∧ σ' = (Spec.commit targets σ).2.
Proof.
  revert σ extra0. induction path as [|v path IH]; intros σ extra0.
  - intros [= <- <-]. exists []. split; [constructor|]. simpl. split; [lia | done].
  - cbn [for_each_St]. unfold mbind at 1, St_bind.
    destruct (MSGpy.reserve_vertex MSG extra0 v σ) as [[e1 σ1]|e] eqn:Hv; [|done].
    apply reserve_vertex_inv in Hv as (a & k & n & Ha & Hk & Hn & -> & ->).
    intros (targets & Hr & -> & ->)%IH.
    exists ((k, DiGraph.cpu a) :: targets). split; [|split].
    + constructor.
      * apply target_Some. eauto.
      * eapply resolves_length; [|exact Hr]. by rewrite length_insert.
    + cbn [Spec.commit fst snd]. rewrite Hn. simpl. lia.
    + cbn [Spec.commit fst snd]. by rewrite Hn.
Qed.

Lemma reserve_resources_inv path (MSG : DiGraph.t) σ extra σ' :
  MSGpy.reserve_resources path MSG σ = Ok (extra, σ') →
  ∃ targets, Spec.resolves MSG σ path targets ∧ Spec.commit targets σ = (extra, σ').
Proof.
  intros (targets & Hr & -> & ->)%reserve_loop_inv. exists targets. split; [done|].
  destruct (Spec.commit targets σ). simpl. f_equal.
Qed.

(** X7.  [reserve_resources] fails at the first vertex it cannot resolve:
    with [KeyError] when the label is no vertex of the MSG, with
    [IndexError] when the host id is no index of [physical_nodes]. *)
Theorem reserve_resources_raises (MSG : DiGraph.t) path v rest σ targets :
  Spec.resolves MSG σ path targets →
  Spec.target MSG σ v = None →
  MSGpy.reserve_resources (path ++ v :: rest) MSG σ
  = Raise (match DiGraph.nodes MSG !! v with
           | Some _ => IndexError
           | None => KeyError
           end).
Proof.
  intros Hr Hv. unfold MSGpy.reserve_resources.
  rewrite for_each_St_app, (reserve_loop_spec _ _ _ _ _ Hr).
  cbn [for_each_St]. unfold mbind at 1, St_bind.
  rewrite reserve_vertex_fail; [done|].
  unfold Spec.target in *. by rewrite commit_length.
Qed.

Lemma reserve_resources_raises_witness :
  Spec.resolves Demo.far Demo.σ0 [] []
  ∧ Spec.target Demo.far Demo.σ0 "9_s0" = None
  ∧ MSGpy.reserve_resources ["9_s0"] Demo.far Demo.σ0 = Raise IndexError.
Proof.
  assert (H1 : Spec.resolves Demo.far Demo.σ0 [] [])
    by (unfold Spec.resolves; refine (bool_decide_unpack _ _); vm_compute; exact I).
  assert (H2 : Spec.target Demo.far Demo.σ0 "9_s0" = None) by (vm_compute; reflexivity).
  split; [exact H1|]. split; [exact H2|].
  exact (reserve_resources_raises Demo.far [] "9_s0" [] Demo.σ0 [] H1 H2).
Defined.

Lemma sum_insert {A} (f : A → Z) (l : list A) (k : nat) x y :
  l !! k = Some x →
  Spec.sum (f <$> <[k := y]> l) = Spec.sum (f <$> l) - f x + f y.
Proof.
  revert k. induction l as [|z l IH]; intros [|k]; try done.
  - intros [= ->]. unfold Spec.sum. simpl. lia.
  - intros H. specialize (IH _ H). unfold Spec.sum in *. simpl.
    change (list_fmap A Z f) with (fmap (M:=list) f). lia.
Qed.

Lemma commit_accounting targets σ :
  (Spec.commit targets σ).1
  = PE_DEPLOY_UNIT_COST
    * (Spec.used_total (Spec.commit targets σ).2 - Spec.used_total σ)
    + NODE_ACTIVATION_COST
      * (Spec.activated_count (Spec.commit targets σ).2 - Spec.activated_count σ).
Proof.
  revert σ. induction targets as [|[k d] targets IH]; intros σ.
  - simpl. lia.
  - cbn [Spec.commit fst snd]. destruct (σ !! k) as [n|] eqn:Hn; [|apply IH].
    cbn [fst snd]. rewrite IH. unfold Spec.used_total, Spec.activated_count.
    rewrite !(sum_insert _ _ _ _ _ Hn). unfold Spec.charge, Spec.book. simpl.
    unfold PE_DEPLOY_UNIT_COST, NODE_ACTIVATION_COST.
    destruct (PhysicalNode.activated n); lia.
Qed.

(** X8.  The charge [reserve_resources] returns accounts for what it did
    to the ledger: the deployment unit cost times the CPU newly in use plus
    the activation cost times the number of hosts newly activated. *)
Theorem reserve_resources_accounting path (MSG : DiGraph.t) σ extra σ' :
  MSGpy.reserve_resources path MSG σ = Ok (extra, σ') →
  extra = PE_DEPLOY_UNIT_COST * (Spec.used_total σ' - Spec.used_total σ)
          + NODE_ACTIVATION_COST * (Spec.activated_count σ' - Spec.activated_count σ).
Proof.
  intros (targets & _ & Hc)%reserve_resources_inv.
  pose proof (commit_accounting targets σ) as H. by rewrite Hc in H.
Qed.

Lemma reserve_resources_accounting_witness :
  MSGpy.reserve_resources Demo.chain0 Demo.MSG0 Demo.σ0
  = Ok (11, Demo.after Demo.σ0 (MSGpy.reserve_resources Demo.chain0 Demo.MSG0))
  ∧ 11 = PE_DEPLOY_UNIT_COST
         * (Spec.used_total
              (Demo.after Demo.σ0 (MSGpy.reserve_resources Demo.chain0 Demo.MSG0))
            - Spec.used_total Demo.σ0)
         + NODE_ACTIVATION_COST
           * (Spec.activated_count
                (Demo.after Demo.σ0 (MSGpy.reserve_resources Demo.chain0 Demo.MSG0))
              - Spec.activated_count Demo.σ0).
Proof.
  assert (H : MSGpy.reserve_resources Demo.chain0 Demo.MSG0 Demo.σ0
              = Ok (11, Demo.after Demo.σ0
                          (MSGpy.reserve_resources Demo.chain0 Demo.MSG0)))
    by (vm_compute; reflexivity).
  split; [exact H|].
  exact (reserve_resources_accounting Demo.chain0 Demo.MSG0 Demo.σ0 11 _ H).
Defined.


(** ** What the placement loop does to the ledger *)

Lemma host_grows_refl (b : Prop) n : Spec.host_grows b n n.
Proof. unfold Spec.host_grows. repeat split; try done; lia. Qed.

Lemma host_grows_trans (b1 b2 b : Prop) n1 n2 n3 :
  (b → b1) → (b → b2) →
  Spec.host_grows b1 n1 n2 → Spec.host_grows b2 n2 n3 → Spec.host_grows b n1 n3.
Proof.
  intros H1 H2 (Hi & Hc & Ha & Hu) (Hi' & Hc' & Ha' & Hu').
  unfold Spec.host_grows. repeat split; [congruence | congruence | auto |].
  intros Hb. specialize (Hu (H1 Hb)). specialize (Hu' (H2 Hb)). lia.
Qed.

Lemma ledger_grows_refl (b : Prop) (σ : ledger) : Forall2 (Spec.host_grows b) σ σ.
Proof. apply Forall_Forall2_diag, Forall_forall. intros. apply host_grows_refl. Qed.

Lemma ledger_grows_trans (b1 b2 b : Prop) (σ1 σ2 σ3 : ledger) :
  (b → b1) → (b → b2) →
  Forall2 (Spec.host_grows b1) σ1 σ2 → Forall2 (Spec.host_grows b2) σ2 σ3 →
  Forall2 (Spec.host_grows b) σ1 σ3.
Proof.
  intros H1 H2 H12. revert σ3. induction H12; intros σ3 H23.
  - apply Forall2_nil_inv_l in H23 as ->. constructor.
  - apply Forall2_cons_inv_l in H23 as (z & σ3' & Hz & H23 & ->).
    constructor; [by apply (host_grows_trans b1 b2 b _ y) | auto].
Qed.

Lemma commit_grows targets σ (k : nat) n n' :
  σ !! k = Some n → (Spec.commit targets σ).2 !! k = Some n' →
  Spec.host_grows (Forall (λ t : nat * Z, 0 ≤ t.2) targets) n n'.
Proof.
  revert σ n. induction targets as [|[k0 d] targets IH]; intros σ n Hn; simpl.
  - rewrite Hn. intros [= <-]. apply host_grows_refl.
  - destruct (σ !! k0) as [n0|] eqn:Hn0; simpl.
    + destruct (decide (k0 = k)) as [->|Hne].
      * assert (n0 = n) as -> by congruence. intros Hn'.
        eapply IH in Hn'.
        2: { by rewrite list_lookup_insert_eq by by eapply lookup_lt_Some. }
        destruct Hn' as (Hi & Hc & Ha & Hu). simpl in *.
        unfold Spec.host_grows. repeat split; [done | done | auto |].
        intros [Hd Hrest]%Forall_cons. simpl in Hd. specialize (Hu Hrest). lia.
      * intros Hn'. eapply IH in Hn'.
        2: { rewrite list_lookup_insert_ne by done. exact Hn. }
        eapply host_grows_trans; [| |apply host_grows_refl|exact Hn']; [done|].
        by intros [_ ?]%Forall_cons.
    + intros Hn'. eapply IH in Hn'; [|exact Hn].
      eapply host_grows_trans; [| |apply host_grows_refl|exact Hn']; [done|].
      by intros [_ ?]%Forall_cons.
Qed.

Lemma commit_ledger_grows targets σ :
  Forall2 (Spec.host_grows (Forall (λ t : nat * Z, 0 ≤ t.2) targets))
          σ (Spec.commit targets σ).2.
Proof.
  apply Forall2_same_length_lookup_2; [by rewrite commit_length|].
  intros k n n'. apply commit_grows.
Qed.

(** The demands a commit books are the [cpu] attributes of the vertices. *)
Lemma resolves_demands (MSG : DiGraph.t) σ path targets :
  Spec.resolves MSG σ path targets →
  Forall2 (λ v (t : nat * Z), ∃ a, DiGraph.nodes MSG !! v = Some a
                                   ∧ DiGraph.cpu a = t.2
                                   ∧ is_Some (σ !! t.1)) path targets.
Proof.
  unfold Spec.resolves. intros H. eapply Forall2_impl; [exact H|]. intros v [k d].
  intros (a & Ha & Hk & Hd)%target_Some. exists a. repeat split; [done..|].
  apply py_index_lt in Hk. by apply lookup_lt_is_Some_2.
Qed.

Lemma reserve_ledger_grows path (MSG : DiGraph.t) σ extra σ' :
  MSGpy.reserve_resources path MSG σ = Ok (extra, σ') →
  Forall2 (Spec.host_grows
             (∀ v a, v ∈ path → DiGraph.nodes MSG !! v = Some a → 0 ≤ DiGraph.cpu a))
          σ σ'.
Proof.
  intros (targets & Hr & Hc)%reserve_resources_inv.
  pose proof (commit_ledger_grows targets σ) as H. rewrite Hc in H. simpl in H.
  eapply ledger_grows_trans; [| |apply ledger_grows_refl|exact H]; [done|].
  intros Hb. apply resolves_demands in Hr.
  clear -Hr Hb. induction Hr as [|v [k d] path targets (a & Ha & Hd & _) Hr IH];
    constructor.
  - simpl in *. subst d. apply (Hb v a); [by left | done].
  - apply IH. intros v' a' Hin. apply Hb. by right.
Qed.

(** In an MSG of [construct_msg] every [cpu] attribute is a stage demand. *)
Lemma node_ok_demand (MSG : DiGraph.t) stages v a :
  map_Forall (node_ok stages) (DiGraph.nodes MSG) →
  DiGraph.nodes MSG !! v = Some a → DiGraph.cpu a ∈ stages.
Proof.
  intros Hok Ha. destruct (Hok v a Ha) as [_ Hs]. by eapply list_elem_of_lookup_2.
Qed.

Lemma built_reserve_grows Gp sfc used σ0 (MSG : DiGraph.t) stage_nodes σ1 path σ extra σ' :
  construct_msg Gp sfc used σ0 = Ok ((MSG, stage_nodes), σ1) →
  MSGpy.reserve_resources path MSG σ = Ok (extra, σ') →
  Forall2 (Spec.host_grows (Forall (λ d, 0 ≤ d) (SFCRequest.stages sfc))) σ σ'.
Proof.
  intros (_ & _ & Hok & _)%construct_msg_inv Hr%reserve_ledger_grows.
  eapply ledger_grows_trans; [| |apply ledger_grows_refl|exact Hr]; [done|].
  intros Hnn v a _ Ha. rewrite Forall_forall in Hnn. apply Hnn.
  by eapply node_ok_demand.
Qed.

Lemma place_ledger_grows Gp sfc σ r σ' :
  MSGpy.place Gp sfc σ = Ok (r, σ') →
  Forall2 (Spec.host_grows (Forall (λ d, 0 ≤ d) (SFCRequest.stages sfc))) σ σ'.
Proof.
  intros [[-> Ha] | (act & σ1 & row & -> & Ha & Hb)]%place_inv.
  - apply place_active_inv in Ha as (MSG & sn & _ & -> & _). apply ledger_grows_refl.
  - apply place_active_inv in Ha as (MSG & sn & Hc & _ & _ & _ & Hres).
    assert (H1 := built_reserve_grows _ _ _ _ _ _ _ _ _ _ _ Hc Hres).
    apply place_backup_inv in Hb as (used & MSG_b & sn_b & _ & Hcb & Hb).
    destruct Hb as [(_ & -> & _) | (p & d & c & extra & bdc & _ & Hresb & _)]; [done|].
    assert (H2 := built_reserve_grows _ _ _ _ _ _ _ _ _ _ _ Hcb Hresb).
    by eapply ledger_grows_trans; [| |exact H1|exact H2].
Qed.

Lemma place_loop_grows Gp sfc_requests rows σ rows' σ' :
  for_each_St (MSGpy.place_step Gp) rows sfc_requests σ = Ok (rows', σ') →
  Forall2 (Spec.host_grows
             (Forall (λ sfc, Forall (λ d, 0 ≤ d) (SFCRequest.stages sfc)) sfc_requests))
          σ σ'.
Proof.
  revert rows σ. induction sfc_requests as [|sfc rest IH]; intros rows σ.
  - intros [= <- <-]. apply ledger_grows_refl.
  - cbn [for_each_St]. unfold mbind at 1, St_bind. rewrite place_step_unfold.
    destruct (MSGpy.place Gp sfc σ) as [[r σ1]|e] eqn:Hp; [|done].
    apply place_ledger_grows in Hp.
    intros H. assert (H' : ∃ rows1, for_each_St (MSGpy.place_step Gp) rows1 rest σ1
                                    = Ok (rows', σ')) by (destruct r; eauto).
    destruct H' as [rows1 H']. apply IH in H'.
    eapply ledger_grows_trans; [| |exact Hp|exact H'].
    + by intros [? _]%Forall_cons.
    + by intros [_ ?]%Forall_cons.
Qed.

(** X9.  Over a whole batch [MSG.py] neither adds nor drops a host, and on
    each host it keeps the id and the capacity and never takes the
    activation back; when no stage demand of the batch is negative, the CPU
    in use on a host never goes down either. *)
Theorem batch_keeps_hosts Gp sfc_requests σ rows σ' :
  MSGpy.place_all Gp sfc_requests σ = Ok (rows, σ') →
  Forall2 (λ n n',
             PhysicalNode.id n' = PhysicalNode.id n
             ∧ PhysicalNode.cpu n' = PhysicalNode.cpu n
             ∧ (PhysicalNode.activated n = true → PhysicalNode.activated n' = true)
             ∧ (Forall (λ sfc, Forall (λ d, 0 ≤ d) (SFCRequest.stages sfc)) sfc_requests →
                PhysicalNode.used_cpu n ≤ PhysicalNode.used_cpu n'))
          σ σ'.
Proof. apply place_loop_grows. Qed.

Lemma batch_keeps_hosts_witness :
  MSGpy.place_all Demo.G [sfc0; sfc1] Demo.σ0
  = Ok (Demo.rows01, Demo.σ2)
  ∧ Forall2 (λ n n',
               PhysicalNode.id n' = PhysicalNode.id n
               ∧ PhysicalNode.cpu n' = PhysicalNode.cpu n
               ∧ (PhysicalNode.activated n = true → PhysicalNode.activated n' = true)
               ∧ (Forall (λ sfc, Forall (λ d, 0 ≤ d) (SFCRequest.stages sfc))
                         [sfc0; sfc1] →
                  PhysicalNode.used_cpu n ≤ PhysicalNode.used_cpu n'))
            Demo.σ0 Demo.σ2.
Proof.
  assert (H : MSGpy.place_all Demo.G [sfc0; sfc1] Demo.σ0 = Ok (Demo.rows01, Demo.σ2))
    by (vm_compute; reflexivity).
  split; [exact H|].
  exact (batch_keeps_hosts Demo.G [sfc0; sfc1] Demo.σ0 Demo.rows01 Demo.σ2 H).
Defined.


(** ** The rows of [run_simulation] *)

(** Everything the loop body of [MSG.py] did for a request it accepted. *)
Lemma place_row_inv Gp sfc σ row σ' :
  MSGpy.place Gp sfc σ = Ok (Some row, σ') →
  ∃ act σ1 (MSG_a : DiGraph.t) sn_a used (MSG_b : DiGraph.t) sn_b,
    construct_msg Gp sfc ∅ σ = Ok ((MSG_a, sn_a), σ)
    ∧ MSGpy.find_feasible_path MSG_a sn_a sfc Gp
      = Ok (Some (MSGpy.path_active act, MSGpy.delay_active act, MSGpy.cost_active act))
    ∧ MSGpy.reserve_resources (MSGpy.path_active act) MSG_a σ
      = Ok (MSGpy.extra_cost_a act, σ1)
    ∧ MSGpy.label_hosts (MSGpy.path_active act) = Ok used
    ∧ construct_msg Gp sfc used σ1 = Ok ((MSG_b, sn_b), σ1)
    ∧ ((MSGpy.find_feasible_path MSG_b sn_b sfc Gp = Ok None
        ∧ σ' = σ1 ∧ row = row_without_backup sfc act)
       ∨ ∃ path d c extra bdc,
           MSGpy.find_feasible_path MSG_b sn_b sfc Gp = Ok (Some (path, d, c))
           ∧ MSGpy.reserve_resources path MSG_b σ1 = Ok (extra, σ')
           ∧ row = row_with_backup sfc act path d c extra bdc).
Proof.
  intros [[? _] | (act & σ1 & row' & [= <-] & Ha & Hb)]%place_inv; [done|].
  apply place_active_inv in Ha as (MSG_a & sn_a & Hc & _ & _ & Hf & Hres).
  apply place_backup_inv in Hb as (used & MSG_b & sn_b & Hl & Hcb & Hb).
  exists act, σ1, MSG_a, sn_a, used, MSG_b, sn_b. repeat split; try done.
  destruct Hb as [?|(p & d & c & extra & bdc & ? & ? & ? & ?)]; [by left|].
  right. by exists p, d, c, extra, bdc.
Qed.

(** The vertex at position [i] of a chain over the stage lists of
    [construct_msg]. *)
Lemma chain_vertex (MSG : DiGraph.t) σ used stages path (i : nat) v :
  map_Forall (node_ok stages) (DiGraph.nodes MSG) →
  Spec.labels_known MSG (stage_lists σ used stages) →
  Spec.chain_of (stage_lists σ used stages) path →
  path !! i = Some v →
  ∃ d n, stages !! i = Some d ∧ n ∈ σ
       ∧ d ≤ PhysicalNode.cpu n - PhysicalNode.used_cpu n
       ∧ (PhysicalNode.id n ∉ used)
       ∧ v = vname (PhysicalNode.id n) i
       ∧ DiGraph.nodes MSG !! v
         = Some {| DiGraph.physical := PhysicalNode.id n; DiGraph.stage := i;
                   DiGraph.cpu := d |}.
Proof.
  intros Hok Hk Hc Hv.
  destruct (Forall2_lookup_l _ _ _ _ _ Hc Hv) as (pool & Hpool & Hin).
  by apply (stage_vertex _ _ _ _ _ _ _ Hok Hk Hpool Hin).
Qed.

Lemma chain_length σ used stages path :
  Spec.chain_of (stage_lists σ used stages) path → length path = length stages.
Proof. intros Hc%Forall2_length. by rewrite stage_lists_length in Hc. Qed.

Lemma chain_demands (MSG : DiGraph.t) σ used stages path :
  map_Forall (node_ok stages) (DiGraph.nodes MSG) →
  Spec.labels_known MSG (stage_lists σ used stages) →
  Spec.chain_of (stage_lists σ used stages) path →
  Forall2 (λ v d, ∃ a, DiGraph.nodes MSG !! v = Some a ∧ DiGraph.cpu a = d) path stages.
Proof.
  intros Hok Hk Hc. apply Forall2_same_length_lookup_2; [by eapply chain_length|].
  intros i v d Hv Hd.
  destruct (chain_vertex _ _ _ _ _ _ _ Hok Hk Hc Hv)
    as (d' & n & Hd' & _ & _ & _ & _ & Hnode).
  eexists. split; [exact Hnode|]. simpl. congruence.
Qed.

Lemma commit_used_total targets σ :
  Forall (λ t : nat * Z, is_Some (σ !! t.1)) targets →
  Spec.used_total (Spec.commit targets σ).2 = Spec.used_total σ + Spec.sum targets.*2.
Proof.
  revert σ. induction targets as [|[k d] ts IH]; intros σ H.
  - unfold Spec.sum. simpl. lia.
  - apply Forall_cons in H as [[n Hn] H]. simpl in Hn.
    cbn [Spec.commit fst snd]. rewrite Hn. cbn [fst snd]. rewrite IH.
    + unfold Spec.used_total. rewrite (sum_insert _ _ _ _ _ Hn).
      change (Spec.sum ((k, d) :: ts).*2) with (d + Spec.sum ts.*2).
      cbn [Spec.book PhysicalNode.used_cpu]. lia.
    + eapply Forall_impl; [exact H|]. intros t [m Hm%lookup_lt_Some].
      apply lookup_lt_is_Some. by rewrite length_insert.
Qed.

Lemma reserve_used_total path (MSG : DiGraph.t) σ extra σ' ds :
  MSGpy.reserve_resources path MSG σ = Ok (extra, σ') →
  Forall2 (λ v d, ∃ a, DiGraph.nodes MSG !! v = Some a ∧ DiGraph.cpu a = d) path ds →
  Spec.used_total σ' = Spec.used_total σ + Spec.sum ds.
Proof.
  intros (targets & Hr%resolves_demands & Hc)%reserve_resources_inv Hds.
  assert (Hpos : Forall (λ t : nat * Z, is_Some (σ !! t.1)) targets).
  { clear -Hr. induction Hr as [|? ? ? ? (a & _ & _ & ?)]; by constructor. }
  assert (Hd : targets.*2 = ds).
  { clear -Hr Hds. revert ds Hds.
    induction Hr as [|v t p ts (a & Ha & Ht & _) _ IH]; intros ds Hds.
    - by apply Forall2_nil_inv_l in Hds as ->.
    - apply Forall2_cons_inv_l in Hds as (d & ds' & (a' & Ha' & <-) & Hds & ->).
      rewrite fmap_cons, (IH _ Hds). f_equal. congruence. }
  pose proof (commit_used_total targets σ Hpos) as H. rewrite Hc, Hd in H. done.
Qed.

Lemma reserve_charge path (MSG : DiGraph.t) σ extra σ' :
  MSGpy.reserve_resources path MSG σ = Ok (extra, σ') →
  extra = PE_DEPLOY_UNIT_COST * (Spec.used_total σ' - Spec.used_total σ)
          + NODE_ACTIVATION_COST * (Spec.activated_count σ' - Spec.activated_count σ).
Proof.
  intros (targets & _ & Hc)%reserve_resources_inv.
  pose proof (commit_accounting targets σ) as H. by rewrite Hc in H.
Qed.

(** A chain the search of [MSG.py] found on the MSG of [construct_msg]
    books the stage demands of the request. *)
Lemma found_chain_books Gp sfc used σ (MSG : DiGraph.t) sn path d c extra σ' :
  construct_msg Gp sfc used σ = Ok ((MSG, sn), σ) →
  MSGpy.find_feasible_path MSG sn sfc Gp = Ok (Some (path, d, c)) →
  MSGpy.reserve_resources path MSG σ = Ok (extra, σ') →
  Spec.used_total σ' = Spec.used_total σ + Spec.sum (SFCRequest.stages sfc).
Proof.
  intros Hc Hf Hres.
  destruct (found_chain_hosts _ _ _ _ _ _ _ _ _ _ Hc Hf) as (_ & Hchain & _).
  apply construct_msg_inv in Hc as (_ & -> & Hok & Hk & _).
  eapply reserve_used_total; [exact Hres|]. by eapply chain_demands.
Qed.

(** X10.  What an accepted request adds to the ledger: the CPU in use
    grows by the sum of the stage demands, once when there is no backup
    chain and twice when there is one, and the two deployment costs of the
    row together are the deployment unit cost times that CPU plus the
    activation cost times the number of hosts newly activated. *)
Theorem place_cpu_accounting Gp sfc σ row σ' :
  MSGpy.place Gp sfc σ = Ok (Some row, σ') →
  Spec.used_total σ' - Spec.used_total σ
  = Spec.sum (SFCRequest.stages sfc)
    * (if bool_decide (MSGpy.Backup_Path row = []) then 1 else 2)
  ∧ MSGpy.Deploy_Cost_active row + MSGpy.Deploy_Cost_backup row
    = PE_DEPLOY_UNIT_COST * (Spec.used_total σ' - Spec.used_total σ)
      + NODE_ACTIVATION_COST * (Spec.activated_count σ' - Spec.activated_count σ).
Proof.
  intros (act & σ1 & MSG_a & sn_a & used & MSG_b & sn_b
          & Hc & Hf & Hres & _ & Hcb & Hb)%place_row_inv.
  pose proof (found_chain_books _ _ _ _ _ _ _ _ _ _ _ Hc Hf Hres) as HU.
  pose proof (reserve_charge _ _ _ _ _ Hres) as HE.
  destruct Hb as [(_ & -> & ->) | (p & d & c & extra & bdc & Hfb & Hresb & ->)].
  - simpl. split; lia.
  - pose proof (found_chain_books _ _ _ _ _ _ _ _ _ _ _ Hcb Hfb Hresb) as HU'.
    pose proof (reserve_charge _ _ _ _ _ Hresb) as HE'.
    destruct (found_chain_hosts _ _ _ _ _ _ _ _ _ _ Hcb Hfb) as (Hne & _).
    simpl. rewrite bool_decide_false by done. split; lia.
Qed.

Lemma place_cpu_accounting_witness :
  MSGpy.place Demo.G sfc0 Demo.σ0 = Ok (Some Demo.row0, Demo.σ1)
  ∧ Spec.used_total Demo.σ1 - Spec.used_total Demo.σ0
    = Spec.sum (SFCRequest.stages sfc0)
      * (if bool_decide (MSGpy.Backup_Path Demo.row0 = []) then 1 else 2)
  ∧ MSGpy.Deploy_Cost_active Demo.row0 + MSGpy.Deploy_Cost_backup Demo.row0
    = PE_DEPLOY_UNIT_COST * (Spec.used_total Demo.σ1 - Spec.used_total Demo.σ0)
      + NODE_ACTIVATION_COST
        * (Spec.activated_count Demo.σ1 - Spec.activated_count Demo.σ0).
Proof.
  assert (H : MSGpy.place Demo.G sfc0 Demo.σ0 = Ok (Some Demo.row0, Demo.σ1))
    by (vm_compute; reflexivity).
  split; [exact H|].
  exact (place_cpu_accounting Demo.G sfc0 Demo.σ0 Demo.row0 Demo.σ1 H).
Defined.

Lemma ledger_grows_ids (b : Prop) (σ σ' : ledger) :
  Forall2 (Spec.host_grows b) σ σ' → PhysicalNode.id <$> σ' = PhysicalNode.id <$> σ.
Proof. induction 1 as [|n n' σ σ' (Hi & _) _ IH]; [done|]. simpl. by f_equal. Qed.

Lemma found_chain_shape Gp sfc used σ (MSG : DiGraph.t) sn path d c :
  construct_msg Gp sfc used σ = Ok ((MSG, sn), σ) →
  MSGpy.find_feasible_path MSG sn sfc Gp = Ok (Some (path, d, c)) →
  length path = length (SFCRequest.stages sfc)
  ∧ d ≤ SFCRequest.max_delay sfc
  ∧ ∀ (s : nat) v, path !! s = Some v →
      ∃ h, h ∈ PhysicalNode.id <$> σ ∧ v = vname h s.
Proof.
  intros Hc Hf.
  destruct (found_chain_hosts _ _ _ _ _ _ _ _ _ _ Hc Hf) as (Hne & Hchain & _).
  apply construct_msg_inv in Hc as (_ & -> & Hok & Hk & _).
  split; [by eapply chain_length|]. split.
  - destruct (MSGpy_find_feasible_path_spec MSG (stage_lists σ used (SFCRequest.stages sfc))
                sfc Gp) as (r & Hr & Hs); [|done|].
    + intros E. rewrite E in Hchain. apply Forall2_nil_inv_r in Hchain. done.
    + rewrite Hf in Hr. injection Hr as <-. by destruct Hs as (_ & (_ & _ & _ & _ & ?) & _).
  - intros s v Hv.
    destruct (chain_vertex _ _ _ _ _ _ _ Hok Hk Hchain Hv)
      as (d' & n & _ & Hn & _ & _ & -> & _).
    exists (PhysicalNode.id n). split; [|done]. by apply list_elem_of_fmap_2.
Qed.

(** X11.  A row reports its request: source, destination and id are the
    request's; the active chain has one label per stage, the label at
    position [s] naming a host of the ledger and the stage [s], and its
    delay is within the budget; the backup chain is empty or of the same
    shape. *)
Theorem row_reports_request Gp sfc σ row σ' :
  MSGpy.place Gp sfc σ = Ok (Some row, σ') →
  MSGpy.Source row = SFCRequest.src sfc
  ∧ MSGpy.Destination row = SFCRequest.dest sfc
  ∧ MSGpy.SFC_ID row = SFCRequest.id sfc
  ∧ length (MSGpy.Active_Path row) = length (SFCRequest.stages sfc)
  ∧ MSGpy.Active_Delay row ≤ SFCRequest.max_delay sfc
  ∧ (MSGpy.Backup_Path row = []
     ∨ length (MSGpy.Backup_Path row) = length (SFCRequest.stages sfc)
       ∧ MSGpy.Backup_Delay row ≤ SFCRequest.max_delay sfc)
  ∧ ∀ (s : nat) v,
      MSGpy.Active_Path row !! s = Some v ∨ MSGpy.Backup_Path row !! s = Some v →
      ∃ h, h ∈ PhysicalNode.id <$> σ ∧ v = vname h s.
Proof.
  intros (act & σ1 & MSG_a & sn_a & used & MSG_b & sn_b
          & Hc & Hf & Hres & _ & Hcb & Hb)%place_row_inv.
  destruct (found_chain_shape _ _ _ _ _ _ _ _ _ Hc Hf) as (Hlen & Hd & Hlab).
  assert (Hids : PhysicalNode.id <$> σ1 = PhysicalNode.id <$> σ).
  { eapply ledger_grows_ids, reserve_ledger_grows, Hres. }
  destruct Hb as [(_ & _ & ->) | (p & d & c & extra & bdc & Hfb & _ & ->)]; simpl.
  - repeat split; try done; [by left|]. intros s v [Hv|Hv]; [eauto | done].
  - destruct (found_chain_shape _ _ _ _ _ _ _ _ _ Hcb Hfb) as (Hlen' & Hd' & Hlab').
    repeat split; try done; [by right|].
    intros s v [Hv|Hv]; [eauto|]. rewrite <- Hids. eauto.
Qed.

Lemma row_reports_request_witness :
  MSGpy.place Demo.G sfc0 Demo.σ0 = Ok (Some Demo.row0, Demo.σ1)
  ∧ MSGpy.Source Demo.row0 = SFCRequest.src sfc0
  ∧ MSGpy.Destination Demo.row0 = SFCRequest.dest sfc0
  ∧ MSGpy.SFC_ID Demo.row0 = SFCRequest.id sfc0
  ∧ length (MSGpy.Active_Path Demo.row0) = length (SFCRequest.stages sfc0)
  ∧ MSGpy.Active_Delay Demo.row0 ≤ SFCRequest.max_delay sfc0
  ∧ (MSGpy.Backup_Path Demo.row0 = []
     ∨ length (MSGpy.Backup_Path Demo.row0) = length (SFCRequest.stages sfc0)
       ∧ MSGpy.Backup_Delay Demo.row0 ≤ SFCRequest.max_delay sfc0)
  ∧ ∀ (s : nat) v,
      MSGpy.Active_Path Demo.row0 !! s = Some v
      ∨ MSGpy.Backup_Path Demo.row0 !! s = Some v →
      ∃ h, h ∈ PhysicalNode.id <$> Demo.σ0 ∧ v = vname h s.
Proof.
  assert (H : MSGpy.place Demo.G sfc0 Demo.σ0 = Ok (Some Demo.row0, Demo.σ1))
    by (vm_compute; reflexivity).
  split; [exact H|].
  exact (row_reports_request Demo.G sfc0 Demo.σ0 Demo.row0 Demo.σ1 H).
Defined.




(** ** More stages than hosts *)

(** X13.  A request with more stages than the ledger has hosts is never
    placed: the stages of a chain need pairwise-distinct hosts.  The loop
    body returns without a row and leaves the ledger as it is. *)
Theorem more_stages_than_hosts Gp sfc σ :
  (length σ < length (SFCRequest.stages sfc))%nat →
  MSGpy.place Gp sfc σ = Ok (None, σ).
Proof.
  intros Hlt.
  destruct (construct_msg_spec Gp sfc ∅ σ) as (MSG & Hc & Hok & Hk & _).
  rewrite place_unfold, (place_active_unfold _ _ _ _ _ Hc).
  destruct (all_nonempty _); simpl; [|done].
  destruct (MSGpy_find_feasible_path_spec MSG (stage_lists σ ∅ (SFCRequest.stages sfc))
              sfc Gp) as (r & -> & Hr); [|done|].
  { apply stage_lists_nonempty. intros E. rewrite E in Hlt. simpl in Hlt. lia. }
  destruct r as [[[path d] c]|]; [exfalso|done].
  destruct Hr as (Hchain & (Hdist & _) & _).
  assert (Hsub : (Spec.host MSG <$> path) ⊆+ (Some ∘ PhysicalNode.id <$> σ)).
  { apply NoDup_submseteq; [exact Hdist|].
    intros o (v & -> & [i Hv]%list_elem_of_lookup_1)%list_elem_of_fmap.
    destruct (chain_vertex _ _ _ _ _ _ _ Hok Hk Hchain Hv)
      as (d' & n & _ & Hn & _ & _ & _ & Hnode).
    rewrite (host_Some _ _ _ Hnode). simpl.
    apply list_elem_of_fmap. by exists n. }
  apply submseteq_length in Hsub. rewrite !length_fmap in Hsub.
  apply chain_length in Hchain. lia.
Qed.

Lemma more_stages_than_hosts_witness :
  (length (MSGpy.initial_nodes 2 7) < length (SFCRequest.stages sfc0))%nat
  ∧ MSGpy.place Demo.G sfc0 (MSGpy.initial_nodes 2 7)
    = Ok (None, MSGpy.initial_nodes 2 7).
Proof.
  assert (H : (length (MSGpy.initial_nodes 2 7) < length (SFCRequest.stages sfc0))%nat)
    by (vm_compute; lia).
  split; [exact H|].
  exact (more_stages_than_hosts Demo.G sfc0 (MSGpy.initial_nodes 2 7) H).
Defined.

(** ** The exclusion set of the backup chain *)

Lemma path_hosts_loop (MSG : DiGraph.t) path (acc : gset Z) :
  Forall (λ v, is_Some (DiGraph.nodes MSG !! v)) path →
  for_each (λ used p, a ← DiGraph.node MSG p; Ok ({[DiGraph.physical a]} ∪ used))
           acc path
  = Ok (Spec.chain_hosts MSG path ∪ acc).
Proof.
  revert acc. induction path as [|v path IH]; intros acc H.
  - simpl. f_equal. unfold Spec.chain_hosts. simpl. set_solver.
  - apply Forall_cons in H as [[a Ha] H]. cbn [for_each].
    rewrite (node_Ok _ _ _ Ha). simpl. rewrite IH by done. f_equal.
    unfold Spec.chain_hosts. simpl. rewrite (host_Some _ _ _ Ha). simpl. set_solver.
Qed.

(** X14.  The two scripts compute the same exclusion set for the backup
    chain: reading the host ids off the labels ([MSG.py]) and reading the
    [physical] attributes ([brute-force_SFC_placement.py]) both give the
    hosts of the chain, for every chain over the stage lists of
    [construct_msg]; neither fails. *)
Theorem exclusion_sets_agree Gp sfc used σ (MSG : DiGraph.t) stage_nodes σ' path :
  construct_msg Gp sfc used σ = Ok ((MSG, stage_nodes), σ') →
  Spec.chain_of stage_nodes path →
  MSGpy.label_hosts path = Ok (Spec.chain_hosts MSG path)
  ∧ BruteForce.path_hosts MSG path = Ok (Spec.chain_hosts MSG path).
Proof.
  intros (_ & -> & Hok & Hk & _)%construct_msg_inv Hchain.
  pose proof (chain_hosts_known _ _ _ _ _ Hok Hk Hchain) as H. split.
  - apply label_hosts_spec. eapply Forall_impl; [exact H|].
    intros v (h & ? & _ & ?). eauto.
  - unfold BruteForce.path_hosts. rewrite path_hosts_loop.
    + f_equal. set_solver.
    + eapply hosts_known, H.
Qed.

Lemma exclusion_sets_agree_witness :
  construct_msg Demo.G sfc0 ∅ Demo.σ0 = Ok ((Demo.MSG0, Demo.stage_nodes0), Demo.σ0)
  ∧ Spec.chain_of Demo.stage_nodes0 Demo.chain0
  ∧ MSGpy.label_hosts Demo.chain0 = Ok (Spec.chain_hosts Demo.MSG0 Demo.chain0)
  ∧ BruteForce.path_hosts Demo.MSG0 Demo.chain0
    = Ok (Spec.chain_hosts Demo.MSG0 Demo.chain0).
Proof.
  assert (H1 : construct_msg Demo.G sfc0 ∅ Demo.σ0
               = Ok ((Demo.MSG0, Demo.stage_nodes0), Demo.σ0))
    by (vm_compute; reflexivity).
  assert (H2 : Spec.chain_of Demo.stage_nodes0 Demo.chain0)
    by (unfold Spec.chain_of; refine (bool_decide_unpack _ _); vm_compute; exact I).
  split; [exact H1|]. split; [exact H2|].
  exact (exclusion_sets_agree Demo.G sfc0 ∅ Demo.σ0 Demo.MSG0 Demo.stage_nodes0
           Demo.σ0 Demo.chain0 H1 H2).
Defined.


(** ** [construct_msg]: nothing but the candidates *)

Lemma admit_hosts_nodes used s d ns (MSG : DiGraph.t) cur v :
  is_Some (DiGraph.nodes (foldl (admit_host used s d) (MSG, cur) ns).1 !! v) →
  is_Some (DiGraph.nodes MSG !! v) ∨ v ∈ Spec.stage_candidates ns used s d.
Proof.
  revert MSG cur. induction ns as [|n ns IH]; intros MSG cur; [by left|].
  cbn [foldl]. rewrite admit_host_spec. unfold Spec.stage_candidates.
  rewrite filter_cons. case_decide as Hq.
  - intros [H|H]%IH.
    + simpl in H. destruct (decide (vname (PhysicalNode.id n) s = v)) as [<-|Hne].
      * right. rewrite fmap_cons. by left.
      * rewrite lookup_insert_ne in H by done. by left.
    + right. rewrite fmap_cons. by right.
  - apply IH.
Qed.

Lemma build_stages_nodes used σ (pre : list Z) v :
  is_Some (DiGraph.nodes
             (foldl (build_stage used σ) (DiGraph.empty, []) (enumerate pre)).1 !! v) →
  ∃ (s : nat) d, pre !! s = Some d ∧ v ∈ Spec.stage_candidates σ used s d.
Proof.
  induction pre as [|d pre IH] using rev_ind.
  - simpl. rewrite lookup_empty. by intros [? ?].
  - unfold enumerate. rewrite imap_app, foldl_app. simpl. fold (enumerate pre).
    rewrite Nat.add_0_r.
    destruct (foldl (build_stage used σ) (DiGraph.empty, []) (enumerate pre))
      as [MSG sn] eqn:E.
    unfold build_stage.
    destruct (foldl (admit_host used (length pre) d) (MSG, []) σ) as [MSG' cur] eqn:E'.
    simpl. intros H.
    assert (H' : is_Some (DiGraph.nodes
                            (foldl (admit_host used (length pre) d) (MSG, []) σ).1 !! v))
      by by rewrite E'.
    apply admit_hosts_nodes in H' as [H'|H'].
    + destruct (IH H') as (s & d' & Hs & Hin). exists s, d'.
      split; [by apply lookup_app_l_Some | done].
    + exists (length pre), d. split; [by apply list_lookup_middle | done].
Qed.

Lemma construct_msg_nodes Gp sfc used σ (MSG : DiGraph.t) sn σ' v :
  construct_msg Gp sfc used σ = Ok ((MSG, sn), σ') →
  is_Some (DiGraph.nodes MSG !! v) →
  ∃ (s : nat) d, SFCRequest.stages sfc !! s = Some d
                 ∧ v ∈ Spec.stage_candidates σ used s d.
Proof.
  destruct (build_stages_spec used σ (SFCRequest.stages sfc) (SFCRequest.stages sfc) [])
    as (MSG0 & H0 & Hadj & Hok & Hk); [by rewrite app_nil_r|].
  unfold construct_msg. unfold mbind at 1, St_bind, get. rewrite H0.
  unfold mbind, St_bind, lift. rewrite link_stages_flat.
  rewrite link_pairs_spec by by apply stage_pairs_known.
  intros [= <- <- <-]. simpl. intros H. apply (build_stages_nodes used σ).
  by rewrite H0.
Qed.

Lemma node_ok_unique stages v a a' :
  node_ok stages v a → node_ok stages v a' → a = a'.
Proof.
  intros [-> Hc] [E Hc']. apply vname_inj in E as [Hp Hs].
  destruct a, a'. simpl in *. subst. f_equal. congruence.
Qed.

(** X15.  The MSG of [construct_msg] holds the candidates and nothing
    else: [v] is a vertex with attributes [a] exactly when [a] names a
    stage of the request with its demand and a host of the ledger that has
    room for the demand and is not excluded, and [v] is the label of that
    host and stage. *)
Theorem construct_msg_vertices Gp sfc used σ (MSG : DiGraph.t) stage_nodes σ' v a :
  construct_msg Gp sfc used σ = Ok ((MSG, stage_nodes), σ') →
  DiGraph.nodes MSG !! v = Some a
  ↔ ∃ n, n ∈ σ
       ∧ SFCRequest.stages sfc !! DiGraph.stage a = Some (DiGraph.cpu a)
       ∧ DiGraph.cpu a ≤ PhysicalNode.cpu n - PhysicalNode.used_cpu n
       ∧ (PhysicalNode.id n ∉ used)
       ∧ DiGraph.physical a = PhysicalNode.id n
       ∧ v = vname (PhysicalNode.id n) (DiGraph.stage a).
Proof.
  intros Hc. pose proof (construct_msg_nodes _ _ _ _ _ _ _ v Hc) as Hn.
  apply construct_msg_inv in Hc as (_ & -> & Hok & Hk & _). split.
  - intros Ha. destruct Hn as (s & d & Hs & Hin); [by rewrite Ha|].
    assert (Hp : stage_lists σ used (SFCRequest.stages sfc) !! s
                 = Some (Spec.stage_candidates σ used s d))
      by by rewrite stage_lists_lookup, Hs.
    destruct (stage_vertex _ _ _ _ _ _ _ Hok Hk Hp Hin)
      as (d' & n & Hd' & Hin' & Hroom & Hused & -> & Hnode).
    rewrite Ha in Hnode. injection Hnode as ->. simpl. exists n.
    split_and!; done.
  - intros (n & Hin & Hs & Hroom & Hused & Hp & ->).
    assert (Hl : stage_lists σ used (SFCRequest.stages sfc) !! DiGraph.stage a
                 = Some (Spec.stage_candidates σ used (DiGraph.stage a) (DiGraph.cpu a)))
      by by rewrite stage_lists_lookup, Hs.
    assert (Hv : vname (PhysicalNode.id n) (DiGraph.stage a)
                 ∈ Spec.stage_candidates σ used (DiGraph.stage a) (DiGraph.cpu a)).
    { apply elem_of_stage_candidates. exists n. done. }
    destruct (stage_vertex _ _ _ _ _ _ _ Hok Hk Hl Hv)
      as (d' & n' & Hd' & _ & _ & _ & [E _]%vname_inj & Hnode).
    rewrite Hnode. f_equal. destruct a. simpl in *. f_equal; congruence.
Qed.

Lemma construct_msg_vertices_witness :
  construct_msg Demo.G sfc0 ∅ Demo.σ0 = Ok ((Demo.MSG0, Demo.stage_nodes0), Demo.σ0)
  ∧ (DiGraph.nodes Demo.MSG0 !! "4_s2"
     = Some {| DiGraph.physical := 4; DiGraph.stage := 2; DiGraph.cpu := 1 |}
     ↔ ∃ n, n ∈ Demo.σ0
          ∧ SFCRequest.stages sfc0 !! 2%nat = Some 1
          ∧ 1 ≤ PhysicalNode.cpu n - PhysicalNode.used_cpu n
          ∧ (PhysicalNode.id n ∉ (∅ : gset Z))
          ∧ 4 = PhysicalNode.id n
          ∧ "4_s2" = vname (PhysicalNode.id n) 2).
Proof.
  assert (H : construct_msg Demo.G sfc0 ∅ Demo.σ0
              = Ok ((Demo.MSG0, Demo.stage_nodes0), Demo.σ0))
    by (vm_compute; reflexivity).
  split; [exact H|].
  exact (construct_msg_vertices Demo.G sfc0 ∅ Demo.σ0 Demo.MSG0 Demo.stage_nodes0
           Demo.σ0 "4_s2"
           {| DiGraph.physical := 4; DiGraph.stage := 2; DiGraph.cpu := 1 |} H).
Defined.

(** ** A smaller MSG inside a larger one *)

Lemma chain_of_sub (sn sn' : list (list string)) p :
  Forall2 (λ pool' pool : list string, ∀ v, v ∈ pool' → v ∈ pool) sn' sn →
  Spec.chain_of sn' p → Spec.chain_of sn p.
Proof.
  unfold Spec.chain_of. intros Hsub Hc. revert sn Hsub.
  induction Hc as [|v pool' p sn0 Hv _ IH]; intros sn1 H1.
  - apply Forall2_nil_inv_l in H1 as ->. constructor.
  - apply Forall2_cons_inv_l in H1 as (pool & sn2 & Hin & H2 & ->).
    constructor; auto.
Qed.

Section sub_msg.
Context (Gp : Substrate.t) (stages : list Z).
Context (MSG MSG' : DiGraph.t) (sn sn' : list (list string)).
Hypothesis Hok : map_Forall (node_ok stages) (DiGraph.nodes MSG).
Hypothesis Hok' : map_Forall (node_ok stages) (DiGraph.nodes MSG').
Hypothesis Hk : Spec.labels_known MSG sn.
Hypothesis Hk' : Spec.labels_known MSG' sn'.
Hypothesis Hadj : ∀ k, DiGraph.adj MSG !! k
                       = if decide (k ∈ stage_pairs sn)
                         then pair_edge Gp (DiGraph.nodes MSG) k else None.
Hypothesis Hadj' : ∀ k, DiGraph.adj MSG' !! k
                        = if decide (k ∈ stage_pairs sn')
                          then pair_edge Gp (DiGraph.nodes MSG') k else None.
Hypothesis Hsub : Forall2 (λ pool' pool : list string, ∀ v, v ∈ pool' → v ∈ pool) sn' sn.

Lemma sub_pool (s : nat) pool' v :
  sn' !! s = Some pool' → v ∈ pool' → ∃ pool, sn !! s = Some pool ∧ v ∈ pool.
Proof using Hsub.
  intros Hp Hv. destruct (Forall2_lookup_l _ _ _ _ _ Hsub Hp) as (pool & ? & Hin).
  exists pool. auto.
Qed.

Lemma sub_node (s : nat) pool' v a :
  sn' !! s = Some pool' → v ∈ pool' →
  DiGraph.nodes MSG' !! v = Some a → DiGraph.nodes MSG !! v = Some a.
Proof using Hok Hok' Hk Hsub.
  intros Hp Hv Ha. destruct (sub_pool _ _ _ Hp Hv) as (pool & Hpool & Hin).
  assert (is_Some (DiGraph.nodes MSG !! v)) as [a0 Ha0].
  { unfold Spec.labels_known in Hk. rewrite Forall_lookup in Hk.
    specialize (Hk _ _ Hpool). rewrite Forall_forall in Hk. by apply Hk. }
  rewrite Ha0. f_equal. eapply node_ok_unique; [by apply (Hok v)|by apply (Hok' v)].
Qed.

Lemma sub_host (s : nat) pool' v h :
  sn' !! s = Some pool' → v ∈ pool' →
  Spec.host MSG' v = Some h → Spec.host MSG v = Some h.
Proof using Hok Hok' Hk Hsub.
  unfold Spec.host. intros Hp Hv.
  destruct (DiGraph.nodes MSG' !! v) as [a|] eqn:Ha; [|done].
  by rewrite (sub_node _ _ _ _ Hp Hv Ha).
Qed.

Lemma sub_edge u v e :
  DiGraph.adj MSG' !! (u, v) = Some e → DiGraph.adj MSG !! (u, v) = Some e.
Proof using All.
  intros (s & us' & vs' & pu & pv & Hus & Hvs & Hu & Hv & Hpu & Hpv & Hne & Hp & ->)
    %(construct_msg_edges Gp MSG' sn' u v e Hk' Hadj').
  destruct (sub_pool _ _ _ Hus Hu) as (us & ? & ?).
  destruct (sub_pool _ _ _ Hvs Hv) as (vs & ? & ?).
  apply (construct_msg_edges Gp MSG sn u v _ Hk Hadj).
  exists s, us, vs, pu, pv. split_and!; try done.
  - by apply (sub_host s us').
  - by apply (sub_host (S s) vs').
Qed.

Lemma sub_chain p : Spec.chain_of sn' p → Spec.chain_of sn p.
Proof using Hsub. by apply chain_of_sub. Qed.

Lemma sub_chain_hosts p :
  Spec.chain_of sn' p → Spec.host MSG <$> p = Spec.host MSG' <$> p.
Proof using Hok Hok' Hk Hk' Hsub.
  intros Hc. apply list_eq. intros i. rewrite !list_lookup_fmap.
  destruct (p !! i) as [v|] eqn:Hv; [|done]. simpl. f_equal.
  destruct (Forall2_lookup_l _ _ _ _ _ Hc Hv) as (pool' & Hp & Hin).
  assert (is_Some (DiGraph.nodes MSG' !! v)) as [a Ha].
  { unfold Spec.labels_known in Hk'. rewrite Forall_lookup in Hk'.
    specialize (Hk' _ _ Hp). rewrite Forall_forall in Hk'. by apply Hk'. }
  unfold Spec.host. by rewrite Ha, (sub_node _ _ _ _ Hp Hin Ha).
Qed.

Lemma sub_connected p : Spec.connected MSG' p → Spec.connected MSG p.
Proof using All.
  intros Hc i u v Hu Hv. destruct (Hc i u v Hu Hv) as [e He].
  exists e. by apply sub_edge.
Qed.

Lemma sub_inter p :
  Spec.connected MSG' p →
  Spec.inter_delay MSG p = Spec.inter_delay MSG' p
  ∧ Spec.inter_cost MSG p = Spec.inter_cost MSG' p.
Proof using All.
  unfold Spec.inter_delay, Spec.inter_cost.
  induction p as [|u [|v p] IH]; [done | done |].
  intros [[e He] Hc]%connected_cons. rewrite !along_step.
  destruct (IH Hc) as [-> ->].
  unfold Spec.edge_delay, Spec.edge_cost. by rewrite He, (sub_edge _ _ _ He).
Qed.

Lemma sub_ends p :
  Spec.chain_of sn' p →
  Spec.first_host MSG p = Spec.first_host MSG' p
  ∧ Spec.last_host MSG p = Spec.last_host MSG' p.
Proof using Hok Hok' Hk Hk' Hsub.
  intros Hc. pose proof (sub_chain_hosts p Hc) as E.
  unfold Spec.first_host, Spec.last_host. split.
  - destruct p as [|v p]; [done|]. simpl in *. by injection E.
  - destruct (last p) as [v|] eqn:Hl; [|done]. simpl.
    apply last_Some in Hl as [p0 ->]. rewrite !fmap_app in E.
    apply app_inj_2 in E as [_ E]; [|done]. simpl in E. by injection E.
Qed.

Lemma sub_feasible sfc p d c :
  Spec.chain_of sn' p → Spec.feasible Gp sfc MSG' p d c →
  Spec.feasible Gp sfc MSG p d c.
Proof using All.
  intros Hc (Hd & Hcon & Htd & Htc & Hle).
  destruct (sub_inter p Hcon) as [Ed Ec]. destruct (sub_ends p Hc) as [Ef El].
  unfold Spec.feasible, Spec.distinct, Spec.total_delay, Spec.total_cost in *.
  rewrite (sub_chain_hosts p Hc), Ed, Ec, Ef, El.
  split_and!; try done. by apply sub_connected.
Qed.

Lemma sub_feasible_inter sfc p d c :
  Spec.chain_of sn' p → Spec.feasible_inter sfc MSG' p d c →
  Spec.feasible_inter sfc MSG p d c.
Proof using All.
  intros Hc (Hd & Hcon & -> & -> & Hle).
  destruct (sub_inter p Hcon) as [Ed Ec].
  unfold Spec.feasible_inter, Spec.distinct in *.
  rewrite (sub_chain_hosts p Hc), Ed, Ec.
  split_and!; try done. by apply sub_connected.
Qed.

(** What the search finds on the smaller MSG is a candidate on the
    larger one, so the larger one has a chain that costs no more. *)
Lemma sub_search sfc p' d' c' :
  MSGpy.find_feasible_path MSG' sn' sfc Gp = Ok (Some (p', d', c')) →
  ∃ p d c, MSGpy.find_feasible_path MSG sn sfc Gp = Ok (Some (p, d, c)) ∧ c ≤ c'.
Proof using All.
  intros Hf.
  assert (Hne' : sn' ≠ []) by (intros ->; done).
  assert (Hne : sn ≠ []).
  { intros ->. apply Forall2_nil_inv_r in Hsub. done. }
  destruct (MSGpy_find_feasible_path_spec MSG' sn' sfc Gp Hne' Hk') as (r' & Hr' & Hs').
  rewrite Hf in Hr'. injection Hr' as <-. destruct Hs' as (Hc' & Hfeas' & _).
  destruct (MSGpy_find_feasible_path_spec MSG sn sfc Gp Hne Hk) as (r & Hr & Hs).
  rewrite Hr. destruct r as [[[p d] c]|].
  - exists p, d, c. split; [done|]. destruct Hs as (_ & _ & Hmin & _).
    eapply Hmin; [by apply sub_chain | by apply sub_feasible].
  - exfalso. eapply Hs; [by apply sub_chain | by apply sub_feasible].
Qed.

Lemma sub_search_inter sfc p' d' c' :
  BruteForce.find_feasible_path MSG' sn' sfc Gp = Ok (Some (p', d', c')) →
  ∃ p d c, BruteForce.find_feasible_path MSG sn sfc Gp = Ok (Some (p, d, c)) ∧ c ≤ c'.
Proof using All.
  intros Hf.
  destruct (BruteForce_find_feasible_path_spec MSG' sn' sfc Gp Hk') as (r' & Hr' & Hs').
  rewrite Hf in Hr'. injection Hr' as <-. destruct Hs' as (Hc' & Hfeas' & _).
  destruct (BruteForce_find_feasible_path_spec MSG sn sfc Gp Hk) as (r & Hr & Hs).
  rewrite Hr. destruct r as [[[p d] c]|].
  - exists p, d, c. split; [done|]. destruct Hs as (_ & _ & Hmin & _).
    eapply Hmin; [by apply sub_chain | by apply sub_feasible_inter].
  - exfalso. eapply Hs; [by apply sub_chain | by apply sub_feasible_inter].
Qed.
End sub_msg.

Lemma stage_lists_sub σ σ' (used used' : gset Z) stages :
  (∀ (s : nat) d v, stages !! s = Some d →
     v ∈ Spec.stage_candidates σ' used' s d → v ∈ Spec.stage_candidates σ used s d) →
  Forall2 (λ pool' pool : list string, ∀ v, v ∈ pool' → v ∈ pool)
          (stage_lists σ' used' stages) (stage_lists σ used stages).
Proof.
  intros H. apply Forall2_same_length_lookup_2; [by rewrite !stage_lists_length|].
  intros s pool' pool. rewrite !stage_lists_lookup.
  destruct (stages !! s) as [d|] eqn:Hs; [|done]. simpl.
  intros [= <-] [= <-] v. by apply H.
Qed.


(** ** Excluding hosts *)

Lemma filter_sublist_mono {A} (P Q : A → Prop) `{∀ x, Decision (P x)}
    `{∀ x, Decision (Q x)} (l : list A) :
  (∀ x, P x → Q x) → filter P l `sublist_of` filter Q l.
Proof.
  intros HPQ. induction l as [|x l IH]; [done|]. rewrite !filter_cons.
  destruct (decide (P x)) as [HP|HP].
  - rewrite decide_True by auto. by constructor.
  - destruct (decide (Q x)); [by constructor | done].
Qed.

Lemma stage_candidates_exclusion σ (used used' : gset Z) (s : nat) d :
  used ⊆ used' →
  Spec.stage_candidates σ used' s d `sublist_of` Spec.stage_candidates σ used s d.
Proof.
  intros Hu. unfold Spec.stage_candidates. apply fmap_sublist, filter_sublist_mono.
  intros n [? ?]. split; [done | set_solver].
Qed.

Lemma exclusion_sub σ (used used' : gset Z) stages :
  used ⊆ used' →
  Forall2 (λ pool' pool : list string, ∀ v, v ∈ pool' → v ∈ pool)
          (stage_lists σ used' stages) (stage_lists σ used stages).
Proof.
  intros Hu. apply stage_lists_sub. intros s d v _ Hv.
  eapply elem_of_sublist; [exact Hv|]. by apply stage_candidates_exclusion.
Qed.

(** X16.  Excluding more hosts gives a part of the MSG: on the same ledger,
    every stage list of the MSG built with the larger exclusion set is a
    sub-list of the corresponding one built with the smaller set, and its
    vertices and edges are vertices and edges there, with the same
    attributes. *)
Theorem construct_msg_exclusion_monotone Gp sfc (used used' : gset Z) σ
    (MSG : DiGraph.t) sn σ1 (MSG' : DiGraph.t) sn' σ2 :
  used ⊆ used' →
  construct_msg Gp sfc used σ = Ok ((MSG, sn), σ1) →
  construct_msg Gp sfc used' σ = Ok ((MSG', sn'), σ2) →
  Forall2 sublist sn' sn
  ∧ DiGraph.nodes MSG' ⊆ DiGraph.nodes MSG
  ∧ DiGraph.adj MSG' ⊆ DiGraph.adj MSG.
Proof.
  intros Hu Hc Hc'.
  pose proof (λ v, construct_msg_nodes _ _ _ _ _ _ _ v Hc') as Hn.
  apply construct_msg_inv in Hc as (_ & -> & Hok & Hk & Hadj).
  apply construct_msg_inv in Hc' as (_ & -> & Hok' & Hk' & Hadj').
  pose proof (exclusion_sub σ used used' (SFCRequest.stages sfc) Hu) as Hsub.
  split_and!.
  - apply Forall2_same_length_lookup_2; [by rewrite !stage_lists_length|].
    intros s pool' pool. rewrite !stage_lists_lookup.
    destruct (SFCRequest.stages sfc !! s) as [d|]; [|done]. simpl.
    intros [= <-] [= <-]. by apply stage_candidates_exclusion.
  - apply map_subseteq_spec. intros v a Ha.
    destruct (Hn v) as (s & d & Hs & Hin); [by rewrite Ha|].
    eapply (sub_node (SFCRequest.stages sfc) MSG MSG' _ _ Hok Hok' Hk Hsub s);
      [|exact Hin|exact Ha].
    by rewrite stage_lists_lookup, Hs.
  - apply map_subseteq_spec. intros [u v] e He.
    by apply (sub_edge Gp (SFCRequest.stages sfc) MSG MSG' _ _ Hok Hok' Hk Hk' Hadj Hadj' Hsub).
Qed.

Lemma construct_msg_exclusion_monotone_witness :
  (∅ : gset Z) ⊆ Demo.usedC
  ∧ construct_msg Demo.G sfc0 ∅ Demo.σ0 = Ok ((Demo.MSG0, Demo.stage_nodes0), Demo.σ0)
  ∧ construct_msg Demo.G sfc0 Demo.usedC Demo.σ0
    = Ok (Demo.built Demo.G sfc0 Demo.usedC Demo.σ0, Demo.σ0)
  ∧ Forall2 sublist (Demo.built Demo.G sfc0 Demo.usedC Demo.σ0).2 Demo.stage_nodes0
  ∧ DiGraph.nodes (Demo.built Demo.G sfc0 Demo.usedC Demo.σ0).1
    ⊆ DiGraph.nodes Demo.MSG0
  ∧ DiGraph.adj (Demo.built Demo.G sfc0 Demo.usedC Demo.σ0).1
    ⊆ DiGraph.adj Demo.MSG0.
Proof.
  assert (H1 : (∅ : gset Z) ⊆ Demo.usedC)
    by (refine (bool_decide_unpack _ _); vm_compute; exact I).
  assert (H2 : construct_msg Demo.G sfc0 ∅ Demo.σ0
               = Ok ((Demo.MSG0, Demo.stage_nodes0), Demo.σ0))
    by (vm_compute; reflexivity).
  assert (H3 : construct_msg Demo.G sfc0 Demo.usedC Demo.σ0
               = Ok (((Demo.built Demo.G sfc0 Demo.usedC Demo.σ0).1,
                      (Demo.built Demo.G sfc0 Demo.usedC Demo.σ0).2), Demo.σ0))
    by (vm_compute; reflexivity).
  split; [exact H1|]. split; [exact H2|]. split; [vm_compute; reflexivity|].
  exact (construct_msg_exclusion_monotone Demo.G sfc0 ∅ Demo.usedC Demo.σ0
           Demo.MSG0 Demo.stage_nodes0 Demo.σ0 _ _ Demo.σ0 H1 H2 H3).
Defined.

(** X17.  Excluding more hosts never makes the search cheaper: on the same
    ledger, when the search on the MSG built with the larger exclusion set
    finds a chain, the search on the MSG built with the smaller set finds
    one too, of at most that cost.  This holds for the search of either
    script. *)
Theorem exclusion_never_cheaper Gp sfc (used used' : gset Z) σ
    (MSG : DiGraph.t) sn σ1 (MSG' : DiGraph.t) sn' σ2 :
  used ⊆ used' →
  construct_msg Gp sfc used σ = Ok ((MSG, sn), σ1) →
  construct_msg Gp sfc used' σ = Ok ((MSG', sn'), σ2) →
  (∀ p' d' c',
     MSGpy.find_feasible_path MSG' sn' sfc Gp = Ok (Some (p', d', c')) →
     ∃ p d c, MSGpy.find_feasible_path MSG sn sfc Gp = Ok (Some (p, d, c)) ∧ c ≤ c')
  ∧ (∀ p' d' c',
       BruteForce.find_feasible_path MSG' sn' sfc Gp = Ok (Some (p', d', c')) →
       ∃ p d c, BruteForce.find_feasible_path MSG sn sfc Gp = Ok (Some (p, d, c))
                ∧ c ≤ c').
Proof.
  intros Hu Hc Hc'.
  apply construct_msg_inv in Hc as (_ & -> & Hok & Hk & Hadj).
  apply construct_msg_inv in Hc' as (_ & -> & Hok' & Hk' & Hadj').
  pose proof (exclusion_sub σ used used' (SFCRequest.stages sfc) Hu) as Hsub.
  split; intros p' d' c'.
  - by apply (sub_search Gp (SFCRequest.stages sfc) MSG MSG' _ _
                Hok Hok' Hk Hk' Hadj Hadj' Hsub).
  - by apply (sub_search_inter Gp (SFCRequest.stages sfc) MSG MSG' _ _
                Hok Hok' Hk Hk' Hadj Hadj' Hsub).
Qed.

Lemma exclusion_never_cheaper_witness :
  (∅ : gset Z) ⊆ {[0; 1; 2]}
  ∧ construct_msg Demo.G sfc0 ∅ Demo.σ0 = Ok ((Demo.MSG0, Demo.stage_nodes0), Demo.σ0)
  ∧ construct_msg Demo.G sfc0 {[0; 1; 2]} Demo.σ0
    = Ok (Demo.built Demo.G sfc0 {[0; 1; 2]} Demo.σ0, Demo.σ0)
  ∧ (∀ p' d' c',
       MSGpy.find_feasible_path (Demo.built Demo.G sfc0 {[0; 1; 2]} Demo.σ0).1
         (Demo.built Demo.G sfc0 {[0; 1; 2]} Demo.σ0).2 sfc0 Demo.G
       = Ok (Some (p', d', c')) →
       ∃ p d c, MSGpy.find_feasible_path Demo.MSG0 Demo.stage_nodes0 sfc0 Demo.G
                = Ok (Some (p, d, c)) ∧ c ≤ c')
  ∧ (∀ p' d' c',
       BruteForce.find_feasible_path (Demo.built Demo.G sfc0 {[0; 1; 2]} Demo.σ0).1
         (Demo.built Demo.G sfc0 {[0; 1; 2]} Demo.σ0).2 sfc0 Demo.G
       = Ok (Some (p', d', c')) →
       ∃ p d c, BruteForce.find_feasible_path Demo.MSG0 Demo.stage_nodes0 sfc0 Demo.G
                = Ok (Some (p, d, c)) ∧ c ≤ c').
Proof.
  assert (H1 : (∅ : gset Z) ⊆ {[0; 1; 2]})
    by (refine (bool_decide_unpack _ _); vm_compute; exact I).
  assert (H2 : construct_msg Demo.G sfc0 ∅ Demo.σ0
               = Ok ((Demo.MSG0, Demo.stage_nodes0), Demo.σ0))
    by (vm_compute; reflexivity).
  assert (H3 : construct_msg Demo.G sfc0 {[0; 1; 2]} Demo.σ0
               = Ok (((Demo.built Demo.G sfc0 {[0; 1; 2]} Demo.σ0).1,
                      (Demo.built Demo.G sfc0 {[0; 1; 2]} Demo.σ0).2), Demo.σ0))
    by (vm_compute; reflexivity).
  split; [exact H1|]. split; [exact H2|]. split; [vm_compute; reflexivity|].
  exact (exclusion_never_cheaper Demo.G sfc0 ∅ {[0; 1; 2]} Demo.σ0
           Demo.MSG0 Demo.stage_nodes0 Demo.σ0 _ _ Demo.σ0 H1 H2 H3).
Defined.

(** ** The backup chain of [MSG.py] *)

(** After a commit with demands that are not negative, the candidates of
    any exclusion set are candidates of the ledger before the commit. *)
Lemma grown_candidates (b : Prop) σ σ1 (used : gset Z) (s : nat) d v :
  b → Forall2 (Spec.host_grows b) σ σ1 →
  v ∈ Spec.stage_candidates σ1 used s d → v ∈ Spec.stage_candidates σ ∅ s d.
Proof.
  intros Hb Hg (n1 & [k Hk]%list_elem_of_lookup_1 & Hroom & _ & ->)
    %elem_of_stage_candidates.
  destruct (Forall2_lookup_r _ _ _ _ _ Hg Hk) as (n & Hn & Hi & Hc & _ & Hu).
  specialize (Hu Hb). apply elem_of_stage_candidates. exists n.
  split_and!.
  - by eapply list_elem_of_lookup_2.
  - lia.
  - set_solver.
  - by rewrite Hi.
Qed.

(** X18.  In [MSG.py] the backup chain is never cheaper than the active
    chain of the same request, when no stage demand is negative: the backup
    search runs on a part of the active MSG. *)
Theorem backup_never_cheaper Gp sfc σ row σ' :
  Forall (λ d, 0 ≤ d) (SFCRequest.stages sfc) →
  MSGpy.place Gp sfc σ = Ok (Some row, σ') →
  MSGpy.Backup_Path row ≠ [] →
  MSGpy.Active_Cost row ≤ MSGpy.Backup_Cost row.
Proof.
  intros Hnn (act & σ1 & MSG_a & sn_a & used & MSG_b & sn_b
              & Hc & Hf & Hres & _ & Hcb & Hb)%place_row_inv Hne.
  destruct Hb as [(_ & _ & ->) | (p & d & c & extra & bdc & Hfb & _ & ->)]; [done|].
  simpl. pose proof (built_reserve_grows _ _ _ _ _ _ _ _ _ _ _ Hc Hres) as Hg.
  apply construct_msg_inv in Hc as (_ & -> & Hok & Hk & Hadj).
  apply construct_msg_inv in Hcb as (_ & -> & Hok' & Hk' & Hadj').
  assert (Hsub : Forall2 (λ pool' pool : list string, ∀ v, v ∈ pool' → v ∈ pool)
                   (stage_lists σ1 used (SFCRequest.stages sfc))
                   (stage_lists σ ∅ (SFCRequest.stages sfc))).
  { apply stage_lists_sub. intros s d0 v _. by apply (grown_candidates _ _ _ _ _ _ _ Hnn Hg). }
  destruct (sub_search Gp (SFCRequest.stages sfc) MSG_a MSG_b _ _
              Hok Hok' Hk Hk' Hadj Hadj' Hsub sfc p d c Hfb) as (p0 & d0 & c0 & Hf0 & Hle).
  rewrite Hf in Hf0. by injection Hf0 as _ _ ->.
Qed.

Lemma backup_never_cheaper_witness :
  Forall (λ d, 0 ≤ d) (SFCRequest.stages sfc0)
  ∧ MSGpy.place Demo.G sfc0 Demo.σ0 = Ok (Some Demo.row0, Demo.σ1)
  ∧ MSGpy.Backup_Path Demo.row0 ≠ []
  ∧ MSGpy.Active_Cost Demo.row0 ≤ MSGpy.Backup_Cost Demo.row0.
Proof.
  assert (H1 : Forall (λ d, 0 ≤ d) (SFCRequest.stages sfc0))
    by (refine (bool_decide_unpack _ _); vm_compute; exact I).
  assert (H2 : MSGpy.place Demo.G sfc0 Demo.σ0 = Ok (Some Demo.row0, Demo.σ1))
    by (vm_compute; reflexivity).
  assert (H3 : MSGpy.Backup_Path Demo.row0 ≠ []) by (simpl; discriminate).
  split; [exact H1|]. split; [exact H2|]. split; [exact H3|].
  exact (backup_never_cheaper Demo.G sfc0 Demo.σ0 Demo.row0 Demo.σ1 H1 H2 H3).
Defined.

(** ** The brute-force script and the ledger *)

Lemma simulate_request_total G sfc σ :
  ∃ r, BruteForce.simulate_request G sfc σ = Ok (r, σ).
Proof.
  destruct (construct_msg_spec G sfc ∅ σ) as (MSG_a & Ha & Hok & Hk & _).
  unfold BruteForce.simulate_request. unfold mbind at 1, St_bind. rewrite Ha.
  unfold mbind at 1, St_bind, lift at 1.
  destruct (BruteForce_find_feasible_path_spec MSG_a _ sfc G Hk) as (ra & -> & Hs).
  destruct ra as [[[pa da] ca]|]; [|by eexists].
  destruct Hs as (Hchain & _).
  pose proof (chain_hosts_known _ _ _ _ _ Hok Hk Hchain) as Hh.
  unfold mbind at 1, St_bind, lift at 1. unfold BruteForce.path_hosts.
  rewrite path_hosts_loop by (eapply hosts_known, Hh).
  destruct (construct_msg_spec G sfc (Spec.chain_hosts MSG_a pa ∪ ∅) σ)
    as (MSG_b & Hb & Hokb & Hkb & _).
  unfold mbind at 1, St_bind. rewrite Hb.
  unfold mbind at 1, St_bind, lift at 1.
  destruct (BruteForce_find_feasible_path_spec MSG_b _ sfc G Hkb) as (rb & -> & Hsb).
  destruct rb as [[[pb db] cb]|].
  - destruct Hsb as (Hchainb & _).
    pose proof (chain_hosts_known _ _ _ _ _ Hokb Hkb Hchainb) as Hhb.
    destruct (failover_total G MSG_a MSG_b pa pb 0) as [bdc Hbdc];
      [eapply hosts_known, Hh | eapply hosts_known, Hhb |].
    change (MSGpy.failover_step G MSG_a MSG_b)
      with (BruteForce.failover_step G MSG_a MSG_b) in Hbdc.
    unfold mbind at 1, St_bind. unfold mbind at 1, St_bind, lift at 1.
    rewrite Hbdc. unfold mret, St_ret.
    destruct (BruteForce.run_brute_force G sfc) as [[[? ?] ?]|]; by eexists.
  - unfold mbind at 1, St_bind. unfold mret, St_ret.
    destruct (BruteForce.run_brute_force G sfc) as [[[? ?] ?]|]; by eexists.
Qed.

Lemma simulate_loop G sfc_requests rows σ :
  for_each_St (BruteForce.simulate_step G) rows sfc_requests σ
  = Ok (rows ++ omap (brute_force_row G σ) sfc_requests, σ).
Proof.
  revert rows. induction sfc_requests as [|sfc rest IH]; intros rows.
  - simpl. by rewrite app_nil_r.
  - cbn [for_each_St omap list_omap]. unfold mbind at 1, St_bind.
    unfold BruteForce.simulate_step at 1. unfold mbind at 1, St_bind.
    unfold brute_force_row at 1.
    destruct (simulate_request_total G sfc σ) as [r ->].
    unfold mret, St_ret. rewrite IH. destruct r; [|done].
    by rewrite <- app_assoc.
Qed.

(** X19.  The brute-force script never writes the ledger and never fails
    on a request: a batch ends with the ledger it started with, and its
    rows are the rows each request gives on that ledger by itself, in
    request order, whatever else is in the batch. *)
Theorem brute_force_never_writes G sfc_requests σ :
  BruteForce.simulate_all G sfc_requests σ
  = Ok (omap (brute_force_row G σ) sfc_requests, σ).
Proof. apply simulate_loop. Qed.


(** ** [run_brute_force] *)

Lemma elem_of_picks {A} (pool : list A) x rest :
  (x, rest) ∈ BruteForce.picks pool
  ↔ ∃ l1 l2, pool = l1 ++ x :: l2 ∧ rest = l1 ++ l2.
Proof.
  revert rest. induction pool as [|y pool IH]; intros rest; simpl.
  - split; [by intros ?%not_elem_of_nil|]. intros (l1 & l2 & E & _).
    by destruct l1.
  - rewrite elem_of_cons, list_elem_of_fmap. split.
    + intros [[= -> ->] | ([x' rest'] & [= -> ->] & (l1 & l2 & -> & ->)%IH)].
      * by exists [], pool.
      * by exists (y :: l1), l2.
    + intros (l1 & l2 & E & ->). destruct l1 as [|z l1]; simpl in *.
      * injection E as -> ->. by left.
      * injection E as -> ->. right. exists (x, l1 ++ l2). split; [done|].
        apply IH. by exists l1, l2.
Qed.

(** The arrangements [itertools.permutations] yields for a pool without
    repetitions. *)
Lemma elem_of_permutations (r : nat) (pool perm : list Z) :
  NoDup pool →
  perm ∈ BruteForce.permutations r pool ↔ Spec.arrangement pool r perm.
Proof.
  unfold Spec.arrangement. revert pool perm.
  induction r as [|r IH]; intros pool perm Hnd; simpl.
  - rewrite list_elem_of_singleton. split.
    + intros ->. split_and!; [done | constructor | by intros ? ?%not_elem_of_nil].
    + intros (Hl & _). by destruct perm.
  - rewrite list_elem_of_bind. split.
    + intros ([x rest] & (t & -> & Ht)%list_elem_of_fmap & (l1 & l2 & -> & ->)%elem_of_picks).
      simpl in *.
      assert (Hnd' : NoDup (l1 ++ l2)).
      { eapply sublist_NoDup; [exact Hnd|]. apply sublist_app; [done|]. by constructor. }
      apply (IH _ _ Hnd') in Ht as (Hl & Hn & Hsub).
      split_and!.
      * simpl. by rewrite Hl.
      * constructor; [|done]. intros Hin%Hsub.
        apply NoDup_app in Hnd as (_ & Hd & Hx%NoDup_cons).
        apply elem_of_app in Hin as [Hin|Hin]; [|by destruct Hx].
        apply (Hd x Hin). by left.
      * intros h [->|Hin%Hsub]%elem_of_cons; [set_solver|].
        rewrite elem_of_app in Hin. rewrite elem_of_app, elem_of_cons. tauto.
    + intros (Hl & Hn & Hsub). destruct perm as [|x t]; [done|].
      apply NoDup_cons in Hn as [Hx Hn].
      destruct (list_elem_of_split pool x) as (l1 & l2 & ->); [apply Hsub; by left|].
      exists (x, l1 ++ l2). split.
      * simpl. apply list_elem_of_fmap. exists t. split; [done|].
        apply IH.
        -- eapply sublist_NoDup; [exact Hnd|]. apply sublist_app; [done|]. by constructor.
        -- split_and!; [simpl in Hl; lia | done |].
           intros h Hin. assert (h ≠ x) by (by intros ->).
           specialize (Hsub h). rewrite elem_of_cons, elem_of_app, elem_of_cons in Hsub.
           assert (Hin' : h ∈ l1 ∨ h = x ∨ h ∈ l2) by (apply Hsub; by right).
           rewrite elem_of_app. destruct Hin' as [?|[?|?]]; [by left | done | by right].
      * apply elem_of_picks. by exists l1, l2.
Qed.

Lemma route_ok_cons G u v rest :
  Spec.route_ok G (u :: v :: rest)
  ↔ Substrate.has_path G u v = true ∧ Spec.route_ok G (v :: rest).
Proof.
  unfold Spec.route_ok. split.
  - intros H. split; [by apply (H 0%nat)|]. intros i a b Ha Hb. by apply (H (S i)).
  - intros [H0 H] [|i] a b Ha Hb.
    + simpl in *. by injection Ha as <-; injection Hb as <-.
    + by apply (H i).
Qed.

Lemma perm_totals_step G u v rest d0 c0 :
  BruteForce.perm_totals G (u :: v :: rest) d0 c0
  = if negb (Substrate.has_path G u v) then None
    else BruteForce.perm_totals G (v :: rest)
           (d0 + path_delay G (Substrate.shortest_path G u v))
           (c0 + path_cost G (Substrate.shortest_path G u v)).
Proof. done. Qed.

Lemma perm_totals_spec G perm d0 c0 :
  match BruteForce.perm_totals G perm d0 c0 with
  | Some (d, c) =>
      Spec.route_ok G perm
      ∧ d = d0 + Spec.route_delay G perm ∧ c = c0 + Spec.route_cost G perm
  | None => ¬ Spec.route_ok G perm
  end.
Proof.
  revert d0 c0. induction perm as [|u [|v rest] IH]; intros d0 c0.
  - unfold Spec.route_ok, Spec.route_delay, Spec.route_cost. simpl.
    rewrite !along_nil. split_and!; [done | lia | lia].
  - unfold Spec.route_ok, Spec.route_delay, Spec.route_cost. simpl.
    rewrite !along_one. split_and!; [intros i a b _ H; by destruct i | lia | lia].
  - rewrite perm_totals_step.
    destruct (Substrate.has_path G u v) eqn:Hp; cbn [negb].
    + specialize (IH (d0 + path_delay G (Substrate.shortest_path G u v))
                     (c0 + path_cost G (Substrate.shortest_path G u v))).
      destruct (BruteForce.perm_totals G (v :: rest) _ _) as [[d c]|];
        cbn beta iota in *.
      * destruct IH as (Hr & -> & ->). split_and!.
        -- by apply route_ok_cons.
        -- unfold Spec.route_delay. rewrite along_step, shortest_delay_spec. lia.
        -- unfold Spec.route_cost. rewrite along_step, shortest_cost_spec. lia.
      * intros [_ ?]%route_ok_cons. done.
    + intros [? _]%route_ok_cons. congruence.
Qed.

Lemma judge_perm_spec G budget perm y :
  judge_perm G budget perm = Some y
  ↔ y = (perm, Spec.route_delay G perm, Spec.route_cost G perm)
    ∧ Spec.route_ok G perm ∧ Spec.route_delay G perm ≤ budget.
Proof.
  unfold judge_perm. pose proof (perm_totals_spec G perm 0 0) as H.
  destruct (BruteForce.perm_totals G perm 0 0) as [[d c]|].
  - destruct H as (Hr & -> & ->). rewrite !Z.add_0_l.
    destruct (Z.gtb_spec (Spec.route_delay G perm) budget); split.
    + done.
    + intros (_ & _ & ?). lia.
    + intros [= <-]. split_and!; [done | done | lia].
    + by intros (-> & _).
  - split; [done|]. by intros (_ & ? & _).
Qed.

Lemma brute_loop G budget perms (acc : list (list Z * Z * Z)) :
  foldl (λ placements perm,
           match BruteForce.perm_totals G perm 0 0 with
           | None => placements
           | Some (total_delay, total_cost) =>
               if total_delay >? budget then placements
               else placements ++ [(perm, total_delay, total_cost)]
           end) acc perms
  = acc ++ omap (judge_perm G budget) perms.
Proof.
  revert acc. induction perms as [|perm perms IH]; intros acc; simpl.
  - by rewrite app_nil_r.
  - rewrite IH. unfold judge_perm at 2.
    destruct (BruteForce.perm_totals G perm 0 0) as [[d c]|]; [|done].
    destruct (d >? budget); [done|]. by rewrite <- app_assoc.
Qed.

Lemma run_brute_force_unfold G sfc :
  BruteForce.run_brute_force G sfc
  = min_by (λ x, x.2)
      (omap (judge_perm G (SFCRequest.max_delay sfc))
            (BruteForce.permutations (length (SFCRequest.stages sfc))
                                     (Substrate.nodes G))).
Proof. unfold BruteForce.run_brute_force. by rewrite brute_loop. Qed.

(** X20.  [run_brute_force] on a graph whose node list has no repetition:
    the result is an arrangement of as many different nodes as the request
    has stages, with a substrate path between consecutive nodes and the
    sums of the shortest-path delays and costs as its totals, within the
    delay budget and of least cost among all such arrangements; [None] is
    returned exactly when there is no such arrangement.  Capacities, the
    source and the destination play no part. *)
Theorem run_brute_force_optimal G sfc :
  NoDup (Substrate.nodes G) →
  match BruteForce.run_brute_force G sfc with
  | Some (perm, d, c) =>
      Spec.arrangement (Substrate.nodes G) (length (SFCRequest.stages sfc)) perm
      ∧ Spec.route_ok G perm
      ∧ d = Spec.route_delay G perm ∧ c = Spec.route_cost G perm
      ∧ d ≤ SFCRequest.max_delay sfc
      ∧ ∀ q, Spec.arrangement (Substrate.nodes G) (length (SFCRequest.stages sfc)) q →
             Spec.route_ok G q → Spec.route_delay G q ≤ SFCRequest.max_delay sfc →
             c ≤ Spec.route_cost G q
  | None =>
      ∀ q, Spec.arrangement (Substrate.nodes G) (length (SFCRequest.stages sfc)) q →
           Spec.route_ok G q → ¬ Spec.route_delay G q ≤ SFCRequest.max_delay sfc
  end.
Proof.
  intros Hnd. rewrite run_brute_force_unfold.
  pose proof (min_by_omap_spec (judge_perm G (SFCRequest.max_delay sfc)) (λ x, x.2)
                (BruteForce.permutations (length (SFCRequest.stages sfc))
                                         (Substrate.nodes G))) as H.
  destruct (min_by _ _) as [[[perm d] c]|].
  - destruct H as (i & x & Hi & (E & Hr & Hd)%judge_perm_spec & Hmin).
    injection E as -> -> ->.
    apply list_elem_of_lookup_2, elem_of_permutations in Hi; [|done].
    split_and!; try done. intros q Hq Hrq Hdq.
    apply elem_of_permutations, list_elem_of_lookup_1 in Hq as [j Hj]; [|done].
    destruct (Hmin j q (q, Spec.route_delay G q, Spec.route_cost G q) Hj) as [Hle _];
      [by apply judge_perm_spec | done].
  - intros q Hq Hrq Hdq. apply elem_of_permutations in Hq; [|done].
    specialize (H q Hq).
    assert (judge_perm G (SFCRequest.max_delay sfc) q
            = Some (q, Spec.route_delay G q, Spec.route_cost G q))
      by by apply judge_perm_spec.
    congruence.
Qed.

Lemma run_brute_force_optimal_witness :
  NoDup (Substrate.nodes Demo.line5)
  ∧ match BruteForce.run_brute_force Demo.line5 Demo.sfcA with
    | Some (perm, d, c) =>
        Spec.arrangement (Substrate.nodes Demo.line5)
                         (length (SFCRequest.stages Demo.sfcA)) perm
        ∧ Spec.route_ok Demo.line5 perm
        ∧ d = Spec.route_delay Demo.line5 perm ∧ c = Spec.route_cost Demo.line5 perm
        ∧ d ≤ SFCRequest.max_delay Demo.sfcA
        ∧ ∀ q, Spec.arrangement (Substrate.nodes Demo.line5)
                                (length (SFCRequest.stages Demo.sfcA)) q →
               Spec.route_ok Demo.line5 q →
               Spec.route_delay Demo.line5 q ≤ SFCRequest.max_delay Demo.sfcA →
               c ≤ Spec.route_cost Demo.line5 q
    | None =>
        ∀ q, Spec.arrangement (Substrate.nodes Demo.line5)
                              (length (SFCRequest.stages Demo.sfcA)) q →
             Spec.route_ok Demo.line5 q →
             ¬ Spec.route_delay Demo.line5 q ≤ SFCRequest.max_delay Demo.sfcA
    end.
Proof.
  assert (H : NoDup (Substrate.nodes Demo.line5))
    by (refine (bool_decide_unpack _ _); vm_compute; exact I).
  split; [exact H|].
  exact (run_brute_force_optimal Demo.line5 Demo.sfcA H).
Defined.


(** ** The search and the exhaustive enumerator *)

Lemma along_lookup_ext {A B} (f : A → A → Z) (g : B → B → Z)
    (l : list A) (k : list B) :
  length l = length k →
  (∀ (i : nat) a a' b b', l !! i = Some a → l !! S i = Some a' →
     k !! i = Some b → k !! S i = Some b' → f a a' = g b b') →
  Spec.along f l = Spec.along g k.
Proof.
  revert k. induction l as [|a l IH]; intros [|b k] Hlen H; try done.
  destruct l as [|a' l], k as [|b' k]; try done.
  rewrite !along_step. rewrite (H 0%nat a a' b b') by done.
  f_equal. apply IH; [simpl in *; lia|].
  intros i. apply (H (S i)).
Qed.

Lemma chain_labels_lookup hs (i : nat) v :
  chain_labels hs !! i = Some v ↔ ∃ h, hs !! i = Some h ∧ v = vname h i.
Proof.
  unfold chain_labels. rewrite list_lookup_imap.
  destruct (hs !! i) as [h|]; simpl.
  - split; [intros [= <-]; eauto | by intros (h' & [= <-] & ->)].
  - split; [done | by intros (? & ? & _)].
Qed.

Section oracle.
Context (G : Substrate.t) (σ : ledger) (stages : list Z) (MSG : DiGraph.t).
Hypothesis Hok : map_Forall (node_ok stages) (DiGraph.nodes MSG).
Hypothesis Hk : Spec.labels_known MSG (stage_lists σ ∅ stages).
Hypothesis Hadj : ∀ k, DiGraph.adj MSG !! k
                       = if decide (k ∈ stage_pairs (stage_lists σ ∅ stages))
                         then pair_edge G (DiGraph.nodes MSG) k else None.
Hypothesis Hroom :
  Forall (λ n, Forall (λ d, d ≤ PhysicalNode.cpu n - PhysicalNode.used_cpu n) stages) σ.

(** With room everywhere, any hosts of the ledger make a chain. *)
Lemma labels_chain hs :
  length hs = length stages →
  (∀ h, h ∈ hs → h ∈ PhysicalNode.id <$> σ) →
  Spec.chain_of (stage_lists σ ∅ stages) (chain_labels hs).
Proof using Hroom.
  intros Hlen Hin. apply Forall2_same_length_lookup_2.
  - unfold chain_labels. by rewrite length_imap, stage_lists_length.
  - intros i v pool (h & Hh & ->)%chain_labels_lookup. rewrite stage_lists_lookup.
    destruct (stages !! i) as [d|] eqn:Hd; [|done]. simpl. intros [= <-].
    assert (Hh' : h ∈ PhysicalNode.id <$> σ)
      by (apply Hin; by eapply list_elem_of_lookup_2).
    apply list_elem_of_fmap in Hh' as (n & -> & Hn).
    apply elem_of_stage_candidates. exists n. split_and!; try done.
    rewrite Forall_forall in Hroom. specialize (Hroom n Hn).
    rewrite Forall_forall in Hroom. apply Hroom. by eapply list_elem_of_lookup_2.
Qed.

Lemma labels_host hs (i : nat) h :
  Spec.chain_of (stage_lists σ ∅ stages) (chain_labels hs) →
  hs !! i = Some h → Spec.host MSG (vname h i) = Some h.
Proof using Hok Hk.
  intros Hc Hh.
  assert (Hv : chain_labels hs !! i = Some (vname h i))
    by (apply chain_labels_lookup; eauto).
  destruct (chain_vertex _ _ _ _ _ _ _ Hok Hk Hc Hv)
    as (d & n & _ & _ & _ & _ & [E _]%vname_inj & Hnode).
  rewrite (host_Some _ _ _ Hnode). simpl. by rewrite E.
Qed.

Lemma labels_hosts hs :
  Spec.chain_of (stage_lists σ ∅ stages) (chain_labels hs) →
  Spec.host MSG <$> chain_labels hs = Some <$> hs.
Proof using Hok Hk.
  intros Hc. apply list_eq. intros i. rewrite !list_lookup_fmap.
  unfold chain_labels at 1. rewrite list_lookup_imap.
  destruct (hs !! i) as [h|] eqn:Hh; [|done]. simpl. f_equal.
  by apply (labels_host hs).
Qed.

Lemma labels_distinct hs :
  Spec.chain_of (stage_lists σ ∅ stages) (chain_labels hs) →
  Spec.distinct MSG (chain_labels hs) ↔ NoDup hs.
Proof using Hok Hk.
  intros Hc. unfold Spec.distinct. rewrite (labels_hosts hs Hc).
  apply (NoDup_fmap Some).
Qed.

(** The MSG edge between the labels of two consecutive positions. *)
Lemma labels_edge hs (i : nat) u v e :
  Spec.chain_of (stage_lists σ ∅ stages) (chain_labels hs) →
  hs !! i = Some u → hs !! S i = Some v →
  DiGraph.adj MSG !! (vname u i, vname v (S i)) = Some e
  ↔ u ≠ v ∧ Substrate.has_path G u v = true ∧ e = Spec.edge_label G u v.
Proof using Hok Hk Hadj.
  intros Hc Hu Hv.
  pose proof (labels_host hs i u Hc Hu) as Hhu.
  pose proof (labels_host hs (S i) v Hc Hv) as Hhv.
  rewrite (construct_msg_edges G MSG _ _ _ e Hk Hadj). split.
  - intros (s & us & vs & pu & pv & _ & _ & _ & _ & Hpu & Hpv & Hne & Hp & ->).
    rewrite Hhu in Hpu. rewrite Hhv in Hpv. injection Hpu as <-. injection Hpv as <-.
    done.
  - intros (Hne & Hp & ->).
    assert (Hlu : chain_labels hs !! i = Some (vname u i))
      by (apply chain_labels_lookup; eauto).
    assert (Hlv : chain_labels hs !! S i = Some (vname v (S i)))
      by (apply chain_labels_lookup; eauto).
    destruct (Forall2_lookup_l _ _ _ _ _ Hc Hlu) as (us & Hus & Hinu).
    destruct (Forall2_lookup_l _ _ _ _ _ Hc Hlv) as (vs & Hvs & Hinv).
    exists i, us, vs, u, v. done.
Qed.

Lemma labels_connected hs :
  Spec.chain_of (stage_lists σ ∅ stages) (chain_labels hs) → NoDup hs →
  Spec.connected MSG (chain_labels hs) ↔ Spec.route_ok G hs.
Proof using Hok Hk Hadj.
  intros Hc Hnd. split.
  - intros Hcon i u v Hu Hv.
    destruct (Hcon i (vname u i) (vname v (S i))) as [e He];
      [apply chain_labels_lookup; eauto..|].
    by apply (labels_edge hs i u v e Hc Hu Hv) in He as (_ & ? & _).
  - intros Hr i a b (u & Hu & ->)%chain_labels_lookup (v & Hv & ->)%chain_labels_lookup.
    exists (Spec.edge_label G u v). apply (labels_edge hs i u v _ Hc Hu Hv).
    split_and!; [|by apply (Hr i)|done].
    intros ->. pose proof (NoDup_lookup _ _ _ _ Hnd Hu Hv). lia.
Qed.

Lemma labels_sums hs :
  Spec.chain_of (stage_lists σ ∅ stages) (chain_labels hs) →
  Spec.connected MSG (chain_labels hs) →
  Spec.inter_delay MSG (chain_labels hs) = Spec.route_delay G hs
  ∧ Spec.inter_cost MSG (chain_labels hs) = Spec.route_cost G hs.
Proof using Hok Hk Hadj.
  intros Hc Hcon.
  assert (He : ∀ (i : nat) a a' u v,
            chain_labels hs !! i = Some a → chain_labels hs !! S i = Some a' →
            hs !! i = Some u → hs !! S i = Some v →
            DiGraph.adj MSG !! (a, a') = Some (Spec.edge_label G u v)).
  { intros i a a' u v Ha Ha' Hu Hv. destruct (Hcon i a a' Ha Ha') as [e He].
    apply chain_labels_lookup in Ha as (u' & Hu' & ->).
    apply chain_labels_lookup in Ha' as (v' & Hv' & ->).
    assert (u' = u) as -> by congruence. assert (v' = v) as -> by congruence.
    rewrite He. f_equal.
    by apply (labels_edge hs i u v e Hc Hu Hv) in He as (_ & _ & ->). }
  unfold Spec.inter_delay, Spec.inter_cost, Spec.route_delay, Spec.route_cost.
  split; apply along_lookup_ext;
    try (unfold chain_labels; by rewrite length_imap);
    intros i a a' u v Ha Ha' Hu Hv;
    unfold Spec.edge_delay, Spec.edge_cost;
    by rewrite (He i a a' u v Ha Ha' Hu Hv).
Qed.

(** Every chain over the stage lists is the chain of its hosts. *)
Lemma chain_is_labels q :
  Spec.chain_of (stage_lists σ ∅ stages) q →
  ∃ hs, q = chain_labels hs ∧ length hs = length stages
        ∧ ∀ h, h ∈ hs → h ∈ PhysicalNode.id <$> σ.
Proof using Hok Hk.
  intros Hc. exists ((λ v, default 0 (Spec.host MSG v)) <$> q). split_and!.
  - apply list_eq. intros i. unfold chain_labels.
    rewrite list_lookup_imap, list_lookup_fmap.
    destruct (q !! i) as [v|] eqn:Hv; [|done]. simpl. f_equal.
    destruct (chain_vertex _ _ _ _ _ _ _ Hok Hk Hc Hv)
      as (d & n & _ & _ & _ & _ & -> & Hnode).
    by rewrite (host_Some _ _ _ Hnode).
  - rewrite length_fmap. by eapply chain_length.
  - intros h (v & -> & [i Hv]%list_elem_of_lookup_1)%list_elem_of_fmap.
    destruct (chain_vertex _ _ _ _ _ _ _ Hok Hk Hc Hv)
      as (d & n & _ & Hn & _ & _ & _ & Hnode).
    rewrite (host_Some _ _ _ Hnode). simpl. by apply list_elem_of_fmap_2.
Qed.

(** The survivors of the brute-force script's search are the routes
    [run_brute_force] keeps, with the same totals. *)
Lemma feasible_inter_route sfc hs d c :
  length hs = length stages →
  (∀ h, h ∈ hs → h ∈ PhysicalNode.id <$> σ) →
  Spec.feasible_inter sfc MSG (chain_labels hs) d c
  ↔ NoDup hs ∧ Spec.route_ok G hs
    ∧ d = Spec.route_delay G hs ∧ c = Spec.route_cost G hs
    ∧ d ≤ SFCRequest.max_delay sfc.
Proof using All.
  intros Hlen Hin. pose proof (labels_chain hs Hlen Hin) as Hc.
  unfold Spec.feasible_inter. rewrite (labels_distinct hs Hc). split.
  - intros (Hnd & Hcon & Hd & Hcst & Hle).
    destruct (labels_sums hs Hc Hcon) as [Ed Ec].
    rewrite Ed in Hd. rewrite Ec in Hcst.
    split_and!; try done. by apply (labels_connected hs Hc Hnd).
  - intros (Hnd & Hr & Hd & Hcst & Hle).
    apply (labels_connected hs Hc Hnd) in Hr.
    destruct (labels_sums hs Hc Hr) as [Ed Ec].
    rewrite <- Ed in Hd. rewrite <- Ec in Hcst. done.
Qed.
End oracle.

(** X21.  The search of the brute-force script agrees with its exhaustive
    enumerator [run_brute_force]: when the hosts of the ledger are the
    nodes of the graph and every host has room for every stage of the
    request, both find nothing or both find a placement, and then of the
    same cost. *)
Theorem search_agrees_with_brute_force G sfc σ (MSG : DiGraph.t) stage_nodes σ' :
  NoDup (Substrate.nodes G) →
  list_to_set (PhysicalNode.id <$> σ) =@{gset Z} list_to_set (Substrate.nodes G) →
  Forall (λ n, Forall (λ d, d ≤ PhysicalNode.cpu n - PhysicalNode.used_cpu n)
                      (SFCRequest.stages sfc)) σ →
  construct_msg G sfc ∅ σ = Ok ((MSG, stage_nodes), σ') →
  ∃ r, BruteForce.find_feasible_path MSG stage_nodes sfc G = Ok r
     ∧ (λ x : candidate, x.2) <$> r
       = (λ x : list Z * Z * Z, x.2) <$> BruteForce.run_brute_force G sfc.
Proof.
  intros Hnd Hids Hroom (_ & -> & Hok & Hk & Hadj)%construct_msg_inv.
  assert (Hin : ∀ h, h ∈ PhysicalNode.id <$> σ ↔ h ∈ Substrate.nodes G).
  { intros h. rewrite <- (elem_of_list_to_set (C:=gset Z) h (PhysicalNode.id <$> σ)).
    rewrite Hids. apply elem_of_list_to_set. }
  destruct (BruteForce_find_feasible_path_spec MSG _ sfc G Hk) as (r & Hr & Hs).
  exists r. split; [done|].
  pose proof (run_brute_force_unfold G sfc) as Hb.
  pose proof (min_by_omap_spec (judge_perm G (SFCRequest.max_delay sfc)) (λ x, x.2)
                (BruteForce.permutations (length (SFCRequest.stages sfc))
                                         (Substrate.nodes G))) as Hm.
  rewrite <- Hb in Hm. clear Hb.
  (* a route kept by the enumerator is a survivor of the search *)
  assert (Hto : ∀ perm, perm ∈ BruteForce.permutations (length (SFCRequest.stages sfc))
                                 (Substrate.nodes G) →
                 ∀ y, judge_perm G (SFCRequest.max_delay sfc) perm = Some y →
                 Spec.chain_of (stage_lists σ ∅ (SFCRequest.stages sfc)) (chain_labels perm)
                 ∧ Spec.feasible_inter sfc MSG (chain_labels perm) y.1.2 y.2).
  { intros perm (Hlen & Hnp & Hsub)%elem_of_permutations y
      (-> & Hrt & Hle)%judge_perm_spec; [|done].
    assert (Hsub' : ∀ h, h ∈ perm → h ∈ PhysicalNode.id <$> σ)
      by (intros h ?; apply Hin; auto).
    split; [by apply labels_chain|].
    by apply (feasible_inter_route G σ _ MSG Hok Hk Hadj Hroom sfc perm). }
  (* a survivor of the search is a route kept by the enumerator *)
  assert (Hfrom : ∀ q d c, Spec.chain_of (stage_lists σ ∅ (SFCRequest.stages sfc)) q →
                   Spec.feasible_inter sfc MSG q d c →
                   ∃ perm, perm ∈ BruteForce.permutations
                                    (length (SFCRequest.stages sfc)) (Substrate.nodes G)
                           ∧ judge_perm G (SFCRequest.max_delay sfc) perm
                             = Some (perm, d, c)).
  { intros q d c Hc Hf.
    destruct (chain_is_labels σ _ MSG Hok Hk q Hc) as (hs & -> & Hlen & Hsub).
    apply (feasible_inter_route G σ _ MSG Hok Hk Hadj Hroom sfc hs d c Hlen Hsub) in Hf
      as (Hnp & Hrt & -> & -> & Hle).
    exists hs. split.
    - apply elem_of_permutations; [done|]. split_and!; try done.
      intros h ?. apply Hin. auto.
    - by apply judge_perm_spec. }
  destruct r as [[[p d] c]|], (BruteForce.run_brute_force G sfc) as [[[perm d2] c2]|];
    simpl.
  - f_equal. destruct Hs as (Hc & Hf & Hmin & _).
    destruct Hm as (i & x & Hi & Hx & Hm).
    destruct (Hfrom p d c Hc Hf) as (hs & [j Hj]%list_elem_of_lookup_1 & Hy).
    destruct (Hm j hs _ Hj Hy) as [Hle _]. simpl in Hle.
    apply list_elem_of_lookup_2 in Hi.
    destruct (Hto _ Hi _ Hx) as [Hc2 Hf2]. simpl in Hf2.
    specialize (Hmin _ _ _ Hc2 Hf2). lia.
  - exfalso. destruct Hs as (Hc & Hf & _).
    destruct (Hfrom p d c Hc Hf) as (hs & Hin' & Hy).
    specialize (Hm hs Hin'). congruence.
  - exfalso. destruct Hm as (i & x & Hi%list_elem_of_lookup_2 & Hx & _).
    destruct (Hto _ Hi _ Hx) as [Hc2 Hf2]. simpl in Hs. by eapply Hs.
  - done.
Qed.

Lemma search_agrees_with_brute_force_witness :
  NoDup (Substrate.nodes Demo.line5)
  ∧ list_to_set (PhysicalNode.id <$> Demo.σ5)
    =@{gset Z} list_to_set (Substrate.nodes Demo.line5)
  ∧ Forall (λ n, Forall (λ d, d ≤ PhysicalNode.cpu n - PhysicalNode.used_cpu n)
                        (SFCRequest.stages Demo.sfcA)) Demo.σ5
  ∧ construct_msg Demo.line5 Demo.sfcA ∅ Demo.σ5
    = Ok (Demo.built Demo.line5 Demo.sfcA ∅ Demo.σ5, Demo.σ5)
  ∧ ∃ r, BruteForce.find_feasible_path (Demo.built Demo.line5 Demo.sfcA ∅ Demo.σ5).1
           (Demo.built Demo.line5 Demo.sfcA ∅ Demo.σ5).2 Demo.sfcA Demo.line5 = Ok r
       ∧ (λ x : candidate, x.2) <$> r
         = (λ x : list Z * Z * Z, x.2)
           <$> BruteForce.run_brute_force Demo.line5 Demo.sfcA.
Proof.
  assert (H1 : NoDup (Substrate.nodes Demo.line5))
    by (refine (bool_decide_unpack _ _); vm_compute; exact I).
  assert (H2 : list_to_set (PhysicalNode.id <$> Demo.σ5)
               =@{gset Z} list_to_set (Substrate.nodes Demo.line5))
    by (refine (bool_decide_unpack _ _); vm_compute; exact I).
  assert (H3 : Forall (λ n, Forall (λ d, d ≤ PhysicalNode.cpu n - PhysicalNode.used_cpu n)
                                   (SFCRequest.stages Demo.sfcA)) Demo.σ5)
    by (refine (bool_decide_unpack _ _); vm_compute; exact I).
  assert (H4 : construct_msg Demo.line5 Demo.sfcA ∅ Demo.σ5
               = Ok (((Demo.built Demo.line5 Demo.sfcA ∅ Demo.σ5).1,
                      (Demo.built Demo.line5 Demo.sfcA ∅ Demo.σ5).2), Demo.σ5))
    by (vm_compute; reflexivity).
  split; [exact H1|]. split; [exact H2|]. split; [exact H3|].
  split; [vm_compute; reflexivity|].
  exact (search_agrees_with_brute_force Demo.line5 Demo.sfcA Demo.σ5 _ _ Demo.σ5
           H1 H2 H3 H4).
Defined.


(** ** [run_monitoring_placement] *)

(** The body of the outer loop, by the kind of the backup chain. *)
Lemma monitor_placement_step st row :
  MSGpy.monitor_placement st row
  = if bool_decide (MSGpy.Backup_Path row = []) then Raise TypeError
    else MSGpy.physical_path (MSGpy.Active_Path row ++ MSGpy.Backup_Path row)
         ≫= λ hs, Ok (foldl (MSGpy.monitor_host (MSGpy.SFC_ID row)) st hs).
Proof. unfold MSGpy.monitor_placement, MSGpy.all_paths. by case_bool_decide. Qed.

(** The inner loop over the hosts of one placement. *)
Lemma monitor_hosts_spec sid pp vmfs c (nodes : gset Z) :
  ∃ new,
    foldl (MSGpy.monitor_host sid) (vmfs, c, nodes) pp
    = (vmfs ++ new, c + Z.of_nat (length new),
       list_to_set (MSGpy.Host_Node <$> new) ∪ nodes)
    ∧ NoDup (MSGpy.Host_Node <$> new)
    ∧ (∀ v, v ∈ new → MSGpy.Monitors_SFC v = sid ∧ MSGpy.Host_Node v ∈ pp
                      ∧ MSGpy.Host_Node v ∉ nodes)
    ∧ (∀ h, h ∈ pp → h ∈ nodes ∨ h ∈ MSGpy.Host_Node <$> new)
    ∧ (∀ (i : nat) v, new !! i = Some v → MSGpy.VMF_ID v = c + Z.of_nat i).
Proof.
  revert vmfs c nodes. induction pp as [|h pp IH]; intros vmfs c nodes.
  - exists []. simpl. rewrite app_nil_r, Z.add_0_r.
    replace (∅ ∪ nodes) with nodes by set_solver.
    split_and!; [done | constructor | | |]; try done.
    + by intros ? ?%not_elem_of_nil.
    + by intros ? ?%not_elem_of_nil.
  - cbn [foldl]. unfold MSGpy.monitor_host at 2. case_bool_decide as Hh.
    + destruct (IH (vmfs ++ [{| MSGpy.VMF_ID := c; MSGpy.Host_Node := h;
                                MSGpy.Monitors_SFC := sid |}])
                   (c + 1) ({[h]} ∪ nodes)) as (new & -> & Hnd & Hnew & Hcov & Hid).
      exists ({| MSGpy.VMF_ID := c; MSGpy.Host_Node := h; MSGpy.Monitors_SFC := sid |}
              :: new).
      split_and!.
      * rewrite <- app_assoc. simpl. f_equal; [f_equal; lia | set_solver].
      * simpl. constructor; [|done].
        intros (v & Hv & Hin)%list_elem_of_fmap. destruct (Hnew v Hin) as (_ & _ & Hn).
        set_solver.
      * intros v [->|Hin]%elem_of_cons.
        -- simpl. split_and!; [done | by left | done].
        -- destruct (Hnew v Hin) as (? & ? & ?). split_and!; [done | by right | set_solver].
      * intros h' [->|Hin]%elem_of_cons.
        -- right. simpl. by left.
        -- destruct (Hcov h' Hin) as [Hc|Hc].
           ++ apply elem_of_union in Hc as [->%elem_of_singleton|?]; [|by left].
              right. simpl. by left.
           ++ right. simpl. by right.
      * intros [|i] v; simpl.
        -- intros [= <-]. simpl. lia.
        -- intros Hv. rewrite (Hid i v Hv). lia.
    + destruct (IH vmfs c nodes) as (new & -> & Hnd & Hnew & Hcov & Hid).
      exists new. split_and!; try done.
      * intros v Hin. destruct (Hnew v Hin) as (? & ? & ?).
        split_and!; [done | by right | done].
      * intros h' [E|Hin]%elem_of_cons; [|by apply Hcov]. subst h'.
        destruct (decide (h ∈ nodes)); [by left | done].
Qed.

Lemma monitoring_loop (placements : list MSGpy.Placement) (hs : list (list Z)) :
  Forall2 (λ row h, MSGpy.Backup_Path row ≠ []
                    ∧ MSGpy.physical_path (MSGpy.Active_Path row ++ MSGpy.Backup_Path row)
                      = Ok h) placements hs →
  ∃ vmfs,
    for_each MSGpy.monitor_placement ([], 0, ∅) placements
    = Ok (vmfs, Z.of_nat (length vmfs), list_to_set (MSGpy.Host_Node <$> vmfs))
    ∧ NoDup (MSGpy.Host_Node <$> vmfs)
    ∧ (∀ h, h ∈ MSGpy.Host_Node <$> vmfs ↔ h ∈ mjoin hs)
    ∧ (∀ (i : nat) v, vmfs !! i = Some v → MSGpy.VMF_ID v = Z.of_nat i)
    ∧ (∀ v, v ∈ vmfs →
         ∃ (k : nat) row hk,
           placements !! k = Some row ∧ hs !! k = Some hk
           ∧ MSGpy.Host_Node v ∈ hk
           ∧ MSGpy.Monitors_SFC v = MSGpy.SFC_ID row
           ∧ ∀ (j : nat) hj, (j < k)%nat → hs !! j = Some hj → MSGpy.Host_Node v ∉ hj).
Proof.
  revert hs. induction placements as [|row placements IH] using rev_ind; intros hs H.
  - apply Forall2_nil_inv_l in H as ->. exists []. simpl.
    split_and!; [done | constructor | done | done |].
    by intros ? ?%not_elem_of_nil.
  - apply Forall2_app_inv_l in H as (hs1 & hs2 & H1 & H2 & ->).
    apply Forall2_cons_inv_l in H2 as (h & hs3 & [Hb Hh] & ->%Forall2_nil_inv_l & ->).
    destruct (IH hs1 H1) as (vmfs & Hloop & Hnd & Hcov & Hid & Hattr).
    pose proof (Forall2_length _ _ _ H1) as Hlen.
    rewrite for_each_app, Hloop. cbn [mbind result_bind for_each].
    rewrite monitor_placement_step, bool_decide_eq_false_2 by done.
    rewrite Hh. cbn [mbind result_bind].
    destruct (monitor_hosts_spec (MSGpy.SFC_ID row) h vmfs (Z.of_nat (length vmfs))
                (list_to_set (MSGpy.Host_Node <$> vmfs)))
      as (new & -> & Hnd' & Hnew & Hcov' & Hid').
    exists (vmfs ++ new). split_and!.
    + do 2 f_equal; [f_equal; rewrite length_app; lia|].
      rewrite fmap_app, list_to_set_app_L. set_solver.
    + rewrite fmap_app. apply NoDup_app. split_and!; [done | | done].
      intros x Hx (v & -> & Hin)%list_elem_of_fmap.
      destruct (Hnew v Hin) as (_ & _ & Hn). apply Hn. by apply elem_of_list_to_set.
    + intros x. rewrite fmap_app, join_app, !elem_of_app. simpl.
      rewrite app_nil_r, Hcov. split.
      * intros [?|(v & -> & Hin)%list_elem_of_fmap]; [by left|].
        right. by destruct (Hnew v Hin) as (_ & ? & _).
      * intros [?|Hx]; [by left|]. destruct (Hcov' x Hx) as [Hc|?]; [|by right].
        left. apply Hcov. by apply elem_of_list_to_set in Hc.
    + intros i v Hv. apply lookup_app_Some in Hv as [Hv|[Hge Hv]]; [by apply Hid|].
      rewrite (Hid' _ _ Hv). lia.
    + intros v [Hin|Hin]%elem_of_app.
      * destruct (Hattr v Hin) as (k & row' & hk & Hk & Hhk & ? & ? & Hfirst).
        exists k, row', hk. split_and!; try done.
        -- by apply lookup_app_l_Some.
        -- by apply lookup_app_l_Some.
        -- intros j hj Hj Hhj. apply (Hfirst j hj Hj).
           apply lookup_lt_Some in Hhk.
           by rewrite lookup_app_l in Hhj by lia.
      * destruct (Hnew v Hin) as (Hs & Hp & Hn).
        exists (length placements), row, h. split_and!; try done.
        -- by apply list_lookup_middle.
        -- apply list_lookup_middle. done.
        -- intros j hj Hj Hhj Hx. rewrite lookup_app_l in Hhj by lia.
           apply Hn, elem_of_list_to_set, Hcov, list_elem_of_join.
           exists hj. split; [done | by eapply list_elem_of_lookup_2].
Qed.

(** X22.  [run_monitoring_placement], given rows that all have a backup
    chain and whose labels all parse: it places one VMF on every host that
    a chain of some row uses and on no other host, never two on the same
    host; the VMF ids count up from 0 in the order of placement; and the
    VMF of a host monitors the first row, in row order, that uses the
    host. *)
Theorem monitoring_one_per_host (placements : list MSGpy.Placement) Gp physical_nodes
    (hs : list (list Z)) :
  Forall2 (λ row h, MSGpy.Backup_Path row ≠ []
                    ∧ MSGpy.physical_path (MSGpy.Active_Path row ++ MSGpy.Backup_Path row)
                      = Ok h) placements hs →
  ∃ vmfs,
    MSGpy.run_monitoring_placement placements Gp physical_nodes = Ok vmfs
    ∧ NoDup (MSGpy.Host_Node <$> vmfs)
    ∧ (∀ h, h ∈ MSGpy.Host_Node <$> vmfs ↔ h ∈ mjoin hs)
    ∧ (∀ (i : nat) v, vmfs !! i = Some v → MSGpy.VMF_ID v = Z.of_nat i)
    ∧ (∀ v, v ∈ vmfs →
         ∃ (k : nat) row hk,
           placements !! k = Some row ∧ hs !! k = Some hk
           ∧ MSGpy.Host_Node v ∈ hk
           ∧ MSGpy.Monitors_SFC v = MSGpy.SFC_ID row
           ∧ ∀ (j : nat) hj, (j < k)%nat → hs !! j = Some hj → MSGpy.Host_Node v ∉ hj).
Proof.
  intros (vmfs & Hloop & H)%monitoring_loop. exists vmfs. split; [|done].
  unfold MSGpy.run_monitoring_placement. by rewrite Hloop.
Qed.

Lemma monitoring_one_per_host_witness :
  Forall2 (λ row h, MSGpy.Backup_Path row ≠ []
                    ∧ MSGpy.physical_path (MSGpy.Active_Path row ++ MSGpy.Backup_Path row)
                      = Ok h) Demo.rows01 [[0; 1; 2; 5; 4; 3]; [1; 2; 3; 0; 5; 4]]
  ∧ MSGpy.run_monitoring_placement Demo.rows01 Demo.G Demo.σ2
    = Ok [ {| MSGpy.VMF_ID := 0; MSGpy.Host_Node := 0; MSGpy.Monitors_SFC := 0 |};
           {| MSGpy.VMF_ID := 1; MSGpy.Host_Node := 1; MSGpy.Monitors_SFC := 0 |};
           {| MSGpy.VMF_ID := 2; MSGpy.Host_Node := 2; MSGpy.Monitors_SFC := 0 |};
           {| MSGpy.VMF_ID := 3; MSGpy.Host_Node := 5; MSGpy.Monitors_SFC := 0 |};
           {| MSGpy.VMF_ID := 4; MSGpy.Host_Node := 4; MSGpy.Monitors_SFC := 0 |};
           {| MSGpy.VMF_ID := 5; MSGpy.Host_Node := 3; MSGpy.Monitors_SFC := 0 |} ]
  ∧ ∃ vmfs,
      MSGpy.run_monitoring_placement Demo.rows01 Demo.G Demo.σ2 = Ok vmfs
      ∧ NoDup (MSGpy.Host_Node <$> vmfs)
      ∧ (∀ h, h ∈ MSGpy.Host_Node <$> vmfs
              ↔ h ∈ mjoin [[0; 1; 2; 5; 4; 3]; [1; 2; 3; 0; 5; 4]])
      ∧ (∀ (i : nat) v, vmfs !! i = Some v → MSGpy.VMF_ID v = Z.of_nat i)
      ∧ (∀ v, v ∈ vmfs →
           ∃ (k : nat) row hk,
             Demo.rows01 !! k = Some row
             ∧ [[0; 1; 2; 5; 4; 3]; [1; 2; 3; 0; 5; 4]] !! k = Some hk
             ∧ MSGpy.Host_Node v ∈ hk
             ∧ MSGpy.Monitors_SFC v = MSGpy.SFC_ID row
             ∧ ∀ (j : nat) hj, (j < k)%nat →
                 [[0; 1; 2; 5; 4; 3]; [1; 2; 3; 0; 5; 4]] !! j = Some hj →
                 MSGpy.Host_Node v ∉ hj).
Proof.
  assert (H : Forall2 (λ row h, MSGpy.Backup_Path row ≠ []
                                ∧ MSGpy.physical_path
                                    (MSGpy.Active_Path row ++ MSGpy.Backup_Path row)
                                  = Ok h)
                Demo.rows01 [[0; 1; 2; 5; 4; 3]; [1; 2; 3; 0; 5; 4]]).
  { constructor; [split; [discriminate | vm_compute; reflexivity]|].
    constructor; [split; [discriminate | vm_compute; reflexivity]|].
    constructor. }
  split; [exact H|]. split; [vm_compute; reflexivity|].
  exact (monitoring_one_per_host Demo.rows01 Demo.G Demo.σ2 _ H).
Defined.

(** ** [run_simulation] to its end *)

(** The rows of the two fixed requests are what the placement loop
    records for them. *)
Lemma rows01_placed :
  MSGpy.place_all Demo.G [sfc0; sfc1] Demo.σ0 = Ok (Demo.rows01, Demo.σ2).
Proof. vm_compute. reflexivity. Qed.

(** The labels of a chain of [vname] labels parse to its hosts. *)
Lemma physical_path_loop path acc :
  Forall (λ v, ∃ h (s : nat), v = vname h s) path →
  ∃ hs, for_each (λ hs p, h ← label_host p; Ok (hs ++ [h])) acc path = Ok (acc ++ hs).
Proof.
  intros H. revert acc. induction H as [|v path (h & s & ->) _ IH]; intros acc.
  - exists []. by rewrite app_nil_r.
  - cbn [for_each]. rewrite label_host_vname. cbn [mbind result_bind].
    destruct (IH (acc ++ [h])) as (hs & ->). exists (h :: hs).
    by rewrite <- app_assoc.
Qed.

Lemma physical_path_parses path :
  Forall (λ v, ∃ h (s : nat), v = vname h s) path →
  ∃ hs, MSGpy.physical_path path = Ok hs.
Proof.
  intros H. destruct (physical_path_loop path [] H) as (hs & E). by exists hs.
Qed.

(** The labels of a row are [vname] labels. *)
Lemma found_chain_vnames Gp sfc used σ (MSG : DiGraph.t) sn path d c :
  construct_msg Gp sfc used σ = Ok ((MSG, sn), σ) →
  MSGpy.find_feasible_path MSG sn sfc Gp = Ok (Some (path, d, c)) →
  Forall (λ v, ∃ h (s : nat), v = vname h s) path.
Proof.
  intros Hc Hf. apply Forall_lookup. intros s v Hv.
  destruct (found_chain_shape _ _ _ _ _ _ _ _ _ Hc Hf) as (_ & _ & H).
  destruct (H s v Hv) as (h & _ & ->). by exists h, s.
Qed.

Lemma place_row_parses Gp sfc σ row σ' :
  MSGpy.place Gp sfc σ = Ok (Some row, σ') →
  ∃ hs, MSGpy.physical_path (MSGpy.Active_Path row ++ MSGpy.Backup_Path row) = Ok hs.
Proof.
  intros (act & σ1 & MSG_a & sn_a & used & MSG_b & sn_b & Hca & Hfa & _ & _ & Hcb & Hb)
    %place_row_inv.
  apply physical_path_parses, Forall_app.
  pose proof (found_chain_vnames _ _ _ _ _ _ _ _ _ Hca Hfa) as Ha.
  destruct Hb as [(_ & _ & ->) | (p & d & c & extra & bdc & Hfb & _ & ->)]; simpl.
  - split; [done | constructor].
  - split; [done|]. by eapply found_chain_vnames.
Qed.

Lemma place_loop_parses Gp sfc_requests rows σ rows' σ' :
  for_each_St (MSGpy.place_step Gp) rows sfc_requests σ = Ok (rows', σ') →
  ∃ new, rows' = rows ++ new
    ∧ Forall (λ row, ∃ hs, MSGpy.physical_path
                             (MSGpy.Active_Path row ++ MSGpy.Backup_Path row) = Ok hs) new.
Proof.
  revert rows σ. induction sfc_requests as [|sfc rest IH]; intros rows σ.
  - intros [= <- <-]. exists []. by rewrite app_nil_r.
  - cbn [for_each_St]. unfold mbind at 1, St_bind. rewrite place_step_unfold.
    destruct (MSGpy.place Gp sfc σ) as [[[row|] σ1]|e] eqn:Hp; [| |done].
    + intros (new & -> & Hall)%IH. exists (row :: new).
      rewrite <- app_assoc. split; [done|]. constructor; [|done].
      by eapply place_row_parses.
    + intros (new & -> & Hall)%IH. by exists new.
Qed.

(** The monitoring pass over rows whose labels parse stops with the
    [TypeError] of the first row without a backup chain, and returns when
    there is none. *)
Lemma monitoring_outcome placements st :
  Forall (λ row, ∃ hs, MSGpy.physical_path
                         (MSGpy.Active_Path row ++ MSGpy.Backup_Path row) = Ok hs)
         placements →
  match for_each MSGpy.monitor_placement st placements with
  | Ok _ => Forall (λ row, MSGpy.Backup_Path row ≠ []) placements
  | Raise e => e = TypeError ∧ Exists (λ row, MSGpy.Backup_Path row = []) placements
  end.
Proof.
  intros H. revert st. induction H as [|row placements [hs Hhs] _ IH]; intros st.
  - simpl. constructor.
  - cbn [for_each]. rewrite monitor_placement_step.
    case_bool_decide as Hb; cbn [mbind result_bind].
    + split; [done | by left].
    + rewrite Hhs. cbn [mbind result_bind].
      specialize (IH (foldl (MSGpy.monitor_host (MSGpy.SFC_ID row)) st hs)).
      destruct (for_each MSGpy.monitor_placement _ placements) as [st'|e].
      * by constructor.
      * destruct IH as [-> ?]. split; [done | by right].
Qed.

(** X23.  [run_simulation] returns its data frame only when every
    accepted request got a backup chain.  With [rows] and [σ] what the
    placement loop leaves, the call returns them when every row has a
    backup chain; when some row has none, it ends, after the whole batch
    is placed and the ledger written, with the [TypeError] of the
    monitoring pass, which adds the list [[]] to the tuple of the active
    chain, and nothing is returned. *)
Theorem run_simulation_outcome Gp sfc_requests rows σ :
  MSGpy.place_all Gp sfc_requests
    (MSGpy.initial_nodes MSGpy.NUM_PHYSICAL_NODES MSGpy.MAX_CPU_PER_NODE) = Ok (rows, σ) →
  MSGpy.run_simulation Gp sfc_requests
  = if bool_decide (Forall (λ row, MSGpy.Backup_Path row ≠ []) rows)
    then Ok (rows, σ) else Raise TypeError.
Proof.
  intros Hp. unfold MSGpy.run_simulation. rewrite Hp.
  unfold MSGpy.place_all in Hp.
  apply place_loop_parses in Hp as (new & -> & Hall). rewrite app_nil_l.
  unfold MSGpy.run_monitoring_placement.
  pose proof (monitoring_outcome new ([], 0, ∅) Hall) as H.
  destruct (for_each MSGpy.monitor_placement _ new) as [st|e];
    cbn [mbind result_bind].
  - by rewrite bool_decide_eq_true_2.
  - destruct H as [-> Hex]. rewrite bool_decide_eq_false_2; [done|].
    intros Hf. apply Exists_exists in Hex as (row & Hin & Hb).
    rewrite Forall_forall in Hf. by apply (Hf row Hin).
Qed.

Lemma run_simulation_outcome_witness :
  MSGpy.place_all Demo.G [sfc0; sfc1]
    (MSGpy.initial_nodes MSGpy.NUM_PHYSICAL_NODES MSGpy.MAX_CPU_PER_NODE)
  = Ok (Demo.rows01, Demo.σ2)
  ∧ MSGpy.run_simulation Demo.G [sfc0; sfc1] = Ok (Demo.rows01, Demo.σ2)
  ∧ MSGpy.run_simulation Demo.G [Demo.sfcD] = Raise TypeError.
Proof.
  assert (H : MSGpy.place_all Demo.G [sfc0; sfc1]
                (MSGpy.initial_nodes MSGpy.NUM_PHYSICAL_NODES MSGpy.MAX_CPU_PER_NODE)
              = Ok (Demo.rows01, Demo.σ2)) by (vm_compute; reflexivity).
  split; [exact H|]. split.
  - rewrite (run_simulation_outcome Demo.G [sfc0; sfc1] Demo.rows01 Demo.σ2 H).
    rewrite bool_decide_eq_true_2; [reflexivity|].
    repeat constructor; discriminate.
  - vm_compute. reflexivity.
Defined.


(** ** [generate_sfc_requests] *)

Lemma node_at_lookup (σ : ledger) (i : nat) n :
  σ !! i = Some n → MSGpy.node_at σ (Z.of_nat i) = Ok n.
Proof.
  intros H. unfold MSGpy.node_at, lookup_node, py_index.
  pose proof (lookup_lt_Some _ _ _ H) as Hlt.
  replace ((0 <=? Z.of_nat i) && (Z.of_nat i <? Z.of_nat (length σ))) with true.
  - by rewrite Nat2Z.id, H.
  - symmetry. apply andb_true_iff. split; [apply Z.leb_le | apply Z.ltb_lt]; lia.
Qed.

Lemma node_at_short (σ : ledger) (i : nat) :
  (length σ ≤ i)%nat → MSGpy.node_at σ (Z.of_nat i) = Raise IndexError.
Proof.
  intros H. unfold MSGpy.node_at, lookup_node, py_index.
  destruct ((0 <=? Z.of_nat i) && (Z.of_nat i <? Z.of_nat (length σ))) eqn:E1.
  { apply andb_true_iff in E1 as [_ ?%Z.ltb_lt]. lia. }
  destruct ((- Z.of_nat (length σ) <=? Z.of_nat i) && (Z.of_nat i <? 0)) eqn:E2; [|done].
  apply andb_true_iff in E2 as [_ ?%Z.ltb_lt]. lia.
Qed.

(** The two fixed requests name the hosts at positions 0, 1 and 3. *)
Lemma fixed_requests_spec (σ : ledger) :
  (4 ≤ length σ)%nat →
  ∃ n0 n1 n3,
    σ !! 0%nat = Some n0 ∧ σ !! 1%nat = Some n1 ∧ σ !! 3%nat = Some n3
    ∧ MSGpy.fixed_requests σ
      = Ok [ {| SFCRequest.id := 0; SFCRequest.src := PhysicalNode.id n0;
                SFCRequest.dest := PhysicalNode.id n3; SFCRequest.stages := [2; 2; 1];
                SFCRequest.bw := 20; SFCRequest.max_delay := 20 |};
             {| SFCRequest.id := 1; SFCRequest.src := PhysicalNode.id n1;
                SFCRequest.dest := PhysicalNode.id n3; SFCRequest.stages := [2; 2; 1];
                SFCRequest.bw := 30; SFCRequest.max_delay := 23 |} ].
Proof.
  intros Hlen.
  destruct (lookup_lt_is_Some_2 σ 0%nat) as [n0 H0]; [lia|].
  destruct (lookup_lt_is_Some_2 σ 1%nat) as [n1 H1]; [lia|].
  destruct (lookup_lt_is_Some_2 σ 3%nat) as [n3 H3]; [lia|].
  exists n0, n1, n3. split_and!; try done.
  unfold MSGpy.fixed_requests.
  pose proof (node_at_lookup σ 0%nat n0 H0) as E0.
  pose proof (node_at_lookup σ 1%nat n1 H1) as E1.
  pose proof (node_at_lookup σ 3%nat n3 H3) as E3.
  change (Z.of_nat 0) with 0 in E0. change (Z.of_nat 1) with 1 in E1.
  change (Z.of_nat 3) with 3 in E3.
  rewrite E0. cbn [mbind result_bind]. rewrite E3. cbn [mbind result_bind].
  rewrite E1. cbn [mbind result_bind]. done.
Qed.

Lemma fixed_requests_short (σ : ledger) :
  (length σ < 4)%nat → MSGpy.fixed_requests σ = Raise IndexError.
Proof.
  intros Hlen. unfold MSGpy.fixed_requests.
  pose proof (node_at_short σ 3%nat ltac:(lia)) as E3.
  change (Z.of_nat 3) with 3 in E3.
  destruct (σ !! 0%nat) as [n0|] eqn:H0.
  - pose proof (node_at_lookup σ 0%nat n0 H0) as E0.
    change (Z.of_nat 0) with 0 in E0.
    rewrite E0. cbn [mbind result_bind]. by rewrite E3.
  - apply lookup_ge_None in H0.
    pose proof (node_at_short σ 0%nat ltac:(lia)) as E0.
    change (Z.of_nat 0) with 0 in E0. by rewrite E0.
Qed.

Lemma extend_requests_O {R} (rng : MSGpy.Random R) num σ reqs g :
  MSGpy.extend_requests rng 0 num σ reqs g
  = if Z.of_nat (length reqs) <? num then None else Some (Ok (reqs, g)).
Proof. done. Qed.

Lemma extend_requests_S {R} (rng : MSGpy.Random R) fuel num σ reqs g :
  MSGpy.extend_requests rng (S fuel) num σ reqs g
  = if Z.of_nat (length reqs) <? num then
      match MSGpy.sample rng σ g with
      | Raise e => Some (Raise e)
      | Ok ((src, dst), g) =>
          let '(n, g) := MSGpy.randint rng 2 MSGpy.MAX_PE_STAGES g in
          let '(stages, g) := MSGpy.draw_stages rng (Z.to_nat n) g in
          let '(bw, g) := MSGpy.randint rng 10 30 g in
          let '(max_delay, g) := MSGpy.randint rng 20 40 g in
          MSGpy.extend_requests rng fuel num σ
            (reqs ++ [{| SFCRequest.id := Z.of_nat (length reqs);
                         SFCRequest.src := PhysicalNode.id src;
                         SFCRequest.dest := PhysicalNode.id dst;
                         SFCRequest.stages := stages;
                         SFCRequest.bw := bw;
                         SFCRequest.max_delay := max_delay |}]) g
      end
    else Some (Ok (reqs, g)).
Proof. done. Qed.

Lemma draw_stages_spec {R} (rng : MSGpy.Random R) (n : nat) g :
  Spec.random_ok rng →
  length (MSGpy.draw_stages rng n g).1 = n
  ∧ Forall (λ d, 1 ≤ d ≤ 3) (MSGpy.draw_stages rng n g).1.
Proof.
  intros [Hr _]. revert g. induction n as [|n IH]; intros g; [by split|].
  cbn [MSGpy.draw_stages].
  pose proof (Hr 1 3 g ltac:(lia)) as Hx.
  destruct (MSGpy.randint rng 1 3 g) as [x g1].
  specialize (IH g1). destruct (MSGpy.draw_stages rng n g1) as [xs g2].
  simpl in *. destruct IH as [-> IH]. split; [done | by constructor].
Qed.

(** [random.sample] over two hosts or more returns the hosts at two
    different positions. *)
Lemma sample_spec {R} (rng : MSGpy.Random R) (σ : ledger) g :
  Spec.random_ok rng → (2 ≤ length σ)%nat →
  ∃ (i j : nat) ni nj g',
    MSGpy.sample rng σ g = Ok ((ni, nj), g')
    ∧ i ≠ j ∧ σ !! i = Some ni ∧ σ !! j = Some nj.
Proof.
  intros [_ Hs] Hlen. unfold MSGpy.sample.
  replace (length σ <? 2)%nat with false by (symmetry; apply Nat.ltb_ge; lia).
  destruct (Hs (length σ) g Hlen) as (Hi & Hj & Hne).
  destruct (MSGpy.sample2 rng (length σ) g) as [[i j] g']. simpl in *.
  exists i, j, (σ !!! i), (σ !!! j), g'. split_and!; try done.
  - by apply list_lookup_lookup_total_lt.
  - by apply list_lookup_lookup_total_lt.
Qed.

(** The [while] loop, given fuel for the requests that are missing. *)
Lemma extend_requests_spec {R} (rng : MSGpy.Random R) fuel num (σ : ledger) reqs g :
  Spec.random_ok rng → (2 ≤ length σ)%nat →
  (Z.to_nat (num - Z.of_nat (length reqs)) ≤ fuel)%nat →
  ∃ new g',
    MSGpy.extend_requests rng fuel num σ reqs g = Some (Ok (reqs ++ new, g'))
    ∧ length new = Z.to_nat (num - Z.of_nat (length reqs))
    ∧ (∀ (i : nat) sfc, new !! i = Some sfc →
         SFCRequest.id sfc = Z.of_nat (length reqs + i))
    ∧ Forall (Spec.drawn σ) new.
Proof.
  intros Hr Hlen. revert reqs g. induction fuel as [|fuel IH]; intros reqs g Hf.
  - rewrite extend_requests_O.
    replace (Z.of_nat (length reqs) <? num) with false
      by (symmetry; apply Z.ltb_ge; lia).
    exists [], g. rewrite app_nil_r. split_and!; [done | simpl; lia | done | done].
  - rewrite extend_requests_S.
    destruct (Z.ltb_spec (Z.of_nat (length reqs)) num) as [Hlt|Hge].
    2:{ exists [], g. rewrite app_nil_r. split_and!; [done | simpl; lia | done | done]. }
    destruct (sample_spec rng σ g Hr Hlen)
      as (i & j & ni & nj & g1 & -> & Hne & Hi & Hj).
    pose proof (proj1 Hr 2 MSGpy.MAX_PE_STAGES g1 ltac:(by vm_compute)) as Hn.
    destruct (MSGpy.randint rng 2 MSGpy.MAX_PE_STAGES g1) as [n g2].
    pose proof (draw_stages_spec rng (Z.to_nat n) g2 Hr) as [Hsl Hsd].
    destruct (MSGpy.draw_stages rng (Z.to_nat n) g2) as [stages g3].
    pose proof (proj1 Hr 10 30 g3 ltac:(lia)) as Hbw.
    destruct (MSGpy.randint rng 10 30 g3) as [bw g4].
    pose proof (proj1 Hr 20 40 g4 ltac:(lia)) as Hmd.
    destruct (MSGpy.randint rng 20 40 g4) as [max_delay g5].
    simpl in Hn, Hsl, Hsd, Hbw, Hmd.
    set (sfc := {| SFCRequest.id := Z.of_nat (length reqs);
                   SFCRequest.src := PhysicalNode.id ni;
                   SFCRequest.dest := PhysicalNode.id nj;
                   SFCRequest.stages := stages; SFCRequest.bw := bw;
                   SFCRequest.max_delay := max_delay |}).
    destruct (IH (reqs ++ [sfc]) g5) as (new & g' & -> & Hnl & Hid & Hd).
    { rewrite length_app. simpl. lia. }
    rewrite length_app in Hnl, Hid. simpl in Hnl, Hid.
    exists (sfc :: new), g'. split_and!.
    + by rewrite <- app_assoc.
    + simpl. lia.
    + intros [|k] sfc'; simpl.
      * intros [= <-]. simpl. f_equal. lia.
      * intros Hk. rewrite (Hid k sfc' Hk). f_equal. lia.
    + constructor; [|done]. unfold Spec.drawn. simpl. split_and!; try lia; try done.
      by exists i, j, ni, nj.
Qed.

(** The whole function, over four hosts or more and with fuel for the
    requests beyond the two fixed ones. *)
Lemma generate_spec {R} (rng : MSGpy.Random R) fuel num (σ : ledger) g :
  Spec.random_ok rng → (4 ≤ length σ)%nat → (Z.to_nat (num - 2) ≤ fuel)%nat →
  ∃ reqs g',
    MSGpy.generate_sfc_requests rng fuel num σ g = Some (Ok (reqs, g'))
    ∧ Z.of_nat (length reqs) = Z.max 2 num
    ∧ (∀ (i : nat) sfc, reqs !! i = Some sfc → SFCRequest.id sfc = Z.of_nat i)
    ∧ MSGpy.fixed_requests σ = Ok (take 2 reqs)
    ∧ Forall (Spec.drawn σ) (drop 2 reqs)
    ∧ Forall (λ sfc, SFCRequest.stages sfc ≠ []) reqs.
Proof.
  intros Hr Hlen Hf. unfold MSGpy.generate_sfc_requests.
  destruct (fixed_requests_spec σ Hlen) as (n0 & n1 & n3 & _ & _ & _ & E).
  rewrite E.
  match type of E with _ = Ok ?l => set (fixed := l) in * end.
  destruct (extend_requests_spec rng fuel num σ fixed g Hr ltac:(lia) Hf)
    as (new & g' & -> & Hnl & Hid & Hd).
  exists (fixed ++ new), g'. split_and!.
  - done.
  - rewrite length_app, Hnl. simpl. lia.
  - intros i sfc. destruct i as [|[|i]]; simpl.
    + by intros [= <-].
    + by intros [= <-].
    + intros H. rewrite (Hid i sfc H). simpl. f_equal.
  - done.
  - done.
  - apply Forall_app. split.
    + repeat constructor; discriminate.
    + eapply Forall_impl; [exact Hd|]. intros sfc (_ & Hs & _) Hnil.
      rewrite Hnil in Hs. simpl in Hs. lia.
Qed.

(** X24.  [generate_sfc_requests] over four hosts or more, whatever the
    random draws are: the [while] loop ends, and the list returned has
    [num_requests] requests, or the two fixed ones when [num_requests] is
    less than 2; the id of every request is its position in the list; the
    first two are the fixed requests; every further one has two different
    hosts of the list as source and destination, 2 to [MAX_PE_STAGES]
    stages of demand 1 to 3, a bandwidth of 10 to 30 and a delay budget of
    20 to 40.  No request comes without a stage. *)
Theorem generate_sfc_requests_shape {R} (rng : MSGpy.Random R) fuel num (σ : ledger) g :
  Spec.random_ok rng → (4 ≤ length σ)%nat → (Z.to_nat (num - 2) ≤ fuel)%nat →
  ∃ reqs g',
    MSGpy.generate_sfc_requests rng fuel num σ g = Some (Ok (reqs, g'))
    ∧ Z.of_nat (length reqs) = Z.max 2 num
    ∧ (∀ (i : nat) sfc, reqs !! i = Some sfc → SFCRequest.id sfc = Z.of_nat i)
    ∧ MSGpy.fixed_requests σ = Ok (take 2 reqs)
    ∧ Forall (Spec.drawn σ) (drop 2 reqs)
    ∧ Forall (λ sfc, SFCRequest.stages sfc ≠ []) reqs.
Proof. apply generate_spec. Qed.

Lemma generate_sfc_requests_shape_witness :
  Spec.random_ok Demo.rng
  ∧ (4 ≤ length Demo.σ0)%nat
  ∧ (Z.to_nat (3 - 2) ≤ 1)%nat
  ∧ MSGpy.generate_sfc_requests Demo.rng 1 3 Demo.σ0 tt
    = Some (Ok ([ sfc0; sfc1;
                  {| SFCRequest.id := 2; SFCRequest.src := 0; SFCRequest.dest := 1;
                     SFCRequest.stages := [1; 1]; SFCRequest.bw := 10;
                     SFCRequest.max_delay := 20 |} ], tt))
  ∧ ∃ reqs g',
      MSGpy.generate_sfc_requests Demo.rng 1 3 Demo.σ0 tt = Some (Ok (reqs, g'))
      ∧ Z.of_nat (length reqs) = Z.max 2 3
      ∧ (∀ (i : nat) sfc, reqs !! i = Some sfc → SFCRequest.id sfc = Z.of_nat i)
      ∧ MSGpy.fixed_requests Demo.σ0 = Ok (take 2 reqs)
      ∧ Forall (Spec.drawn Demo.σ0) (drop 2 reqs)
      ∧ Forall (λ sfc, SFCRequest.stages sfc ≠ []) reqs.
Proof.
  assert (H1 : Spec.random_ok Demo.rng)
    by (split; [intros a b g H; simpl; lia | intros n g H; simpl; lia]).
  assert (H2 : (4 ≤ length Demo.σ0)%nat) by (vm_compute; lia).
  assert (H3 : (Z.to_nat (3 - 2) ≤ 1)%nat) by (vm_compute; lia).
  split; [exact H1|]. split; [exact H2|]. split; [exact H3|].
  split; [vm_compute; reflexivity|].
  exact (generate_sfc_requests_shape Demo.rng 1 3 Demo.σ0 tt H1 H2 H3).
Defined.

(** X25.  With fewer than four hosts [generate_sfc_requests] raises
    [IndexError] before it draws anything: the fixed requests name
    [physical_nodes[3]]. *)
Theorem generate_sfc_requests_few_hosts {R} (rng : MSGpy.Random R) fuel num
    (σ : ledger) g :
  (length σ < 4)%nat →
  MSGpy.generate_sfc_requests rng fuel num σ g = Some (Raise IndexError).
Proof.
  intros H. unfold MSGpy.generate_sfc_requests. by rewrite fixed_requests_short.
Qed.

Lemma generate_sfc_requests_few_hosts_witness :
  (length Demo.σ3 < 4)%nat
  ∧ MSGpy.generate_sfc_requests Demo.rng 5 3 Demo.σ3 tt = Some (Raise IndexError).
Proof.
  assert (H : (length Demo.σ3 < 4)%nat) by (vm_compute; lia).
  split; [exact H|].
  exact (generate_sfc_requests_few_hosts Demo.rng 5 3 Demo.σ3 tt H).
Defined.

(** X26.  The requests [run_simulation] generates for itself are placed
    without an exception, on any substrate and whatever the random draws
    are: the generator returns its list, the placement loop returns on
    that list with every host within its capacity, and the run ends as the
    monitoring pass does, with the rows when every row has a backup chain
    and with [TypeError] when one has none. *)
Theorem generated_requests_are_placed {R} (rng : MSGpy.Random R) Gp fuel num g :
  Spec.random_ok rng → (Z.to_nat (num - 2) ≤ fuel)%nat →
  ∃ reqs g' rows σ,
    MSGpy.generate_sfc_requests rng fuel num
      (MSGpy.initial_nodes MSGpy.NUM_PHYSICAL_NODES MSGpy.MAX_CPU_PER_NODE) g
    = Some (Ok (reqs, g'))
    ∧ MSGpy.place_all Gp reqs
        (MSGpy.initial_nodes MSGpy.NUM_PHYSICAL_NODES MSGpy.MAX_CPU_PER_NODE)
      = Ok (rows, σ)
    ∧ Spec.capacity_ok σ
    ∧ MSGpy.run_simulation Gp reqs
      = if bool_decide (Forall (λ row, MSGpy.Backup_Path row ≠ []) rows)
        then Ok (rows, σ) else Raise TypeError.
Proof.
  intros Hr Hf.
  destruct (generate_spec rng fuel num
              (MSGpy.initial_nodes MSGpy.NUM_PHYSICAL_NODES MSGpy.MAX_CPU_PER_NODE)
              g Hr ltac:(vm_compute; lia) Hf)
    as (reqs & g' & Hg & _ & _ & _ & _ & Hst).
  destruct (run_simulation_places Gp reqs Hst) as (rows & σ & Hp & _ & Hcap & Hrun).
  exists reqs, g', rows, σ. split_and!; try done.
  rewrite Hrun. pose proof Hp as Hp'. unfold MSGpy.place_all in Hp'.
  apply place_loop_parses in Hp' as (new & -> & Hall). rewrite app_nil_l.
  unfold MSGpy.run_monitoring_placement.
  pose proof (monitoring_outcome new ([], 0, ∅) Hall) as H.
  destruct (for_each MSGpy.monitor_placement _ new) as [st|e];
    cbn [mbind result_bind].
  - by rewrite bool_decide_eq_true_2.
  - destruct H as [-> Hex]. rewrite bool_decide_eq_false_2; [done|].
    intros Hfa. apply Exists_exists in Hex as (row & Hin & Hb).
    rewrite Forall_forall in Hfa. by apply (Hfa row Hin).
Qed.

Lemma generated_requests_are_placed_witness :
  Spec.random_ok Demo.rng
  ∧ (Z.to_nat (3 - 2) ≤ 1)%nat
  ∧ ∃ reqs g' rows σ,
      MSGpy.generate_sfc_requests Demo.rng 1 3
        (MSGpy.initial_nodes MSGpy.NUM_PHYSICAL_NODES MSGpy.MAX_CPU_PER_NODE) tt
      = Some (Ok (reqs, g'))
      ∧ MSGpy.place_all Demo.G reqs
          (MSGpy.initial_nodes MSGpy.NUM_PHYSICAL_NODES MSGpy.MAX_CPU_PER_NODE)
        = Ok (rows, σ)
      ∧ Spec.capacity_ok σ
      ∧ MSGpy.run_simulation Demo.G reqs
        = if bool_decide (Forall (λ row, MSGpy.Backup_Path row ≠ []) rows)
          then Ok (rows, σ) else Raise TypeError.
Proof.
  assert (H1 : Spec.random_ok Demo.rng)
    by (split; [intros a b g H; simpl; lia | intros n g H; simpl; lia]).
  assert (H2 : (Z.to_nat (3 - 2) ≤ 1)%nat) by (vm_compute; lia).
  split; [exact H1|]. split; [exact H2|].
  exact (generated_requests_are_placed Demo.rng Demo.G 1 3 tt H1 H2).
Defined.


(** ** The monitored hosts and the activated hosts *)

Lemma elem_of_activated_hosts (σ : ledger) h :
  h ∈ Spec.activated_hosts σ
  ↔ ∃ (k : nat) n, σ !! k = Some n ∧ PhysicalNode.activated n = true
                   ∧ PhysicalNode.id n = h.
Proof.
  unfold Spec.activated_hosts. rewrite list_elem_of_fmap. split.
  - intros (n & -> & [Ha (k & Hk)%list_elem_of_lookup_1]%list_elem_of_filter).
    by exists k, n.
  - intros (k & n & Hk & Ha & <-). exists n. split; [done|].
    apply list_elem_of_filter. split; [done|]. by eapply list_elem_of_lookup_2.
Qed.

(** After a commit a host is activated when it is a target or was
    activated before. *)
Lemma commit_activated targets σ (k : nat) n' :
  (Spec.commit targets σ).2 !! k = Some n' →
  PhysicalNode.activated n' = true
  ↔ k ∈ targets.*1 ∨ ∃ n, σ !! k = Some n ∧ PhysicalNode.activated n = true.
Proof.
  revert σ. induction targets as [|[k0 d] targets IH]; intros σ; simpl.
  - intros Hk. split.
    + intros Ha. right. by exists n'.
    + intros [?%not_elem_of_nil|(n & Hn & Ha)]; [done|]. congruence.
  - destruct (σ !! k0) as [n0|] eqn:Hn0; simpl.
    + intros Hk. rewrite (IH _ Hk), elem_of_cons.
      destruct (decide (k = k0)) as [->|Hne].
      * rewrite list_lookup_insert_eq by by eapply lookup_lt_Some.
        split; [intros _; by left; left|]. intros _. right. by eexists.
      * rewrite list_lookup_insert_ne by done. tauto.
    + intros Hk. rewrite (IH _ Hk), elem_of_cons.
      assert (k ≠ k0).
      { intros ->. apply lookup_lt_Some in Hk. rewrite commit_length in Hk.
        apply lookup_ge_None in Hn0. lia. }
      tauto.
Qed.

Lemma commit_activated_hosts targets (σ : ledger) h :
  Spec.indexed σ →
  Forall (λ k : nat, (k < length σ)%nat) targets.*1 →
  h ∈ Spec.activated_hosts (Spec.commit targets σ).2
  ↔ h ∈ Spec.activated_hosts σ ∨ h ∈ Z.of_nat <$> targets.*1.
Proof.
  intros Hi Hlt. pose proof (commit_indexed targets σ Hi) as Hi'.
  rewrite indexed_lookup in Hi, Hi'. rewrite !elem_of_activated_hosts. split.
  - intros (k & n' & Hk & Ha & <-). rewrite (Hi' k n' Hk).
    apply (commit_activated _ _ _ _ Hk) in Ha as [Hin|(n & Hn & Ha)].
    + right. by apply list_elem_of_fmap_2.
    + left. exists k, n. split_and!; [done | done | by apply Hi].
  - intros [(k & n & Hk & Ha & <-)|(k & -> & Hin)%list_elem_of_fmap].
    + assert (is_Some ((Spec.commit targets σ).2 !! k)) as [n' Hn'].
      { apply lookup_lt_is_Some. rewrite commit_length. by eapply lookup_lt_Some. }
      exists k, n'. split_and!; [done | | ].
      * apply (commit_activated _ _ _ _ Hn'). right. by exists n.
      * rewrite (Hi' k n' Hn'). symmetry. by apply Hi.
    + rewrite Forall_forall in Hlt. specialize (Hlt k Hin).
      assert (is_Some ((Spec.commit targets σ).2 !! k)) as [n' Hn'].
      { apply lookup_lt_is_Some. by rewrite commit_length. }
      exists k, n'. split_and!; [done | | by apply Hi'].
      apply (commit_activated _ _ _ _ Hn'). by left.
Qed.

(** The comprehension of [physical_path] from any start of the list. *)
Lemma physical_path_acc path acc :
  for_each (λ hs p, h ← label_host p; Ok (hs ++ [h])) acc path
  = (hs ← MSGpy.physical_path path; Ok (acc ++ hs)).
Proof.
  unfold MSGpy.physical_path. revert acc.
  induction path as [|v path IH]; intros acc.
  - simpl. by rewrite app_nil_r.
  - cbn [for_each]. destruct (label_host v) as [h|e]; cbn [mbind result_bind]; [|done].
    rewrite (IH (acc ++ [h])), (IH ([] ++ [h])).
    destruct (for_each _ [] path) as [hs|e]; cbn [mbind result_bind]; [|done].
    by rewrite <- app_assoc.
Qed.

Lemma physical_path_cons v path :
  MSGpy.physical_path (v :: path)
  = (h ← label_host v; hs ← MSGpy.physical_path path; Ok (h :: hs)).
Proof.
  unfold MSGpy.physical_path at 1. cbn [for_each].
  destruct (label_host v) as [h|e]; cbn [mbind result_bind]; [|done].
  by rewrite physical_path_acc.
Qed.

Lemma physical_path_app p q hp hq :
  MSGpy.physical_path p = Ok hp → MSGpy.physical_path q = Ok hq →
  MSGpy.physical_path (p ++ q) = Ok (hp ++ hq).
Proof.
  intros Hp Hq. unfold MSGpy.physical_path. rewrite for_each_app.
  fold (MSGpy.physical_path p). rewrite Hp. cbn [mbind result_bind].
  by rewrite physical_path_acc, Hq.
Qed.

(** The hosts read off the labels of a chain are the positions its commit
    visits. *)
Lemma vertices_physical_path (MSG : DiGraph.t) σ used path :
  Forall (vertex_ok MSG σ used) path →
  MSGpy.physical_path path = Ok (Z.of_nat <$> (target_of MSG <$> path).*1)
  ∧ Forall (λ k : nat, (k < length σ)%nat) (target_of MSG <$> path).*1.
Proof.
  induction 1 as [|v path (a & k & n & Ha & Hp & Hn & _ & _ & Hl) _ [IH1 IH2]].
  - split; [done | constructor].
  - rewrite physical_path_cons, Hl, IH1. cbn [mbind result_bind].
    assert (Et : target_of MSG v = (k, DiGraph.cpu a))
      by (unfold target_of; by rewrite Ha, Hp, Nat2Z.id).
    rewrite !fmap_cons, Et. simpl. split; [done|].
    constructor; [by eapply lookup_lt_Some | done].
Qed.

(** The commit of a chain the search found activates the hosts of the
    chain and no other. *)
Lemma chain_commit_activated Gp sfc used σ (MSG : DiGraph.t) sn path d c extra σ' :
  Spec.indexed σ →
  construct_msg Gp sfc used σ = Ok ((MSG, sn), σ) →
  MSGpy.find_feasible_path MSG sn sfc Gp = Ok (Some (path, d, c)) →
  MSGpy.reserve_resources path MSG σ = Ok (extra, σ') →
  ∃ hs, MSGpy.physical_path path = Ok hs
    ∧ ∀ h, h ∈ Spec.activated_hosts σ' ↔ h ∈ Spec.activated_hosts σ ∨ h ∈ hs.
Proof.
  intros Hi Hc Hf Hres.
  destruct (found_chain _ _ _ _ _ _ _ _ _ Hi Hc Hf) as (_ & _ & Hv).
  destruct (vertices_physical_path _ _ _ _ Hv) as [Hpp Hlt].
  rewrite (reserve_resources_spec _ _ _ _ (vertices_resolve _ _ _ _ Hv)) in Hres.
  injection Hres as Hres. eexists. split; [exact Hpp|]. intros h.
  assert (σ' = (Spec.commit (target_of MSG <$> path) σ).2) as -> by by rewrite Hres.
  by apply commit_activated_hosts.
Qed.

Lemma grows_indexed (b : Prop) (σ σ' : ledger) :
  Forall2 (Spec.host_grows b) σ σ' → Spec.indexed σ → Spec.indexed σ'.
Proof.
  intros H Hi. unfold Spec.indexed in *.
  by rewrite (ledger_grows_ids _ _ _ H), <- (Forall2_length _ _ _ H).
Qed.

(** An accepted request activates the hosts of its two chains. *)
Lemma place_activated Gp sfc σ row σ' :
  Spec.indexed σ →
  MSGpy.place Gp sfc σ = Ok (Some row, σ') →
  ∃ hs, MSGpy.physical_path (MSGpy.Active_Path row ++ MSGpy.Backup_Path row) = Ok hs
    ∧ ∀ h, h ∈ Spec.activated_hosts σ' ↔ h ∈ Spec.activated_hosts σ ∨ h ∈ hs.
Proof.
  intros Hi
    (act & σ1 & MSG_a & sn_a & used & MSG_b & sn_b & Hca & Hfa & Hra & _ & Hcb & Hb)
    %place_row_inv.
  destruct (chain_commit_activated _ _ _ _ _ _ _ _ _ _ _ Hi Hca Hfa Hra)
    as (ha & Hpa & Ha).
  assert (Hi1 : Spec.indexed σ1).
  { eapply grows_indexed; [|exact Hi].
    exact (built_reserve_grows _ _ _ _ _ _ _ _ _ _ _ Hca Hra). }
  destruct Hb as [(_ & -> & ->) | (p & d & c & extra & bdc & Hfb & Hrb & ->)]; simpl.
  - exists ha. by rewrite app_nil_r.
  - destruct (chain_commit_activated _ _ _ _ _ _ _ _ _ _ _ Hi1 Hcb Hfb Hrb)
      as (hb & Hpb & Hbk).
    exists (ha ++ hb). split; [by apply physical_path_app|].
    intros h. rewrite Hbk, Ha, elem_of_app. tauto.
Qed.

Lemma place_loop_activated Gp sfc_requests rows σ rows' σ' :
  Spec.indexed σ →
  for_each_St (MSGpy.place_step Gp) rows sfc_requests σ = Ok (rows', σ') →
  ∃ new hss, rows' = rows ++ new
    ∧ Forall2 (λ row hs, MSGpy.physical_path
                           (MSGpy.Active_Path row ++ MSGpy.Backup_Path row) = Ok hs)
              new hss
    ∧ ∀ h, h ∈ Spec.activated_hosts σ' ↔ h ∈ Spec.activated_hosts σ ∨ h ∈ mjoin hss.
Proof.
  revert rows σ. induction sfc_requests as [|sfc rest IH]; intros rows σ Hi.
  - intros [= <- <-]. exists [], []. rewrite app_nil_r. split_and!; [done | constructor |].
    intros h. simpl. rewrite elem_of_nil. tauto.
  - cbn [for_each_St]. unfold mbind at 1, St_bind. rewrite place_step_unfold.
    destruct (MSGpy.place Gp sfc σ) as [[[row|] σ1]|e] eqn:Hp; [| |done].
    + assert (Hi1 : Spec.indexed σ1).
      { eapply grows_indexed; [|exact Hi]. by eapply place_ledger_grows. }
      destruct (place_activated _ _ _ _ _ Hi Hp) as (hs & Hpp & Hact).
      intros (new & hss & -> & Hall & Hrest)%(IH _ _ Hi1).
      exists (row :: new), (hs :: hss). rewrite <- app_assoc.
      split_and!; [done | by constructor |].
      intros h. rewrite Hrest, Hact. simpl. rewrite elem_of_app. tauto.
    + assert (σ1 = σ) as ->.
      { apply place_inv in Hp as [[_ Ha] | (act & σ2 & row & ? & _)]; [|done].
        by apply place_active_inv in Ha as (MSG & sn & _ & -> & _). }
      by apply IH.
Qed.

(** X27.  When the monitoring pass of a run returns, the hosts it put a
    VMF on are exactly the hosts the ledger marks as activated: starting
    from a ledger on which host [i] stands at position [i] and no host is
    activated, as [run_simulation] builds it, every host that a chain of
    the batch was committed on gets its VMF, and no other host does. *)
Theorem monitoring_covers_activated Gp sfc_requests (σ0 : ledger) rows σ vmfs :
  Spec.indexed σ0 →
  Spec.activated_hosts σ0 = [] →
  MSGpy.place_all Gp sfc_requests σ0 = Ok (rows, σ) →
  MSGpy.run_monitoring_placement rows Gp σ = Ok vmfs →
  ∀ h, h ∈ MSGpy.Host_Node <$> vmfs ↔ h ∈ Spec.activated_hosts σ.
Proof.
  intros Hi H0 Hp Hm h. unfold MSGpy.place_all in Hp.
  apply (place_loop_activated _ _ _ _ _ _ Hi) in Hp as (new & hss & -> & Hall & Hact).
  rewrite app_nil_l in Hm. rewrite Hact, H0, elem_of_nil.
  unfold MSGpy.run_monitoring_placement in Hm.
  assert (Hparse : Forall (λ row, ∃ hs, MSGpy.physical_path
                     (MSGpy.Active_Path row ++ MSGpy.Backup_Path row) = Ok hs) new).
  { apply Forall_forall. intros row Hin.
    apply list_elem_of_lookup_1 in Hin as [i Hrow].
    destruct (Forall2_lookup_l _ _ _ _ _ Hall Hrow) as (hs & _ & ?). by exists hs. }
  pose proof (monitoring_outcome new ([], 0, ∅) Hparse) as Hout.
  destruct (for_each MSGpy.monitor_placement ([], 0, ∅) new) as [st|e] eqn:Hloop;
    [|done].
  injection Hm as <-.
  assert (Hall' : Forall2 (λ row hs, MSGpy.Backup_Path row ≠ []
                    ∧ MSGpy.physical_path
                        (MSGpy.Active_Path row ++ MSGpy.Backup_Path row) = Ok hs)
                    new hss).
  { apply Forall2_same_length_lookup_2; [by eapply Forall2_length|].
    intros i row hs Hrow Hhs. split.
    - rewrite Forall_forall in Hout. apply Hout. by eapply list_elem_of_lookup_2.
    - exact (Forall2_lookup_lr _ new hss i row hs Hall Hrow Hhs). }
  destruct (monitoring_loop new hss Hall') as (vmfs & Hloop' & _ & Hcov & _).
  rewrite Hloop in Hloop'. injection Hloop' as ->. simpl.
  rewrite Hcov. tauto.
Qed.

Lemma monitoring_covers_activated_witness :
  Spec.indexed Demo.σ0
  ∧ Spec.activated_hosts Demo.σ0 = []
  ∧ MSGpy.place_all Demo.G [sfc0; sfc1] Demo.σ0 = Ok (Demo.rows01, Demo.σ2)
  ∧ Spec.activated_hosts Demo.σ2 = [0; 1; 2; 3; 4; 5]
  ∧ ∃ vmfs,
      MSGpy.run_monitoring_placement Demo.rows01 Demo.G Demo.σ2 = Ok vmfs
      ∧ MSGpy.Host_Node <$> vmfs = [0; 1; 2; 5; 4; 3]
      ∧ ∀ h, h ∈ MSGpy.Host_Node <$> vmfs ↔ h ∈ Spec.activated_hosts Demo.σ2.
Proof.
  assert (H1 : Spec.indexed Demo.σ0) by (vm_compute; reflexivity).
  assert (H2 : Spec.activated_hosts Demo.σ0 = []) by (vm_compute; reflexivity).
  assert (H3 : MSGpy.place_all Demo.G [sfc0; sfc1] Demo.σ0
               = Ok (Demo.rows01, Demo.σ2)) by (vm_compute; reflexivity).
  assert (H4 : MSGpy.run_monitoring_placement Demo.rows01 Demo.G Demo.σ2
               = Ok [ {| MSGpy.VMF_ID := 0; MSGpy.Host_Node := 0; MSGpy.Monitors_SFC := 0 |};
                      {| MSGpy.VMF_ID := 1; MSGpy.Host_Node := 1; MSGpy.Monitors_SFC := 0 |};
                      {| MSGpy.VMF_ID := 2; MSGpy.Host_Node := 2; MSGpy.Monitors_SFC := 0 |};
                      {| MSGpy.VMF_ID := 3; MSGpy.Host_Node := 5; MSGpy.Monitors_SFC := 0 |};
                      {| MSGpy.VMF_ID := 4; MSGpy.Host_Node := 4; MSGpy.Monitors_SFC := 0 |};
                      {| MSGpy.VMF_ID := 5; MSGpy.Host_Node := 3; MSGpy.Monitors_SFC := 0 |} ])
    by (vm_compute; reflexivity).
  split; [exact H1|]. split; [exact H2|]. split; [exact H3|].
  split; [vm_compute; reflexivity|].
  eexists. split; [exact H4|]. split; [reflexivity|].
  exact (monitoring_covers_activated Demo.G [sfc0; sfc1] Demo.σ0 Demo.rows01 Demo.σ2
           _ H1 H2 H3 H4).
Defined.
